(* ===== verification/_CoqProject ===== *)
-Q . S2P
Prelude.v
Utf8.v
Charset.v
MatchSet.v
Glob.v
Normalize.v
Simulate.v
Live.v
MatchProof.v
Addr.v
AddrRange.v
Prefix.v
Failover.v
GoStrings.v
Url.v
Proxy.v
Dial.v
Config.v
Defaults.v
Jobs.v
Tcptun.v
Shadowsocks.v
Random.v
Pprof.v
Httpfs.v
Roundrobin.v
FailoverRun.v
Services.v
AllowList.v
AllowSpec.v
Http.v
HttpSpec.v
Relay.v
Manager.v
Reload.v
ConnLoop.v
Dns.v
Race.v
Socks.v
DnsList.v
DnsAnswers.v
Dnstun.v
DnstunWork.v
DnstunSpec.v
DnstunRoutes.v
DnstunCache.v
V2socks.v
V2links.v
V2socksRun.v
V2socksSpec.v
V2socksLive.v
V2ray.v
ConnChecker.v
Serving.v
Httputil.v
HttpServe.v
Handshake.v
PerHost.v
Program.v
Main.v
Conns.v
RelayClock.v
Flow.v
Tunnel.v
TunnelEnd.v
ConnClose.v
ConnClock.v
DnsConn.v
SocksWorker.v
DnstunConn.v
DnstunServe.v
DnstunSystem.v
Shutdown.v
SocksSystem.v
SocksDialer.v
