(* ===== verification/Prelude.v ===== *)
(** * A verification of chrome, a proxy server and its services.

    chrome (src/) is a library and a program: a Manager (service.go) reads a
    configuration and keeps a set of jobs, each a service (service/) that
    listens somewhere and serves its connections through a chain of proxies
    (proxy.go, proxy/).  conn.go makes an outgoing connection out of several
    attempts, relay.go copies between two connections, internal/ has the
    patterns, address ranges and checked connections the services use.  This
    development models that code in Rocq and proves what makes it correct.

    ** How the code is modelled

    The definitions carry the names of the code.  A struct is a Record, a
    function that changes state takes the state and returns it, a function that
    can fail returns an option, and code that other goroutines interleave with
    is a step relation, whose invariants are proved by induction on [reach].
    Bytes are [Z]s, strings and []byte lists of them ([bs] reads a literal);
    int64 and uint32 wrap where the code lets them ([GoStrings.wrap64],
    [Dns.u32]); durations and times are nanoseconds.  What a pointer is shared
    for is modelled with a heap: the counters of the round-robin balancer, the
    queues of the failover balancer, the caches of http, socks and dnstun.
    Channels are what they do: the goroutine of optsIn and optsOut is the cell
    of Jobs.v, the unbuffered channel of a job is a slot, a token is a flag.

    The standard library is modelled as far as the code uses it: UTF-8
    (Utf8.v), strings, strconv and path (GoStrings.v, AllowList.v), net/url
    (Url.v), netip.Addr (Addr.v), net.IP and net.IPNet (PerHost.v),
    bufio.Reader (ConnChecker.v), names of headers (Httputil.v).  Other
    packages, the parsers of addresses, the file system, hashes, ciphers, YAML
    and templates are parameters; what is assumed of them (a parser returns
    addresses in range, a hash has no collision on the strings at hand) is a
    hypothesis of the theorem that needs it, and its witness has a concrete
    function for it.

    ** The files

    Prelude.v: bytes, sort.Search, slices, executions, programs with state and
    failure ([prog], [yields], [wp]), notation, automation.

    Patterns (internal/matchset/matchset.go): Charset.v is charset and
    charSetFromGroup, MatchSet.v is Add and MatchAll.  Glob.v says what a
    pattern means, without reference to the code; Normalize.v (runs of stars),
    Simulate.v and Live.v (the matcher on atoms, and on their UTF-8) relate
    the two, and MatchProof.v has the contract: MatchAll returns the data of
    exactly the patterns that match, and Add ends but for one kind of group.

    Addresses (internal/netiputil): AddrRange.v, a canonical sorted set of
    ranges that contains exactly what was added; Prefix.v, the range of a CIDR.

    Proxies: Proxy.v (proxy.go and the FromURL functions of proxy/), Dial.v
    (the DialContext methods: a dial asks each server for the next, and leaves
    nothing open when it fails), Handshake.v (proxy/x_net_socks.go, against a
    server of RFC 1928 and 1929), SocksDialer.v (the dials around it, the calls
    they make and their errors), PerHost.v (proxy/x_net_proxy.go: ALL_PROXY and NO_PROXY), Conns.v
    (connections that are wrapped: rate limits, websockets, prefixes; dials
    without a context).

    Jobs: Jobs.v is the loop that every service runs, over a typeclass
    [Service] of what differs and [ServiceLaws] of what a service promises; the
    theorems (at most one listener, released whatever happens; a LoadEvent and
    a LoadedEvent listen at the new address) are proved from the laws alone.
    A handler returns, ends Run, or hangs ([Jobs.res]): the files of a rule list
    may include each other in a circle, and a group of a pattern may not end.
    Tcptun.v, Shadowsocks.v, Random.v, Pprof.v, Httpfs.v, Roundrobin.v,
    FailoverRun.v, Http.v, Socks.v, Dnstun.v, V2socksRun.v and V2ray.v are
    instances; Services.v runs some of them.  Failover.v is the queue of scores
    of the failover balancer.

    http (service/http/http.go): AllowList.v and AllowSpec.v (rules, files
    that include files, checksums), Http.v and HttpSpec.v (routes are current
    after any reloads, caches make no difference).
    socks (service/socks/socks.go): Dns.v (servers, TTLs, messages), Socks.v
    (the worker and its cache), Race.v (two dials at once), SocksSystem.v (the
    job, the attempts of its connections and the worker beside each other: what
    an attempt dials was answered for its own host).
    dnstun (service/tcptun/dnstun/dnstun.go): DnsList.v, DnsAnswers.v,
    Dnstun.v, DnstunWork.v, and what holds of them in DnstunSpec.v, DnstunRoutes.v
    (the route of a query is that of the options at hand) and DnstunCache.v;
    DnstunServe.v (the connection of a client), DnstunSystem.v
    (clients, worker, exchanges and reloads beside each other: every client
    gets answers to its own questions).  DnsConn.v, SocksWorker.v and
    DnstunConn.v have the connections of the DNS clients.
    v2socks and v2ray: V2socks.v (options and share links), V2links.v (a link
    is read back), V2socksRun.v, V2socksSpec.v, V2ray.v (instances are current
    and released), V2socksLive.v (the steps of a reload between which connections
    read options and dial).

    The Manager and connections: Config.v and Defaults.v (options), Manager.v
    (loadConfig interleaved with the jobs; a handler that does not return leaves
    it waiting) with Reload.v (reloads executed),
    ConnLoop.v (NewConn: the request arrives complete at one remote, attempts
    are bounded, it ends), ConnClose.v (its WaitGroup, and what is closed and
    given back after it), ConnClock.v (with time: when attempts are made),
    Relay.v (no send on a closed channel, it ends),
    RelayClock.v (with time: when it times out), Flow.v (the bytes of a relay),
    Tunnel.v (a connection through the program: the relay of a handler, NewConn
    and the relay of its winner), TunnelEnd.v (what is left once the handler has
    returned comes to an end),
    ConnChecker.v (internal/netutil/connchecker.go), Serving.v (serving.go,
    logging.go), Shutdown.v (the state of the Manager as a whole, and what
    Shutdown leaves), Httputil.v (internal/httputil), Program.v (LoadFS and
    the loop of cmd/chrome: a change of the configuration is loaded once it is
    over), Main.v (cmd/chrome from its argument to its exit code).

    ** How the parts are put together

    The theorems about the job loop are proved from the laws of a typeclass and
    hold of every service; the Manager sees jobs through another ([ManagedJob]),
    of which every service is an instance, so that Reload.v and Shutdown.v
    speak of real jobs.  The DNS clients are modelled twice: what a query is
    answered with (Socks.v, DnstunWork.v), where an exchange of messages is one
    choice, and the loop of the code with its connection (SocksWorker.v,
    DnstunConn.v).  The second refines the first ([worker_refines],
    [exchange_refines]): it has the same caches and answers, for rounds in which
    an answer was received; so what holds of the first, that no record outlives
    its TTL say, holds of the second, and the second adds what the first cannot
    say, that connections are closed, deadlines taken back and timers armed.
    A monitor ([DnsConn.watch]) is the specification of that: an automaton that
    accepts the logs of a client that keeps to the protocol.  Messages over plain
    HTTP are an action of their own: net/http dials for them, beside the
    connection of the client.

    A connection through the program is put together in Tunnel.v from the step
    relations of its parts: a session of Flow.v refines the relay of Relay.v
    ([session_relay]) and has its bytes; NewConn enters through what a step
    of ConnLoop.v does to an attempt ([step_moved]); where the parts meet they
    step together, a Read of the pipe with a Write at its other end.
    [tunnel_integrity] follows from the invariants of the parts and what the
    pipe has carried, [tunnel_ends] from the measures of the parts, once the
    pipe is closed and they no longer feed each other.  DnstunSystem.v puts dnstun together in the same way from
    its job, the cache of answers and the definitions of worker and exchange, and
    SocksSystem.v socks from its job, [getRemote] and the queries of the worker.

    ** Bounds

    Fuel is an argument where the code has no bound of its own, and a theorem
    says how much is enough: the depth of includes for reading lists
    (AllowSpec.parse_terminates), the length of a pattern for its parser and
    the matcher, the size of the state for executions ([eventually],
    proved with a measure).  Decimal conversions use 20 digits, which hold any
    int64.

    ** Not modelled

    Letters outside ASCII in ToUpper, ToLower and TrimSpace; the difference
    between a nil and an empty slice, but where the code looks at it; lines of
    more than 64K in lists.  TLS, HTTP, DNS messages, websockets and v2ray-core
    are libraries: what they answer enters as choices or parameters.  Deadlines
    are modelled where they are state (relays, checked connections, the
    outgoing connection of a Conn), elsewhere they are failures.  The templates
    of v2ray configurations (text/template) and the format of logs are left
    out.  In Tunnel.v an error of a write may come after any part of it, and a
    read may fail at any time, so that deadlines need no clock there.

    The queries of DnstunWork.v take the proxy of a connection when it is
    opened; each of its attempts reads the options again, which is
    [DnstunConn.dt_getRemote].  Waiting for tokens of a rate limit is of the
    package x/time/rate: that limits change nothing else is
    [Conns.limits_transparent].

    ** What is left

    The SOCKS handshake of a server (go-shadowsocks2) and the CONNECT of
    net/http come before a tunnel, and are libraries.  RelayClock.v and
    ConnClock.v have the clocks of a relay and of a connection; Tunnel.v has
    none: there a timer may fire at any time. *)

From stdpp Require Export base numbers list strings gmap sets.
From Stdlib Require Export Lia ZArith.

Global Open Scope Z_scope.
Global Set Default Proof Using "Type".
Global Set Warnings "-clear-no-such-hyp".

(** ** Bytes and Go strings

    A Go [byte] is a [Z] in [0, 256); a Go string or [[]byte] is a list of
    them.  [bs] reads a literal. *)

Definition byte_ok (c : Z) : Prop := 0 <= c < 256.

#[export] Instance byte_ok_dec c : Decision (byte_ok c).
Proof. unfold byte_ok. apply _. Defined.

Fixpoint bs (s : string) : list Z :=
  match s with
  | EmptyString => []
  | String a s' => Z.of_N (Ascii.N_of_ascii a) :: bs s'
  end.

(** ** sort.Search

    The binary search of Go's package sort: the smallest index [i] of
    [0, n) at which [f] holds, provided [f] is monotone. *)

Fixpoint search_loop (fuel : nat) (f : nat → bool) (i j : nat) : nat :=
  match fuel with
  | O => i
  | S fuel' =>
      if (i <? j)%nat then
        let h := ((i + j) / 2)%nat in
        if f h then search_loop fuel' f i h else search_loop fuel' f (S h) j
      else i
  end.

Definition sort_Search (n : nat) (f : nat → bool) : nat := search_loop n f 0 n.

Definition monotone_upto (n : nat) (f : nat → bool) : Prop :=
  ∀ i j, (i ≤ j < n)%nat → f i = true → f j = true.

Lemma mid_bounds i j : (i < j)%nat → (i ≤ (i + j) / 2 < j)%nat.
Proof.
  intros. split; [apply Nat.div_le_lower_bound|apply Nat.Div0.div_lt_upper_bound]; lia.
Qed.

Lemma search_loop_S fuel f i j :
  search_loop (S fuel) f i j =
  if (i <? j)%nat then
    if f ((i + j) / 2)%nat then search_loop fuel f i ((i + j) / 2)%nat
    else search_loop fuel f (S ((i + j) / 2)%nat) j
  else i.
Proof. reflexivity. Qed.

Lemma search_loop_spec n f fuel i j :
  monotone_upto n f → (i ≤ j ≤ n)%nat → (j - i ≤ fuel)%nat →
  (∀ k, (k < i)%nat → f k = false) →
  (∀ k, (j ≤ k < n)%nat → f k = true) →
  (search_loop fuel f i j ≤ n)%nat ∧
  (∀ k, (k < search_loop fuel f i j)%nat → f k = false) ∧
  (∀ k, (search_loop fuel f i j ≤ k < n)%nat → f k = true).
Proof.
  intros Hmono. revert i j. induction fuel as [|fuel IH]; intros i j Hij Hf Hlo Hhi.
  - simpl. assert (i = j) by lia. subst. split_and!; eauto; lia.
  - rewrite search_loop_S. destruct (Nat.ltb_spec i j) as [Hlt|Hge].
    + pose proof (mid_bounds i j Hlt) as Hmid. set (h := ((i + j) / 2)%nat) in *. clearbody h.
      destruct (f h) eqn:E; apply IH; eauto; try lia.
      intros k Hk. destruct (f k) eqn:Ek; [|done].
      rewrite (Hmono k h) in E; [done|lia|done].
    + assert (i = j) by lia. subst. split_and!; eauto; lia.
Qed.

Lemma sort_Search_spec n f :
  monotone_upto n f →
  (sort_Search n f ≤ n)%nat ∧
  (∀ k, (k < sort_Search n f)%nat → f k = false) ∧
  (∀ k, (sort_Search n f ≤ k < n)%nat → f k = true).
Proof. intros H. apply (search_loop_spec n); eauto; lia. Qed.

Lemma search_loop_le fuel f i j n :
  (i ≤ j ≤ n)%nat → (search_loop fuel f i j ≤ n)%nat.
Proof.
  revert i j. induction fuel as [|fuel IH]; intros i j Hij; [simpl; lia|].
  rewrite search_loop_S. destruct (Nat.ltb_spec i j) as [Hlt|]; [|lia].
  pose proof (mid_bounds i j Hlt). destruct (f _); apply IH; lia.
Qed.

Lemma sort_Search_le n f : (sort_Search n f ≤ n)%nat.
Proof. apply search_loop_le. lia. Qed.

(** ** Automation

    [zif] decides the conditions of the [if]s of the goal by [lia]. *)

Ltac zif :=
  repeat match goal with
  | |- context [if ?c then _ else _] =>
      first [ let H := fresh in assert (c = true) as H by lia; rewrite H; clear H
            | let H := fresh in assert (c = false) as H by lia; rewrite H; clear H ]
  end.

(** [by_compute] proves a decidable closed goal by evaluating its decision. *)
Ltac by_compute := apply (bool_decide_unpack _); vm_compute; exact I.

(** [zdiv a b] brings the quotient and remainder of [a] by the constant [b]
    into the context, for [lia]. *)
Ltac zdiv a b :=
  pose proof (Z.div_mod a b ltac:(lia));
  pose proof (Z.mod_pos_bound a b ltac:(lia)).

Lemma mod_plus_small q m a : 0 <= a < m → (q * m + a) mod m = a.
Proof. intros. rewrite Z.add_comm, Z.mod_add by lia. by apply Z.mod_small. Qed.

Lemma div_plus_small q m a : 0 <= a < m → (q * m + a) / m = q.
Proof. intros. rewrite Z.add_comm, Z.div_add by lia. rewrite Z.div_small; lia. Qed.

(** ** Slices *)

(** [s[i] = x; append(s[:i+1], s[j:]...)] *)
Lemma splice_insert {A} i j (x : A) (s : list A) :
  (i < j)%nat → (i < length s)%nat →
  take (S i) (<[i := x]> s) ++ drop j (<[i := x]> s) = take i s ++ [x] ++ drop j s.
Proof.
  intros Hij Hi. rewrite drop_insert_lt by lia.
  rewrite (take_S_r _ _ x) by (by apply list_lookup_insert_eq).
  by rewrite take_insert_ge, <- app_assoc by lia.
Qed.

(** [sum_list_with f] counts and weighs the elements of a list. *)
Lemma sum_with_insert {A} (f : A → nat) (l : list A) i a b :
  l !! i = Some a →
  (sum_list_with f (<[i := b]> l) + f a = sum_list_with f l + f b)%nat.
Proof.
  revert i. induction l as [|x l IH]; intros [|i] Hi; simpl in *; try done.
  - injection Hi as ->. lia.
  - specialize (IH i Hi). lia.
Qed.

Lemma sum_with_lookup {A} (f : A → nat) (l : list A) i a :
  l !! i = Some a → (f a ≤ sum_list_with f l)%nat.
Proof. intros Hi. pose proof (sum_with_insert f l i a a Hi). revert i Hi H.
  induction l as [|x l IH]; intros [|i] Hi H; simpl in *; try done; [injection Hi as ->; lia|].
  specialize (IH i Hi). pose proof (sum_with_insert f l i a a Hi). lia.
Qed.

(** ** In-place reversal

    [for i, j := 0, len(s)-1; i < j; i, j = i+1, j-1 { s[i], s[j] = s[j], s[i] }] *)

Definition swap {A} (i j : nat) (l : list A) : list A :=
  match l !! i, l !! j with
  | Some x, Some y => <[j := x]> (<[i := y]> l)
  | _, _ => l
  end.

Fixpoint reverse_loop {A} (fuel i j : nat) (l : list A) : list A :=
  match fuel with
  | O => l
  | S fuel' =>
      if (i <? j)%nat then reverse_loop fuel' (S i) (pred j) (swap i j l) else l
  end.

Definition reverse_in_place {A} (l : list A) : list A :=
  reverse_loop (length l) 0 (pred (length l)) l.

Lemma length_swap {A} i j (l : list A) : length (swap i j l) = length l.
Proof. unfold swap. repeat case_match; by rewrite ?length_insert. Qed.

Lemma lookup_swap {A} i j k (l : list A) :
  (i < length l)%nat → (j < length l)%nat →
  swap i j l !! k =
    if decide (k = j) then l !! i else if decide (k = i) then l !! j else l !! k.
Proof.
  intros Hi Hj. unfold swap.
  destruct (lookup_lt_is_Some_2 l i Hi) as [x Ex], (lookup_lt_is_Some_2 l j Hj) as [y Ey].
  rewrite Ex, Ey. repeat case_decide; subst.
  - by rewrite list_lookup_insert_eq by (rewrite length_insert; lia).
  - by rewrite list_lookup_insert_ne, list_lookup_insert_eq by done.
  - by rewrite !list_lookup_insert_ne by done.
Qed.

Lemma reverse_loop_lookup {A} fuel i j (l : list A) k :
  (j < length l)%nat → (j - i ≤ fuel)%nat →
  reverse_loop fuel i j l !! k =
    if decide (i ≤ k ≤ j)%nat then l !! (i + j - k)%nat else l !! k.
Proof.
  revert i j l. induction fuel as [|fuel IH]; intros i j l Hj Hf; simpl.
  - case_decide; [|done]. f_equal. lia.
  - destruct (Nat.ltb_spec i j).
    + rewrite IH by (rewrite ?length_swap; lia). rewrite !lookup_swap by lia.
      repeat case_decide; subst; try lia; f_equal; lia.
    + case_decide; [|done]. f_equal. lia.
Qed.

Lemma reverse_in_place_rev {A} (l : list A) : reverse_in_place l = reverse l.
Proof.
  apply list_eq. intros k. unfold reverse_in_place.
  destruct l as [|x l']; [done|]. set (l := x :: l').
  rewrite reverse_loop_lookup by (subst l; simpl; lia).
  case_decide as Hk.
  - rewrite reverse_lookup by (subst l; simpl in *; lia). f_equal.
  - assert (length l ≤ k)%nat by (subst l; simpl in *; lia).
    rewrite !lookup_ge_None_2; rewrite ?length_reverse; done.
Qed.

(** ** Executions

    [eventually step P s]: every execution from [s] reaches a state with [P]
    in finitely many steps, and none stops before. *)

Inductive eventually {S} (step : S → S → Prop) (P : S → Prop) (s : S) : Prop :=
  | eventually_now : P s → eventually step P s
  | eventually_step :
      (∃ s', step s s') → (∀ s', step s s' → eventually step P s') → eventually step P s.

(** By an invariant, a measure that every step decreases, and progress. *)
Lemma eventually_measure {S} (step : S → S → Prop) (I P : S → Prop) (measure : S → nat) s :
  (∀ s, Decision (P s)) →
  (∀ s s', I s → ¬ P s → step s s' → I s' ∧ (measure s' < measure s)%nat) →
  (∀ s, I s → ¬ P s → ∃ s', step s s') →
  I s → eventually step P s.
Proof.
  intros Hdec Hstep Hprog.
  induction s as [s IH] using (well_founded_induction (well_founded_ltof _ measure)).
  intros Hs. destruct (Hdec s) as [HP|HP]; [by left|right; [by apply Hprog|]].
  intros s' Hss. destruct (Hstep _ _ Hs HP Hss) as [Hs' Hm]. by apply IH.
Qed.

Lemma eventually_mono {S} (step : S → S → Prop) (P Q : S → Prop) s :
  (∀ s, P s → Q s) → eventually step P s → eventually step Q s.
Proof. intros HPQ. induction 1; [left|right]; auto. Qed.

(** One more step of an execution, from a state in normal form: for the
    witnesses. *)
Ltac advance tac :=
  eapply rtc_l; [tac|];
  match goal with |- rtc _ ?x _ => let y := eval vm_compute in x in replace x with y by (vm_compute; reflexivity) end.

(** ** Programs with state and failure

    [None] is an error or an early return; the state is kept.  [yields m s Q]:
    what [m] returns from [s], with the state after it, satisfies [Q]; there is
    a rule for each construct, and [wp] applies them. *)

Definition prog (S A : Type) : Type := S → option A * S.

#[export] Instance prog_ret S : MRet (prog S) := λ A a s, (Some a, s).
#[export] Instance prog_bind S : MBind (prog S) := λ A B f m s,
  match m s with
  | (Some a, s') => f a s'
  | (None, s') => (None, s')
  end.

Definition gets {S A} (f : S → A) : prog S A := λ s, (Some (f s), s).
Definition modify {S} (f : S → S) : prog S unit := λ s, (Some tt, f s).
Definition fail {S A} : prog S A := λ s, (None, s).

Section yields.
Context {S : Type}.

Definition yields {A} (m : prog S A) (s : S) (Q : option A → S → Prop) : Prop := Q (m s).1 (m s).2.

Lemma yields_ret {A} (a : A) s (Q : option A → S → Prop) : Q (Some a) s → yields (mret a) s Q.
Proof. done. Qed.

Lemma yields_fail {A} s (Q : option A → S → Prop) : Q None s → yields fail s Q.
Proof. done. Qed.

Lemma yields_gets {A} (f : S → A) s (Q : option A → S → Prop) : Q (Some (f s)) s → yields (gets f) s Q.
Proof. done. Qed.

Lemma yields_modify (f : S → S) s (Q : option unit → S → Prop) : Q (Some tt) (f s) → yields (modify f) s Q.
Proof. done. Qed.

Lemma yields_bind {A B} (m : prog S A) (f : A → prog S B) s (Q : option B → S → Prop) :
  yields m s (λ o s', match o with Some a => yields (f a) s' Q | None => Q None s' end) →
  yields (m ≫= f) s Q.
Proof. unfold yields, mbind, prog_bind. by destruct (m s) as [[a|] s']. Qed.

Lemma yields_mono {A} (m : prog S A) s (P Q : option A → S → Prop) :
  yields m s P → (∀ o s', P o s' → Q o s') → yields m s Q.
Proof. unfold yields. eauto. Qed.
End yields.

(** One construct of a program, then all of them; an operation that is a
    [modify] by its definition is one. *)
Ltac wp1 :=
  lazymatch goal with
  | |- yields (mbind _ _) _ _ => apply yields_bind
  | |- yields (gets _) _ _ => apply yields_gets
  | |- yields (mret _) _ _ => apply yields_ret
  | |- yields fail _ _ => apply yields_fail
  | |- yields (modify _) _ _ => apply yields_modify
  | |- yields (match _ with _ => _ end) _ _ => fail
  | |- yields _ _ _ => apply yields_modify
  end.
Ltac wp := repeat (wp1; cbn beta iota).

(** ** Small state spaces

    [moves] computes the steps; the states that can be reached from [init] are
    computed too, and a property of all of them is decided by evaluation. *)

Section explore.
Context {S : Type} `{EqDecision S} (step : S → S → Prop) (moves : S → list S) (init : S).

(** The states reached in at most [fuel] more steps from [frontier]. *)
Fixpoint explore (fuel : nat) (frontier seen : list S) : list S :=
  match fuel with
  | O => seen
  | Datatypes.S fuel =>
      let new := list_difference (remove_dups (frontier ≫= moves)) seen in
      explore fuel new (seen ++ new)
  end.

Definition closed_under_moves (states : list S) : bool :=
  bool_decide (init ∈ states) && forallb (λ s, forallb (λ s', bool_decide (s' ∈ states)) (moves s)) states.

Lemma check_reachable (states : list S) (P : S → bool) s :
  (∀ s s', step s s' → s' ∈ moves s) →
  closed_under_moves states = true → forallb P states = true → rtc step init s → P s = true.
Proof.
  intros Hmoves [H0 E]%andb_prop HP Hr. apply bool_decide_eq_true in H0.
  assert (∀ s, s ∈ states → ∀ s', step s s' → s' ∈ states) as Hclosed.
  { rewrite forallb_forall in E. intros s1 H1 s2 H2%Hmoves.
    specialize (E s1 (proj1 (list_elem_of_In _ _) H1)). rewrite forallb_forall in E.
    specialize (E s2 (proj1 (list_elem_of_In _ _) H2)). by apply bool_decide_eq_true in E. }
  rewrite forallb_forall in HP. apply HP, list_elem_of_In.
  induction Hr as [|s1 s2 s3 Hs _ IH]; [done|]. by eapply IH, Hclosed.
Qed.
End explore.

Lemma implb_elim a b : implb a b = true → a = true → b = true.
Proof. by intros H ->. Qed.

(** ** Notation *)

Declare Scope go_scope.
Delimit Scope go_scope with go.

(** Go's [==] and [!=]. *)
Notation "x == y" := (bool_decide (x = y)) (at level 70, no associativity) : go_scope.
Notation "x != y" := (negb (bool_decide (x = y))) (at level 70, no associativity) : go_scope.
