(* ===== verification/Utf8.v ===== *)
(** * UTF-8, as Go's unicode/utf8 encodes and decodes it.

    [matchset.MatchSet] stores a compiled pattern as the bytes of a Go string
    built from runes ([string(atoms)]) and reads it back rune by rune
    ([utf8.DecodeRune]).  This file holds both directions and their round
    trip; a surrogate or out-of-range rune encodes as U+FFFD, as in Go. *)

From S2P Require Import Prelude.

Definition RuneError : Z := 65533.

(** A rune [string(...)] keeps: not a surrogate, not above U+10FFFF. *)
Definition rune_valid (r : Z) : Prop :=
  (0 <= r < 55296) ∨ (57344 <= r <= 1114111).

Definition rune_validb (r : Z) : bool :=
  ((0 <=? r) && (r <? 55296)) || ((57344 <=? r) && (r <=? 1114111)).

Definition encode_scalar (r : Z) : list Z :=
  if r <? 128 then [r]
  else if r <? 2048 then
    [Z.lor 192 (Z.shiftr r 6); Z.lor 128 (Z.land r 63)]
  else if r <? 65536 then
    [Z.lor 224 (Z.shiftr r 12); Z.lor 128 (Z.land (Z.shiftr r 6) 63);
     Z.lor 128 (Z.land r 63)]
  else
    [Z.lor 240 (Z.shiftr r 18); Z.lor 128 (Z.land (Z.shiftr r 12) 63);
     Z.lor 128 (Z.land (Z.shiftr r 6) 63); Z.lor 128 (Z.land r 63)].

(** The bytes [string(runes)] holds for one rune. *)
Definition EncodeRune (r : Z) : list Z :=
  encode_scalar (if rune_validb r then r else RuneError).

Definition encode_runes (l : list Z) : list Z := l ≫= EncodeRune.

Definition in_range (lo hi c : Z) : bool := (lo <=? c) && (c <=? hi).

(** [utf8.first]: the length a leading byte announces and the range its
    second byte must be in; [None] for a byte that cannot lead. *)
Definition lead_info (p0 : Z) : option (nat * Z * Z) :=
  if in_range 194 223 p0 then Some (2%nat, 128, 191)
  else if p0 =? 224 then Some (3%nat, 160, 191)
  else if in_range 225 236 p0 then Some (3%nat, 128, 191)
  else if p0 =? 237 then Some (3%nat, 128, 159)
  else if in_range 238 239 p0 then Some (3%nat, 128, 191)
  else if p0 =? 240 then Some (4%nat, 144, 191)
  else if in_range 241 243 p0 then Some (4%nat, 128, 191)
  else if p0 =? 244 then Some (4%nat, 128, 143)
  else None.

Definition decode_tail (n : nat) (lo hi p0 : Z) (rest : list Z) : Z * nat :=
  match n, rest with
  | 2%nat, b1 :: _ =>
      if in_range lo hi b1
      then (Z.lor (Z.shiftl (Z.land p0 31) 6) (Z.land b1 63), 2%nat)
      else (RuneError, 1%nat)
  | 3%nat, b1 :: b2 :: _ =>
      if in_range lo hi b1 && in_range 128 191 b2
      then (Z.lor (Z.lor (Z.shiftl (Z.land p0 15) 12) (Z.shiftl (Z.land b1 63) 6))
              (Z.land b2 63), 3%nat)
      else (RuneError, 1%nat)
  | 4%nat, b1 :: b2 :: b3 :: _ =>
      if in_range lo hi b1 && in_range 128 191 b2 && in_range 128 191 b3
      then (Z.lor (Z.lor (Z.lor (Z.shiftl (Z.land p0 7) 18) (Z.shiftl (Z.land b1 63) 12))
                     (Z.shiftl (Z.land b2 63) 6)) (Z.land b3 63), 4%nat)
      else (RuneError, 1%nat)
  | _, _ => (RuneError, 1%nat)
  end.

(** [utf8.DecodeRune]: the first rune and its width. *)
Definition DecodeRune (p : list Z) : Z * nat :=
  match p with
  | [] => (RuneError, O)
  | p0 :: rest =>
      if p0 <? 128 then (p0, 1%nat)
      else match lead_info p0 with
           | None => (RuneError, 1%nat)
           | Some (n, lo, hi) => decode_tail n lo hi p0 rest
           end
  end.

(** ** Bits *)

Lemma lor_low k a b :
  0 <= k → 0 <= b < 2 ^ k → Z.lor (a * 2 ^ k) b = a * 2 ^ k + b.
Proof.
  intros Hk Hb. rewrite <- Z.add_lor_land.
  assert (Z.land (a * 2 ^ k) b = 0) as ->; [|lia].
  apply Z.bits_inj'. intros n Hn. rewrite Z.land_spec, Z.bits_0.
  destruct (Z.lt_ge_cases n k).
  - rewrite Z.mul_pow2_bits_low by lia. done.
  - rewrite (Z.testbit_eqb b) by lia.
    rewrite Z.div_small. 2: { split; [lia|]. eapply Z.lt_le_trans; [apply Hb|].
      apply Z.pow_le_mono_r; lia. }
    rewrite andb_false_r. done.
Qed.

Lemma land_63 r : Z.land r 63 = r mod 64.
Proof. exact (Z.land_ones r 6 ltac:(lia)). Qed.
Lemma land_31 r : Z.land r 31 = r mod 32.
Proof. exact (Z.land_ones r 5 ltac:(lia)). Qed.
Lemma land_15 r : Z.land r 15 = r mod 16.
Proof. exact (Z.land_ones r 4 ltac:(lia)). Qed.
Lemma land_7 r : Z.land r 7 = r mod 8.
Proof. exact (Z.land_ones r 3 ltac:(lia)). Qed.

Lemma shr_6 r : Z.shiftr r 6 = r / 64.
Proof. exact (Z.shiftr_div_pow2 r 6 ltac:(lia)). Qed.
Lemma shr_12 r : Z.shiftr r 12 = r / 4096.
Proof. exact (Z.shiftr_div_pow2 r 12 ltac:(lia)). Qed.
Lemma shr_18 r : Z.shiftr r 18 = r / 262144.
Proof. exact (Z.shiftr_div_pow2 r 18 ltac:(lia)). Qed.
Lemma shl_6 r : Z.shiftl r 6 = r * 64.
Proof. exact (Z.shiftl_mul_pow2 r 6 ltac:(lia)). Qed.
Lemma shl_12 r : Z.shiftl r 12 = r * 4096.
Proof. exact (Z.shiftl_mul_pow2 r 12 ltac:(lia)). Qed.
Lemma shl_18 r : Z.shiftl r 18 = r * 262144.
Proof. exact (Z.shiftl_mul_pow2 r 18 ltac:(lia)). Qed.

Lemma lor_128 b : 0 <= b < 64 → Z.lor 128 b = 128 + b.
Proof. intros. exact (lor_low 6 2 b ltac:(lia) ltac:(lia)). Qed.
Lemma lor_192 b : 0 <= b < 32 → Z.lor 192 b = 192 + b.
Proof. intros. exact (lor_low 5 6 b ltac:(lia) ltac:(lia)). Qed.
Lemma lor_224 b : 0 <= b < 16 → Z.lor 224 b = 224 + b.
Proof. intros. exact (lor_low 4 14 b ltac:(lia) ltac:(lia)). Qed.
Lemma lor_240 b : 0 <= b < 8 → Z.lor 240 b = 240 + b.
Proof. intros. exact (lor_low 3 30 b ltac:(lia) ltac:(lia)). Qed.
Lemma lor_mul_64 a b : 0 <= b < 64 → Z.lor (a * 64) b = a * 64 + b.
Proof. intros. exact (lor_low 6 a b ltac:(lia) ltac:(lia)). Qed.
Lemma lor_mul_4096 a b : 0 <= b < 4096 → Z.lor (a * 4096) b = a * 4096 + b.
Proof. intros. exact (lor_low 12 a b ltac:(lia) ltac:(lia)). Qed.
Lemma lor_mul_262144 a b : 0 <= b < 262144 → Z.lor (a * 262144) b = a * 262144 + b.
Proof. intros. exact (lor_low 18 a b ltac:(lia) ltac:(lia)). Qed.

(** ** Round trip *)

Lemma rune_validb_spec r : rune_validb r = true ↔ rune_valid r.
Proof. unfold rune_validb, rune_valid. lia. Qed.

Lemma EncodeRune_valid r : rune_valid r → EncodeRune r = encode_scalar r.
Proof. intros H%rune_validb_spec. unfold EncodeRune. by rewrite H. Qed.

Ltac decode_setup :=
  unfold DecodeRune, lead_info, in_range; simpl;
  repeat (rewrite ?lor_192, ?lor_224, ?lor_240, ?lor_128 by lia).

(** The payload bits of a lead or continuation byte. *)
Lemma cont_bits b : 0 <= b < 64 → (128 + b) mod 64 = b.
Proof. exact (mod_plus_small 2 64 b). Qed.
Lemma lead2_bits a : 0 <= a < 32 → (192 + a) mod 32 = a.
Proof. exact (mod_plus_small 6 32 a). Qed.
Lemma lead3_bits a : 0 <= a < 16 → (224 + a) mod 16 = a.
Proof. exact (mod_plus_small 14 16 a). Qed.
Lemma lead4_bits a : 0 <= a < 8 → (240 + a) mod 8 = a.
Proof. exact (mod_plus_small 30 8 a). Qed.

Lemma decode_encode2 r rest :
  128 <= r < 2048 → DecodeRune (encode_scalar r ++ rest) = (r, 2%nat).
Proof.
  intros H. unfold encode_scalar. zif. rewrite shr_6, land_63.
  zdiv r 64. set (a := r / 64) in *. set (b := r mod 64) in *. clearbody a b.
  decode_setup. zif. unfold decode_tail, in_range. zif.
  rewrite land_31, land_63, shl_6, lead2_bits, cont_bits, lor_mul_64 by lia.
  f_equal. lia.
Qed.

Lemma join3 a b c : 0 <= b < 64 → 0 <= c < 64 →
  Z.lor (Z.lor (a * 4096) (b * 64)) c = a * 4096 + b * 64 + c.
Proof.
  intros. rewrite lor_mul_4096 by lia.
  replace (a * 4096 + b * 64) with ((a * 64 + b) * 64) by lia.
  by rewrite lor_mul_64.
Qed.

Lemma join4 a b c d : 0 <= b < 64 → 0 <= c < 64 → 0 <= d < 64 →
  Z.lor (Z.lor (Z.lor (a * 262144) (b * 4096)) (c * 64)) d =
  a * 262144 + b * 4096 + c * 64 + d.
Proof.
  intros. rewrite lor_mul_262144 by lia.
  replace (a * 262144 + b * 4096) with ((a * 64 + b) * 4096) by lia.
  rewrite join3 by lia. lia.
Qed.

Lemma div_64_64 r : r / 4096 = r / 64 / 64.
Proof. by rewrite Z.div_div by lia. Qed.
Lemma div_64_64_64 r : r / 262144 = r / 64 / 64 / 64.
Proof. by rewrite !Z.div_div by lia. Qed.

Lemma decode_encode3 r rest :
  2048 <= r < 55296 ∨ 57344 <= r < 65536 →
  DecodeRune (encode_scalar r ++ rest) = (r, 3%nat).
Proof.
  intros H. unfold encode_scalar. zif. rewrite shr_6, shr_12, !land_63, div_64_64.
  zdiv r 64. set (q := r / 64) in *. set (c := r mod 64) in *. clearbody q c.
  zdiv q 64. set (a := q / 64) in *. set (b := q mod 64) in *. clearbody a b.
  decode_setup.
  assert (a = 0 ∨ 1 <= a <= 12 ∨ a = 13 ∨ 14 <= a <= 15) as Ha by lia.
  destruct Ha as [->|[?|[->|?]]]; zif; unfold decode_tail, in_range; zif;
    rewrite land_15, !land_63, shl_6, shl_12, lead3_bits, !cont_bits, join3 by lia;
    f_equal; lia.
Qed.

Lemma decode_encode4 r rest :
  65536 <= r <= 1114111 → DecodeRune (encode_scalar r ++ rest) = (r, 4%nat).
Proof.
  intros H. unfold encode_scalar. zif.
  rewrite shr_6, shr_12, shr_18, !land_63, div_64_64, div_64_64_64.
  zdiv r 64. set (q := r / 64) in *. set (d := r mod 64) in *. clearbody q d.
  zdiv q 64. set (q2 := q / 64) in *. set (c := q mod 64) in *. clearbody q2 c.
  zdiv q2 64. set (a := q2 / 64) in *. set (b := q2 mod 64) in *. clearbody a b.
  decode_setup.
  assert (a = 0 ∨ 1 <= a <= 3 ∨ a = 4) as Ha by lia.
  destruct Ha as [->|[?| ->]]; zif; unfold decode_tail, in_range; zif;
    rewrite land_7, !land_63, shl_6, shl_12, shl_18, lead4_bits, !cont_bits, join4 by lia;
    f_equal; lia.
Qed.

(** A valid rune decodes back from its encoding, with its width, whatever
    bytes follow. *)
Lemma DecodeRune_EncodeRune r rest :
  rune_valid r →
  DecodeRune (EncodeRune r ++ rest) = (r, length (EncodeRune r)).
Proof.
  intros H. rewrite EncodeRune_valid by done. destruct H as [H|H].
  - destruct (Z.lt_ge_cases r 128).
    { unfold encode_scalar. zif. unfold DecodeRune. simpl. by zif. }
    destruct (Z.lt_ge_cases r 2048).
    { rewrite decode_encode2 by lia. unfold encode_scalar. by zif. }
    rewrite decode_encode3 by lia. unfold encode_scalar. by zif.
  - destruct (Z.lt_ge_cases r 65536).
    { rewrite decode_encode3 by lia. unfold encode_scalar. by zif. }
    rewrite decode_encode4 by lia. unfold encode_scalar. by zif.
Qed.

Lemma EncodeRune_length_pos r : (0 < length (EncodeRune r))%nat.
Proof. unfold EncodeRune, encode_scalar. repeat case_match; simpl; lia. Qed.

(** A rune is one byte long exactly below U+0080, and that byte is itself. *)
Lemma EncodeRune_ascii r : 0 <= r < 128 → EncodeRune r = [r].
Proof.
  intros. rewrite EncodeRune_valid by (left; lia). unfold encode_scalar. by zif.
Qed.

(** A longer encoding starts with a byte above 0x7F. *)
Lemma EncodeRune_nonascii r :
  rune_valid r → 128 <= r → ∃ a b l, EncodeRune r = a :: b :: l ∧ 128 <= a.
Proof.
  intros Hv Hr. rewrite EncodeRune_valid by done. unfold encode_scalar.
  assert (r <= 1114111) by (destruct Hv; lia).
  zif. rewrite shr_6, shr_12, shr_18, !land_63.
  repeat case_match; do 3 eexists; (split; [reflexivity|]).
  - zdiv r 64. rewrite lor_192; lia.
  - zdiv r 4096. rewrite lor_224; lia.
  - zdiv r 262144. rewrite lor_240; lia.
Qed.

Lemma encode_runes_cons r l : encode_runes (r :: l) = EncodeRune r ++ encode_runes l.
Proof. reflexivity. Qed.

Lemma encode_runes_nil_inv l : encode_runes l = [] → l = [].
Proof.
  destruct l as [|r l]; [done|]. rewrite encode_runes_cons.
  pose proof (EncodeRune_length_pos r) as Hp. destruct (EncodeRune r); simpl in *; [lia|done].
Qed.
