(* ===== verification/Charset.v ===== *)
(** * Character sets of the pattern language (internal/matchset).

    [charset] is Go's [[8]uint32], one bit per byte value, with [Add],
    [Invert] and [Contains], and [charSetFromGroup] reads the body of a
    bracket group [[...]].  The group reader is related to a reference
    grammar of single characters and ranges ([group_items]). *)

From S2P Require Import Prelude.

(** [type charset [8]uint32] *)
Abbreviation charset := (list Z) (only parsing).

Definition charset_zero : charset := replicate 8 0.

Definition charset_ok (cs : charset) : Prop :=
  length cs = 8%nat ∧ Forall (λ w, 0 <= w < 2 ^ 32) cs.

(** [set[idx] |= bit] with [idx := by / 32], [bit := 1 << (by - idx*32)]. *)
Definition charset_Add (cs : charset) (b : Z) : charset :=
  let idx := b / 32 in
  let bit := Z.shiftl 1 (b - idx * 32) in
  <[Z.to_nat idx := Z.lor (cs !!! Z.to_nat idx) bit]> cs.

(** [^u32] on a 32-bit word. *)
Definition charset_Invert (cs : charset) : charset :=
  (λ w, Z.lxor w (2 ^ 32 - 1)) <$> cs.

Definition charset_Contains (cs : charset) (b : Z) : bool :=
  let idx := b / 32 in
  let bit := Z.shiftl 1 (b - idx * 32) in
  negb (Z.land (cs !!! Z.to_nat idx) bit =? 0).

Definition u32Max : Z := 2 ^ 32 - 1.
Definition charset_all : charset := replicate 8 u32Max.

(** The locals of [charSetFromGroup]. *)
Record group_state := GroupState {
  gs_char : Z;
  gs_charRead : bool;
  gs_charRange : bool;
  gs_set : charset;
  gs_inverted : bool;
  gs_mayBeInverted : bool
}.

Definition group_init : group_state :=
  GroupState 0 false false charset_zero false false.

(** [for ; char <= by; char++ { charSet.Add(char) }] on bytes: [char++] wraps
    from 255 to 0, so the loop never ends when [by] is 255.  [None]: still
    running after [fuel] iterations. *)
Fixpoint add_range (fuel : nat) (char hi : Z) (cs : charset) : option (Z * charset) :=
  match fuel with
  | O => None
  | S fuel' =>
      if char <=? hi
      then add_range fuel' ((char + 1) mod 256) hi (charset_Add cs char)
      else Some (char, cs)
  end.

(** A byte loop that ends does so within 256 iterations. *)
Definition range_fuel : nat := 257.

(** The body of the range loop after the [']'] test, at index [i]. *)
Definition group_step (i : nat) (b : Z) (st : group_state) : option group_state :=
  if (b =? 45) && gs_charRead st && negb (gs_charRange st) then
    Some (GroupState (gs_char st) (gs_charRead st) true (gs_set st)
            (gs_inverted st) (gs_mayBeInverted st))
  else
    let st1 :=
      if gs_mayBeInverted st then
        if negb (gs_charRange st)
        then GroupState (gs_char st) false (gs_charRange st) (gs_set st) true false
        else GroupState (gs_char st) (gs_charRead st) (gs_charRange st) (gs_set st)
               (gs_inverted st) false
      else st in
    if gs_charRange st1 then
      match add_range range_fuel (gs_char st1) b (gs_set st1) with
      | None => None
      | Some (char, cs) =>
          Some (GroupState char false false cs (gs_inverted st1) (gs_mayBeInverted st1))
      end
    else
      let cs := if gs_charRead st1 then charset_Add (gs_set st1) (gs_char st1)
                else gs_set st1 in
      Some (GroupState b true (gs_charRange st1) cs (gs_inverted st1)
              (if (i =? 0)%nat && (b =? 94) then true else gs_mayBeInverted st1)).

(** [for i, by := range bytes]; the second component is [bytesLeft]. *)
Fixpoint group_loop (i : nat) (bytes : list Z) (st : group_state)
    : option (group_state * list Z) :=
  match bytes with
  | [] => Some (st, [])
  | b :: bytes' =>
      if (b =? 93) && (0 <? i)%nat then Some (st, bytes')
      else match group_step i b st with
           | None => None
           | Some st' => group_loop (S i) bytes' st'
           end
  end.

(** The statements after the loop. *)
Definition group_finish (st : group_state) : charset :=
  let cs1 := if gs_charRead st && negb (gs_mayBeInverted st)
             then charset_Add (gs_set st) (gs_char st) else gs_set st in
  let cs2 := if gs_charRange st then charset_Add cs1 45 else cs1 in
  if gs_inverted st || gs_mayBeInverted st then charset_Invert cs2 else cs2.

Definition charSetFromGroup (bytes : list Z) : option (charset * list Z) :=
  match group_loop 0 bytes group_init with
  | None => None
  | Some (st, bytesLeft) => Some (group_finish st, bytesLeft)
  end.

(** ** Reference grammar of a group *)

Inductive group_item := Single (c : Z) | Range (lo hi : Z).

Definition item_has (c : Z) (it : group_item) : bool :=
  match it with
  | Single d => d =? c
  | Range lo hi => (lo <=? c) && (c <=? hi)
  end.

Definition items_have (its : list group_item) (c : Z) : bool := existsb (item_has c) its.

(** A dash between two characters makes a range; a dash at the end of the
    group, or right after a range, is itself. *)
Fixpoint group_items (l : list Z) : list group_item :=
  match l with
  | [] => []
  | c :: l1 =>
      match l1 with
      | [] => [Single c]
      | d :: l2 =>
          if d =? 45 then
            match l2 with
            | [] => [Single c; Single 45]
            | e :: l3 => Range c e :: group_items l3
            end
          else Single c :: group_items l1
      end
  end.

(** The bytes up to the closing bracket, which cannot be the first byte, and
    the bytes after it. *)
Fixpoint span_close (l : list Z) : list Z * list Z :=
  match l with
  | [] => ([], [])
  | c :: l' =>
      if c =? 93 then ([], l') else let '(b, r) := span_close l' in (c :: b, r)
  end.

Definition group_split (l : list Z) : list Z * list Z :=
  match l with
  | [] => ([], [])
  | c :: l' => let '(b, r) := span_close l' in (c :: b, r)
  end.

(** A leading caret inverts, unless it starts a range. *)
Definition group_meaning (body : list Z) : bool * list group_item :=
  match body with
  | c :: l1 =>
      if c =? 94 then
        match l1 with
        | d :: _ :: _ => if d =? 45 then (false, group_items body) else (true, group_items l1)
        | _ => (true, group_items l1)
        end
      else (false, group_items body)
  | [] => (false, [])
  end.

(** The ranges whose end is byte 255: the ones the code never finishes. *)
Definition endless (it : group_item) : bool :=
  match it with Single _ => false | Range _ hi => hi =? 255 end.

Definition body_has (body : list Z) (c : Z) : bool :=
  let '(inv, its) := group_meaning body in xorb inv (items_have its c).

Definition body_endless (body : list Z) : bool :=
  existsb endless (snd (group_meaning body)).

Definition group_has (bytes : list Z) (c : Z) : bool := body_has (fst (group_split bytes)) c.

Definition group_endless (bytes : list Z) : bool := body_endless (fst (group_split bytes)).

Example group_1 : charSetFromGroup (bs "a-z]x") ≠ None.
Proof. vm_compute. discriminate. Qed.

(** ** Bits *)

Lemma land_bit w k : 0 <= k → negb (Z.land w (Z.shiftl 1 k) =? 0) = Z.testbit w k.
Proof.
  intros Hk. rewrite Z.shiftl_1_l. destruct (Z.testbit w k) eqn:E.
  - apply negb_true_iff, Z.eqb_neq. intros H.
    assert (Z.testbit (Z.land w (2 ^ k)) k = true) as H1.
    { rewrite Z.land_spec, E, Z.pow2_bits_true; done. }
    rewrite H, Z.bits_0 in H1. done.
  - apply negb_false_iff, Z.eqb_eq. apply Z.bits_inj'. intros n Hn.
    rewrite Z.land_spec, Z.bits_0, Z.pow2_bits_eqb by lia.
    destruct (Z.eqb_spec k n) as [<-|]; [rewrite E|]; by rewrite ?andb_false_r.
Qed.

Lemma byte_rem b : b - b / 32 * 32 = b mod 32.
Proof. zdiv b 32. lia. Qed.

Lemma Contains_testbit cs b :
  charset_Contains cs b = Z.testbit (cs !!! Z.to_nat (b / 32)) (b mod 32).
Proof.
  unfold charset_Contains. rewrite byte_rem. zdiv b 32. apply land_bit. lia.
Qed.

Lemma byte_idx b : byte_ok b → (Z.to_nat (b / 32) < 8)%nat.
Proof. intros [??]. zdiv b 32. lia. Qed.

Lemma byte_idx_inj b c :
  byte_ok b → byte_ok c →
  Z.to_nat (b / 32) = Z.to_nat (c / 32) → b mod 32 = c mod 32 → b = c.
Proof. intros [??] [??] ??. zdiv b 32. zdiv c 32. lia. Qed.

Lemma word_at cs i : charset_ok cs → 0 <= cs !!! i < 2 ^ 32.
Proof.
  intros [_ H]. rewrite list_lookup_total_alt.
  destruct (cs !! i) as [w|] eqn:E; simpl; [|vm_compute; split; [discriminate|done]].
  by rewrite Forall_lookup in H; apply (H i).
Qed.

Lemma Add_Contains cs b c :
  charset_ok cs → byte_ok b → byte_ok c →
  charset_Contains (charset_Add cs b) c = (b =? c) || charset_Contains cs c.
Proof.
  intros Hok Hb Hc. rewrite !Contains_testbit. unfold charset_Add. rewrite byte_rem.
  pose proof (byte_idx b Hb). destruct Hok as [Hlen _].
  destruct (decide (Z.to_nat (b / 32) = Z.to_nat (c / 32))) as [E|E].
  - rewrite E, list_lookup_total_insert_eq by lia.
    rewrite Z.lor_spec, orb_comm. f_equal.
    zdiv b 32. rewrite Z.shiftl_1_l, Z.pow2_bits_eqb by lia.
    destruct (Z.eqb_spec b c) as [->|Hne]; [by rewrite Z.eqb_refl|].
    apply Z.eqb_neq. intros ?. by apply Hne, byte_idx_inj.
  - rewrite list_lookup_total_insert_ne by done.
    destruct (Z.eqb_spec b c) as [->|]; done.
Qed.

Lemma charset_zero_ok : charset_ok charset_zero.
Proof. split; [done|]. apply Forall_replicate. lia. Qed.

Lemma zero_Contains b : byte_ok b → charset_Contains charset_zero b = false.
Proof.
  intros Hb%byte_idx. rewrite Contains_testbit, list_lookup_total_alt.
  unfold charset_zero. rewrite lookup_replicate_2 by done. apply Z.bits_0.
Qed.

Lemma lor_range a b n : 0 <= n → 0 <= a < 2 ^ n → 0 <= b < 2 ^ n → 0 <= Z.lor a b < 2 ^ n.
Proof.
  intros Hn Ha Hb.
  assert (Z.lor a b = Z.lor a b mod 2 ^ n) as ->; [|apply Z.mod_pos_bound; lia].
  rewrite <- (Z.mod_small a (2 ^ n)), <- (Z.mod_small b (2 ^ n)) by lia.
  apply Z.bits_inj'. intros k Hk. rewrite Z.lor_spec.
  destruct (Z.lt_ge_cases k n).
  - by rewrite !Z.mod_pow2_bits_low, Z.lor_spec, !Z.mod_pow2_bits_low by lia.
  - by rewrite !Z.mod_pow2_bits_high by lia.
Qed.

Lemma Add_ok cs b : charset_ok cs → byte_ok b → charset_ok (charset_Add cs b).
Proof.
  intros Hok Hb. pose proof (byte_idx b Hb) as Hi. unfold charset_Add. rewrite byte_rem.
  split; [rewrite length_insert; apply Hok|].
  apply Forall_insert; [apply Hok|]. zdiv b 32. rewrite Z.shiftl_1_l.
  apply lor_range; [lia|by apply word_at|]. split; [apply Z.pow_nonneg; lia|].
  apply Z.pow_lt_mono_r; lia.
Qed.

Lemma lxor_ones_range w : 0 <= w < 2 ^ 32 → 0 <= Z.lxor w (2 ^ 32 - 1) < 2 ^ 32.
Proof.
  intros Hw. assert (Z.lxor w (2 ^ 32 - 1) = 2 ^ 32 - 1 - w) as ->; [|lia].
  replace w with (w mod 2 ^ 32) at 1 by (apply Z.mod_small; lia).
  assert (2 ^ 32 - 1 - w = Z.lnot w mod 2 ^ 32) as ->.
  { unfold Z.lnot. apply (Z.mod_unique_pos _ _ (-1)); lia. }
  apply Z.bits_inj'. intros n Hn.
  assert (2 ^ 32 - 1 = Z.ones 32) as -> by reflexivity.
  rewrite Z.lxor_spec. destruct (Z.lt_ge_cases n 32).
  - rewrite !Z.mod_pow2_bits_low, Z.lnot_spec, Z.ones_spec_low by lia.
    by destruct (Z.testbit w n).
  - by rewrite !Z.mod_pow2_bits_high, Z.ones_spec_high by lia.
Qed.

Lemma Invert_ok cs : charset_ok cs → charset_ok (charset_Invert cs).
Proof.
  intros [Hl Hf]. unfold charset_Invert. split; [by rewrite length_fmap|].
  rewrite Forall_fmap. eapply Forall_impl; [done|]. intros w Hw. by apply lxor_ones_range.
Qed.

Lemma Invert_Contains cs c :
  charset_ok cs → byte_ok c →
  charset_Contains (charset_Invert cs) c = negb (charset_Contains cs c).
Proof.
  intros [Hl Hf] Hc. pose proof (byte_idx c Hc) as Hi.
  rewrite !Contains_testbit, !list_lookup_total_alt. unfold charset_Invert.
  rewrite list_lookup_fmap.
  destruct (cs !! Z.to_nat (c / 32)) as [w|] eqn:E.
  2: { apply lookup_ge_None in E. lia. }
  cbn [fmap option_fmap option_map default]. change (2 ^ 32 - 1) with (Z.ones 32). simpl.
  zdiv c 32. rewrite Z.lxor_spec, Z.ones_spec_low by lia. by destruct (Z.testbit _ _).
Qed.

(** Sets of bytes that agree on membership; the coarser equivalence group
    reading is stated up to. *)
Lemma all_Contains c : byte_ok c → charset_Contains charset_all c = true.
Proof.
  intros Hc. pose proof (byte_idx c Hc) as Hi. rewrite Contains_testbit.
  unfold charset_all. rewrite list_lookup_total_alt, lookup_replicate_2 by lia. simpl.
  unfold u32Max. change (2 ^ 32 - 1) with (Z.ones 32). zdiv c 32. apply Z.ones_spec_low. lia.
Qed.

(** ** The range loop *)

Lemma add_range_done fuel char hi cs :
  charset_ok cs → byte_ok char → 0 <= hi < 255 → (Z.to_nat (hi - char + 1) < fuel)%nat →
  ∃ ch' cs', add_range fuel char hi cs = Some (ch', cs') ∧ byte_ok ch' ∧ charset_ok cs' ∧
    ∀ c, byte_ok c →
      charset_Contains cs' c = ((char <=? c) && (c <=? hi)) || charset_Contains cs c.
Proof.
  revert char cs. induction fuel as [|fuel IH]; intros char cs Hok Hch Hhi Hf; [lia|].
  simpl. destruct (Z.leb_spec char hi).
  - unfold byte_ok in Hch. rewrite Z.mod_small by lia.
    destruct (IH (char + 1) (charset_Add cs char)) as (ch' & cs' & E & Hb' & Hok' & Hc');
      [by apply Add_ok|unfold byte_ok; lia|lia|lia|].
    exists ch', cs'. split_and!; [done|done|done|]. intros c Hc.
    rewrite Hc', Add_Contains by done.
    destruct (charset_Contains cs c); lia.
  - exists char, cs. split_and!; [done|done|done|]. intros c Hc.
    destruct (charset_Contains cs c); lia.
Qed.

(** A range that ends at byte 255 never stops, whatever the fuel. *)
Lemma add_range_endless fuel char cs : byte_ok char → add_range fuel char 255 cs = None.
Proof.
  revert char cs. induction fuel as [|fuel IH]; intros char cs Hch; simpl; [done|].
  unfold byte_ok in Hch. zif. apply IH. unfold byte_ok. apply Z.mod_pos_bound. lia.
Qed.

Lemma range_fuel_enough ch b :
  0 <= ch → b < 255 → (Z.to_nat (b - ch + 1) < range_fuel)%nat.
Proof. unfold range_fuel. lia. Qed.

#[local] Arguments add_range : simpl never.
#[local] Opaque range_fuel.

(** ** The group loop

    What the loop owes from a state on: the bytes left are those after the
    closing bracket, and the finished set has the members of [its] on top of
    those already collected, inverted when [inv]. *)

Definition loop_delivers (i : nat) (l : list Z) (st : group_state) (inv : bool)
    (its : list group_item) (cs : charset) : Prop :=
  match group_loop i l st with
  | Some (st', rest) =>
      rest = snd (span_close l) ∧ existsb endless its = false ∧
      charset_ok (group_finish st') ∧
      ∀ c, byte_ok c → charset_Contains (group_finish st') c =
        xorb inv (items_have its c || charset_Contains cs c)
  | None => existsb endless its = true
  end.

Lemma finish_spec ch rd rg cs inv :
  charset_ok cs → byte_ok ch →
  let st := GroupState ch rd rg cs inv false in
  charset_ok (group_finish st) ∧
  ∀ c, byte_ok c → charset_Contains (group_finish st) c =
    xorb inv ((if rg then 45 =? c else false) || ((if rd then ch =? c else false)
              || charset_Contains cs c)).
Proof.
  intros Hok Hch st. subst st. unfold group_finish. simpl.
  set (cs1 := if rd && true then charset_Add cs ch else cs).
  assert (charset_ok cs1) as H1 by (subst cs1; destruct rd; simpl; auto using Add_ok).
  assert (∀ c, byte_ok c → charset_Contains cs1 c =
            (if rd then ch =? c else false) || charset_Contains cs c) as E1.
  { intros c Hc. subst cs1. destruct rd; simpl; [by apply Add_Contains|done]. }
  set (cs2 := if rg then charset_Add cs1 45 else cs1).
  assert (byte_ok 45) as H45 by (unfold byte_ok; lia).
  assert (charset_ok cs2) as H2 by (subst cs2; destruct rg; auto using Add_ok).
  assert (∀ c, byte_ok c → charset_Contains cs2 c =
            (if rg then 45 =? c else false) || charset_Contains cs1 c) as E2.
  { intros c Hc. subst cs2. destruct rg; [by apply Add_Contains|done]. }
  rewrite orb_false_r. destruct inv.
  - split; [by apply Invert_ok|]. intros c Hc.
    rewrite Invert_Contains, E2, E1 by done. symmetry. apply xorb_true_l.
  - split; [done|]. intros c Hc. rewrite E2, E1 by done. symmetry. apply xorb_false_l.
Qed.

Lemma delivers_stop ch rd rg cs inv its rest l i :
  charset_ok cs → byte_ok ch →
  group_loop i l (GroupState ch rd rg cs inv false) =
    Some (GroupState ch rd rg cs inv false, rest) →
  rest = snd (span_close l) → existsb endless its = false →
  (∀ c, items_have its c = (if rg then 45 =? c else false) || (if rd then ch =? c else false)) →
  loop_delivers i l (GroupState ch rd rg cs inv false) inv its cs.
Proof.
  intros Hok Hch El Hleft He Hits. unfold loop_delivers. rewrite El.
  destruct (finish_spec ch rd rg cs inv Hok Hch) as [Hf Hc].
  split_and!; [done|done|done|]. intros c Hbc. rewrite Hc, Hits by done.
  by rewrite orb_assoc.
Qed.

Lemma items_have_cons it its c : items_have (it :: its) c = item_has c it || items_have its c.
Proof. reflexivity. Qed.

Lemma existsb_endless_cons it its :
  existsb endless (it :: its) = endless it || existsb endless its.
Proof. reflexivity. Qed.

Lemma group_items_dash ch b l :
  b ≠ 45 → group_items (ch :: b :: l) = Single ch :: group_items (b :: l).
Proof. intros. simpl. by zif. Qed.

Lemma group_items_range ch b l : group_items (ch :: 45 :: b :: l) = Range ch b :: group_items l.
Proof. reflexivity. Qed.

Lemma group_loop_delivers l :
  Forall byte_ok l → ∀ i ch cs inv, charset_ok cs → byte_ok ch →
  loop_delivers (S i) l (GroupState ch false false cs inv false) inv
    (group_items (fst (span_close l))) cs ∧
  loop_delivers (S i) l (GroupState ch true false cs inv false) inv
    (group_items (ch :: fst (span_close l))) cs ∧
  loop_delivers (S i) l (GroupState ch true true cs inv false) inv
    (group_items (ch :: 45 :: fst (span_close l))) cs.
Proof.
  induction 1 as [|b l Hb Hl IH]; intros i ch cs inv Hok Hch.
  { split_and!; eapply delivers_stop; try done; intros c; cbn; rewrite ?orb_false_r; try apply orb_comm; done. }
  destruct (Z.eqb_spec b 93) as [->|Hb93].
  { split_and!; eapply delivers_stop; try done; intros c; cbn; rewrite ?orb_false_r; try apply orb_comm; done. }
  assert (span_close (b :: l) = (b :: fst (span_close l), snd (span_close l))) as Esp.
  { simpl. zif. by destruct (span_close l). }
  rewrite Esp. simpl fst.
  assert (∀ st, group_loop (S i) (b :: l) st =
            match group_step (S i) b st with
            | None => None | Some st' => group_loop (S (S i)) l st' end) as Eloop.
  { intros st. simpl. by zif. }
  split_and!.
  - destruct (IH (S i) b cs inv Hok Hb) as (_ & H1 & _). unfold loop_delivers in *.
    rewrite Eloop, Esp. unfold group_step. simpl. rewrite andb_false_r. simpl. exact H1.
  - destruct (Z.eqb_spec b 45) as [->|Hb45].
    + destruct (IH (S i) ch cs inv Hok Hch) as (_ & _ & H2). unfold loop_delivers in *.
      rewrite Eloop, Esp. exact H2.
    + rewrite group_items_dash by done.
      destruct (IH (S i) b (charset_Add cs ch) inv (Add_ok _ _ Hok Hch) Hb) as (_ & H1 & _).
      assert (group_step (S i) b (GroupState ch true false cs inv false) =
        Some (GroupState b true false (charset_Add cs ch) inv false)) as Est.
      { unfold group_step. simpl. by zif. }
      unfold loop_delivers in *. rewrite Eloop, Est, Esp.
      destruct (group_loop _ _ _) as [[st' rest]|]; [|done].
      destruct H1 as (H1 & H2 & H3 & H4). split_and!; [done|done|done|].
      intros c Hc. rewrite H4, Add_Contains by done. f_equal.
      rewrite items_have_cons. cbn [item_has].
      by destruct (ch =? c), (items_have _ c).
  - rewrite group_items_range.
    assert (group_step (S i) b (GroupState ch true true cs inv false) =
      match add_range range_fuel ch b cs with
      | None => None
      | Some (char, cs') => Some (GroupState char false false cs' inv false)
      end) as Est.
    { unfold group_step. cbn -[add_range Z.eqb]. rewrite andb_false_r. reflexivity. }
    destruct (Z.eq_dec b 255) as [->|Hne].
    { unfold loop_delivers. rewrite Eloop, Est, add_range_endless by done. done. }
    unfold byte_ok in Hb, Hch.
    destruct (add_range_done range_fuel ch b cs) as (ch' & cs' & E & Hb' & Hok' & Hc');
      [done|done|lia|apply range_fuel_enough; lia|].
    destruct (IH (S i) ch' cs' inv Hok' Hb') as (H0 & _).
    unfold loop_delivers in *. rewrite Eloop, Est, E, Esp.
    destruct (group_loop _ _ _) as [[st' rest]|].
    2: { by rewrite existsb_endless_cons, H0, orb_true_r. }
    destruct H0 as (H0 & H1 & H2 & H3). split_and!; [done| |done|].
    { rewrite existsb_endless_cons, H1. simpl. lia. }
    intros c Hc. rewrite H3, Hc' by done. f_equal.
    rewrite items_have_cons. cbn [item_has].
    by destruct ((ch <=? c) && (c <=? b)), (items_have _ c).
Qed.

(** From the second byte of a group on, after the first byte [b]. *)
Definition group_after (b : Z) : group_state :=
  GroupState b true false charset_zero false (b =? 94).

Lemma charSetFromGroup_cons b l :
  charSetFromGroup (b :: l) =
  match group_loop 1 l (group_after b) with
  | None => None
  | Some (st, rest) => Some (group_finish st, rest)
  end.
Proof.
  unfold charSetFromGroup. cbn -[group_finish Z.eqb].
  rewrite andb_false_r. unfold group_step. cbn -[group_finish Z.eqb].
  rewrite andb_false_r. cbn -[group_finish Z.eqb]. unfold group_after.
  by destruct (b =? 94).
Qed.

Definition group_delivers (l : list Z) : Prop :=
  match charSetFromGroup l with
  | Some (cs, rest) =>
      rest = snd (group_split l) ∧ group_endless l = false ∧ charset_ok cs ∧
      ∀ c, byte_ok c → charset_Contains cs c = group_has l c
  | None => group_endless l = true
  end.

Lemma deliver_from_loop b l st inv its :
  loop_delivers 1 l st inv its charset_zero →
  group_loop 1 l (group_after b) = group_loop 1 l st →
  group_meaning (b :: fst (span_close l)) = (inv, its) →
  group_delivers (b :: l).
Proof.
  intros Hd El Hm. unfold group_delivers, group_endless, group_has, body_endless, body_has.
  assert (group_split (b :: l) = (b :: fst (span_close l), snd (span_close l))) as ->.
  { simpl. by destruct (span_close l). }
  cbn [fst snd]. rewrite Hm, charSetFromGroup_cons, El. unfold loop_delivers in Hd.
  destruct (group_loop _ _ _) as [[st' rest]|]; [|done].
  destruct Hd as (H1 & H2 & H3 & H4). split_and!; [done|done|done|].
  intros c Hc. rewrite H4, zero_Contains by done. by rewrite orb_false_r.
Qed.

Lemma group_step_caret_range d i :
  group_step (S i) 45 (group_after 94) =
    Some (GroupState 94 true true charset_zero false true) ∧
  group_step (S (S i)) d (GroupState 94 true true charset_zero false true) =
    group_step (S (S i)) d (GroupState 94 true true charset_zero false false).
Proof. split; unfold group_step; cbn -[Z.eqb add_range]; by rewrite ?andb_false_r. Qed.

Lemma group_step_caret b i :
  b ≠ 45 →
  group_step (S i) b (group_after 94) =
  group_step (S i) b (GroupState 0 false false charset_zero true false).
Proof.
  intros. unfold group_step, group_after. cbn -[Z.eqb].
  assert ((b =? 45) = false) as -> by lia. reflexivity.
Qed.

Lemma span_close_stop l : fst (span_close (93 :: l)) = [] ∧ snd (span_close (93 :: l)) = l.
Proof. done. Qed.

Lemma span_close_next c l :
  c ≠ 93 → span_close (c :: l) = (c :: fst (span_close l), snd (span_close l)).
Proof. intros. simpl. zif. by destruct (span_close l). Qed.

Lemma group_loop_next i b l st :
  b ≠ 93 ∨ i = O →
  group_loop i (b :: l) st =
  match group_step i b st with
  | None => None
  | Some st' => group_loop (S i) l st'
  end.
Proof.
  intros H. simpl. destruct (Z.eqb_spec b 93), (Nat.ltb_spec 0 i); simpl; try done.
  destruct H; [done|lia].
Qed.

(** ["[^]"] and ["[^-]"]: the inverted empty and dash groups. *)
Lemma deliver_caret_end l : l = [] ∨ (∃ l', l = 93 :: l') → group_delivers (94 :: l).
Proof.
  assert (charset_ok (charset_Invert charset_zero)) as Hok
    by apply Invert_ok, charset_zero_ok.
  assert (∀ c, byte_ok c → charset_Contains (charset_Invert charset_zero) c = true) as Hc.
  { intros c Hc. by rewrite Invert_Contains, zero_Contains by auto using charset_zero_ok. }
  intros [->|[l' ->]]; split_and!; done.
Qed.

Lemma deliver_caret_dash_end l :
  l = [] ∨ (∃ l', l = 93 :: l') → group_delivers (94 :: 45 :: l).
Proof.
  assert (byte_ok 45) as H45 by done. pose proof charset_zero_ok as Hz.
  pose proof (Add_ok _ _ Hz H45) as Ha. pose proof (Invert_ok _ Ha) as Hok.
  assert (∀ c, byte_ok c → charset_Contains (charset_Invert (charset_Add charset_zero 45)) c =
            negb (45 =? c)) as Hc.
  { intros c Hc. rewrite Invert_Contains, Add_Contains, zero_Contains by done.
    by rewrite orb_false_r. }
  intros [->|[l' ->]]; (split_and!; [done|done|done|]); intros c Hbc;
    (etrans; [by apply Hc|]); change (negb (45 =? c) = xorb true ((45 =? c) || false)); by destruct (45 =? c).
Qed.

(** The group reader meets its reference grammar: it returns exactly when no
    range ends at byte 255, hands back the bytes after the closing bracket,
    and its set contains exactly the bytes the group means. *)
Lemma charSetFromGroup_delivers l : Forall byte_ok l → group_delivers l.
Proof.
  pose proof charset_zero_ok as Hz. intros Hl. destruct l as [|b l].
  { split_and!; [done|done|done|]. intros c Hc. by apply zero_Contains. }
  apply Forall_cons in Hl as [Hb Hl].
  destruct (Z.eq_dec b 94) as [->|Hne].
  2: { pose proof (group_loop_delivers l Hl 0 b charset_zero false Hz Hb) as (_ & H & _).
    eapply deliver_from_loop; [exact H| |].
    - unfold group_after. by assert ((b =? 94) = false) as -> by lia.
    - unfold group_meaning. by assert ((b =? 94) = false) as -> by lia. }
  destruct l as [|d l]; [apply deliver_caret_end; auto|].
  destruct (Z.eq_dec d 93) as [->|Hd93]; [apply deliver_caret_end; eauto|].
  pose proof Hl as [Hd Hl']%Forall_cons.
  destruct (Z.eq_dec d 45) as [->|Hd45].
  - destruct l as [|e l]; [apply deliver_caret_dash_end; auto|].
    destruct (Z.eq_dec e 93) as [->|He93]; [apply deliver_caret_dash_end; eauto|].
    pose proof (group_loop_delivers _ Hl 0 94 charset_zero false Hz Hb) as (_ & H & _).
    destruct (group_step_caret_range e 0) as [E1 E2].
    eapply deliver_from_loop; [exact H| |].
    + rewrite !(group_loop_next _ 45), E1 by auto.
      rewrite (group_loop_next 2 e), E2 by auto. symmetry.
      etrans; [apply (group_loop_next 2 e); auto|]. reflexivity.
    + rewrite (span_close_next 45), (span_close_next e) by done. reflexivity.
  - pose proof (group_loop_delivers _ Hl 0 0 charset_zero true Hz) as (H & _); [done|].
    eapply deliver_from_loop; [exact H| |].
    + rewrite !(group_loop_next _ d), group_step_caret by auto. reflexivity.
    + rewrite (span_close_next d) by done. unfold group_meaning. simpl.
      assert ((d =? 45) = false) as -> by lia. by destruct (fst (span_close l)).
Qed.
