(* ===== verification/MatchSet.v ===== *)
(** * The pattern set of internal/matchset.

    [MatchSet] compiles wildcard patterns into strings of runes ("atoms"),
    reversed, and matches a source against all of them by running each
    pattern as a small set of live sub-patterns over the reversed source
    ([check_pattern], [match_loop]).  This file holds the data and the
    operations; Glob.v states what a pattern means and MatchProof.v relates
    the two. *)

From S2P Require Import Prelude Utf8 Charset.

(** Atoms below 5 are wildcards. *)
Abbreviation magicDot := 0 (only parsing).
Abbreviation magicAsterisk := 1 (only parsing).
Abbreviation magicAsterisk2 := 2 (only parsing).
Abbreviation magicQuestion := 3 (only parsing).
Abbreviation magicUnderscore := 4 (only parsing).

(** [atom++] on a rune (int32). *)
Definition rune_incr (r : Z) : Z := if r =? 2147483647 then -2147483648 else r + 1.

Section MatchSet.
Context {D : Type}.

(** [type pattern struct]; the atoms are the bytes of a Go string. *)
Record pattern := Pattern { patt_atoms : list Z; patt_data : D }.

(** [type MatchSet struct]; the scratch buffer [atomsBuffer], of which only
    the capacity is ever reused, is left out.  A nil Go map reads as the
    empty map. *)
Record MatchSet := MkMatchSet {
  ms_patterns : list pattern;
  ms_nextAtom : Z;
  ms_charSetToAtom : gmap charset Z;
  ms_atomToCharSet : gmap Z charset
}.

(** [var set MatchSet] *)
Definition empty_set : MatchSet := MkMatchSet [] 0 ∅ ∅.

(** [readAtom] on [b :: rest]; [None] when reading a group never ends. *)
Definition readAtom (set : MatchSet) (b : Z) (rest : list Z)
    : option (MatchSet * Z * list Z) :=
  if b =? 91 then
    match charSetFromGroup rest with
    | None => None
    | Some (charSet, bytesLeft) =>
        match ms_charSetToAtom set !! charSet with
        | Some atom => Some (set, atom, bytesLeft)
        | None =>
            if decide (charSet = charset_all) then Some (set, magicUnderscore, bytesLeft)
            else
              let set1 :=
                if ms_nextAtom set =? 0 then MkMatchSet (ms_patterns set) 256 ∅ ∅
                else set in
              let atom := ms_nextAtom set1 in
              Some (MkMatchSet (ms_patterns set1) (rune_incr atom)
                      (<[charSet := atom]> (ms_charSetToAtom set1))
                      (<[atom := charSet]> (ms_atomToCharSet set1)),
                    atom, bytesLeft)
        end
    end
  else if b =? 42 then
    match rest with
    | 42 :: rest' => Some (set, magicAsterisk2, rest')
    | _ => Some (set, magicAsterisk, rest)
    end
  else if b =? 63 then Some (set, magicQuestion, rest)
  else if b =? 95 then Some (set, magicUnderscore, rest)
  else Some (set, b, rest).

(** [atoms[len(atoms)-1] = x] *)
Definition set_last (l : list Z) (x : Z) : list Z := <[pred (length l) := x]> l.

(** The [switch currentAtom] of [parse], on [atoms] and [lastAtom]. *)
Definition parse_atom (atoms : list Z) (lastAtom currentAtom : Z) : list Z * Z :=
  if currentAtom =? magicAsterisk then
    if negb (lastAtom =? magicAsterisk) && negb (lastAtom =? magicAsterisk2)
    then (atoms ++ [magicAsterisk], magicAsterisk)
    else (atoms, lastAtom)
  else if currentAtom =? magicAsterisk2 then
    if lastAtom =? magicAsterisk then (set_last atoms magicAsterisk2, magicAsterisk2)
    else if negb (lastAtom =? magicAsterisk2)
    then (atoms ++ [magicAsterisk2], magicAsterisk2)
    else (atoms, lastAtom)
  else if currentAtom =? magicQuestion then
    if lastAtom =? magicAsterisk
    then (set_last atoms magicQuestion ++ [magicAsterisk], lastAtom)
    else (atoms ++ [magicQuestion], magicQuestion)
  else if currentAtom =? magicUnderscore then
    if lastAtom =? magicAsterisk2
    then (set_last atoms magicUnderscore ++ [magicAsterisk2], lastAtom)
    else (atoms ++ [magicUnderscore], magicUnderscore)
  else (atoms ++ [currentAtom], currentAtom).

(** [for len(bytes) != 0]; every round reads at least one byte, so the
    length of the input is fuel enough ([parse_loop_total]). *)
Fixpoint parse_loop (fuel : nat) (set : MatchSet) (bytes atoms : list Z) (lastAtom : Z)
    : option (MatchSet * list Z) :=
  match bytes with
  | [] => Some (set, atoms)
  | b :: rest =>
      match fuel with
      | O => None
      | S fuel' =>
          match readAtom set b rest with
          | None => None
          | Some (set', currentAtom, bytesLeft) =>
              let '(atoms', lastAtom') := parse_atom atoms lastAtom currentAtom in
              parse_loop fuel' set' bytesLeft atoms' lastAtom'
          end
      end
  end.

(** The statements after the loop: the empty pattern, and the dots at the
    two ends. *)
Definition parse_ends (atoms : list Z) : list Z :=
  match atoms with
  | [] => [magicDot]
  | a :: _ =>
      let atoms1 := if a =? 46 then <[O := magicDot]> atoms else atoms in
      if atoms1 !!! pred (length atoms1) =? 46 then set_last atoms1 magicDot else atoms1
  end.

Definition parse (set : MatchSet) (bytes : list Z) : option (MatchSet * list Z) :=
  match parse_loop (length bytes) set bytes [] 0 with
  | None => None
  | Some (set', atoms) => Some (set', parse_ends atoms)
  end.

(** [Add]'s second loop moves a wildcard run's star behind the single
    wildcards; [a] is [atoms[i]], the list the atoms after it. *)
Definition sinks (a b : Z) : bool :=
  ((a =? magicAsterisk) && (b =? magicQuestion)) ||
  ((a =? magicAsterisk2) && (b =? magicUnderscore)).

Fixpoint sink_from (a : Z) (l : list Z) : list Z :=
  match l with
  | [] => [a]
  | b :: l' => if sinks a b then b :: sink_from a l' else a :: sink_from b l'
  end.

Definition sink_stars (atoms : list Z) : list Z :=
  match atoms with [] => [] | a :: l => sink_from a l end.

Definition Add (set : MatchSet) (patt : list Z) (data : D) : option MatchSet :=
  match parse set patt with
  | None => None
  | Some (set', atoms) =>
      let atoms' := sink_stars (reverse_in_place atoms) in
      Some (MkMatchSet (ms_patterns set' ++ [Pattern (encode_runes atoms') data])
              (ms_nextAtom set') (ms_charSetToAtom set') (ms_atomToCharSet set'))
  end.

Definition Empty (set : MatchSet) : bool :=
  match ms_patterns set with [] => true | _ => false end.

(** [set.atomToCharSet[atom].Contains(by)]: an absent atom reads as the
    zero set. *)
Definition atom_contains (set : MatchSet) (atom b : Z) : bool :=
  charset_Contains (default charset_zero (ms_atomToCharSet set !! atom)) b.

Definition dot_or_colon (b : Z) : bool := (b =? 46) || (b =? 58).

(** The [switch len(nextpatt.atoms)] at the last byte of the source. *)
Definition nullable_rest (next : list Z) : bool :=
  match next with
  | [] => true
  | [x] => (x =? magicDot) || (x =? magicAsterisk) || (x =? magicAsterisk2)
  | [x; y] => ((x =? magicAsterisk) || (x =? magicAsterisk2)) && (y =? magicDot)
  | _ => false
  end.

(** [checkPattern]: the new sub-patterns are appended to [matches], the data
    handed to [accumulate] to [acc].  Each call below the first drops an
    atom of the pattern, so the length of the atoms is fuel enough. *)
Fixpoint checkPattern (fuel : nat) (set : MatchSet) (patt : pattern) (bytes : list Z)
    (i : nat) (matches : list pattern) (acc : list D) : list pattern * list D :=
  match fuel with
  | O => (matches, acc)
  | S fuel' =>
      let '(atom, size) := DecodeRune (patt_atoms patt) in
      let nextpatt := Pattern (drop size (patt_atoms patt)) (patt_data patt) in
      let b := bytes !!! i in
      let at_end := (S i =? length bytes)%nat in
      let next_empty := match patt_atoms nextpatt with [] => true | _ => false end in
      if atom =? magicDot then
        if next_empty then
          if (i =? 0)%nat || (b =? 46) then (matches, acc ++ [patt_data patt])
          else (matches, acc)
        else
          let '(matches1, acc1) :=
            if (i =? 0)%nat
            then checkPattern fuel' set nextpatt (drop i bytes) 0 matches acc
            else (matches, acc) in
          let matches2 := if b =? 46 then matches1 ++ [nextpatt] else matches1 in
          (matches2 ++ [patt], acc1)
      else if (atom =? magicAsterisk) || (atom =? magicAsterisk2) then
        let '(matches1, acc1) :=
          if negb next_empty
          then checkPattern fuel' set nextpatt (drop i bytes) 0 matches acc
          else (matches, acc) in
        if (atom =? magicAsterisk) && dot_or_colon b then (matches1, acc1)
        else if at_end then
          (matches1, if next_empty then acc1 ++ [patt_data patt] else acc1)
        else (matches1 ++ [patt], acc1)
      else if (atom =? magicQuestion) && dot_or_colon b then (matches, acc)
      else if (atom =? magicQuestion) || (atom =? magicUnderscore) ||
              (atom =? b) || atom_contains set atom b then
        if at_end then
          (matches, if nullable_rest (patt_atoms nextpatt)
                    then acc ++ [patt_data patt] else acc)
        else if next_empty then (matches, acc)
        else (matches ++ [nextpatt], acc)
      else (matches, acc)
  end.

Definition pattern_fuel (patt : pattern) : nat := S (length (patt_atoms patt)).

(** [for _, patt := range patterns { matches = checkPattern(...) }] *)
Fixpoint check_all (set : MatchSet) (bytes : list Z) (i : nat) (patterns matches : list pattern)
    (acc : list D) : list pattern * list D :=
  match patterns with
  | [] => (matches, acc)
  | patt :: patterns' =>
      let '(matches', acc') :=
        checkPattern (pattern_fuel patt) set patt bytes i matches acc in
      check_all set bytes i patterns' matches' acc'
  end.

(** [for i := range bytes], from [i] with [n] indices to go. *)
Fixpoint match_loop (set : MatchSet) (bytes : list Z) (i n : nat) (patterns : list pattern)
    (acc : list D) : list D :=
  match n with
  | O => acc
  | S n' =>
      let '(matches, acc') := check_all set bytes i patterns [] acc in
      match matches with
      | [] => acc'
      | _ => match_loop set bytes (S i) n' matches acc'
      end
  end.

Fixpoint match_patterns (set : MatchSet) (bytes : list Z) (patts : list pattern)
    (acc : list D) : list D :=
  match patts with
  | [] => acc
  | patt :: patts' =>
      match_patterns set bytes patts'
        (match_loop set bytes 0 (length bytes) [patt] acc)
  end.

(** The data [Match] hands to [accumulate], in order. *)
Definition Match (set : MatchSet) (source : list Z) : list D :=
  if negb (Empty set)
  then match_patterns set (reverse_in_place source) (ms_patterns set) []
  else [].

Definition MatchAll (set : MatchSet) (source : list Z) : list D := Match set source.
End MatchSet.

Arguments pattern : clear implicits.
Arguments MatchSet : clear implicits.

Definition test_match (patt src : string) : bool :=
  match Add empty_set (bs patt) tt with
  | None => false
  | Some set => match MatchAll set (bs src) with [] => false | _ => true end
  end.

Example test_1 : test_match ".uk" "co.uk" = true.
Proof. vm_compute. reflexivity. Qed.
