(* ===== verification/Glob.v ===== *)
(** * What a pattern means.

    The reference semantics of the pattern language of internal/matchset:
    a tokenizer and an executable matcher on tokens in reading order
    ([tokens], [glob], [pattern_spec]); and, for the proofs about the
    implementation, the same matcher on lists of atoms ([aglob]) up to the
    equivalence [≡g], with its laws and its reversal. *)

From S2P Require Import Prelude Utf8 Charset MatchSet.

(** ** Tokens *)

Inductive tok :=
  | TLit (c : Z)             (** the character itself *)
  | TGroup (g : list Z)      (** a bracket group, by its body *)
  | TStar                    (** any run without dot and colon *)
  | TStar2                   (** any run *)
  | TQuest                   (** one character, no dot and no colon *)
  | TAny.                    (** one character *)

#[export] Instance tok_eq_dec : EqDecision tok.
Proof. solve_decision. Defined.

Definition next_token (b : Z) (rest : list Z) : tok * list Z :=
  if b =? 91 then (TGroup (fst (group_split rest)), snd (group_split rest))
  else if b =? 42 then
    match rest with 42 :: rest' => (TStar2, rest') | _ => (TStar, rest) end
  else if b =? 63 then (TQuest, rest)
  else if b =? 95 then (TAny, rest)
  else (TLit b, rest).

Fixpoint tokens_fuel (fuel : nat) (l : list Z) : list tok :=
  match l, fuel with
  | b :: rest, S fuel' =>
      let '(t, rest') := next_token b rest in t :: tokens_fuel fuel' rest'
  | _, _ => []
  end.

Definition tokens (l : list Z) : list tok := tokens_fuel (length l) l.

(** ** Matching *)

(** A run of characters that satisfy [ok], then [f] on what is left. *)
Fixpoint star_loop (f : list Z → bool) (ok : Z → bool) (s : list Z) : bool :=
  f s || match s with [] => false | c :: s' => ok c && star_loop f ok s' end.

Definition is_nil {A} (l : list A) : bool := match l with [] => true | _ => false end.

Definition tok_star (t : tok) : option (Z → bool) :=
  match t with
  | TStar => Some (λ c, negb (dot_or_colon c))
  | TStar2 => Some (λ _, true)
  | _ => None
  end.

Definition tok_one (t : tok) (c : Z) : bool :=
  match t with
  | TLit d => d =? c
  | TGroup g => body_has g c
  | TQuest => negb (dot_or_colon c)
  | TAny => true
  | TStar | TStar2 => false
  end.

Fixpoint glob (p : list tok) (s : list Z) : bool :=
  match p with
  | [] => is_nil s
  | t :: p' =>
      match tok_star t with
      | Some ok => star_loop (glob p') ok s
      | None => match s with [] => false | c :: s' => tok_one t c && glob p' s' end
      end
  end.

(** The parts of [s] after a dot, and the parts of [s] before one. *)
Fixpoint after_dots (s : list Z) : list (list Z) :=
  match s with
  | [] => []
  | c :: s' => if c =? 46 then s' :: after_dots s' else after_dots s'
  end.

Fixpoint before_dots (s : list Z) : list (list Z) :=
  match s with
  | [] => []
  | c :: s' => (if c =? 46 then [[]] else []) ++ (cons c <$> before_dots s')
  end.

Definition leads (p : list tok) : bool :=
  match p with TLit c :: _ => c =? 46 | _ => false end.

Definition trails (p : list tok) : bool :=
  match last p with Some (TLit c) => c =? 46 | _ => false end.

Definition lead_core (p : list tok) : list tok := if leads p then tail p else p.
Definition trail_core (p : list tok) : list tok := if trails p then removelast p else p.

(** The tokens between a leading and a trailing dot. *)
Definition core (p : list tok) : list tok := trail_core (lead_core p).

(** A non-empty source matches when some part of it matches the core: the
    whole, or, with a leading dot, a part that starts right after a dot, and,
    with a trailing dot, a part that ends right before one.  A pattern of
    nothing but such dots matches everything. *)
Definition pattern_spec (p : list tok) (s : list Z) : bool :=
  negb (is_nil s) &&
  (is_nil (core p) ||
   existsb (λ m,
     existsb (glob (core p)) (m :: if trails (lead_core p) then before_dots m else []))
     (s :: if leads p then after_dots s else [])).

(** ** Matching on atoms *)

Definition is_star (a : Z) : bool := (a =? 1) || (a =? 2).

Definition star_ok (a c : Z) : bool := if a =? 1 then negb (dot_or_colon c) else true.

Section Atoms.
(** Which bytes an ordinary atom stands for. *)
Variable lit : Z → Z → bool.

Definition one (a c : Z) : bool :=
  if a =? 3 then negb (dot_or_colon c) else if a =? 4 then true else lit a c.

Fixpoint aglob (p : list Z) (s : list Z) : bool :=
  match p with
  | [] => is_nil s
  | a :: p' =>
      if is_star a then star_loop (aglob p') (star_ok a) s
      else match s with [] => false | c :: s' => one a c && aglob p' s' end
  end.

Lemma star_loop_iff f ok s :
  star_loop f ok s = true ↔
  ∃ s1 s2, s = s1 ++ s2 ∧ forallb ok s1 = true ∧ f s2 = true.
Proof.
  induction s as [|c s IH]; simpl.
  - rewrite orb_false_r. split.
    + intros H. by exists [], [].
    + intros (s1 & s2 & E & _ & H). symmetry in E. apply app_eq_nil in E as [-> ->]. done.
  - rewrite orb_true_iff, andb_true_iff, IH. split.
    + intros [H|[Hc (s1 & s2 & -> & H1 & H2)]]; [by exists [], (c :: s)|].
      exists (c :: s1), s2. simpl. by rewrite Hc, H1.
    + intros (s1 & s2 & E & H1 & H2). destruct s1 as [|d s1]; simpl in *; [by subst; left|].
      injection E as <- ->. apply andb_true_iff in H1 as [Hd H1]. right. split; [done|].
      by exists s1, s2.
Qed.

Lemma aglob_app p q s :
  aglob (p ++ q) s = true ↔ ∃ s1 s2, s = s1 ++ s2 ∧ aglob p s1 = true ∧ aglob q s2 = true.
Proof.
  revert s. induction p as [|a p IH]; intros s; simpl.
  - split; [intros H; by exists [], s|]. intros (s1 & s2 & -> & H1 & H2).
    by destruct s1.
  - destruct (is_star a).
    + rewrite star_loop_iff. setoid_rewrite IH. setoid_rewrite star_loop_iff. split.
      * intros (s1 & s2 & -> & Hok & s3 & s4 & -> & H3 & H4).
        exists (s1 ++ s3), s4. rewrite app_assoc. split_and!; [done| |done].
        by exists s1, s3.
      * intros (s1 & s2 & -> & (s3 & s4 & -> & Hok & H4) & H2).
        exists s3, (s4 ++ s2). rewrite app_assoc. split_and!; [done|done|].
        by exists s4, s2.
    + destruct s as [|c s].
      * split; [done|]. intros (s1 & s2 & E & H1 & H2).
        symmetry in E. apply app_eq_nil in E as [-> ->]. done.
      * rewrite andb_true_iff, IH. split.
        -- intros [Hc (s1 & s2 & -> & H1 & H2)]. exists (c :: s1), s2. by rewrite Hc, H1.
        -- intros (s1 & s2 & E & H1 & H2). destruct s1 as [|d s1]; [done|].
           injection E as <- ->. apply andb_true_iff in H1 as [Hd H1]. split; [done|].
           by exists s1, s2.
Qed.

Lemma aglob_singleton a s :
  aglob [a] s = true ↔
  if is_star a then forallb (star_ok a) s = true else ∃ c, s = [c] ∧ one a c = true.
Proof.
  simpl. destruct (is_star a).
  - rewrite star_loop_iff. split.
    + intros (s1 & s2 & -> & H1 & H2). destruct s2; [by rewrite app_nil_r|done].
    + intros H. exists s, []. by rewrite app_nil_r.
  - destruct s as [|c [|d s]]; rewrite ?andb_true_iff, ?andb_false_r; simpl.
    + split; [done|]. by intros (c & ? & _).
    + split; [intros [? _]; by exists c|]. intros (d & [= <-] & H). done.
    + split; [intros [_ ?]; done|]. by intros (e & ? & _).
Qed.

Lemma forallb_reverse (f : Z → bool) s : forallb f (reverse s) = forallb f s.
Proof.
  induction s as [|c s IH]; [done|]. rewrite reverse_cons, forallb_app, IH. simpl.
  by rewrite andb_true_r, andb_comm.
Qed.

(** A reversed pattern matches exactly the reversed strings. *)
Lemma aglob_reverse p s : aglob (reverse p) (reverse s) = true ↔ aglob p s = true.
Proof.
  revert s. induction p as [|a p IH]; intros s.
  - simpl. destruct s; [done|]. rewrite reverse_cons. split; [|done].
    by destruct (reverse s).
  - rewrite reverse_cons. change (a :: p) with ([a] ++ p). rewrite !aglob_app. split.
    + intros (s1 & s2 & E & H1 & H2). exists (reverse s2), (reverse s1).
      rewrite <- reverse_app, <- E, reverse_involutive. split; [done|].
      rewrite <- IH, reverse_involutive. split; [|done].
      apply aglob_singleton in H2. apply aglob_singleton.
      destruct (is_star a); [by rewrite forallb_reverse|].
      destruct H2 as (c & -> & Hc). by exists c.
    + intros (s1 & s2 & -> & H1 & H2). exists (reverse s2), (reverse s1).
      rewrite reverse_app, IH. split_and!; [done|done|].
      apply aglob_singleton in H1. apply aglob_singleton.
      destruct (is_star a); [by rewrite forallb_reverse|].
      destruct H1 as (c & -> & Hc). by exists c.
Qed.

(** ** Equivalence of patterns *)

Definition glob_equiv (p q : list Z) : Prop := ∀ s, aglob p s = aglob q s.

#[export] Instance glob_equiv_equivalence : Equivalence glob_equiv.
Proof.
  split.
  - by intros p s.
  - intros p q H s. by rewrite H.
  - intros p q r H1 H2 s. by rewrite H1, H2.
Qed.

Lemma glob_equiv_iff p q : glob_equiv p q ↔ ∀ s, aglob p s = true ↔ aglob q s = true.
Proof.
  split; [intros H s; by rewrite H|]. intros H s. apply eq_true_iff_eq, H.
Qed.

#[export] Instance app_glob_equiv : Proper (glob_equiv ==> glob_equiv ==> glob_equiv) app.
Proof.
  intros p p' Hp q q' Hq. apply glob_equiv_iff. intros s. rewrite !aglob_app.
  split; intros (s1 & s2 & -> & H1 & H2); exists s1, s2;
    (split_and!; [done|by rewrite Hp in *|by rewrite Hq in *]).
Qed.

#[export] Instance cons_glob_equiv a : Proper (glob_equiv ==> glob_equiv) (cons a).
Proof. intros p p' Hp. change (glob_equiv ([a] ++ p) ([a] ++ p')). by rewrite Hp. Qed.
End Atoms.
