(* ===== verification/Normalize.v ===== *)
(** * Normalization of wildcard runs.

    [parse] merges runs of stars and moves a star behind the single wildcards
    it absorbs ([parse_atom]); [Add] does the same again on the reversed
    atoms ([sink_stars]).  Both keep the meaning of the pattern, and together
    they leave no two stars side by side unless the pattern mixes the two
    kinds of star. *)

From S2P Require Import Prelude Utf8 Charset MatchSet Glob.

(** The atoms [parse] builds from the sequence of atoms it reads. *)
Definition normalize_from (st : list Z * Z) (raw : list Z) : list Z * Z :=
  foldl (λ '(atoms, lastAtom) cur, parse_atom atoms lastAtom cur) st raw.

Definition normalize (raw : list Z) : list Z := fst (normalize_from ([], 0) raw).

(** A relation between neighbours. *)
Fixpoint adj (R : Z → Z → Prop) (l : list Z) : Prop :=
  match l with
  | [] => True
  | a :: t => match t with [] => True | b :: _ => R a b end ∧ adj R t
  end.

Lemma adj_cons R a l : adj R (a :: l) ↔ (∀ b, head l = Some b → R a b) ∧ adj R l.
Proof.
  destruct l as [|b l]; simpl; naive_solver.
Qed.

Lemma adj_snoc R l x : adj R (l ++ [x]) ↔ adj R l ∧ (∀ y, last l = Some y → R y x).
Proof.
  induction l as [|a l IH].
  { simpl. split; [|done]. intros _. split; [done|]. by intros y [=]. }
  rewrite <- app_comm_cons, !adj_cons, IH. destruct l as [|b l].
  - simpl. split.
    + intros [H _]. split; [split; [by intros|done]|]. intros y [= <-]. by apply H.
    + intros [_ H]. split; [intros b [= <-]; by apply H|]. split; [done|]. by intros y [=].
  - rewrite last_cons_cons. simpl. naive_solver.
Qed.

Lemma set_last_snoc l y x : set_last (l ++ [y]) x = l ++ [x].
Proof.
  unfold set_last. rewrite length_app. simpl.
  replace (pred (length l + 1)) with (length l) by lia.
  rewrite insert_app_r_alt by lia. by rewrite Nat.sub_diag.
Qed.

(** What [lastAtom] knows about the atoms. *)
Definition last_tracks (atoms : list Z) (lastAtom : Z) : Prop :=
  (lastAtom = 1 ↔ last atoms = Some 1) ∧ (lastAtom = 2 ↔ last atoms = Some 2).

(** Neighbours [parse] never leaves behind. *)
Definition settled (a b : Z) : Prop :=
  (is_star a = true → is_star b = false) ∧ sinks a b = false.

Lemma last_tracks_star atoms a :
  last_tracks atoms a → is_star a = true → ∃ l, atoms = l ++ [a].
Proof.
  intros [H1 H2] Ha. apply last_Some. unfold is_star in Ha.
  assert (a = 1 ∨ a = 2) as [->| ->] by lia; [by apply H1|by apply H2].
Qed.

(** The six outcomes of [parse_atom], by what it does to the atoms. *)
Inductive parse_outcome (atoms : list Z) (lastAtom cur : Z) : list Z * Z → Prop :=
  | PoSkip : is_star cur = true → is_star lastAtom = true →
      (cur = 2 → lastAtom = 2) → parse_outcome atoms lastAtom cur (atoms, lastAtom)
  | PoUpgrade l : cur = 2 → lastAtom = 1 → atoms = l ++ [1] →
      parse_outcome atoms lastAtom cur (l ++ [2], 2)
  | PoSink l : sinks lastAtom cur = true → atoms = l ++ [lastAtom] →
      parse_outcome atoms lastAtom cur (l ++ [cur; lastAtom], lastAtom)
  | PoPush : (is_star cur = true → is_star lastAtom = false) → sinks lastAtom cur = false →
      parse_outcome atoms lastAtom cur (atoms ++ [cur], cur).

Lemma parse_atom_outcome atoms lastAtom cur :
  last_tracks atoms lastAtom →
  parse_outcome atoms lastAtom cur (parse_atom atoms lastAtom cur).
Proof.
  intros Hl. unfold parse_atom.
  destruct (Z.eqb_spec cur 1) as [->|H1]; [|destruct (Z.eqb_spec cur 2) as [->|H2];
    [|destruct (Z.eqb_spec cur 3) as [->|H3]; [|destruct (Z.eqb_spec cur 4) as [->|H4]]]].
  - destruct (Z.eqb_spec lastAtom 1) as [->|]; [by apply PoSkip|].
    destruct (Z.eqb_spec lastAtom 2) as [->|]; simpl; [by apply PoSkip|].
    apply PoPush; unfold is_star, sinks; lia.
  - destruct (Z.eqb_spec lastAtom 1) as [->|].
    { destruct (last_tracks_star _ _ Hl eq_refl) as [l ->]. rewrite set_last_snoc.
      by eapply PoUpgrade. }
    destruct (Z.eqb_spec lastAtom 2) as [->|]; simpl; [by apply PoSkip|].
    apply PoPush; unfold is_star, sinks; lia.
  - destruct (Z.eqb_spec lastAtom 1) as [->|].
    { destruct (last_tracks_star _ _ Hl eq_refl) as [l ->].
      rewrite set_last_snoc, <- app_assoc. by apply PoSink. }
    apply PoPush; unfold is_star, sinks; lia.
  - destruct (Z.eqb_spec lastAtom 2) as [->|].
    { destruct (last_tracks_star _ _ Hl eq_refl) as [l ->].
      rewrite set_last_snoc, <- app_assoc. by apply PoSink. }
    apply PoPush; unfold is_star, sinks; lia.
  - apply PoPush; unfold is_star, sinks; lia.
Qed.

Lemma outcome_tracks atoms lastAtom cur r :
  last_tracks atoms lastAtom → parse_outcome atoms lastAtom cur r →
  last_tracks (fst r) (snd r).
Proof.
  intros Hl [| | |]; subst; simpl; [done|..];
    unfold last_tracks; rewrite ?last_snoc; try (split; naive_solver).
  change [cur; lastAtom] with ([cur] ++ [lastAtom]).
  rewrite app_assoc, last_snoc. split; naive_solver.
Qed.

Lemma outcome_settled atoms lastAtom cur r :
  last_tracks atoms lastAtom → adj settled atoms →
  parse_outcome atoms lastAtom cur r → adj settled (fst r).
Proof.
  intros Hl Ha [Hc Hs Hu|l Hc Hs ->|l Hs ->|Hc Hs]; simpl; [done|..].
  - apply adj_snoc in Ha as [Ha Hy]. apply adj_snoc. split; [done|].
    intros y Ey. destruct (Hy y Ey) as [H1 H2].
    split; [intros Hst; by apply H1 in Hst|]. unfold sinks. lia.
  - apply adj_snoc in Ha as [Ha Hy].
    change [cur; lastAtom] with ([cur] ++ [lastAtom]). rewrite app_assoc, !adj_snoc.
    split_and!; [done| |].
    + intros y Ey. destruct (Hy y Ey) as [H1 H2].
      unfold settled, sinks, is_star in *. split; lia.
    + intros y. rewrite last_snoc. intros [= <-].
      unfold settled, sinks, is_star in *. split; lia.
  - apply adj_snoc. split; [done|]. intros y Ey.
    assert (is_star y = true → lastAtom = y) as Hy.
    { intros Hst. unfold is_star in Hst. destruct Hl as [H1 H2].
      assert (y = 1 ∨ y = 2) as [->| ->] by lia; [by apply H1|by apply H2]. }
    unfold settled, sinks, is_star in *.
    destruct (decide (y = 1 ∨ y = 2)) as [Hst|Hst]; [rewrite <- Hy by lia|]; lia.
Qed.

Section Meaning.
Variable lit : Z → Z → bool.
Local Notation "p ≡g q" := (glob_equiv lit p q) (at level 70).

Lemma two_stars a b s :
  is_star a = true → is_star b = true →
  aglob lit [a; b] s = true ↔
  ∃ s1 s2, s = s1 ++ s2 ∧ forallb (star_ok a) s1 = true ∧ forallb (star_ok b) s2 = true.
Proof.
  intros Ha Hb. change [a; b] with ([a] ++ [b]). rewrite aglob_app.
  setoid_rewrite aglob_singleton. by rewrite Ha, Hb.
Qed.

Lemma star_ok_weaken s : forallb (star_ok 1) s = true → forallb (star_ok 2) s = true.
Proof. intros _. by apply forallb_forall. Qed.

Lemma star_star a b : is_star a = true → is_star b = true → [a; b] ≡g [Z.max a b].
Proof.
  intros Ha Hb. apply glob_equiv_iff. intros s.
  rewrite two_stars, aglob_singleton by done.
  assert (is_star (Z.max a b) = true) as -> by (unfold is_star in *; lia).
  assert (∀ s, forallb (star_ok 2) s = true) as H2 by (intros; by apply forallb_forall).
  assert ((a = 1 ∨ a = 2) ∧ (b = 1 ∨ b = 2)) as [[->| ->] [->| ->]]
    by (unfold is_star in *; lia);
    match goal with |- context [Z.max ?x ?y] =>
      let v := eval vm_compute in (Z.max x y) in change (Z.max x y) with v end.
  1: split; [intros (s1 & s2 & -> & H1 & H3); rewrite forallb_app; by rewrite H1, H3|].
  all: try (split; [intros _; by apply H2|]).
  all: intros H; first [ by exists s, []; rewrite app_nil_r | by exists [], s ].
Qed.

Lemma star_single a b : sinks a b = true → [a; b] ≡g [b; a].
Proof.
  intros Hab. apply glob_equiv_iff. intros s.
  assert (∀ c, one lit b c = star_ok a c) as Hone.
  { intros c. unfold one, star_ok, sinks in *.
    assert (a = 1 ∧ b = 3 ∨ a = 2 ∧ b = 4) as [[-> ->]|[-> ->]] by lia; done. }
  change [a; b] with ([a] ++ [b]). change [b; a] with ([b] ++ [a]).
  rewrite !aglob_app. setoid_rewrite aglob_singleton.
  assert (is_star a = true) as -> by (unfold is_star, sinks in *; lia).
  assert (is_star b = false) as -> by (unfold is_star, sinks in *; lia).
  split.
  - intros (s1 & s2 & -> & H1 & c & -> & Hc). rewrite Hone in Hc.
    destruct s1 as [|d s1].
    + exists [c], []. split_and!; [done| |done]. exists c. by rewrite Hone.
    + simpl in H1. apply andb_true_iff in H1 as [Hd H1]. exists [d], (s1 ++ [c]).
      split_and!; [done|exists d; by rewrite Hone|]. rewrite forallb_app, H1. simpl.
      by rewrite Hc.
  - intros (s1 & s2 & -> & (c & -> & Hc) & H2). rewrite Hone in Hc.
    destruct s2 as [|d s2 _] using rev_ind.
    + exists [], [c]. split_and!; [done|done|]. exists c. by rewrite Hone.
    + rewrite forallb_app in H2. simpl in H2. apply andb_true_iff in H2 as [H2 Hd].
      rewrite andb_true_r in Hd. exists (c :: s2), [d].
      split_and!; [done|simpl; by rewrite Hc, H2|exists d; by rewrite Hone].
Qed.

Lemma outcome_meaning atoms lastAtom cur r :
  last_tracks atoms lastAtom → parse_outcome atoms lastAtom cur r →
  fst r ≡g atoms ++ [cur].
Proof.
  intros Hl [Hc Hs Hu|l -> -> ->|l Hs ->|Hc Hs]; simpl; [|..|done].
  - destruct (last_tracks_star _ _ Hl Hs) as [l ->]. rewrite <- app_assoc.
    change ([lastAtom] ++ [cur]) with [lastAtom; cur]. rewrite star_star by done.
    replace (Z.max lastAtom cur) with lastAtom; [done|]. unfold is_star in *. lia.
  - rewrite <- app_assoc. change ([1] ++ [2]) with [1; 2].
    rewrite (star_star 1 2) by done. reflexivity.
  - rewrite <- app_assoc. change ([lastAtom] ++ [cur]) with [lastAtom; cur].
    rewrite (star_single lastAtom cur) by done. reflexivity.
Qed.
End Meaning.

(** ** A whole pattern *)

Lemma normalize_from_snoc st raw cur :
  normalize_from st (raw ++ [cur]) =
  parse_atom (fst (normalize_from st raw)) (snd (normalize_from st raw)) cur.
Proof.
  unfold normalize_from. rewrite foldl_app. simpl. by destruct (foldl _ st raw).
Qed.

Lemma normalize_inv raw :
  last_tracks (normalize raw) (snd (normalize_from ([], 0) raw)) ∧
  adj settled (normalize raw).
Proof.
  unfold normalize. induction raw as [|cur raw IH] using rev_ind.
  { split; [|done]. by split; split. }
  rewrite normalize_from_snoc. destruct IH as [Hl Ha].
  pose proof (parse_atom_outcome _ _ cur Hl) as Ho.
  split; [by eapply outcome_tracks|by eapply outcome_settled].
Qed.

Lemma normalize_snoc raw cur :
  ∃ l, last_tracks (normalize raw) l ∧
    parse_outcome (normalize raw) l cur (normalize_from ([], 0) (raw ++ [cur])) ∧
    normalize (raw ++ [cur]) = fst (normalize_from ([], 0) (raw ++ [cur])).
Proof.
  destruct (normalize_inv raw) as [Hl _]. eexists. split; [exact Hl|].
  rewrite normalize_from_snoc. split; [by apply parse_atom_outcome|].
  unfold normalize. by rewrite normalize_from_snoc.
Qed.

Lemma normalize_meaning lit raw : glob_equiv lit (normalize raw) raw.
Proof.
  induction raw as [|cur raw IH] using rev_ind; [done|].
  destruct (normalize_snoc raw cur) as (l & Hl & Ho & ->).
  rewrite (outcome_meaning lit _ _ _ _ Hl Ho). by rewrite IH.
Qed.

Lemma normalize_elem raw x : x ∈ normalize raw → x ∈ raw.
Proof.
  induction raw as [|cur raw IH] using rev_ind; [done|].
  destruct (normalize_snoc raw cur) as (l & Hl & Ho & ->).
  rewrite elem_of_app, list_elem_of_singleton.
  destruct Ho as [|l' -> -> E|l' ? E|]; simpl; [auto|..]; try rewrite E in IH;
    rewrite ?elem_of_app in *; set_solver.
Qed.

Definition dot_head (l : list Z) : bool := match l with a :: _ => a =? 46 | [] => false end.
Definition dot_last (l : list Z) : bool :=
  match last l with Some a => a =? 46 | None => false end.

Definition atom_lead (l : list Z) : list Z := if dot_head l then tail l else l.
Definition atom_trail (l : list Z) : list Z := if dot_last l then removelast l else l.
Definition atom_core (l : list Z) : list Z := atom_trail (atom_lead l).

Lemma normalize_single cur : normalize [cur] = [cur].
Proof.
  unfold normalize. simpl. unfold parse_atom. simpl.
  repeat case_match; simpl; f_equal; lia.
Qed.

Lemma dot_head_normalize raw : dot_head (normalize raw) = dot_head raw.
Proof.
  destruct raw as [|r raw]; [done|]. cut (∃ a l, normalize (r :: raw) = a :: l ∧ (a =? 46) = (r =? 46)).
  { intros (a & l & -> & H). done. }
  induction raw as [|cur raw IH] using rev_ind; [rewrite normalize_single; eauto|].
  destruct IH as (a & at' & Ea & H).
  rewrite app_comm_cons. destruct (normalize_snoc (r :: raw) cur) as (l & Hl & Ho & ->).
  rewrite Ea in Ho. destruct Ho as [|l' -> -> E|l' Hs E|]; simpl; [eauto|..|eauto].
  - destruct l' as [|x l']; injection E as -> ->; simpl; eauto.
  - destruct l' as [|x l']; injection E as -> ->; simpl; [|eauto].
    eexists _, _. split; [done|]. unfold sinks in Hs. lia.
Qed.

Lemma dot_last_normalize raw : dot_last (normalize raw) = dot_last raw.
Proof.
  destruct raw as [|cur raw _] using rev_ind; [done|].
  destruct (normalize_snoc raw cur) as (l & Hl & Ho & ->). unfold dot_last.
  rewrite (last_snoc cur raw).
  destruct Ho as [Hc Hs _|l' -> -> E|l' Hs E|]; simpl; rewrite ?last_snoc; [|done|..|done].
  - destruct (last_tracks_star _ _ Hl Hs) as [l' ->]. rewrite last_snoc.
    unfold is_star in *. lia.
  - change [cur; l] with ([cur] ++ [l]). rewrite app_assoc, last_snoc.
    unfold sinks in Hs. lia.
Qed.

(** A leading dot is in nobody's way. *)
Lemma normalize_lead raw : normalize (46 :: raw) = 46 :: normalize raw.
Proof.
  cut (∃ l1 l2, normalize_from ([], 0) (46 :: raw) = (46 :: normalize raw, l1) ∧
         normalize_from ([], 0) raw = (normalize raw, l2) ∧
         (l1 = l2 ∨ normalize raw = [] ∧ l1 = 46 ∧ l2 = 0)).
  { intros (l1 & l2 & E & _). unfold normalize at 1. by rewrite E. }
  induction raw as [|cur raw IH] using rev_ind.
  { exists 46, 0. split_and!; [done|done|auto]. }
  destruct IH as (l1 & l2 & E1 & E2 & H).
  rewrite app_comm_cons. unfold normalize. rewrite !normalize_from_snoc, E1, E2. simpl.
  destruct (normalize_inv raw) as [Hl _]. rewrite E2 in Hl. simpl in Hl.
  pose proof (parse_atom_outcome _ _ cur Hl) as Ho.
  exists (snd (parse_atom (46 :: normalize raw) l1 cur)), (snd (parse_atom (normalize raw) l2 cur)).
  split_and!; [|by destruct (parse_atom (normalize raw) l2 cur)|].
  - destruct H as [->|(-> & -> & ->)].
    + rewrite (surjective_pairing (parse_atom (46 :: _) _ _)). f_equal. unfold parse_atom.
      assert (is_star l2 = true → ∀ x, set_last (46 :: normalize raw) x =
                46 :: set_last (normalize raw) x) as Hset.
      { intros Hs x. destruct (last_tracks_star _ _ Hl Hs) as [l ->].
        by rewrite app_comm_cons, !set_last_snoc. }
      unfold is_star in Hset.
      repeat (case_match; simpl; try done); rewrite ?Hset by lia; done.
    + unfold parse_atom. simpl. by repeat case_match.
  - left. destruct H as [->|(-> & -> & ->)]; unfold parse_atom; simpl; by repeat case_match.
Qed.

Lemma normalize_trail raw : normalize (raw ++ [46]) = normalize raw ++ [46].
Proof. unfold normalize. by rewrite normalize_from_snoc. Qed.

Lemma dot_head_inv l : dot_head l = true → l = 46 :: tail l.
Proof. destruct l as [|a l]; [done|]. simpl. intros. f_equal. lia. Qed.

Lemma dot_last_inv l : dot_last l = true → l = removelast l ++ [46].
Proof.
  destruct l as [|a l _] using rev_ind; [done|]. unfold dot_last.
  rewrite last_snoc, removelast_last. intros. do 2 f_equal. lia.
Qed.

Lemma atom_core_normalize raw : atom_core (normalize raw) = normalize (atom_core raw).
Proof.
  assert (atom_lead (normalize raw) = normalize (atom_lead raw)) as El.
  { unfold atom_lead. rewrite dot_head_normalize.
    destruct (dot_head raw) eqn:E; [|done]. apply dot_head_inv in E.
    rewrite E at 1. by rewrite normalize_lead. }
  unfold atom_core. rewrite El. unfold atom_trail. rewrite dot_last_normalize.
  destruct (dot_last (atom_lead raw)) eqn:E; [|done]. apply dot_last_inv in E.
  rewrite E at 1. by rewrite normalize_trail, removelast_last.
Qed.

Definition zero_if (b : bool) : list Z := if b then [0] else [].

(** The two ends of a parsed pattern. *)
Lemma parse_ends_core l :
  l ≠ [] →
  parse_ends l = zero_if (dot_head l) ++ atom_core l ++ zero_if (dot_last (atom_lead l)).
Proof.
  intros Hl. destruct l as [|a l]; [done|]. unfold atom_core, atom_lead, parse_ends.
  change (dot_head (a :: l)) with (a =? 46).
  assert (∀ m : list Z, m ≠ [] → (if m !!! pred (length m) =? 46 then set_last m 0 else m) =
            atom_trail m ++ zero_if (dot_last m)) as Ht.
  { intros m Hm. destruct m as [|x m _] using rev_ind; [done|].
    unfold atom_trail, dot_last. rewrite last_snoc, removelast_last, set_last_snoc.
    rewrite length_app. simpl. replace (pred (length m + 1)) with (length m) by lia.
    rewrite list_lookup_total_middle by done.
    destruct (x =? 46); simpl; [done|by rewrite app_nil_r]. }
  destruct (Z.eqb_spec a 46) as [->|Hne]; simpl zero_if; [|by rewrite Ht].
  simpl tail. change (<[O:=0]> (46 :: l)) with (0 :: l). rewrite Ht by done.
  destruct l as [|x l _] using rev_ind; [done|].
  unfold atom_trail, dot_last. rewrite app_comm_cons, !last_snoc, !removelast_last.
  by destruct (x =? 46).
Qed.

(** ** Sinking the stars of the reversed atoms *)

Lemma sink_from_meaning lit a l : glob_equiv lit (sink_from a l) (a :: l).
Proof.
  revert a. induction l as [|b l IH]; intros a; [done|]. simpl.
  destruct (sinks a b) eqn:E; [|by rewrite IH].
  rewrite IH. change (glob_equiv lit ([b; a] ++ l) ([a; b] ++ l)).
  rewrite (star_single lit a b) by done. reflexivity.
Qed.

Lemma sink_stars_meaning lit l : glob_equiv lit (sink_stars l) l.
Proof. destruct l; [done|]. apply sink_from_meaning. Qed.

Lemma sink_from_zero a l : sink_from a (l ++ [0]) = sink_from a l ++ [0].
Proof.
  revert a. induction l as [|b l IH]; intros a; simpl.
  - unfold sinks. by rewrite !andb_false_r.
  - destruct (sinks a b); simpl; by rewrite IH.
Qed.

Lemma sink_stars_trail l b : sink_stars (l ++ zero_if b) = sink_stars l ++ zero_if b.
Proof.
  destruct b; simpl; [|by rewrite !app_nil_r]. destruct l as [|a l]; [done|].
  apply sink_from_zero.
Qed.

Lemma sink_stars_lead l b : sink_stars (zero_if b ++ l) = zero_if b ++ sink_stars l.
Proof. by destruct b, l. Qed.

Lemma sink_from_elem a l x : x ∈ sink_from a l ↔ x ∈ a :: l.
Proof.
  revert a. induction l as [|b l IH]; intros a; simpl; [done|].
  destruct (sinks a b); rewrite !elem_of_cons, IH, !elem_of_cons; tauto.
Qed.

Lemma sink_stars_elem l x : x ∈ sink_stars l ↔ x ∈ l.
Proof. destruct l; [done|]. apply sink_from_elem. Qed.

Definition apart (a b : Z) : Prop := is_star a = true → is_star b = false.

(** At most one kind of star. *)
Definition one_kind (l : list Z) : Prop :=
  ∀ x y, x ∈ l → y ∈ l → is_star x = true → is_star y = true → x = y.

Lemma sink_from_apart a l :
  one_kind (a :: l) → adj (λ a b, settled b a) (a :: l) →
  adj apart (sink_from a l) ∧
  (∀ b, head (sink_from a l) = Some b → is_star b = true → is_star a = true).
Proof.
  revert a. induction l as [|b l IH]; intros a Hk Ha; simpl.
  { split; [by repeat split|]. by intros b [= <-]. }
  apply adj_cons in Ha as [Hab Ha]. specialize (Hab b eq_refl). destruct Hab as [H1 H2].
  destruct (sinks a b) eqn:E.
  - assert (is_star a = true ∧ is_star b = false) as [Hsa Hsb]
      by (unfold sinks, is_star in *; lia).
    destruct (IH a) as [I1 I2].
    { intros x y Hx Hy. apply Hk; set_solver. }
    { apply adj_cons in Ha as [Hbc Ha]. apply adj_cons. split; [|done].
      intros c Hc. specialize (Hbc c Hc). destruct Hbc as [H3 H4].
      assert (is_star c = false).
      { destruct (is_star c) eqn:Ec; [|done]. exfalso.
        assert (a = c) as ->.
        { apply Hk; [set_solver| |done|done]. destruct l; [done|].
          injection Hc as ->. set_solver. }
        by rewrite E in H4. }
      split; [congruence|]. unfold sinks, is_star in *. lia. }
    split; [|by intros ? [= <-]]. apply adj_cons. split; [|done].
    intros c _ Hb. congruence.
  - destruct (IH b) as [I1 I2]; [intros x y Hx Hy; apply Hk; set_solver|done|].
    split; [|by intros ? [= <-]]. apply adj_cons. split; [|done].
    intros c Hc Hsa. destruct (is_star c) eqn:Ec; [|done].
    specialize (I2 c Hc Ec). apply H1 in I2. congruence.
Qed.

Lemma adj_reverse R l : adj R l → adj (λ a b, R b a) (reverse l).
Proof.
  induction l as [|a l IH]; [done|]. rewrite adj_cons, reverse_cons, adj_snoc.
  intros [H Ha]. split; [by apply IH|]. intros y Hy. apply H.
  destruct l as [|b l]; [done|]. rewrite reverse_cons, last_snoc in Hy. done.
Qed.

(** A pattern with one kind of star compiles to separated stars. *)
Lemma compiled_apart raw :
  one_kind raw → adj apart (sink_stars (reverse (normalize raw))).
Proof.
  intros Hk. destruct (normalize_inv raw) as [_ Ha]. apply adj_reverse in Ha.
  assert (one_kind (reverse (normalize raw))) as Hk'.
  { intros x y Hx Hy. rewrite elem_of_reverse in Hx, Hy.
    apply Hk; by apply normalize_elem. }
  destruct (reverse (normalize raw)); [done|]. by apply sink_from_apart.
Qed.

(** The atoms [Add] stores for the sequence of atoms it read. *)
Definition compiled (raw : list Z) : list Z :=
  sink_stars (reverse (parse_ends (normalize raw))).

Lemma normalize_nil raw : normalize raw = [] → raw = [].
Proof.
  destruct raw as [|cur raw _] using rev_ind; [done|].
  destruct (normalize_snoc raw cur) as (l & Hl & Ho & ->).
  intros E. destruct Ho as [Hc Hs _| | |]; simpl in E; [|by destruct l0..|by destruct (normalize raw)].
  destruct (last_tracks_star _ _ Hl Hs) as [l' E']. rewrite E in E'. by destruct l'.
Qed.

Lemma reverse_zero_if b : reverse (zero_if b) = zero_if b.
Proof. by destruct b. Qed.

Lemma compiled_shape raw :
  raw ≠ [] →
  compiled raw = zero_if (dot_last (atom_lead raw)) ++
    sink_stars (reverse (normalize (atom_core raw))) ++ zero_if (dot_head raw).
Proof.
  intros Hr. unfold compiled.
  rewrite parse_ends_core by (intros ?%normalize_nil; done).
  assert (dot_last (atom_lead (normalize raw)) = dot_last (atom_lead raw)) as ->.
  { unfold atom_lead. rewrite dot_head_normalize. destruct (dot_head raw) eqn:E.
    - apply dot_head_inv in E. rewrite E at 1. rewrite normalize_lead.
      apply dot_last_normalize.
    - apply dot_last_normalize. }
  rewrite dot_head_normalize, atom_core_normalize.
  by rewrite !reverse_app, !reverse_zero_if, <- app_assoc, sink_stars_lead, sink_stars_trail.
Qed.

Lemma compiled_nil : compiled [] = [0].
Proof. done. Qed.

Lemma compiled_core_meaning lit raw :
  glob_equiv lit (sink_stars (reverse (normalize raw))) (reverse raw).
Proof.
  rewrite sink_stars_meaning. intros s. apply eq_true_iff_eq.
  rewrite <- (reverse_involutive s), !aglob_reverse. by rewrite normalize_meaning.
Qed.

(** ** The star at the front

    Whether the run of single wildcards at the front of the atoms ends in a
    star of the first kind: exactly then does the compiled pattern end in
    one. *)
Definition quest (a : Z) : bool := a =? 3.

Fixpoint star_front (l : list Z) : bool :=
  match l with
  | [] => false
  | a :: l' => (a =? 1) || ((a =? 3) && star_front l')
  end.

Lemma star_front_snoc l a :
  star_front (l ++ [a]) = star_front l || (forallb quest l && (a =? 1)).
Proof.
  induction l as [|b l IH]; cbn [star_front forallb app].
  { rewrite andb_false_r. by destruct (a =? 1). }
  rewrite IH. destruct (Z.eqb_spec b 1) as [->|]; [done|].
  fold (quest b). by destruct (quest b).
Qed.

Lemma normalize_all3 raw :
  forallb quest (normalize raw) = true → normalize raw = raw.
Proof.
  induction raw as [|cur raw IH] using rev_ind; [done|].
  destruct (normalize_snoc raw cur) as (l & Hl & Ho & ->).
  destruct Ho as [Hc Hs _|l' -> -> E|l' Hs E|Hc Hs]; simpl.
  - intros H3. destruct (last_tracks_star _ _ Hl Hs) as [l1 E]. rewrite E, forallb_app in H3.
    simpl in H3. unfold is_star, quest in *. lia.
  - rewrite forallb_app. simpl. unfold quest. lia.
  - rewrite forallb_app. simpl. unfold sinks, quest in *. lia.
  - rewrite forallb_app. intros [H _]%andb_true_iff. by rewrite IH.
Qed.

Lemma star_front_normalize raw : star_front (normalize raw) = true → star_front raw = true.
Proof.
  induction raw as [|cur raw IH] using rev_ind; [done|].
  destruct (normalize_snoc raw cur) as (l & Hl & Ho & ->).
  rewrite (star_front_snoc raw). destruct Ho as [Hc Hs _|l' -> -> E|l' Hs E|Hc Hs]; cbn [fst].
  - intros H. by rewrite IH.
  - rewrite E in IH. rewrite star_front_snoc in *. simpl. rewrite andb_false_r, orb_false_r.
    intros H. rewrite IH; [done|]. by rewrite H.
  - rewrite E, star_front_snoc in IH. change [cur; l] with ([cur] ++ [l]).
    rewrite app_assoc, !star_front_snoc, forallb_app.
    intros H. rewrite IH; [done|]. unfold sinks in Hs. simpl in H.
    destruct (star_front l'); [done|]. simpl in *.
    unfold quest in *. destruct (forallb _ l'); simpl in *; lia.
  - rewrite star_front_snoc. intros [H|H]%orb_true_iff; [by rewrite IH|].
    apply andb_true_iff in H as [H ->].
    rewrite (normalize_all3 raw H) in H. by rewrite H, orb_true_r.
Qed.

Lemma sink_from_front a l :
  last (sink_from a l) = Some 1 → star_front (reverse (a :: l)) = true.
Proof.
  revert a. induction l as [|b l IH]; intros a; cbn [sink_from].
  { simpl. intros [= ->]. done. }
  assert (∀ x c, last (c :: sink_from x l) = last (sink_from x l)) as Hlast.
  { intros x c. destruct l as [|y l]; simpl; [done|]. by destruct (sinks x y). }
  assert (reverse (a :: b :: l) = reverse l ++ [b] ++ [a]) as ->.
  { by rewrite !reverse_cons, <- app_assoc. }
  rewrite app_assoc. destruct (sinks a b) eqn:E; rewrite Hlast; intros H%IH;
    rewrite reverse_cons in H; rewrite star_front_snoc in H.
  - rewrite !star_front_snoc, forallb_app. simpl. unfold sinks in E.
    destruct (star_front (reverse l)); [done|]. simpl in *.
    unfold quest in *. destruct (forallb _ (reverse l)); simpl in *; lia.
  - by rewrite !star_front_snoc, H.
Qed.

(** The atom a compiled core ends with. *)
Lemma compiled_last raw :
  last (sink_stars (reverse (normalize raw))) = Some 1 → star_front raw = true.
Proof.
  intros H. apply star_front_normalize. rewrite <- (reverse_involutive (normalize raw)).
  destruct (reverse (normalize raw)) as [|a l]; [done|]. by apply sink_from_front.
Qed.
