(* ===== verification/Simulate.v ===== *)
(** * The matcher on atoms.

    [checkPattern] advances a set of sub-patterns one source byte at a time.
    Here the same step is written on lists of atoms and on the rest of the
    source ([check]), the run of the whole loop is [hits], and [hits] is
    related to the meaning of the pattern. *)

From S2P Require Import Prelude Utf8 Charset MatchSet Glob Normalize.

(** A list of atoms the empty rest of the source satisfies. *)
Definition nullable_tail (p : list Z) : bool :=
  match p with
  | [] => true
  | [x] => (x =? 0) || is_star x
  | [x; y] => is_star x && (y =? 0)
  | _ => false
  end.

Section Simulate.
Variable lit : Z → Z → bool.

(** One step: the sub-patterns kept for the next byte and the number of
    times the pattern was accepted.  [first]: the index handed to the step
    is 0. *)
Fixpoint check (p : list Z) (first : bool) (s : list Z) : list (list Z) * nat :=
  match p, s with
  | a :: p', c :: s' =>
      if a =? 0 then
        match p' with
        | [] => ([], if first || (c =? 46) then 1%nat else 0%nat)
        | _ =>
            let '(m1, n1) := if first then check p' true s else ([], 0%nat) in
            ((m1 ++ if c =? 46 then [p'] else []) ++ [p], n1)
        end
      else if is_star a then
        let '(m1, n1) := match p' with [] => ([], 0%nat) | _ => check p' true s end in
        if negb (star_ok a c) then (m1, n1)
        else match s' with
             | [] => (m1, (n1 + if is_nil p' then 1 else 0)%nat)
             | _ => (m1 ++ [p], n1)
             end
      else if one lit a c then
        match s' with
        | [] => ([], if nullable_tail p' then 1%nat else 0%nat)
        | _ => match p' with [] => ([], 0%nat) | _ => ([p'], 0%nat) end
        end
      else ([], 0%nat)
  | _, _ => ([], 0%nat)
  end.

(** Whether the run from [p] on the rest [s] ever accepts. *)
Fixpoint hits (s : list Z) (first : bool) (p : list Z) : bool :=
  match s with
  | [] => false
  | c :: s' => Nat.ltb 0 (snd (check p first s)) || existsb (hits s' false) (fst (check p first s))
  end.

Lemma hits_zero_end c s first : hits (c :: s) first [0] = first || (c =? 46).
Proof. simpl. by destruct (first || (c =? 46)). Qed.

Lemma hits_zero c s first p :
  p ≠ [] →
  hits (c :: s) first (0 :: p) =
  (first && hits (c :: s) true p) || ((c =? 46) && hits s false p) || hits s false (0 :: p).
Proof.
  intros Hp. destruct p as [|a p]; [done|].
  change (hits (c :: s) first (0 :: a :: p)) with
    (Nat.ltb 0 (snd (check (0 :: a :: p) first (c :: s))) ||
     existsb (hits s false) (fst (check (0 :: a :: p) first (c :: s)))).
  change (hits (c :: s) true (a :: p)) with
    (Nat.ltb 0 (snd (check (a :: p) true (c :: s))) ||
     existsb (hits s false) (fst (check (a :: p) true (c :: s)))).
  assert (check (0 :: a :: p) first (c :: s) =
    let '(m1, n1) := if first then check (a :: p) true (c :: s) else ([], 0%nat) in
    ((m1 ++ if c =? 46 then [a :: p] else []) ++ [0 :: a :: p], n1)) as -> by done.
  destruct first.
  - destruct (check (a :: p) true (c :: s)) as [m1 n1]. cbn [fst snd].
    rewrite !existsb_app. destruct (c =? 46); cbn [existsb]; rewrite ?orb_false_r;
      rewrite ?orb_assoc; reflexivity.
  - cbn [fst snd]. rewrite !existsb_app.
    destruct (c =? 46); cbn [existsb]; rewrite ?orb_false_r; reflexivity.
Qed.

Lemma hits_star a c s first p :
  is_star a = true →
  hits (c :: s) first (a :: p) =
  (negb (is_nil p) && hits (c :: s) true p) ||
  (star_ok a c && if is_nil s then is_nil p else hits s false (a :: p)).
Proof.
  intros Ha.
  change (hits (c :: s) first (a :: p)) with
    (Nat.ltb 0 (snd (check (a :: p) first (c :: s))) ||
     existsb (hits s false) (fst (check (a :: p) first (c :: s)))).
  assert (check (a :: p) first (c :: s) =
    let '(m1, n1) := match p with [] => ([], 0%nat) | _ => check p true (c :: s) end in
    if negb (star_ok a c) then (m1, n1)
    else match s with
         | [] => (m1, (n1 + if is_nil p then 1 else 0)%nat)
         | _ => (m1 ++ [a :: p], n1)
         end) as ->.
  { cbn [check]. rewrite Ha. by assert ((a =? 0) = false) as -> by (unfold is_star in Ha; lia). }
  assert (∀ m n, (match p with [] => ([], 0%nat) | _ => check p true (c :: s) end) = (m, n) →
    (0 <? n)%nat || existsb (hits s false) m = negb (is_nil p) && hits (c :: s) true p) as Hp.
  { intros m n E. destruct p as [|b p]; [by injection E as <- <-|].
    change (hits (c :: s) true (b :: p)) with
      (Nat.ltb 0 (snd (check (b :: p) true (c :: s))) ||
       existsb (hits s false) (fst (check (b :: p) true (c :: s)))).
    by rewrite E. }
  destruct (match p with [] => _ | _ => _ end) as [m n] eqn:E. rewrite <- (Hp m n) by done.
  destruct (star_ok a c); cbn [negb andb fst snd]; [|by rewrite orb_false_r].
  destruct s as [|d s].
  - cbn [fst snd is_nil]. assert (∀ b : bool, (0 <? n + if b then 1 else 0)%nat = (0 <? n)%nat || b) as ->.
    { intros [|]; destruct n; simpl; rewrite ?Nat.add_0_r; try done; by rewrite orb_true_r. }
    destruct (existsb _ m), (0 <? n)%nat, (is_nil p); done.
  - cbn [fst snd is_nil]. rewrite existsb_app. cbn [existsb]. by rewrite orb_false_r, orb_assoc.
Qed.

Lemma hits_one a c s first p :
  a ≠ 0 → is_star a = false →
  hits (c :: s) first (a :: p) =
  one lit a c && if is_nil s then nullable_tail p else negb (is_nil p) && hits s false p.
Proof.
  intros Ha0 Ha.
  change (hits (c :: s) first (a :: p)) with
    (Nat.ltb 0 (snd (check (a :: p) first (c :: s))) ||
     existsb (hits s false) (fst (check (a :: p) first (c :: s)))).
  cbn [check]. rewrite Ha. assert ((a =? 0) = false) as -> by lia.
  destruct (one lit a c); [|done]. destruct s as [|d s].
  - simpl. by destruct (nullable_tail p).
  - destruct p as [|b p]; [done|]. cbn [fst snd existsb is_nil]. simpl. by rewrite orb_false_r.
Qed.

(** ** What a run finds

    [rglob] is [aglob] with a final 0 for the dot that ends the reversed
    pattern: the match may stop right before a dot. *)
Fixpoint rglob (p : list Z) (s : list Z) : bool :=
  match p with
  | [] => is_nil s
  | a :: p' =>
      if a =? 0 then is_nil s || dot_head s
      else if is_star a then star_loop (rglob p') (star_ok a) s
      else match s with [] => false | c :: s' => one lit a c && rglob p' s' end
  end.

Lemma rglob_app q r s :
  0 ∉ q →
  rglob (q ++ r) s = true ↔
  ∃ s1 s2, s = s1 ++ s2 ∧ aglob lit q s1 = true ∧ rglob r s2 = true.
Proof.
  revert s. induction q as [|a q IH]; intros s Hq; simpl.
  - split; [intros H; by exists [], s|]. intros (s1 & s2 & -> & H1 & H2). by destruct s1.
  - apply not_elem_of_cons in Hq as [Ha Hq].
    assert ((a =? 0) = false) as -> by lia. destruct (is_star a).
    + rewrite star_loop_iff. setoid_rewrite star_loop_iff. split.
      * intros (s1 & s2 & -> & Hok & H). apply IH in H as (s3 & s4 & -> & H3 & H4); [|done].
        exists (s1 ++ s3), s4. rewrite app_assoc. split_and!; [done|by exists s1, s3|done].
      * intros (s1 & s2 & -> & (s3 & s4 & -> & Hok & H4) & H2).
        exists s3, (s4 ++ s2). rewrite app_assoc, IH by done.
        split_and!; [done|done|by exists s4, s2].
    + destruct s as [|c s].
      * split; [done|]. intros (s1 & s2 & E & H1 & H2).
        symmetry in E. apply app_eq_nil in E as [-> ->]. done.
      * rewrite andb_true_iff, IH by done. split.
        -- intros [Hc (s1 & s2 & -> & H1 & H2)]. exists (c :: s1), s2. by rewrite Hc, H1.
        -- intros (s1 & s2 & E & H1 & H2). destruct s1 as [|d s1]; [done|].
           injection E as <- ->. apply andb_true_iff in H1 as [Hd H1]. split; [done|].
           by exists s1, s2.
Qed.

(** A star before the final dot is as good as any run, in a source without
    a colon; the double star does not mind colons either. *)
Lemma star_dot_any a s :
  (a = 1 → 58 ∉ s) → star_loop (rglob [0]) (star_ok a) s = true.
Proof.
  induction s as [|c s IH]; [done|]. intros H.
  cbn [star_loop]. rewrite IH by (intros; set_solver). cbn -[Z.eqb star_ok].
  unfold star_ok, dot_or_colon. destruct (Z.eqb_spec a 1) as [->|]; [|by rewrite orb_true_r].
  apply not_elem_of_cons in H as [H1 H2]; [|done]. assert ((c =? 58) = false) as -> by lia.
  by destruct (c =? 46).
Qed.

Lemma rglob_nil q lead :
  0 ∉ q → adj apart q → rglob (q ++ zero_if lead) [] = nullable_tail (q ++ zero_if lead).
Proof.
  intros Hq Ha. destruct q as [|x q]; [by destruct lead|].
  apply not_elem_of_cons in Hq as [Hx Hq]. apply adj_cons in Ha as [Hxy Ha].
  rewrite <- app_comm_cons. cbn [rglob]. assert ((x =? 0) = false) as Ex by lia. rewrite Ex.
  destruct (is_star x) eqn:Es.
  - cbn [star_loop]. rewrite orb_false_r. destruct q as [|y q].
    + destruct lead; simpl; by rewrite ?Ex, Es.
    + apply not_elem_of_cons in Hq as [Hy Hq]. specialize (Hxy y eq_refl Es).
      cbn. assert ((y =? 0) = false) as Ey by lia. rewrite Ey, Hxy.
      destruct (q ++ zero_if lead); simpl; [by rewrite andb_false_r|done].
  - destruct q as [|y q].
    + destruct lead; cbn -[is_star Z.eqb]; by rewrite ?Ex, Es.
    + cbn -[is_star]. rewrite Es. by destruct (q ++ zero_if lead).
Qed.

Lemma hits_rglob s q lead first :
  s ≠ [] → q ≠ [] → 0 ∉ q → adj apart q → (lead = true → last q = Some 1 → 58 ∉ s) →
  hits s first (q ++ zero_if lead) = rglob (q ++ zero_if lead) s.
Proof.
  revert q first. induction s as [|c s IHs]; [done|]. intros q first _.
  revert first. induction q as [|a q IHq]; [done|].
  intros first _ Hq Ha Hc. pose proof Hq as Hq0. pose proof Ha as Ha0.
  apply not_elem_of_cons in Hq as [Hx Hq]. apply adj_cons in Ha as [Hxy Ha].
  assert (s ≠ [] → ∀ q', q' ≠ [] → 0 ∉ q' → adj apart q' → last q' = last (a :: q) →
            hits s false (q' ++ zero_if lead) = rglob (q' ++ zero_if lead) s) as IH.
  { intros Hs q' ??? Hq'. rewrite <- Hq' in Hc. apply IHs; try done.
    intros Hl Hl1. specialize (Hc Hl Hl1). set_solver. }
  rewrite <- app_comm_cons. cbn [rglob]. assert ((a =? 0) = false) as -> by lia.
  destruct (is_star a) eqn:Es.
  - rewrite hits_star by done. cbn [star_loop]. destruct q as [|b q].
    + destruct lead; simpl app.
      * rewrite hits_zero_end. simpl negb. simpl andb. rewrite orb_true_l.
        symmetry. apply (star_dot_any a (c :: s)). intros ->. by apply Hc.
      * change (negb (is_nil []) && hits (c :: s) true []) with false.
        rewrite orb_false_l. change (rglob [] (c :: s)) with false. rewrite orb_false_l.
        f_equal. destruct s as [|d s]; [done|]. cbn [is_nil].
        change [a] with ([a] ++ zero_if false).
        rewrite (IH ltac:(done) [a]) by (try done; set_solver).
        cbn [app zero_if rglob]. assert ((a =? 0) = false) as -> by lia. by rewrite Es.
    + rewrite last_cons_cons in *. rewrite IHq by done. simpl negb. simpl andb. f_equal.
      f_equal. destruct s as [|d s].
      * simpl. rewrite orb_false_r. apply not_elem_of_cons in Hq as [Hy Hq].
        assert ((b =? 0) = false) as -> by lia. by rewrite (Hxy b eq_refl Es).
      * cbn [is_nil]. change (a :: b :: q ++ zero_if lead) with ((a :: b :: q) ++ zero_if lead).
        rewrite (IH ltac:(done) (a :: b :: q)) by (by rewrite ?last_cons_cons).
        rewrite <- app_comm_cons.
        cbn [rglob]. assert ((a =? 0) = false) as -> by lia. by rewrite Es.
  - rewrite hits_one by (try done; lia). f_equal. destruct s as [|d s].
    + cbn [is_nil]. by rewrite rglob_nil.
    + cbn [is_nil]. destruct q as [|b q].
      * destruct lead; [|done]. by rewrite hits_zero_end.
      * by rewrite (IH ltac:(done) (b :: q)) by (by rewrite ?last_cons_cons).
Qed.

Lemma hits_lead_dot s q lead first :
  s ≠ [] → q ≠ [] → 0 ∉ q → adj apart q →
  (last s = Some 46 → rglob (q ++ zero_if lead) [] = false) →
  (lead = true → last q = Some 1 → 58 ∉ s) →
  hits s first (0 :: q ++ zero_if lead) =
  (first && rglob (q ++ zero_if lead) s) ||
  existsb (rglob (q ++ zero_if lead)) (after_dots s).
Proof.
  revert first. induction s as [|c s IH]; [done|].
  intros first _ Hq H0 Ha Hlast Hc.
  rewrite hits_zero by (destruct q; done). rewrite hits_rglob by done.
  rewrite <- orb_assoc. f_equal. destruct s as [|d s].
  - cbn [after_dots]. destruct (Z.eqb_spec c 46) as [->|]; [|done].
    cbn [existsb]. by rewrite Hlast.
  - assert (lead = true → last q = Some 1 → 58 ∉ d :: s) as Hc'
      by (intros Hl H1; specialize (Hc Hl H1); set_solver).
    rewrite last_cons_cons in Hlast. rewrite IH by done.
    rewrite (hits_rglob (d :: s)) by done. simpl andb.
    change (after_dots (c :: d :: s)) with
      (if c =? 46 then (d :: s) :: after_dots (d :: s) else after_dots (d :: s)).
    by destruct (c =? 46).
Qed.

(** ** The meaning on atoms

    [atom_spec] is [pattern_spec] on atoms: a source matches when the core
    matches a part of it that the dots at the two ends allow. *)
Definition atom_spec (raw s : list Z) : bool :=
  negb (is_nil s) &&
  (is_nil (atom_core raw) ||
   existsb (λ m,
     existsb (aglob lit (atom_core raw))
       (m :: if dot_last (atom_lead raw) then before_dots m else []))
     (s :: if dot_head raw then after_dots s else [])).

(** [m] is such a part of [s]. *)
Definition framed (L T : bool) (m s : list Z) : Prop :=
  ∃ pre post, s = pre ++ m ++ post ∧
    (pre = [] ∨ L = true ∧ ∃ p, pre = p ++ [46]) ∧
    (post = [] ∨ T = true ∧ ∃ p, post = 46 :: p).

Lemma framed_reverse L T m s : framed L T m s → framed T L (reverse m) (reverse s).
Proof.
  intros (pre & post & -> & Hpre & Hpost). exists (reverse post), (reverse pre).
  rewrite !reverse_app, <- app_assoc. split; [done|]. split.
  - destruct Hpost as [->|[? [p ->]]]; [by left|]. right. split; [done|].
    exists (reverse p). by rewrite reverse_cons.
  - destruct Hpre as [->|[? [p ->]]]; [by left|]. right. split; [done|].
    exists (reverse p). by rewrite reverse_snoc.
Qed.

Lemma elem_after_dots s t : t ∈ after_dots s ↔ ∃ pre, s = pre ++ 46 :: t.
Proof.
  induction s as [|c s IH]; simpl.
  { split; [by intros ?%elem_of_nil|]. intros [[|??] [=]]. }
  assert (t ∈ after_dots s → ∃ pre, c :: s = pre ++ 46 :: t) as Hin.
  { rewrite IH. intros [pre ->]. by exists (c :: pre). }
  split.
  - destruct (Z.eqb_spec c 46) as [->|]; [|done].
    intros [->|?]%elem_of_cons; [by exists []|by apply Hin].
  - intros [[|d pre] E]; injection E as -> E; [subst; left|].
    case_match; [right|]; apply IH; eauto.
Qed.

Lemma elem_before_dots s t : t ∈ before_dots s ↔ ∃ post, s = t ++ 46 :: post.
Proof.
  revert t. induction s as [|c s IH]; intros t; simpl.
  { split; [by intros ?%elem_of_nil|]. intros [post E]. by destruct t. }
  rewrite elem_of_app, list_elem_of_fmap. setoid_rewrite IH. split.
  - intros [H|(u & -> & post & ->)]; [|by exists post].
    destruct (Z.eqb_spec c 46) as [->|]; [|by apply elem_of_nil in H].
    apply list_elem_of_singleton in H as ->. by exists s.
  - intros [post E]. destruct t as [|d t]; injection E as -> E.
    + left. simpl. by constructor.
    + right. subst. by exists t; eauto.
Qed.

Lemma existsb_elem {A} (f : A → bool) l : existsb f l = true ↔ ∃ x, x ∈ l ∧ f x = true.
Proof.
  rewrite existsb_exists. by setoid_rewrite list_elem_of_In.
Qed.

Lemma atom_spec_framed raw s :
  s ≠ [] → atom_core raw ≠ [] →
  atom_spec raw s = true ↔
  ∃ m, framed (dot_head raw) (dot_last (atom_lead raw)) m s ∧ aglob lit (atom_core raw) m = true.
Proof.
  intros Hs Hc. unfold atom_spec.
  assert (is_nil s = false) as -> by (by destruct s).
  assert (is_nil (atom_core raw) = false) as -> by (by destruct (atom_core raw)).
  simpl negb. rewrite andb_true_l, orb_false_l, existsb_elem. setoid_rewrite existsb_elem.
  set (L := dot_head raw). set (T := dot_last (atom_lead raw)). clearbody L T. split.
  - intros (u & Hu & m & Hm & H). exists m. split; [|done].
    assert (∃ pre, s = pre ++ u ∧ (pre = [] ∨ L = true ∧ ∃ p, pre = p ++ [46])) as (pre & -> & Hpre).
    { apply elem_of_cons in Hu as [->|Hu]; [by exists []; auto|].
      destruct L; [|by apply elem_of_nil in Hu].
      apply elem_after_dots in Hu as [pre ->]. exists (pre ++ [46]).
      rewrite <- app_assoc. eauto. }
    apply elem_of_cons in Hm as [->|Hm].
    { exists pre, []. rewrite app_nil_r. auto. }
    destruct T; [|by apply elem_of_nil in Hm].
    apply elem_before_dots in Hm as [post ->]. exists pre, (46 :: post). eauto 6.
  - intros (m & (pre & post & -> & Hpre & Hpost) & H). exists (m ++ post). split.
    + apply elem_of_cons. destruct Hpre as [->|[-> [p ->]]]; [by left|right].
      apply elem_after_dots. exists p. by rewrite <- app_assoc.
    + exists m. split; [|done]. apply elem_of_cons.
      destruct Hpost as [->|[-> [p ->]]]; [left; by rewrite app_nil_r|right].
      apply elem_before_dots. eauto.
Qed.

Lemma rglob_zero_if q lead s :
  0 ∉ q →
  rglob (q ++ zero_if lead) s = true ↔
  ∃ m post, s = m ++ post ∧ aglob lit q m = true ∧
    (post = [] ∨ lead = true ∧ ∃ p, post = 46 :: p).
Proof.
  intros Hq. rewrite rglob_app by done.
  assert (∀ t, rglob (zero_if lead) t = true ↔ t = [] ∨ lead = true ∧ ∃ p, t = 46 :: p) as H.
  { intros t. destruct lead; simpl; rewrite ?orb_true_iff.
    - destruct t as [|c t]; simpl; [naive_solver|]. rewrite Z.eqb_eq. naive_solver.
    - destruct t; naive_solver. }
  setoid_rewrite H. naive_solver.
Qed.

(** A run over the reversed source finds exactly the framed parts. *)
Lemma hits_framed q L T r :
  r ≠ [] → q ≠ [] → 0 ∉ q → adj apart q →
  (L = true → last q = Some 1 → 58 ∉ r) →
  (T = true → last r = Some 46 → aglob lit q [] = false) →
  hits r true (zero_if T ++ q ++ zero_if L) = true ↔
  ∃ m, framed T L m r ∧ aglob lit q m = true.
Proof.
  intros Hr Hq H0 Ha HL HT.
  transitivity (rglob (q ++ zero_if L) r = true ∨
    T = true ∧ ∃ t, t ∈ after_dots r ∧ rglob (q ++ zero_if L) t = true).
  { destruct T; simpl zero_if.
    - rewrite <- existsb_elem. simpl app.
      rewrite hits_lead_dot, orb_true_iff; try done; [simpl; tauto|].
      intros Hl. specialize (HT eq_refl Hl). apply not_true_iff_false.
      rewrite rglob_zero_if by done. intros (m & post & E & Hm & _).
      symmetry in E. apply app_eq_nil in E as [-> ->]. congruence.
    - simpl app. rewrite hits_rglob by done. naive_solver. }
  setoid_rewrite (λ l t, rglob_zero_if q l t H0). setoid_rewrite elem_after_dots. split.
  - intros [(m & post & -> & Hm & Hp)|(-> & t & (pre & ->) & m & post & -> & Hm & Hp)].
    + exists m. split; [|done]. exists [], post. auto.
    + exists m. split; [|done]. exists (pre ++ [46]), post. rewrite <- app_assoc.
      split_and!; [done|eauto|done].
  - intros (m & (pre & post & -> & Hpre & Hpost) & Hm).
    destruct Hpre as [->|[-> [p ->]]]; [left; by exists m, post|right]. split; [done|].
    exists (m ++ post). split; [|by exists m, post]. exists p. by rewrite <- app_assoc.
Qed.

Lemma compiled_core_nil raw s :
  s ≠ [] → atom_core raw = [] → hits (reverse s) true (compiled raw) = true.
Proof.
  intros Hs Hc. destruct (decide (raw = [])) as [->|Hr].
  - rewrite compiled_nil. destruct (reverse s) as [|c r] eqn:E; [|done].
    apply (f_equal reverse) in E. by rewrite reverse_involutive in E.
  - destruct (reverse s) as [|c r] eqn:E.
    { apply (f_equal reverse) in E. by rewrite reverse_involutive in E. }
    rewrite compiled_shape, Hc by done. simpl app.
    destruct (dot_last (atom_lead raw)) eqn:ET, (dot_head raw) eqn:EL; simpl app.
    + rewrite hits_zero, hits_zero_end by done. done.
    + by rewrite hits_zero_end.
    + by rewrite hits_zero_end.
    + exfalso. unfold atom_core, atom_lead, atom_trail in *. rewrite EL in *.
      by rewrite ET in Hc.
Qed.

Lemma atom_core_incl raw x : x ∈ atom_core raw → x ∈ raw.
Proof using.
  clear lit.
  assert (∀ l : list Z, x ∈ atom_lead l → x ∈ l) as H1.
  { intros [|a l]; unfold atom_lead; simpl; [done|]. case_match; set_solver. }
  assert (∀ l : list Z, x ∈ atom_trail l → x ∈ l) as H2.
  { intros l. unfold atom_trail. destruct (dot_last l) eqn:E; [|done].
    apply dot_last_inv in E. rewrite E at 2. set_solver. }
  intros H. by apply H1, H2.
Qed.

(** The matcher on atoms against the meaning on atoms. *)
Lemma hits_compiled raw s :
  s ≠ [] → 0 ∉ raw → one_kind raw →
  (dot_head raw = true → star_front (atom_core raw) = true → 58 ∉ s) →
  (dot_last (atom_lead raw) = true → head s = Some 46 →
   aglob lit (atom_core raw) [] = false) →
  hits (reverse s) true (compiled raw) = atom_spec raw s.
Proof.
  intros Hs H0 Hk HL HT. destruct (decide (atom_core raw = [])) as [Hc|Hc].
  { rewrite compiled_core_nil by done. unfold atom_spec. rewrite Hc. by destruct s. }
  assert (raw ≠ []) as Hraw by (by intros ->).
  assert (∀ x, x ∈ atom_core raw → x ∈ raw) as Hin by (intros x; apply atom_core_incl).
  apply eq_true_iff_eq. rewrite atom_spec_framed, compiled_shape by done.
  rewrite hits_framed.
  - pose proof (compiled_core_meaning lit (atom_core raw)) as Hmean. split.
    + intros (m & Hm & H). rewrite Hmean in H. exists (reverse m). split.
      * apply framed_reverse in Hm. by rewrite reverse_involutive in Hm.
      * rewrite <- aglob_reverse, reverse_involutive. done.
    + intros (m & Hm & H). exists (reverse m). split; [by apply framed_reverse|].
      rewrite Hmean. by rewrite aglob_reverse.
  - intros E%(f_equal reverse). by rewrite reverse_involutive in E.
  - intros E. destruct (decide (normalize (atom_core raw) = [])) as [En|En].
    { by apply normalize_nil in En. }
    apply Hc, normalize_nil. destruct (normalize (atom_core raw)) as [|x l] eqn:Ex; [done|].
    assert (x ∈ sink_stars (reverse (x :: l))) as Hx.
    { rewrite sink_stars_elem, elem_of_reverse. left. }
    rewrite E in Hx. by apply elem_of_nil in Hx.
  - rewrite sink_stars_elem, elem_of_reverse. intros ?%normalize_elem. auto.
  - apply compiled_apart. intros x y Hx Hy. apply Hk; auto.
  - rewrite elem_of_reverse. intros Hl H1%compiled_last. by apply HL.
  - rewrite last_reverse. intros Hl Hh. rewrite <- (HT Hl Hh), compiled_core_meaning.
    apply eq_true_iff_eq. apply (aglob_reverse lit (atom_core raw) []).
Qed.
End Simulate.
