(* ===== verification/Live.v ===== *)
(** * From sub-patterns to atoms.

    [checkPattern] works on the UTF-8 bytes of a pattern; this file shows that
    on the encoding of a list of atoms it does what [check] does on the atoms
    ([checkPattern_check]), and that the loop of [match] delivers the data of
    a pattern exactly when [hits] holds ([match_one]). *)

From S2P Require Import Prelude Utf8 Charset MatchSet Glob Normalize Simulate.

Section Live.
Context {D : Type}.
Implicit Types (set : MatchSet D) (d : D).

(** The bytes an atom stands for. *)
Definition lit_of set (a c : Z) : bool := (a =? c) || atom_contains set a c.

Definition live d (p : list Z) : pattern D := Pattern (encode_runes p) d.

Lemma encode_runes_is_nil p : is_nil (encode_runes p) = is_nil p.
Proof.
  destruct p as [|a p]; [done|]. rewrite encode_runes_cons.
  pose proof (EncodeRune_length_pos a). by destruct (EncodeRune a); [simpl in *; lia|].
Qed.

Lemma nullable_rest_encode p :
  Forall rune_valid p → nullable_rest (encode_runes p) = nullable_tail p.
Proof.
  assert (∀ a, rune_valid a → a < 128 ∧ EncodeRune a = [a] ∨
    ∃ x y l, EncodeRune a = x :: y :: l ∧ 128 <= x ∧ 128 <= a) as Henc.
  { intros a Ha. destruct (Z.ltb_spec a 128).
    - left. split; [done|]. apply EncodeRune_ascii. destruct Ha; lia.
    - right. destruct (EncodeRune_nonascii a) as (x & y & l & -> & Hx); [done|lia|]. eauto 7. }
  intros Hp. destruct p as [|a p]; [done|]. apply Forall_cons in Hp as [Ha Hp].
  rewrite encode_runes_cons. destruct (Henc a Ha) as [[Hlt ->]|(x & y & l & -> & Hx & Hge)].
  - destruct p as [|b p]; [simpl; unfold is_star; by rewrite orb_assoc|].
    apply Forall_cons in Hp as [Hb Hp]. rewrite encode_runes_cons.
    destruct (Henc b Hb) as [[Hlt' ->]|(x & y & l & -> & Hx & Hge)].
    + destruct p as [|c p]; [done|]. rewrite encode_runes_cons.
      pose proof (EncodeRune_length_pos c). by destruct (EncodeRune c); [simpl in *; lia|].
    + simpl. destruct p; [|done]. assert ((b =? 0) = false) as -> by lia.
      by rewrite andb_false_r.
  - assert (is_star a = false) as Hs by (unfold is_star; lia).
    simpl. destruct (l ++ encode_runes p).
    + assert ((x =? 1) = false) as -> by lia. assert ((x =? 2) = false) as -> by lia.
      destruct p as [|b [|]]; rewrite ?Hs; [|done|done]. by assert ((a =? 0) = false) as -> by lia.
    + destruct p as [|b [|]]; rewrite ?Hs; [|done|done]. by assert ((a =? 0) = false) as -> by lia.
Qed.

(** What [checkPattern] makes of the outcome of [check]. *)
Definition deliver d (ms : list (pattern D)) (acc : list D) (r : list (list Z) * nat) :=
  (ms ++ (live d <$> fst r), acc ++ replicate (snd r) d).

Lemma deliver_nil d ms acc : deliver d ms acc ([], 0%nat) = (ms, acc).
Proof. unfold deliver. simpl. by rewrite !app_nil_r. Qed.

Lemma checkPattern_check set d p fuel bytes i c s ms acc :
  p ≠ [] → Forall rune_valid p → (length (encode_runes p) < fuel)%nat →
  drop i bytes = c :: s →
  checkPattern fuel set (live d p) bytes i ms acc =
  deliver d ms acc (check (lit_of set) p (i =? 0)%nat (c :: s)).
Proof.
  revert p i bytes ms acc. induction fuel as [|fuel IH]; intros p i bytes ms acc Hp Hv Hf Hs; [lia|].
  destruct p as [|a p]; [done|]. apply Forall_cons in Hv as [Ha Hv].
  cbn [checkPattern]. change (patt_data (live d (a :: p))) with d.
  change (patt_atoms (live d (a :: p))) with (EncodeRune a ++ encode_runes p).
  rewrite encode_runes_cons in Hf. rewrite length_app in Hf.
  rewrite DecodeRune_EncodeRune by done. rewrite drop_app_length.
  cbn [patt_atoms patt_data].
  pose proof (EncodeRune_length_pos a) as Hpos.
  assert (bytes !!! i = c) as ->.
  { apply list_lookup_total_correct. by rewrite <- (Nat.add_0_r i), <- lookup_drop, Hs. }
  assert ((S i =? length bytes)%nat = is_nil s) as ->.
  { pose proof (f_equal length Hs) as Hlen. rewrite length_drop in Hlen. simpl in Hlen.
    destruct (Nat.eqb_spec (S i) (length bytes)), s; simpl in Hlen |- *; done || lia. }
  change (match encode_runes p with [] => true | _ => false end) with (is_nil (encode_runes p)).
  rewrite encode_runes_is_nil.
  fold (live d p).
  assert (∀ ms acc, p ≠ [] →
    checkPattern fuel set (live d p) (drop i bytes) 0 ms acc =
    deliver d ms acc (check (lit_of set) p true (c :: s))) as IHp.
  { intros ms' acc' Hp'. apply (IH p 0%nat); [done|done|lia|by rewrite Hs]. }
  cbn [check]. destruct (Z.eqb_spec a 0) as [->|Ha0].
  { destruct p as [|b p]; cbn [is_nil].
    { destruct ((i =? 0)%nat || (c =? 46)); unfold deliver; simpl; by rewrite !app_nil_r. }
    destruct (i =? 0)%nat.
    - rewrite IHp by done. destruct (check _ (b :: p) true (c :: s)) as [m n].
      unfold deliver. simpl fst. simpl snd. rewrite !fmap_app.
      destruct (c =? 46); by rewrite ?app_nil_r, <- ?app_assoc.
    - unfold deliver. simpl. rewrite app_nil_r.
      destruct (c =? 46); simpl; by rewrite <- ?app_assoc. }
  fold (is_star a). destruct (is_star a) eqn:Es.
  { assert ((a =? 1) && dot_or_colon c = negb (star_ok a c)) as ->.
    { unfold star_ok. destruct (a =? 1); [by rewrite negb_involutive|done]. }
    assert ((if negb (is_nil p) then checkPattern fuel set (live d p) (drop i bytes) 0 ms acc
             else (ms, acc)) =
      deliver d ms acc (match p with
        | [] => ([], 0%nat) | _ => check (lit_of set) p true (c :: s) end)) as ->.
    { destruct p; [by rewrite deliver_nil|]. by apply IHp. }
    destruct (match p with [] => _ | _ => _ end) as [m n]. unfold deliver. simpl fst. simpl snd.
    destruct (negb (star_ok a c)); [done|]. destruct s as [|e s]; simpl is_nil; cbn iota.
    - cbn [fst snd]. rewrite replicate_add, app_assoc. destruct (is_nil p); simpl; by rewrite ?app_nil_r.
    - cbn [fst snd]. by rewrite fmap_app, <- app_assoc. }
  assert ((a =? 3) && dot_or_colon c = (a =? 3) && negb (one (lit_of set) a c)) as ->.
  { unfold one. destruct (a =? 3); [by rewrite negb_involutive|done]. }
  destruct ((a =? 3) && negb (one (lit_of set) a c)) eqn:E3.
  { apply andb_true_iff in E3 as [_ E3%negb_true_iff]. by rewrite E3, deliver_nil. }
  assert ((a =? 3) || (a =? 4) || (a =? c) || atom_contains set a c = one (lit_of set) a c) as ->.
  { unfold one, lit_of in *. destruct (a =? 3).
    - simpl in *. by apply negb_false_iff in E3.
    - by destruct (a =? 4). }
  destruct (one (lit_of set) a c); [|by rewrite deliver_nil].
  rewrite nullable_rest_encode by done. unfold deliver. destruct s as [|e s]; simpl is_nil; cbn iota.
  - simpl. rewrite app_nil_r. by destruct (nullable_tail p); simpl; rewrite ?app_nil_r.
  - destruct p as [|b p]; simpl; by rewrite ?app_nil_r.
Qed.

(** ** The loop of [match] *)

Lemma check_all_live set d bytes i c s ps ms acc :
  Forall (λ p, p ≠ [] ∧ Forall rune_valid p) ps →
  drop i bytes = c :: s →
  let rs := (λ p, check (lit_of set) p (i =? 0)%nat (c :: s)) <$> ps in
  check_all set bytes i (live d <$> ps) ms acc =
  (ms ++ (live d <$> (rs ≫= fst)), acc ++ replicate (sum_list (snd <$> rs)) d).
Proof.
  intros Hps Hs. revert ms acc. induction Hps as [|p ps [Hp Hv] Hps IH]; intros ms acc.
  { simpl. by rewrite !app_nil_r. }
  change (live d <$> p :: ps) with (live d p :: (live d <$> ps)). cbn [check_all].
  rewrite (checkPattern_check set d p _ bytes i c s); try done; [|unfold pattern_fuel; simpl; lia].
  unfold deliver. rewrite IH. simpl.
  by rewrite fmap_app, replicate_add, !app_assoc.
Qed.

Lemma check_live set p first s :
  Forall rune_valid p →
  Forall (λ q, q ≠ [] ∧ Forall rune_valid q) (fst (check (lit_of set) p first s)).
Proof.
  intros Hv. revert first. induction Hv as [|a p Ha Hv IH]; intros first; [constructor|].
  destruct s as [|c s]; [constructor|]. cbn [check].
  destruct (a =? 0).
  { destruct p as [|b p]; [constructor|].
    assert (∀ m : list (list Z), Forall (λ q, q ≠ [] ∧ Forall rune_valid q) m →
      Forall (λ q, q ≠ [] ∧ Forall rune_valid q)
        ((m ++ if c =? 46 then [b :: p] else []) ++ [a :: b :: p])) as Hm.
    { intros m Hm. rewrite !Forall_app. destruct (c =? 46); split_and!; try done;
        rewrite ?Forall_singleton; split_and!; try done; by constructor. }
    destruct first; [|by apply Hm, Forall_nil].
    specialize (IH true). destruct (check _ (b :: p) true (c :: s)) as [m n]. by apply Hm. }
  destruct (is_star a).
  { specialize (IH true). destruct p as [|b p].
    - simpl. destruct (negb (star_ok a c)); [constructor|].
      destruct s; simpl; [done|]. apply Forall_singleton. split; [done|]. by constructor.
    - destruct (check _ (b :: p) true (c :: s)) as [m n].
      destruct (negb (star_ok a c)); [done|]. destruct s; [done|]. simpl in *.
      apply Forall_app. split; [done|]. apply Forall_singleton. split; [done|]. by constructor. }
  destruct (one _ a c); [|constructor].
  destruct s; [constructor|]. destruct p; constructor; done.
Qed.

(** How often a set of sub-patterns accepts from index [i] on is some
    number; it is positive exactly when one of them hits. *)
Lemma match_loop_live set d bytes s i ps acc :
  Forall (λ p, p ≠ [] ∧ Forall rune_valid p) ps →
  drop i bytes = s →
  ∃ k, match_loop set bytes i (length s) (live d <$> ps) acc = acc ++ replicate k d ∧
    (0 <? k)%nat = existsb (hits (lit_of set) s (i =? 0)%nat) ps.
Proof.
  revert i ps acc. induction s as [|c s IH]; intros i ps acc Hps Hs.
  { exists 0%nat. simpl. rewrite app_nil_r. split; [done|].
    symmetry. induction ps; [done|]. simpl. by inversion Hps; auto. }
  simpl length. cbn [match_loop]. rewrite (check_all_live _ _ _ _ c s) by done. cbv zeta.
  set (rs := (λ p, check (lit_of set) p (i =? 0)%nat (c :: s)) <$> ps).
  rewrite app_nil_l.
  assert (drop (S i) bytes = s) as Hs'.
  { replace (S i) with (i + 1)%nat by lia. rewrite <- drop_drop, Hs. done. }
  assert (Forall (λ p, p ≠ [] ∧ Forall rune_valid p) (rs ≫= fst)) as Hrs.
  { subst rs. clear -Hps. induction Hps as [|p ps [Hp Hv] Hps IH]; [constructor|].
    simpl. apply Forall_app. split; [by apply check_live|done]. }
  assert (existsb (hits (lit_of set) (c :: s) (i =? 0)%nat) ps =
    (0 <? sum_list (snd <$> rs))%nat || existsb (hits (lit_of set) s false) (rs ≫= fst)) as Hall.
  { subst rs. clear. induction ps as [|p ps IH]; [done|]. cbn [existsb fmap list_fmap].
    rewrite IH. cbn [hits]. simpl (list_fmap _ _ _ _). cbn [mbind list_bind fst snd].
    rewrite existsb_app.
    simpl sum_list.
    set (r := check _ p (i =? 0)%nat (c :: s)). set (n := sum_list _).
    assert ((0 <? snd r + n)%nat = Nat.ltb 0 (snd r) || (0 <? n)%nat) as ->.
    { destruct (snd r), n; done. }
    destruct (Nat.ltb 0 (snd r)), (0 <? n)%nat, (existsb _ (fst r)); done. }
  rewrite Hall. destruct (rs ≫= fst) as [|q qs] eqn:E.
  { exists (sum_list (snd <$> rs)). simpl. by rewrite orb_false_r. }
  destruct (IH (S i) (q :: qs) (acc ++ replicate (sum_list (snd <$> rs)) d))
    as (k & Hk & Hh); [done|done|].
  exists (sum_list (snd <$> rs) + k)%nat.
  change (live d <$> q :: qs) with (live d q :: (live d <$> qs)) in *.
  cbv iota beta. rewrite Hk, replicate_add, app_assoc. split; [done|].
  change (S i =? 0)%nat with false in Hh. rewrite <- Hh.
  set (n := sum_list _). by destruct n, k.
Qed.

(** One pattern delivers its datum exactly when it hits. *)
Lemma match_one set d bytes p acc :
  p ≠ [] → Forall rune_valid p →
  ∃ k, match_loop set bytes 0 (length bytes) [live d p] acc = acc ++ replicate k d ∧
    (0 <? k)%nat = hits (lit_of set) bytes true p.
Proof.
  intros Hp Hv. destruct (match_loop_live set d bytes bytes 0 [p] acc) as (k & Hk & Hh).
  - by apply Forall_singleton.
  - done.
  - exists k. split; [done|]. rewrite Hh. simpl. by rewrite orb_false_r.
Qed.
End Live.
