(* ===== verification/MatchProof.v ===== *)
(** * The pattern set meets the meaning of its patterns.

    [read_atoms] is the sequence of atoms [parse] reads, related to the tokens
    of the pattern by [tok_atom]; [set_ok] is the invariant of the atom
    tables.  The theorems of this file are the contract of package matchset:
    what [Add] and [MatchAll] do, for every pattern and every source. *)

From S2P Require Import Prelude Utf8 Charset MatchSet Glob Normalize Simulate Live.

Definition tok_endless (t : tok) : bool :=
  match t with TGroup g => body_endless g | _ => false end.

Section Tables.
Context {D : Type}.
Implicit Types (set : MatchSet D) (d : D).

(** Ordinary atoms are allotted from 256 upwards and stay below the
    surrogates, which UTF-8 cannot encode; the two tables are inverse. *)
Record set_ok set : Prop := SetOk {
  so_range : ∀ a cs, ms_atomToCharSet set !! a = Some cs →
    256 <= a < ms_nextAtom set ∧ charset_ok cs;
  so_inv : ∀ cs a, ms_charSetToAtom set !! cs = Some a → ms_atomToCharSet set !! a = Some cs;
  so_next : ms_nextAtom set = 0 ∨ 256 <= ms_nextAtom set <= 55296
}.

(** The atoms in use, counted from 256. *)
Definition used set : Z := Z.max 256 (ms_nextAtom set).

Definition tok_atom set (t : tok) (a : Z) : Prop :=
  match t with
  | TLit c => a = c ∧ 5 <= c < 256
  | TGroup g =>
      (a = 4 ∧ ∀ c, byte_ok c → body_has g c = true) ∨
      ∃ cs, ms_atomToCharSet set !! a = Some cs ∧
        ∀ c, byte_ok c → charset_Contains cs c = body_has g c
  | TStar => a = 1
  | TStar2 => a = 2
  | TQuest => a = 3
  | TAny => a = 4
  end.

Lemma tok_atom_mono set set' t a :
  ms_atomToCharSet set ⊆ ms_atomToCharSet set' → tok_atom set t a → tok_atom set' t a.
Proof.
  intros Hs. destruct t; simpl; try done. intros [H|(cs & H & Hc)]; [by left|right].
  exists cs. split; [|done]. by eapply lookup_weaken.
Qed.

(** What one call of [readAtom] gives. *)
Definition reads set (t : tok) (after : list Z) (r : option (MatchSet D * Z * list Z)) : Prop :=
  match r with
  | None => tok_endless t = true
  | Some (set', a, after') =>
      after' = after ∧ tok_endless t = false ∧ set_ok set' ∧
      ms_patterns set' = ms_patterns set ∧
      ms_atomToCharSet set ⊆ ms_atomToCharSet set' ∧
      used set' <= used set + 1 ∧ tok_atom set' t a
  end.

(** A fresh atom for a charset. *)
Lemma fresh_atom_ok set cs :
  set_ok set → used set < 55296 → charset_ok cs → ms_charSetToAtom set !! cs = None →
  let set1 := if ms_nextAtom set =? 0 then MkMatchSet (ms_patterns set) 256 ∅ ∅ else set in
  let atom := ms_nextAtom set1 in
  let set2 := MkMatchSet (ms_patterns set1) (rune_incr atom)
                (<[cs := atom]> (ms_charSetToAtom set1))
                (<[atom := cs]> (ms_atomToCharSet set1)) in
  set_ok set2 ∧ ms_patterns set2 = ms_patterns set ∧
  ms_atomToCharSet set ⊆ ms_atomToCharSet set2 ∧ used set2 <= used set + 1 ∧
  ms_atomToCharSet set2 !! atom = Some cs.
Proof.
  intros [Hr Hi Hn] Hu Hcs Hnone set1 atom set2. unfold used in *.
  assert (set_ok set1 ∧ ms_patterns set1 = ms_patterns set ∧ 256 <= atom ∧ atom < 55296 ∧
    atom = Z.max 256 (ms_nextAtom set) ∧
    ms_atomToCharSet set ⊆ ms_atomToCharSet set1 ∧ ms_charSetToAtom set1 !! cs = None)
    as ([Hr1 Hi1 Hn1] & Hp & Ha & Ha' & Hmax & Hsub & Hnone1).
  { subst set1 atom. destruct (Z.eqb_spec (ms_nextAtom set) 0) as [E|E]; simpl.
    - split_and!; try done; try lia.
      + split; simpl; [by intros ?? ?%lookup_empty_Some|by intros ?? ?%lookup_empty_Some|lia].
      + apply map_subseteq_spec. intros a c H. apply Hr in H. lia.
    - split_and!; try done; lia. }
  assert (rune_incr atom = atom + 1) as Hincr by (unfold rune_incr; by zif).
  assert (ms_atomToCharSet set1 !! atom = None) as Hfresh.
  { destruct (ms_atomToCharSet set1 !! atom) eqn:E; [|done]. apply Hr1 in E. subst atom. lia. }
  clearbody set1. subst set2. simpl. rewrite Hincr. split_and!; try done; try lia.
  - split; simpl.
    + intros a c. destruct (decide (a = atom)) as [->|Hne].
      * rewrite lookup_insert_eq. intros [= <-]. split; [lia|done].
      * rewrite lookup_insert_ne by done. intros H%Hr1. subst atom. split; [lia|apply H].
    + intros c a. destruct (decide (c = cs)) as [->|Hne].
      * rewrite lookup_insert_eq. intros [= <-]. by rewrite lookup_insert_eq.
      * rewrite lookup_insert_ne by done. intros H%Hi1.
        rewrite lookup_insert_ne; [done|]. intros <-. congruence.
    + lia.
  - etrans; [exact Hsub|]. by apply insert_subseteq.
  - by rewrite lookup_insert_eq.
Qed.

Lemma readAtom_reads set b rest :
  set_ok set → used set < 55296 → Forall byte_ok (b :: rest) → 5 <= b →
  reads set (fst (next_token b rest)) (snd (next_token b rest)) (readAtom set b rest).
Proof.
  intros Hok Hu [Hb Hrest]%Forall_cons Hb5. unfold readAtom, next_token.
  assert (∀ t a after, tok_endless t = false → tok_atom set t a →
    reads set t after (Some (set, a, after))) as Hplain.
  { intros t a after He Ht. split_and!; try done. lia. }
  destruct (b =? 91).
  { cbn [fst snd]. pose proof (charSetFromGroup_delivers rest Hrest) as Hd.
    unfold group_delivers in Hd. destruct (charSetFromGroup rest) as [[cs after]|]; [|done].
    destruct Hd as (-> & He & Hcs & Hc). unfold group_has in Hc.
    destruct (ms_charSetToAtom set !! cs) as [a|] eqn:Ea.
    { apply Hplain; [done|]. right. exists cs. split; [by apply (so_inv _ Hok)|done]. }
    destruct (decide (cs = charset_all)) as [->|Hne].
    { apply Hplain; [done|]. left. split; [done|]. intros c Hcb.
      rewrite <- Hc by done. by apply all_Contains. }
    destruct (fresh_atom_ok set cs Hok Hu Hcs Ea) as (H1 & H2 & H3 & H4 & H5).
    split_and!; try done. right. eauto. }
  destruct (b =? 42).
  { destruct rest as [|c rest]; [by apply Hplain|].
    destruct (Z.eqb_spec c 42) as [->|Hne]; [by apply Hplain|].
    assert (∀ A (x y : A), match c with 42 => x | _ => y end = y) as Hm.
    { intros A x y. clear -Hne. destruct c as [|p|p]; [done| |done].
      repeat (destruct p as [p|p|]; try done). }
    rewrite !Hm. by apply Hplain. }
  destruct (b =? 63); [by apply Hplain|]. destruct (b =? 95); [by apply Hplain|].
  apply Hplain; [done|]. simpl. destruct Hb. lia.
Qed.
End Tables.

(** ** Reading a whole pattern *)

Section Parse.
Context {D : Type}.
Implicit Types (set : MatchSet D) (d : D).

(** The atoms [parse] reads, before it merges stars. *)
Fixpoint read_atoms (fuel : nat) set (bytes : list Z) : option (MatchSet D * list Z) :=
  match bytes with
  | [] => Some (set, [])
  | b :: rest =>
      match fuel with
      | O => None
      | S fuel' =>
          match readAtom set b rest with
          | None => None
          | Some (set', a, after) =>
              match read_atoms fuel' set' after with
              | None => None
              | Some (set'', raw) => Some (set'', a :: raw)
              end
          end
      end
  end.

Lemma parse_loop_read fuel set bytes atoms lastAtom :
  parse_loop fuel set bytes atoms lastAtom =
  match read_atoms fuel set bytes with
  | None => None
  | Some (set', raw) => Some (set', fst (normalize_from (atoms, lastAtom) raw))
  end.
Proof.
  revert set bytes atoms lastAtom.
  induction fuel as [|fuel IH]; intros set [|b rest] atoms lastAtom; try done.
  simpl. destruct (readAtom set b rest) as [[[set' a] after]|]; [|done].
  destruct (parse_atom atoms lastAtom a) as [atoms' last'] eqn:E. rewrite IH.
  destruct (read_atoms fuel set' after) as [[set'' raw]|]; [|done].
  simpl. by rewrite E.
Qed.

Lemma Add_read set patt d :
  Add set patt d =
  match read_atoms (length patt) set patt with
  | None => None
  | Some (set', raw) =>
      Some (MkMatchSet (ms_patterns set' ++ [live d (compiled raw)])
              (ms_nextAtom set') (ms_charSetToAtom set') (ms_atomToCharSet set'))
  end.
Proof.
  unfold Add, parse. rewrite parse_loop_read.
  destruct (read_atoms _ _ _) as [[set' raw]|]; [|done].
  by rewrite reverse_in_place_rev.
Qed.

Lemma next_token_rest b rest :
  Forall byte_ok rest → Forall (Z.le 5) rest →
  (length (snd (next_token b rest)) ≤ length rest)%nat ∧
  Forall byte_ok (snd (next_token b rest)) ∧ Forall (Z.le 5) (snd (next_token b rest)).
Proof.
  assert (∀ l : list Z, ∃ k, snd (span_close l) = drop k l) as Hspan.
  { induction l as [|c l [k IH]]; [by exists 0%nat|]. simpl. destruct (c =? 93).
    - by exists 1%nat.
    - exists (S k). simpl. rewrite <- IH. by destruct (span_close l). }
  assert (∃ k, snd (next_token b rest) = drop k rest) as [k ->].
  { unfold next_token. destruct (b =? 91).
    - destruct rest as [|c rest]; [by exists 0%nat|]. destruct (Hspan rest) as [k H].
      exists (S k). simpl. rewrite <- H. by destruct (span_close rest).
    - destruct (b =? 42); [|destruct (b =? 63), (b =? 95); by exists 0%nat].
      destruct rest as [|c rest]; [by exists 0%nat|].
      assert (∀ A (P : A → Prop) (x y : A), P x → P y → P (match c with 42 => x | _ => y end)) as Hm.
      { clear. intros A P x y Hx Hy. destruct c as [|p|p]; [done| |done].
        repeat (destruct p as [p|p|]; try done). }
      apply (Hm _ (λ r, ∃ k, snd r = drop k (c :: rest))); [by exists 1%nat|by exists 0%nat]. }
  intros H1 H2. rewrite length_drop. split_and!; [lia|by apply Forall_drop..].
Qed.

Lemma read_atoms_tokens fuel set bytes :
  (length bytes ≤ fuel)%nat → set_ok set → used set + Z.of_nat (length bytes) <= 55296 →
  Forall byte_ok bytes → Forall (Z.le 5) bytes →
  match read_atoms fuel set bytes with
  | None => existsb tok_endless (tokens_fuel fuel bytes) = true
  | Some (set', raw) =>
      existsb tok_endless (tokens_fuel fuel bytes) = false ∧ set_ok set' ∧
      ms_patterns set' = ms_patterns set ∧ ms_atomToCharSet set ⊆ ms_atomToCharSet set' ∧
      used set' <= used set + Z.of_nat (length bytes) ∧
      Forall2 (tok_atom set') (tokens_fuel fuel bytes) raw
  end.
Proof.
  revert set bytes. induction fuel as [|fuel IH]; intros set [|b rest] Hf Hok Hu Hb H5;
    simpl in Hf; try lia; try (split_and!; by try done; lia).
  simpl length in *.
  pose proof (readAtom_reads set b rest Hok ltac:(lia) Hb) as Hr.
  apply Forall_cons in Hb as [Hb Hrest]. apply Forall_cons in H5 as [Hb5 H5].
  specialize (Hr Hb5). destruct (next_token_rest b rest Hrest H5) as (Hlen & Hl & Hl5).
  cbn [read_atoms tokens_fuel]. destruct (next_token b rest) as [t after].
  cbn [fst snd] in *. cbn [existsb].
  destruct (readAtom set b rest) as [[[set' a] after']|]; cbn [reads] in Hr; [|by rewrite Hr].
  destruct Hr as (-> & He & Hok' & Hp & Hsub & Hu' & Ha). rewrite He. simpl orb.
  specialize (IH set' after ltac:(lia) Hok' ltac:(lia) Hl Hl5).
  destruct (read_atoms fuel set' after) as [[set'' raw]|]; [|done].
  destruct IH as (He2 & Hok2 & Hp2 & Hsub2 & Hu2 & Hraw). split_and!; try done.
  - congruence.
  - by etrans.
  - lia.
  - constructor; [|done]. by eapply tok_atom_mono.
Qed.

(** What the set keeps for a pattern it was given. *)
Definition stored set (pd : list Z * D) (p : pattern D) : Prop :=
  ∃ raw, p = live (snd pd) (compiled raw) ∧ Forall2 (tok_atom set) (tokens (fst pd)) raw.

Lemma stored_mono set set' pd p :
  ms_atomToCharSet set ⊆ ms_atomToCharSet set' → stored set pd p → stored set' pd p.
Proof.
  intros Hs (raw & -> & H). exists raw. split; [done|].
  eapply Forall2_impl; [done|]. intros. by eapply tok_atom_mono.
Qed.

Lemma Add_stored set patt d :
  set_ok set → used set + Z.of_nat (length patt) <= 55296 →
  Forall byte_ok patt → Forall (Z.le 5) patt →
  match Add set patt d with
  | None => existsb tok_endless (tokens patt) = true
  | Some set' =>
      existsb tok_endless (tokens patt) = false ∧ set_ok set' ∧
      ms_atomToCharSet set ⊆ ms_atomToCharSet set' ∧
      used set' <= used set + Z.of_nat (length patt) ∧
      ∃ p, ms_patterns set' = ms_patterns set ++ [p] ∧ stored set' (patt, d) p
  end.
Proof.
  intros Hok Hu Hb H5. rewrite Add_read.
  pose proof (read_atoms_tokens (length patt) set patt ltac:(lia) Hok Hu Hb H5) as H.
  destruct (read_atoms _ _ _) as [[set' raw]|]; [|done].
  destruct H as (He & [Hr Hi Hn] & Hp & Hsub & Hu' & Hraw). split_and!; try done.
  simpl. rewrite Hp. eexists. split; [done|]. exists raw. done.
Qed.

(** ** Tokens and atoms mean the same *)

Lemma tok_atom_range set t a : set_ok set → tok_atom set t a → 1 <= a < 55296.
Proof.
  intros [Hr _ Hn] H. destruct t; simpl in H; try lia.
  destruct H as [[-> _]|(cs & H%Hr & _)]; lia.
Qed.

Lemma tok_atom_dot set t a :
  set_ok set → tok_atom set t a → (a =? 46) = match t with TLit c => c =? 46 | _ => false end.
Proof.
  intros [Hr _ Hn] H. destruct t; simpl in H; try lia.
  destruct H as [[-> _]|(cs & H%Hr & _)]; lia.
Qed.

Lemma tok_atom_star set t a :
  set_ok set → tok_atom set t a →
  if is_star a then tok_star t = Some (star_ok a) else tok_star t = None.
Proof.
  intros [Hr _ Hn] H. unfold is_star. destruct t; simpl in H |- *; try (subst a; done).
  - destruct H as [-> H]. by zif.
  - destruct H as [[-> _]|(cs & H%Hr & _)]; by zif.
Qed.

Lemma tok_atom_one set t a c :
  set_ok set → tok_atom set t a → tok_star t = None → byte_ok c →
  tok_one t c = one (lit_of set) a c.
Proof.
  intros [Hr _ Hn] H Ht Hc. unfold one, lit_of.
  destruct t; simpl in H |- *; try done; try (subst a; done).
  - destruct H as [-> H]. assert ((c0 =? 3) = false) as -> by lia.
    assert ((c0 =? 4) = false) as -> by lia. unfold atom_contains.
    destruct (ms_atomToCharSet set !! c0) eqn:E; [apply Hr in E; lia|]. simpl.
    by rewrite zero_Contains, orb_false_r.
  - destruct H as [[-> H]|(cs & H & Hcs)]; [by rewrite H|].
    pose proof (Hr _ _ H). unfold atom_contains. rewrite H. simpl.
    assert ((a =? 3) = false) as -> by lia. assert ((a =? 4) = false) as -> by lia.
    rewrite Hcs by done. destruct Hc. by assert ((a =? c) = false) as -> by lia.
Qed.

Lemma glob_aglob set toks raw s :
  set_ok set → Forall2 (tok_atom set) toks raw → Forall byte_ok s →
  glob toks s = aglob (lit_of set) raw s.
Proof.
  intros Hok H. revert s. induction H as [|t a toks raw Ha H IH]; intros s Hs; [done|].
  simpl. pose proof (tok_atom_star _ _ _ Hok Ha) as Hst. destruct (is_star a).
  - rewrite Hst. induction Hs as [|c s Hc Hs IHs]; simpl; rewrite IH by auto; [done|].
    by rewrite IHs.
  - rewrite Hst. destruct Hs as [|c s Hc Hs]; [done|].
    by rewrite (tok_atom_one _ _ _ _ Hok Ha Hst Hc), IH.
Qed.
End Parse.

(** ** Matching *)

(** Wildcard runs that mix the two stars are left out: there the single pass
    of [sink_stars] can leave two stars side by side, which the matcher's
    last step does not look behind. *)
Definition one_star (toks : list tok) : bool :=
  negb (bool_decide (TStar ∈ toks) && bool_decide (TStar2 ∈ toks)).

(** Whether the tokens start with a run of [?] that ends in [*]. *)
Fixpoint front_star (toks : list tok) : bool :=
  match toks with
  | TStar :: _ => true
  | TQuest :: toks' => front_star toks'
  | _ => false
  end.

(** The sources on which the dots at the two ends of a pattern behave as
    [pattern_spec] says: a leading dot before a star must not meet a colon,
    a trailing dot after stars only must not meet a source that starts with a
    dot. *)
Definition clear_of (toks : list tok) (s : list Z) : bool :=
  negb (leads toks && front_star (core toks) && bool_decide (58 ∈ s)) &&
  negb (trails (lead_core toks) && bool_decide (head s = Some 46) && glob (core toks) []).

(** A pattern of bytes that are not taken for wildcards. *)
Definition plain (patt : list Z) : bool :=
  forallb (λ b, (5 <=? b) && (b <? 256)) patt && one_star (tokens patt).

Section Matching.
Context {D : Type}.
Implicit Types (set : MatchSet D) (d : D).

Section Spec.
Variables (set : MatchSet D) (Hok : set_ok set).

Lemma leads_dot_head toks raw :
  Forall2 (tok_atom set) toks raw → leads toks = dot_head raw.
Proof using Hok.
  destruct 1 as [|t a toks raw Ha]; [done|]. simpl. rewrite (tok_atom_dot _ _ _ Hok Ha).
  by destruct t.
Qed.

Lemma trails_dot_last toks raw :
  Forall2 (tok_atom set) toks raw → trails toks = dot_last raw.
Proof using Hok.
  intros H. unfold trails, dot_last. destruct toks as [|t toks _] using rev_ind.
  { by inversion H. }
  apply Forall2_app_inv_l in H as (raw1 & raw2 & H1 & H2 & ->).
  apply Forall2_cons_inv_l in H2 as (a & raw3 & Ha & Hnil & ->).
  apply Forall2_nil_inv_l in Hnil as ->. rewrite !last_snoc.
  rewrite (tok_atom_dot _ _ _ Hok Ha). by destruct t.
Qed.

Lemma lead_core_atoms toks raw :
  Forall2 (tok_atom set) toks raw → Forall2 (tok_atom set) (lead_core toks) (atom_lead raw).
Proof using Hok.
  intros H. unfold lead_core, atom_lead. rewrite <- (leads_dot_head _ _ H).
  destruct (leads toks); [|done]. by destruct H.
Qed.

Lemma trail_core_atoms toks raw :
  Forall2 (tok_atom set) toks raw → Forall2 (tok_atom set) (trail_core toks) (atom_trail raw).
Proof using Hok.
  intros H. unfold trail_core, atom_trail. rewrite <- (trails_dot_last _ _ H).
  destruct (trails toks); [|done].
  assert (∀ A (l : list A), removelast l = take (pred (length l)) l) as Hr.
  { clear. intros A l. destruct l as [|x l _] using rev_ind; [done|].
    rewrite removelast_last, length_app, take_app_length'; [done|simpl; lia]. }
  rewrite !Hr, (Forall2_length _ _ _ H). by apply Forall2_take.
Qed.

Lemma core_atoms toks raw :
  Forall2 (tok_atom set) toks raw → Forall2 (tok_atom set) (core toks) (atom_core raw).
Proof using Hok. intros. by apply trail_core_atoms, lead_core_atoms. Qed.

Lemma dots_byte_ok s m : Forall byte_ok s → m ∈ after_dots s ∨ m ∈ before_dots s → Forall byte_ok m.
Proof using.
  clear set Hok. rewrite elem_after_dots, elem_before_dots.
  intros H [[l ->]|[l ->]]; apply Forall_app in H as [H1 H2]; [by inversion H2|done].
Qed.

Lemma existsb_ext_in {A} (f g : A → bool) l :
  (∀ x, x ∈ l → f x = g x) → existsb f l = existsb g l.
Proof using.
  clear set Hok. induction l as [|x l IH]; intros H; [done|]. simpl.
  rewrite H by set_solver. rewrite IH; [done|]. intros. apply H. set_solver.
Qed.

Lemma pattern_atom_spec toks raw s :
  Forall2 (tok_atom set) toks raw → Forall byte_ok s →
  pattern_spec toks s = atom_spec (lit_of set) raw s.
Proof using Hok.
  intros H Hs. unfold pattern_spec, atom_spec.
  rewrite (leads_dot_head _ _ H), (trails_dot_last _ _ (lead_core_atoms _ _ H)).
  pose proof (core_atoms _ _ H) as Hc.
  assert (is_nil (core toks) = is_nil (atom_core raw)) as -> by (by destruct Hc).
  do 2 f_equal. apply existsb_ext_in. intros m Hm.
  assert (Forall byte_ok m) as Hmb.
  { apply elem_of_cons in Hm as [->|Hm]; [done|].
    destruct (dot_head raw); [|by apply elem_of_nil in Hm].
    eapply dots_byte_ok; [exact Hs|auto]. }
  apply existsb_ext_in. intros u Hu. apply (glob_aglob set); [done..|].
  apply elem_of_cons in Hu as [->|Hu]; [done|].
  destruct (dot_last _); [|by apply elem_of_nil in Hu].
  eapply dots_byte_ok; [exact Hmb|auto].
Qed.

Lemma raw_rune_valid toks raw : Forall2 (tok_atom set) toks raw → Forall (λ a, 1 <= a < 55296) raw.
Proof using Hok.
  intros H. induction H as [|t a toks raw Ha H IH]; constructor; [|done].
  by eapply tok_atom_range.
Qed.

Lemma elem_star_tok toks raw a :
  Forall2 (tok_atom set) toks raw → a ∈ raw → is_star a = true →
  (if a =? 1 then TStar else TStar2) ∈ toks.
Proof using Hok.
  intros H. induction H as [|t b toks raw Hb H IH]; [by intros ?%elem_of_nil|].
  intros [->|Ha]%elem_of_cons Hs; [|right; by apply IH].
  pose proof (tok_atom_star _ _ _ Hok Hb) as Ht. rewrite Hs in Ht.
  destruct t; try done; simpl in Hb; subst b; left.
Qed.

Lemma one_star_kind toks raw :
  Forall2 (tok_atom set) toks raw → one_star toks = true → one_kind raw.
Proof using Hok.
  intros H H1 x y Hx Hy Hsx Hsy.
  pose proof (elem_star_tok _ _ _ H Hx Hsx). pose proof (elem_star_tok _ _ _ H Hy Hsy).
  unfold one_star in H1. unfold is_star in *.
  apply negb_true_iff, andb_false_iff in H1.
  destruct (Z.eqb_spec x 1), (Z.eqb_spec y 1); try lia; exfalso;
    destruct H1 as [H1|H1]; apply bool_decide_eq_false in H1; done.
Qed.

Lemma front_star_atoms toks raw :
  Forall2 (tok_atom set) toks raw → star_front raw = true → front_star toks = true.
Proof using Hok.
  intros H. induction H as [|t a toks raw Ha H IH]; [done|]. cbn [star_front].
  rewrite orb_true_iff, andb_true_iff. destruct t; simpl in Ha |- *; try lia; auto.
  - destruct Ha as [[-> _]|(cs & Ha%(so_range _ Hok) & _)]; lia.
  - intros [?|[_ ?]]; [lia|auto].
Qed.

(** What one stored pattern does with a source. *)
Lemma match_stored patt d p s acc :
  stored set (patt, d) p → one_star (tokens patt) = true → Forall byte_ok s → s ≠ [] →
  clear_of (tokens patt) s = true →
  ∃ k, match_loop set (reverse s) 0 (length (reverse s)) [p] acc = acc ++ replicate k d ∧
    (0 <? k)%nat = pattern_spec (tokens patt) s.
Proof using Hok.
  intros (raw & -> & H) H1 Hs Hne Hclear. cbn [fst snd] in *.
  pose proof (raw_rune_valid _ _ H) as Hraw.
  destruct (match_one set d (reverse s) (compiled raw) acc) as (k & Hk & Hh).
  { destruct (decide (raw = [])) as [->|Hr]; [done|]. intros E.
    assert (∃ x, x ∈ compiled raw) as [x Hx]; [|rewrite E in Hx; by apply elem_of_nil in Hx].
    unfold compiled. setoid_rewrite sink_stars_elem. setoid_rewrite elem_of_reverse.
    destruct (normalize raw) as [|y l] eqn:En; [by apply normalize_nil in En|].
    destruct (parse_ends (y :: l)) as [|z q] eqn:Ep; [|exists z; left].
    exfalso. apply (f_equal length) in Ep. revert Ep. unfold parse_ends, set_last.
    repeat case_match; by rewrite ?length_insert. }
  { apply Forall_forall. intros x Hx. left.
    destruct (decide (raw = [])) as [->|Hr].
    { rewrite compiled_nil in Hx. apply list_elem_of_singleton in Hx as ->. lia. }
    rewrite compiled_shape in Hx by done.
    assert (∀ b, x ∈ zero_if b → x = 0) as Hz.
    { intros [|]; simpl; [by intros ?%list_elem_of_singleton|by intros ?%elem_of_nil]. }
    apply elem_of_app in Hx as [?%Hz|Hx]; [lia|].
    apply elem_of_app in Hx as [Hx|?%Hz]; [|lia].
    rewrite sink_stars_elem, elem_of_reverse in Hx.
    apply normalize_elem, atom_core_incl in Hx.
    rewrite Forall_forall in Hraw. apply Hraw in Hx. lia. }
  exists k. split; [done|]. rewrite Hh, (pattern_atom_spec _ _ _ H Hs).
  unfold clear_of in Hclear. apply andb_true_iff in Hclear as [Hc1 Hc2].
  apply hits_compiled; [done| |by eapply one_star_kind| |].
  - intros H0. rewrite Forall_forall in Hraw. apply Hraw in H0. lia.
  - intros Hd Hf H58. apply negb_true_iff in Hc1.
    rewrite (leads_dot_head _ _ H), Hd, (front_star_atoms _ _ (core_atoms _ _ H) Hf) in Hc1.
    by rewrite bool_decide_true in Hc1.
  - intros Hd Hh0. apply negb_true_iff in Hc2.
    rewrite (trails_dot_last _ _ (lead_core_atoms _ _ H)), Hd, bool_decide_true in Hc2 by done.
    by rewrite <- (glob_aglob set (core (tokens patt))) by (auto using core_atoms).
Qed.
End Spec.
End Matching.

(** ** A whole set *)

(** A client's loop over its patterns. *)
Fixpoint add_all {D} (set : MatchSet D) (ps : list (list Z * D)) : option (MatchSet D) :=
  match ps with
  | [] => Some set
  | (patt, d) :: ps' =>
      match Add set patt d with None => None | Some set' => add_all set' ps' end
  end.

Definition total_length {D} (ps : list (list Z * D)) : nat := sum_list (length ∘ fst <$> ps).

Section Contract.
Context {D : Type}.
Implicit Types (set : MatchSet D) (d : D) (ps : list (list Z * D)).

Lemma empty_set_ok : set_ok (empty_set (D := D)).
Proof. split; simpl; [by intros ?? ?%lookup_empty_Some|by intros ?? ?%lookup_empty_Some|lia]. Qed.

Lemma plain_iff patt :
  plain patt = true ↔
  Forall byte_ok patt ∧ Forall (Z.le 5) patt ∧ one_star (tokens patt) = true.
Proof.
  unfold plain. rewrite andb_true_iff, <- Logic.and_assoc.
  assert (forallb (λ b, (5 <=? b) && (b <? 256)) patt = true ↔
    Forall byte_ok patt ∧ Forall (Z.le 5) patt) as ->; [|done].
  induction patt as [|b patt IH]; simpl; [by split|].
  rewrite andb_true_iff, IH, !Forall_cons. unfold byte_ok. intuition lia.
Qed.

Lemma add_all_stored set ps qs :
  set_ok set → used set + Z.of_nat (total_length ps) <= 55296 →
  Forall (λ p, plain p.1 = true) ps →
  Forall2 (stored set) qs (ms_patterns set) →
  match add_all set ps with
  | None => existsb (λ p, existsb tok_endless (tokens p.1)) ps = true
  | Some set' =>
      existsb (λ p, existsb tok_endless (tokens p.1)) ps = false ∧ set_ok set' ∧
      Forall2 (stored set') (qs ++ ps) (ms_patterns set')
  end.
Proof.
  revert set qs. induction ps as [|[patt d] ps IH]; intros set qs Hok Hu Hp Hq.
  { simpl. by rewrite app_nil_r. }
  apply Forall_cons in Hp as [Hpl Hp]. apply plain_iff in Hpl as (Hb & H5 & H1).
  change (total_length ((patt, d) :: ps)) with (length patt + total_length ps)%nat in Hu.
  pose proof (Add_stored set patt d Hok ltac:(lia) Hb H5) as Ha.
  cbn [add_all existsb fst]. destruct (Add set patt d) as [set'|]; [|by rewrite Ha].
  destruct Ha as (He & Hok' & Hsub & Hu' & p & Hps & Hst). rewrite He.
  replace (qs ++ (patt, d) :: ps) with ((qs ++ [(patt, d)]) ++ ps) by (by rewrite <- app_assoc).
  apply IH; [done|lia|done|]. rewrite Hps. apply Forall2_app; [|by constructor].
  eapply Forall2_impl; [exact Hq|]. intros. by eapply stored_mono.
Qed.

(** How often each pattern of the set delivers its datum. *)
Definition counts (s : list Z) ps (ks : list nat) : Prop :=
  Forall2 (λ k p, (0 <? k)%nat = pattern_spec (tokens p.1) s) ks ps.

Definition delivered ps (ks : list nat) : list D := mjoin (zip_with (λ k p, replicate k p.2) ks ps).

Lemma match_patterns_stored set s ps patts acc :
  set_ok set → Forall2 (stored set) ps patts →
  Forall (λ p, plain p.1 = true) ps → Forall (λ p, clear_of (tokens p.1) s = true) ps →
  Forall byte_ok s → s ≠ [] →
  ∃ ks, counts s ps ks ∧
    match_patterns set (reverse s) patts acc = acc ++ delivered ps ks.
Proof.
  intros Hok H Hp Hc Hs Hne. revert acc.
  induction H as [|[patt d] p ps patts Hpd H IH]; intros acc.
  { exists []. split; [constructor|]. simpl. by rewrite app_nil_r. }
  apply Forall_cons in Hp as [(Hb & H5 & H1)%plain_iff Hp]. apply Forall_cons in Hc as [Hcl Hc].
  destruct (match_stored set Hok patt d p s acc Hpd H1 Hs Hne Hcl) as (k & Hk & Hk0).
  cbn [match_patterns]. rewrite Hk. destruct (IH Hp Hc (acc ++ replicate k d)) as (ks & Hks & ->).
  exists (k :: ks). split; [by constructor|]. unfold delivered. simpl. by rewrite app_assoc.
Qed.

(** The contract of [MatchAll]: a set of plain patterns delivers, in the
    order of the patterns, the datum of each one some number of times, and
    at least once exactly when the source has the form the pattern
    describes. *)
Lemma MatchAll_delivers ps s :
  Forall (λ p, plain p.1 = true) ps → Z.of_nat (total_length ps) <= 55040 →
  Forall byte_ok s → Forall (λ p, clear_of (tokens p.1) s = true) ps →
  match add_all empty_set ps with
  | None => existsb (λ p, existsb tok_endless (tokens p.1)) ps = true
  | Some set =>
      existsb (λ p, existsb tok_endless (tokens p.1)) ps = false ∧
      ∃ ks, counts s ps ks ∧ MatchAll set s = delivered ps ks
  end.
Proof.
  intros Hp Hl Hs Hc.
  pose proof (add_all_stored empty_set ps [] empty_set_ok) as Ha.
  specialize (Ha ltac:(change (used empty_set) with 256; lia) Hp ltac:(constructor)).
  destruct (add_all empty_set ps) as [set|]; [|done].
  destruct Ha as (He & Hok & Hst). split; [done|]. simpl in Hst.
  unfold MatchAll, Match, Empty. destruct (ms_patterns set) as [|q qs] eqn:Eq.
  { apply Forall2_nil_inv_r in Hst as ->. exists []. split; [constructor|done]. }
  simpl negb. cbv iota. rewrite <- Eq in *. rewrite reverse_in_place_rev.
  destruct (decide (s = [])) as [->|Hne].
  - exists (replicate (length ps) 0%nat). split.
    + unfold counts. clear. induction ps; constructor; done.
    + transitivity (@nil D).
      * simpl. generalize (ms_patterns set). intros l. by induction l.
      * unfold delivered. clear. induction ps; [done|]. simpl. done.
  - destruct (match_patterns_stored set s ps (ms_patterns set) [] Hok Hst Hp Hc Hs Hne)
      as (ks & Hks & ->). by exists ks.
Qed.

Lemma elem_delivered s ps ks d :
  counts s ps ks → d ∈ delivered ps ks ↔
  ∃ patt, (patt, d) ∈ ps ∧ pattern_spec (tokens patt) s = true.
Proof.
  induction 1 as [|k [patt e] ks ps Hk H IH]; unfold delivered; simpl.
  { split; [by intros ?%elem_of_nil|]. by intros (? & ?%elem_of_nil & _). }
  rewrite elem_of_app. unfold delivered in IH. rewrite IH. simpl in Hk. split.
  - intros [Hr|(p & Hp & Hs)].
    + apply elem_of_replicate in Hr as [-> Hr]. exists patt. split; [left|].
      rewrite <- Hk. apply Nat.ltb_lt. lia.
    + exists p. split; [by right|done].
  - intros (p & [[= -> ->]|Hp]%elem_of_cons & Hs); [left|right; eauto].
    rewrite Hs in Hk. apply Nat.ltb_lt in Hk. apply elem_of_replicate. split; [done|lia].
Qed.
End Contract.

(** ** The contract of package matchset *)

(** C3: a set built by Add from plain patterns (no bytes below 5, not both
    kinds of star, at most 55040 pattern bytes) makes MatchAll deliver, for a
    source clear of the corner cases of the dots at the ends, exactly the data
    of the patterns whose reference meaning (tokens, glob, dots at the two
    ends) the source has. *)
Theorem MatchAll_correct {D} (ps : list (list Z * D)) (set : MatchSet D) (s : list Z) :
  Forall (λ p, plain p.1 = true) ps → Z.of_nat (total_length ps) <= 55040 →
  Forall byte_ok s → Forall (λ p, clear_of (tokens p.1) s = true) ps →
  add_all empty_set ps = Some set →
  ∀ d, d ∈ MatchAll set s ↔ ∃ patt, (patt, d) ∈ ps ∧ pattern_spec (tokens patt) s = true.
Proof.
  intros Hp Hl Hs Hc Ha d. pose proof (MatchAll_delivers ps s Hp Hl Hs Hc) as H.
  rewrite Ha in H. destruct H as (_ & ks & Hks & ->). by apply elem_delivered.
Qed.

Lemma MatchAll_correct_witness :
  match add_all empty_set [(bs "*.uk", 1%nat); (bs ".com", 2%nat); (bs "a[b-d]?", 3%nat)] with
  | None => False
  | Some set => 2%nat ∈ MatchAll set (bs "www.example.com")
  end.
Proof.
  destruct (add_all empty_set _) as [set|] eqn:E; [|vm_compute in E; discriminate].
  apply (MatchAll_correct [(bs "*.uk", 1%nat); (bs ".com", 2%nat); (bs "a[b-d]?", 3%nat)] set
           (bs "www.example.com") ltac:(by_compute) ltac:(by_compute)
           ltac:(by_compute) ltac:(by_compute) E).
  exists (bs ".com"). split; [right; left|vm_compute; reflexivity].
Defined.

Theorem MatchAll_in_order {D} (ps : list (list Z * D)) (set : MatchSet D) (s : list Z) :
  Forall (λ p, plain p.1 = true) ps → Z.of_nat (total_length ps) <= 55040 →
  Forall byte_ok s → Forall (λ p, clear_of (tokens p.1) s = true) ps →
  add_all empty_set ps = Some set →
  ∃ ks, MatchAll set s = mjoin (zip_with (λ k p, replicate k p.2) ks ps) ∧
    Forall2 (λ k p, (0 < k)%nat ↔ pattern_spec (tokens p.1) s = true) ks ps.
Proof.
  intros Hp Hl Hs Hc Ha. pose proof (MatchAll_delivers ps s Hp Hl Hs Hc) as H.
  rewrite Ha in H. destruct H as (_ & ks & Hks & ->). exists ks. split; [done|].
  eapply Forall2_impl; [exact Hks|]. intros k p <-. symmetry. apply Nat.ltb_lt.
Qed.

Lemma MatchAll_in_order_witness :
  match add_all empty_set [(bs "[^a-y]*", 1%nat); (bs "x", 2%nat)] with
  | None => False
  | Some set => ∃ ks, MatchAll set (bs "zoo") = mjoin (zip_with (λ k p, replicate k p.2) ks
      [(bs "[^a-y]*", 1%nat); (bs "x", 2%nat)])
  end.
Proof.
  destruct (add_all empty_set _) as [set|] eqn:E; [|vm_compute in E; discriminate].
  destruct (MatchAll_in_order [(bs "[^a-y]*", 1%nat); (bs "x", 2%nat)] set (bs "zoo")
           ltac:(by_compute) ltac:(by_compute) ltac:(by_compute) ltac:(by_compute) E)
    as (ks & H & _).
  by exists ks.
Defined.

(** C4: adding plain patterns returns exactly when none of them has a group
    with a range that ends at byte 255, whose uint8 loop counter wraps around
    for ever. *)
Theorem Add_terminates {D} (ps : list (list Z * D)) :
  Forall (λ p, plain p.1 = true) ps → Z.of_nat (total_length ps) <= 55040 →
  is_Some (add_all empty_set ps) ↔ ¬ ∃ p, p ∈ ps ∧ existsb tok_endless (tokens p.1) = true.
Proof.
  intros Hp Hl. pose proof (add_all_stored empty_set ps [] empty_set_ok) as Ha.
  specialize (Ha ltac:(change (used empty_set) with 256; lia) Hp ltac:(constructor)).
  rewrite <- existsb_elem. destruct (add_all empty_set ps) as [set|].
  - destruct Ha as [-> _]. split; [done|by eexists].
  - rewrite Ha. split; [by intros [? [=]]|]. intros H. by destruct H.
Qed.

Lemma Add_terminates_witness :
  is_Some (add_all empty_set [(bs "[a-z]*", tt)]) ↔
  ¬ ∃ p, p ∈ [(bs "[a-z]*", tt)] ∧ existsb tok_endless (tokens p.1) = true.
Proof.
  apply Add_terminates; by_compute.
Defined.

Theorem group_correct (l : list Z) :
  Forall byte_ok l →
  match charSetFromGroup l with
  | Some (cs, bytesLeft) =>
      bytesLeft = snd (group_split l) ∧ charset_ok cs ∧
      ∀ c, byte_ok c → charset_Contains cs c = group_has l c
  | None => group_endless l = true
  end.
Proof.
  intros Hl. pose proof (charSetFromGroup_delivers l Hl) as H. unfold group_delivers in H.
  destruct (charSetFromGroup l) as [[cs rest]|]; [|done].
  destruct H as (H1 & _ & H2 & H3). done.
Qed.

Lemma group_correct_witness :
  match charSetFromGroup (bs "^a-cx]tail") with
  | Some (cs, bytesLeft) => bytesLeft = bs "tail" ∧ charset_Contains cs 98 = false
  | None => False
  end.
Proof.
  assert (Forall byte_ok (bs "^a-cx]tail")) as Hb by by_compute.
  pose proof (group_correct (bs "^a-cx]tail") Hb) as H.
  destruct (charSetFromGroup (bs "^a-cx]tail")) as [[cs rest]|] eqn:E; [|vm_compute in E; discriminate].
  destruct H as (-> & _ & Hc). split; [reflexivity|].
  rewrite Hc; [reflexivity|split; [discriminate|reflexivity]].
Defined.

Theorem compile_preserves (lit : Z → Z → bool) (raw : list Z) :
  glob_equiv lit (sink_stars (reverse_in_place (normalize raw))) (reverse raw).
Proof. rewrite reverse_in_place_rev. apply compiled_core_meaning. Qed.

(** Where the matcher departs from the meaning of the pattern. *)
Theorem adjacent_stars_missed :
  test_match "**?*x" "ax" = false ∧ pattern_spec (tokens (bs "**?*x")) (bs "ax") = true ∧
  test_match "*_**" "a" = false ∧ pattern_spec (tokens (bs "*_**")) (bs "a") = true.
Proof. vm_compute. done. Qed.

Theorem dot_ends_missed :
  test_match "*." ".uk" = false ∧ pattern_spec (tokens (bs "*.")) (bs ".uk") = true ∧
  test_match ".*uk" "co:uk" = true ∧ pattern_spec (tokens (bs ".*uk")) (bs "co:uk") = false.
Proof. vm_compute. done. Qed.

Theorem low_bytes_are_wildcards :
  ∃ set, Add empty_set [2] tt = Some set ∧ MatchAll set (bs "anything") = [tt] ∧
    pattern_spec (tokens [2]) (bs "anything") = false.
Proof. eexists. vm_compute. done. Qed.
