(* ===== verification/Addr.v ===== *)
(** * Addresses (net/netip, as internal/netiputil uses it).

    [Addr] is netip.Addr: the invalid zero value, an IPv4 address or an IPv6
    address with a zone.  [Compare] orders by length, then by value, then by
    zone; it is a total order, and [addr_order] decides goals about it. *)

From Stdlib Require Import Orders OrdersTac.
From S2P Require Import Prelude.

(** ** Lexicographic comparison *)

Fixpoint lex (l k : list Z) : comparison :=
  match l, k with
  | [], [] => Eq
  | [], _ :: _ => Lt
  | _ :: _, [] => Gt
  | a :: l', b :: k' => match a ?= b with Eq => lex l' k' | c => c end
  end.

Lemma lex_refl l : lex l l = Eq.
Proof. induction l as [|a l IH]; [done|]. simpl. by rewrite Z.compare_refl. Qed.

Lemma lex_eq l k : lex l k = Eq → l = k.
Proof.
  revert k. induction l as [|a l IH]; intros [|b k]; simpl; try done.
  destruct (Z.compare_spec a b) as [->| |]; try done. intros H. by rewrite (IH k).
Qed.

Lemma lex_opp l k : lex k l = CompOpp (lex l k).
Proof.
  revert k. induction l as [|a l IH]; intros [|b k]; simpl; try done.
  rewrite (Z.compare_antisym a b). destruct (a ?= b); simpl; auto.
Qed.

Lemma lex_trans l k m : lex l k = Lt → lex k m = Lt → lex l m = Lt.
Proof.
  revert k m. induction l as [|a l IH]; intros [|b k] [|c m]; simpl; try done.
  destruct (Z.compare_spec a b), (Z.compare_spec b c), (Z.compare_spec a c);
    subst; try lia; try done; eauto.
Qed.

(** ** Addresses *)

Inductive Addr :=
  | AddrInvalid
  | Addr4 (a : Z)
  | Addr6 (a : Z) (zone : list Z).

#[export] Instance Addr_inhabited : Inhabited Addr := populate AddrInvalid.
#[export] Instance Addr_eq_dec : EqDecision Addr.
Proof. solve_decision. Defined.

Definition BitLen (x : Addr) : Z :=
  match x with AddrInvalid => 0 | Addr4 _ => 32 | Addr6 _ _ => 128 end.

Definition IsValid (x : Addr) : bool := match x with AddrInvalid => false | _ => true end.

(** Without the zone: the bits of the address. *)
Definition bits_of (x : Addr) : Z :=
  match x with AddrInvalid => 0 | Addr4 a => a | Addr6 a _ => a end.

Definition zone_of (x : Addr) : list Z := match x with Addr6 _ z => z | _ => [] end.

(** [Addr.Compare]: -1, 0 or 1. *)
Definition Compare (x y : Addr) : Z :=
  match lex (BitLen x :: bits_of x :: zone_of x) (BitLen y :: bits_of y :: zone_of y) with
  | Lt => -1
  | Eq => 0
  | Gt => 1
  end.

Lemma Compare_refl x : Compare x x = 0.
Proof. unfold Compare. by rewrite lex_refl. Qed.

Lemma Compare_eq x y : Compare x y = 0 → x = y.
Proof.
  unfold Compare. destruct (lex _ _) eqn:E; try done. apply lex_eq in E.
  destruct x, y; simpl in E; congruence.
Qed.

Lemma Compare_opp x y : Compare y x = - Compare x y.
Proof.
  unfold Compare. rewrite (lex_opp (BitLen x :: bits_of x :: zone_of x)).
  by destruct (lex _ _).
Qed.

Lemma Compare_trans x y z : Compare x y < 0 → Compare y z < 0 → Compare x z < 0.
Proof.
  unfold Compare. intros H1 H2.
  destruct (lex (BitLen x :: _) (BitLen y :: _)) eqn:E1; try lia.
  destruct (lex (BitLen y :: _) (BitLen z :: _)) eqn:E2; try lia.
  by rewrite (lex_trans _ _ _ E1 E2).
Qed.

Definition addr_lt (x y : Addr) : Prop := Compare x y < 0.
Definition addr_le (x y : Addr) : Prop := Compare x y <= 0.

(** ** Deciding order goals *)

Module AddrOrd.
Definition t := Addr.
Definition eq := @Logic.eq Addr.
Definition lt := addr_lt.
Definition le := addr_le.
End AddrOrd.

Module AddrTotal.
#[export] Instance eq_equiv : Equivalence AddrOrd.eq.
Proof. apply eq_equivalence. Qed.
#[export] Instance lt_strorder : StrictOrder AddrOrd.lt.
Proof.
  split.
  - intros x H. unfold AddrOrd.lt, addr_lt in H. rewrite Compare_refl in H. lia.
  - intros x y z. apply Compare_trans.
Qed.
#[export] Instance lt_compat : Proper (AddrOrd.eq ==> AddrOrd.eq ==> iff) AddrOrd.lt.
Proof. intros x x' -> y y' ->. done. Qed.
Lemma le_lteq x y : AddrOrd.le x y ↔ AddrOrd.lt x y ∨ AddrOrd.eq x y.
Proof.
  unfold AddrOrd.le, AddrOrd.lt, AddrOrd.eq, addr_le, addr_lt. split.
  - intros H. destruct (decide (Compare x y = 0)) as [E|]; [right; by apply Compare_eq|left; lia].
  - intros [H| ->]; [lia|]. rewrite Compare_refl. lia.
Qed.
Lemma lt_total x y : AddrOrd.lt x y ∨ AddrOrd.eq x y ∨ AddrOrd.lt y x.
Proof.
  unfold AddrOrd.lt, AddrOrd.eq, addr_lt. rewrite (Compare_opp x y).
  destruct (decide (Compare x y = 0)) as [E|]; [right; left; by apply Compare_eq|lia].
Qed.
End AddrTotal.

Module AddrTac := MakeOrderTac AddrOrd AddrTotal.

(** Every comparison of the context and the goal, as [addr_lt], [addr_le] or
    equality; then the order tactic. *)
Lemma cmp_pos x y : (0 <? Compare x y) = true ↔ addr_lt y x.
Proof. unfold addr_lt. rewrite (Compare_opp x y). lia. Qed.
Lemma cmp_pos_false x y : (0 <? Compare x y) = false ↔ addr_le x y.
Proof. unfold addr_le. lia. Qed.
Lemma cmp_nonpos x y : (Compare x y <=? 0) = true ↔ addr_le x y.
Proof. unfold addr_le. lia. Qed.
Lemma cmp_nonpos_false x y : (Compare x y <=? 0) = false ↔ addr_lt y x.
Proof. unfold addr_lt. rewrite (Compare_opp x y). lia. Qed.
Lemma cmp_nonneg x y : (0 <=? Compare x y) = true ↔ addr_le y x.
Proof. unfold addr_le. rewrite (Compare_opp x y). lia. Qed.
Lemma cmp_nonneg_false x y : (0 <=? Compare x y) = false ↔ addr_lt x y.
Proof. unfold addr_lt. lia. Qed.
Lemma cmp_neg x y : (Compare x y <? 0) = true ↔ addr_lt x y.
Proof. unfold addr_lt. lia. Qed.
Lemma cmp_neg_false x y : (Compare x y <? 0) = false ↔ addr_le y x.
Proof. unfold addr_le. rewrite (Compare_opp x y). lia. Qed.

Ltac addr_order :=
  rewrite ?cmp_pos, ?cmp_pos_false, ?cmp_nonpos, ?cmp_nonpos_false, ?cmp_nonneg,
    ?cmp_nonneg_false, ?cmp_neg, ?cmp_neg_false in *;
  change addr_lt with AddrOrd.lt in *; change addr_le with AddrOrd.le in *;
  AddrTac.order.

Example addr_order_1 x y z : addr_lt x y → addr_le y z → addr_lt x z.
Proof. intros. addr_order. Qed.

(** [Addr.Next]: the next address, invalid after the last one. *)
Definition Next (x : Addr) : Addr :=
  match x with
  | AddrInvalid => AddrInvalid
  | Addr4 a => if a =? 2 ^ 32 - 1 then AddrInvalid else Addr4 (a + 1)
  | Addr6 a z => if a =? 2 ^ 128 - 1 then AddrInvalid else Addr6 (a + 1) z
  end.
