(* ===== verification/AddrRange.v ===== *)
(** * Sets of address ranges (internal/netiputil/rangeset.go).

    An [AddrRangeSet] is a slice of half-open ranges, kept sorted and apart;
    [AddRange] inserts one by two binary searches. *)

From stdpp Require Import sorting.
From S2P Require Import Prelude Addr.

Record AddrRange := Range { Low : Addr; High : Addr }.

#[export] Instance AddrRange_inhabited : Inhabited AddrRange :=
  populate (Range AddrInvalid AddrInvalid).

Abbreviation AddrRangeSet := (list AddrRange) (only parsing).

(** [AddRange]: [s[k]] is [s !!! k], in bounds wherever the code reads it.
    The three statements of the insertion and the cut of the overwritten
    ranges are written by what they leave in the slice. *)
Definition AddRange (s : AddrRangeSet) (lo hi : Addr) : AddrRangeSet :=
  let i := sort_Search (length s) (λ i, 0 <? Compare (Low (s !!! i)) lo) in
  let off := if (0 <? i)%nat then (i - 1)%nat else 0%nat in
  let t := drop off s in
  let j := (off + sort_Search (length t) (λ i, (0 <? Compare (High (t !!! i)) hi)%Z))%nat in
  if (j <? i)%nat then s
  else
    let '(lo, i) :=
      if (0 <? i)%nat && (0 <=? Compare (High (s !!! (i - 1)%nat)) lo)
      then (Low (s !!! (i - 1)%nat), (i - 1)%nat) else (lo, i) in
    let '(hi, j) :=
      if (j <? length s)%nat && (Compare (Low (s !!! j)) hi <=? 0)
      then (High (s !!! j), S j) else (hi, j) in
    if (i =? j)%nat then
      if Compare lo hi <? 0 then take i s ++ [Range lo hi] ++ drop i s else s
    else
      let s := <[i := Range lo hi]> s in
      take (S i) s ++ drop j s.

Definition Add (s : AddrRangeSet) (r : AddrRange) : AddrRangeSet := AddRange s (Low r) (High r).

Definition Contains (x : AddrRangeSet) (v : Addr) : bool :=
  let i := sort_Search (length x) (λ i, 0 <? Compare (High (x !!! i)) v) in
  (i <? length x)%nat && (Compare (Low (x !!! i)) v <=? 0).

(** ** The invariant and the meaning *)

Definition proper (r : AddrRange) : Prop := addr_lt (Low r) (High r).
Definition before (r r' : AddrRange) : Prop := addr_lt (High r) (Low r').

Record range_set_ok (s : AddrRangeSet) : Prop := RangeSetOk {
  rs_proper : Forall proper s;
  rs_sorted : StronglySorted before s
}.

Definition inside (v : Addr) (r : AddrRange) : Prop := addr_le (Low r) v ∧ addr_lt v (High r).
Definition member (v : Addr) (s : AddrRangeSet) : Prop := Exists (inside v) s.

Lemma range_set_nil : range_set_ok [].
Proof. split; constructor. Qed.

Lemma range_set_app s t :
  range_set_ok (s ++ t) ↔
  range_set_ok s ∧ range_set_ok t ∧ ∀ r r', r ∈ s → r' ∈ t → before r r'.
Proof.
  split.
  - intros [Hp Hs]. apply Forall_app in Hp as [Hp1 Hp2].
    apply StronglySorted_app in Hs as (H1 & H2 & H3). split_and!; [by split|by split|done].
  - intros ([Hp1 Hs1] & [Hp2 Hs2] & H). split; [by apply Forall_app|].
    apply StronglySorted_app. auto.
Qed.

(** In a set, an earlier range ends before a later one starts. *)
Lemma range_set_lookup s k l :
  range_set_ok s → (k < length s)%nat → (l < length s)%nat →
  addr_lt (Low (s !!! k)) (High (s !!! k)) ∧
  ((k < l)%nat → addr_lt (High (s !!! k)) (Low (s !!! l))).
Proof.
  intros [Hp Hs] Hk Hl. split.
  - rewrite Forall_lookup in Hp. apply (Hp k). by apply list_lookup_lookup_total_lt.
  - intros Hkl. rewrite <- (take_drop_middle s k (s !!! k)) in Hs by by apply list_lookup_lookup_total_lt.
    apply StronglySorted_app in Hs as (_ & _ & Hs). inversion Hs as [|?? _ Hf]; subst.
    rewrite Forall_lookup in Hf. apply (Hf (l - S k)%nat).
    rewrite lookup_drop. replace (S k + (l - S k))%nat with l by lia.
    by apply list_lookup_lookup_total_lt.
Qed.

(** ** The two searches of [AddRange] *)

Section Searches.
Variables (s : AddrRangeSet) (Hok : range_set_ok s).

Lemma low_le k l : (k ≤ l)%nat → (l < length s)%nat → addr_le (Low (s !!! k)) (Low (s !!! l)).
Proof using Hok.
  intros Hkl Hl. destruct (decide (k = l)) as [->|Hne]; [addr_order|].
  destruct (range_set_lookup s k l Hok) as [H1 H2]; [lia|lia|].
  specialize (H2 ltac:(lia)). addr_order.
Qed.

Lemma high_le k l : (k ≤ l)%nat → (l < length s)%nat → addr_le (High (s !!! k)) (High (s !!! l)).
Proof using Hok.
  intros Hkl Hl. destruct (decide (k = l)) as [->|Hne]; [addr_order|].
  destruct (range_set_lookup s k l Hok) as [H1 H2]; [lia|lia|].
  destruct (range_set_lookup s l l Hok) as [H3 _]; [lia|lia|].
  specialize (H2 ltac:(lia)). addr_order.
Qed.

Lemma search_low lo :
  let i := sort_Search (length s) (λ i, 0 <? Compare (Low (s !!! i)) lo) in
  (i ≤ length s)%nat ∧ (∀ k, (k < i)%nat → addr_le (Low (s !!! k)) lo) ∧
  (∀ k, (i ≤ k < length s)%nat → addr_lt lo (Low (s !!! k))).
Proof using Hok.
  destruct (sort_Search_spec (length s) (λ i, 0 <? Compare (Low (s !!! i)) lo)) as (H1 & H2 & H3).
  - intros k l Hkl. pose proof (low_le k l ltac:(lia) ltac:(lia)). rewrite !cmp_pos.
    intros. addr_order.
  - split_and!; [done| |].
    + intros k Hk. by apply cmp_pos_false, H2.
    + intros k Hk. by apply cmp_pos, H3.
Qed.

Lemma search_high off v :
  let t := drop off s in
  let j := (off + sort_Search (length t) (λ i, (0 <? Compare (High (t !!! i)) v)%Z))%nat in
  (off ≤ length s)%nat →
  (off ≤ j ≤ length s)%nat ∧
  (∀ k, (off ≤ k < j)%nat → addr_le (High (s !!! k)) v) ∧
  (∀ k, (j ≤ k < length s)%nat → addr_lt v (High (s !!! k))).
Proof using Hok.
  cbv zeta. intros Hoff. set (t := drop off s).
  assert (length t = length s - off)%nat as Hlen by apply length_drop.
  destruct (sort_Search_spec (length t) (λ i, 0 <? Compare (High (t !!! i)) v)) as (H1 & H2 & H3).
  - intros k l Hkl. subst t. rewrite !lookup_total_drop.
    pose proof (high_le (off + k) (off + l) ltac:(lia) ltac:(lia)). rewrite !cmp_pos.
    intros. addr_order.
  - set (j := sort_Search _ _) in *. clearbody j. split_and!; [lia|lia| |].
    + intros k Hk. specialize (H2 (k - off)%nat ltac:(lia)). subst t.
      rewrite lookup_total_drop in H2. replace (off + (k - off))%nat with k in H2 by lia.
      by apply cmp_pos_false.
    + intros k Hk. specialize (H3 (k - off)%nat ltac:(lia)). subst t.
      rewrite lookup_total_drop in H3. replace (off + (k - off))%nat with k in H3 by lia.
      by apply cmp_pos.
Qed.
End Searches.

(** ** What [AddRange] does *)

Lemma member_lookup v s :
  member v s ↔ ∃ k, (k < length s)%nat ∧ inside v (s !!! k).
Proof.
  unfold member. rewrite Exists_exists. split.
  - intros (r & [k Hk]%list_elem_of_lookup & Hr). exists k.
    rewrite (list_lookup_total_correct _ _ _ Hk). split; [by eapply lookup_lt_Some|done].
  - intros (k & Hk & Hr). exists (s !!! k). split; [|done].
    apply list_elem_of_lookup. exists k. by apply list_lookup_lookup_total_lt.
Qed.

(** [t] is [s] with the ranges from [i] to [j] replaced by one that covers
    them and [lo, hi). *)
Definition spliced (s : AddrRangeSet) (lo hi : Addr) (t : AddrRangeSet) : Prop :=
  ∃ i j lo' hi', (i ≤ j ≤ length s)%nat ∧
    t = take i s ++ [Range lo' hi'] ++ drop j s ∧ addr_lt lo' hi' ∧
    (∀ k, (k < i)%nat → addr_lt (High (s !!! k)) lo') ∧
    (∀ k, (j ≤ k < length s)%nat → addr_lt hi' (Low (s !!! k))) ∧
    (∀ v, inside v (Range lo' hi') ↔
       inside v (Range lo hi) ∨ ∃ k, (i ≤ k < j)%nat ∧ inside v (s !!! k)).

(** The bounds after joining: [i'], [lo'] from the range before, [j'], [hi']
    from the range after. *)
Definition joined_lo (s : AddrRangeSet) (lo : Addr) (i : nat) (lo' : Addr) (i' : nat) : Prop :=
  (i' = i ∧ lo' = lo ∧ ∀ k, (k < i)%nat → addr_lt (High (s !!! k)) lo) ∨
  (S i' = i ∧ lo' = Low (s !!! i') ∧ addr_le lo (High (s !!! i'))).

Definition joined_hi (s : AddrRangeSet) (hi : Addr) (j : nat) (hi' : Addr) (j' : nat) : Prop :=
  (j' = j ∧ hi' = hi ∧ ∀ k, (j ≤ k < length s)%nat → addr_lt hi (Low (s !!! k))) ∨
  (j' = S j ∧ (j < length s)%nat ∧ hi' = High (s !!! j) ∧ addr_le (Low (s !!! j)) hi).

Section Join.
Variables (s : AddrRangeSet) (Hok : range_set_ok s).

Lemma join_lo lo i lo' i' :
  (i ≤ length s)%nat →
  (if (0 <? i)%nat && (0 <=? Compare (High (s !!! (i - 1)%nat)) lo)
   then (Low (s !!! (i - 1)%nat), (i - 1)%nat) else (lo, i)) = (lo', i') →
  joined_lo s lo i lo' i'.
Proof using Hok.
  intros Hi E. destruct (Nat.ltb_spec 0 i); simpl in E;
    [|injection E as <- <-; left; split_and!; auto; lia].
  destruct (0 <=? _) eqn:E1; injection E as <- <-; [right|left].
  - split_and!; [lia|done|addr_order].
  - split_and!; [done|done|]. intros k Hk.
    pose proof (high_le s Hok k (i - 1) ltac:(lia) ltac:(lia)). addr_order.
Qed.

Lemma join_hi hi j hi' j' :
  (if (j <? length s)%nat && (Compare (Low (s !!! j)) hi <=? 0)
   then (High (s !!! j), S j) else (hi, j)) = (hi', j') →
  joined_hi s hi j hi' j'.
Proof using Hok.
  intros E. destruct (Nat.ltb_spec j (length s)); simpl in E;
    [|injection E as <- <-; left; split_and!; auto; lia].
  destruct (Compare (Low (s !!! j)) hi <=? 0) eqn:E1; injection E as <- <-; [right|left].
  - split_and!; [lia|done|done|addr_order].
  - split_and!; [done|done|]. intros k Hk.
    pose proof (low_le s Hok j k ltac:(lia) ltac:(lia)). addr_order.
Qed.

Variables (lo hi lo' hi' : Addr) (i j i' j' : nat).
Hypotheses (Hlow1 : ∀ k, (k < i)%nat → addr_le (Low (s !!! k)) lo)
  (Hlow2 : ∀ k, (i ≤ k < length s)%nat → addr_lt lo (Low (s !!! k)))
  (Hhigh1 : ∀ k, (i - 1 ≤ k < j)%nat → addr_le (High (s !!! k)) hi)
  (Hhigh2 : ∀ k, (j ≤ k < length s)%nat → addr_lt hi (High (s !!! k)))
  (Hij : (i ≤ j ≤ length s)%nat)
  (Hlo : joined_lo s lo i lo' i') (Hhi : joined_hi s hi j hi' j').

Lemma joined_bounds :
  (i' ≤ i ∧ i ≤ S i' ∧ j ≤ j' ∧ j' ≤ length s)%nat ∧ addr_le lo' lo ∧ addr_le hi hi'.
Proof using All.
  split; [destruct Hlo, Hhi; lia|]. split.
  - destruct Hlo as [(-> & -> & _)|(<- & -> & _)]; [addr_order|]. apply Hlow1. lia.
  - destruct Hhi as [(-> & -> & _)|(-> & ? & -> & _)]; [addr_order|].
    specialize (Hhigh2 j ltac:(lia)). addr_order.
Qed.

Lemma joined_cover k :
  (i' ≤ k < j')%nat → addr_le lo' (Low (s !!! k)) ∧ addr_le (High (s !!! k)) hi'.
Proof using All.
  intros Hk. destruct joined_bounds as (Hb & _ & _). split.
  - destruct Hlo as [(-> & -> & _)|(<- & -> & _)].
    + specialize (Hlow2 k ltac:(lia)). addr_order.
    + apply low_le; [done|lia|lia].
  - destruct Hhi as [(-> & -> & _)|(-> & ? & -> & _)]; [apply Hhigh1; lia|].
    apply high_le; [done|lia|lia].
Qed.

Lemma joined_apart k :
  ((k < i')%nat → addr_lt (High (s !!! k)) lo') ∧
  ((j' ≤ k < length s)%nat → addr_lt hi' (Low (s !!! k))).
Proof using All.
  destruct joined_bounds as (Hb & _ & _). split; intros Hk.
  - destruct Hlo as [(-> & -> & H)|(<- & -> & _)]; [by apply H|].
    apply (range_set_lookup s k i'); [done|lia..].
  - destruct Hhi as [(-> & -> & H)|(-> & ? & -> & _)]; [by apply H|].
    apply (range_set_lookup s j k); [done|lia..].
Qed.

Lemma joined_inside v :
  inside v (Range lo' hi') ↔
  inside v (Range lo hi) ∨ ∃ k, (i' ≤ k < j')%nat ∧ inside v (s !!! k).
Proof using All.
  destruct joined_bounds as (Hb & Hb1 & Hb2). split.
  - intros [H1 H2]. simpl in *.
    destruct Hlo as [(-> & -> & _)|(<- & -> & Hl)];
      [|destruct (Compare lo v <=? 0) eqn:Ev;
        [|right; exists i'; split; [lia|split; addr_order]]];
      (destruct Hhi as [(-> & -> & _)|(-> & ? & -> & Hh)]; [left; split; simpl; addr_order|];
       destruct (Compare v hi <? 0) eqn:Ew;
        [left; split; simpl; addr_order|right; exists j; split; [lia|split; addr_order]]).
  - intros [[H1 H2]|(k & Hk & H1 & H2)]; split; simpl in *; try addr_order;
      destruct (joined_cover k Hk); addr_order.
Qed.
End Join.

Lemma AddRange_spliced s lo hi :
  range_set_ok s →
  (AddRange s lo hi = s ∧ ∀ v, inside v (Range lo hi) → member v s) ∨
  spliced s lo hi (AddRange s lo hi).
Proof.
  intros Hok. unfold AddRange.
  destruct (search_low s Hok lo) as (Hi & Hlow1 & Hlow2).
  set (i := sort_Search _ _) in *. clearbody i.
  set (off := if (0 <? i)%nat then (i - 1)%nat else 0%nat).
  assert (off = i - 1)%nat as Ho by (subst off; destruct (Nat.ltb_spec 0 i); lia).
  destruct (search_high s Hok off hi ltac:(lia)) as (Hj & Hhigh1 & Hhigh2).
  set (j := (off + sort_Search _ _)%nat) in *. clearbody j. rewrite Ho in *. clear off Ho.
  destruct (Nat.ltb_spec j i) as [Hji|Hji].
  { left. split; [done|]. intros v [H1 H2]. apply member_lookup. exists j. simpl in *.
    specialize (Hlow1 j ltac:(lia)). specialize (Hhigh2 j ltac:(lia)).
    split; [lia|]. split; addr_order. }
  destruct (if ((0 <? i)%nat && _) then _ else _) as [lo' i'] eqn:Elo.
  apply (join_lo s Hok) in Elo; [|done].
  destruct (if ((j <? length s)%nat && _) then _ else _) as [hi' j'] eqn:Ehi.
  apply (join_hi s Hok) in Ehi.
  pose proof (joined_bounds s Hok lo hi lo' hi' i j i' j' Hlow1 Hlow2 Hhigh1 Hhigh2
    ltac:(lia) Elo Ehi) as (Hb & Hb1 & Hb2).
  pose proof (joined_cover s Hok lo hi lo' hi' i j i' j' Hlow1 Hlow2 Hhigh1 Hhigh2
    ltac:(lia) Elo Ehi) as Hcover.
  pose proof (λ k, joined_apart s Hok lo hi lo' hi' i j i' j' Hlow1 Hlow2 Hhigh1 Hhigh2
    ltac:(lia) Elo Ehi k) as Hapart.
  pose proof (joined_inside s Hok lo hi lo' hi' i j i' j' Hlow1 Hlow2 Hhigh1 Hhigh2
    ltac:(lia) Elo Ehi) as Hin.
  destruct (Nat.eqb_spec i' j') as [->|Hne].
  - assert (lo' = lo ∧ hi' = hi) as [-> ->] by (destruct Elo, Ehi; naive_solver lia).
    destruct (Compare lo hi <? 0) eqn:E.
    + right. exists j', j', lo, hi. apply cmp_neg in E.
      split_and!; try done; try lia; intros k; apply Hapart.
    + left. split; [done|]. intros v [H1 H2]. simpl in *. exfalso. addr_order.
  - right. exists i', j', lo', hi'. split_and!; try done; try lia; try (intros k; apply Hapart).
    + cbv zeta. by rewrite splice_insert by lia.
    + specialize (Hcover i' ltac:(lia)).
      destruct (range_set_lookup s i' i' Hok) as [H' _]; [lia|lia|]. destruct Hcover. addr_order.
Qed.

Lemma take_drop_lookup (s : AddrRangeSet) i j r :
  (i ≤ length s)%nat →
  (r ∈ take i s ↔ ∃ k, (k < i)%nat ∧ s !!! k = r ∧ (k < length s)%nat) ∧
  (r ∈ drop j s ↔ ∃ k, (j ≤ k < length s)%nat ∧ s !!! k = r).
Proof.
  intros Hi. split; rewrite list_elem_of_lookup; split.
  - intros [k [Hk Hlt]%lookup_take_Some]. exists k. split; [done|].
    split; [by apply list_lookup_total_correct|by eapply lookup_lt_Some].
  - intros (k & Hk & <- & Hlt). exists k. apply lookup_take_Some. split; [|done].
    by apply list_lookup_lookup_total_lt.
  - intros [k Hk]. rewrite lookup_drop in Hk. exists (j + k)%nat.
    pose proof (lookup_lt_Some _ _ _ Hk). split; [lia|by apply list_lookup_total_correct].
  - intros (k & Hk & <-). exists (k - j)%nat. rewrite lookup_drop.
    replace (j + (k - j))%nat with k by lia. apply list_lookup_lookup_total_lt. lia.
Qed.

Lemma spliced_ok s lo hi t : range_set_ok s → spliced s lo hi t → range_set_ok t.
Proof.
  intros Hok (i & j & lo' & hi' & Hij & -> & Hlt & Hl & Hr & _).
  assert (range_set_ok (take i s) ∧ range_set_ok (drop j s) ∧
    ∀ r r', r ∈ take i s → r' ∈ drop j s → before r r') as (H1 & H2 & H3).
  { pose proof Hok as Hok2. rewrite <- (take_drop i s) in Hok. apply range_set_app in Hok as (H1 & H2 & H3).
    rewrite <- (take_drop (j - i) (drop i s)) in H2. apply range_set_app in H2 as (_ & H2 & _).
    rewrite drop_drop in H2. replace (i + (j - i))%nat with j in H2 by lia.
    split_and!; [done|done|]. intros r r' Hr1 Hr2. apply H3; [done|].
    apply (take_drop_lookup s i) in Hr2 as (k & Hk & <-); [|lia].
    apply (take_drop_lookup s i); [lia|]. exists k. split; [lia|done]. }
  apply range_set_app. split_and!; [done| |].
  - apply (range_set_app [Range lo' hi']). split_and!; [|done|].
    + split; repeat constructor. done.
    + intros r r' ->%list_elem_of_singleton (k & Hk & <-)%(take_drop_lookup s i); [|lia].
      by apply Hr.
  - intros r r' Hr1 [->|Hr2]%elem_of_cons; [|by apply H3].
    apply (take_drop_lookup s i j) in Hr1 as (k & Hk & <- & _); [|lia]. by apply Hl.
Qed.

Lemma spliced_member s lo hi t v :
  spliced s lo hi t → member v t ↔ member v s ∨ inside v (Range lo hi).
Proof.
  intros (i & j & lo' & hi' & Hij & -> & Hlt & Hl & Hr & Hin).
  unfold member at 1. rewrite !Exists_app, Exists_cons, Exists_nil, Hin.
  rewrite member_lookup, !Exists_exists.
  assert (∀ r, r ∈ take i s ↔ ∃ k, (k < i)%nat ∧ s !!! k = r ∧ (k < length s)%nat) as Ht
    by (intros r; apply (take_drop_lookup s i j); lia).
  assert (∀ r, r ∈ drop j s ↔ ∃ k, (j ≤ k < length s)%nat ∧ s !!! k = r) as Hd
    by (intros r; apply (take_drop_lookup s i j); lia).
  setoid_rewrite Ht. setoid_rewrite Hd. split.
  - intros [(r & (k & ? & <- & ?) & ?)|[[[?|(k & ? & ?)]|[]]|(r & (k & ? & <-) & ?)]];
      [left; exists k; split; [lia|done]|by right|left; exists k; split; [lia|done]|
       left; exists k; split; [lia|done]].
  - intros [(k & Hk & Hv)|?]; [|by right; left; left; left].
    destruct (decide (k < i)%nat); [by left; exists (s !!! k); eauto|].
    destruct (decide (k < j)%nat); [right; left; left; right; exists k; split; [lia|done]|].
    right; right. exists (s !!! k). split; [|done]. exists k. split; [lia|done].
Qed.

Lemma AddRange_ok s lo hi : range_set_ok s → range_set_ok (AddRange s lo hi).
Proof.
  intros Hok. destruct (AddRange_spliced s lo hi Hok) as [[-> _]|H]; [done|].
  by eapply spliced_ok.
Qed.

Lemma AddRange_member s lo hi v :
  range_set_ok s → member v (AddRange s lo hi) ↔ member v s ∨ inside v (Range lo hi).
Proof.
  intros Hok. destruct (AddRange_spliced s lo hi Hok) as [[-> H]|H]; [naive_solver|].
  by apply spliced_member.
Qed.

Lemma Contains_member s v : range_set_ok s → Contains s v = true ↔ member v s.
Proof.
  intros Hok. unfold Contains.
  destruct (search_high s Hok 0 v ltac:(lia)) as (Hj & H1 & H2). rewrite drop_0 in *. simpl in *.
  set (i := sort_Search _ _) in *. clearbody i.
  rewrite andb_true_iff, Nat.ltb_lt, cmp_nonpos, member_lookup. split.
  - intros [Hi Hlo]. exists i. split; [done|]. split; [done|]. apply H2. lia.
  - intros (k & Hk & Hl & Hh).
    destruct (decide (k < i)%nat); [specialize (H1 k ltac:(lia)); exfalso; addr_order|].
    split; [lia|]. pose proof (low_le s Hok i k ltac:(lia) Hk). addr_order.
Qed.

(** ** The contract *)

Theorem range_set_invariant s lo hi : range_set_ok s → range_set_ok (AddRange s lo hi).
Proof. apply AddRange_ok. Qed.

Theorem AddRange_Contains s lo hi v :
  range_set_ok s →
  Contains (AddRange s lo hi) v =
    Contains s v || ((Compare lo v <=? 0) && (Compare v hi <? 0)).
Proof.
  intros Hok. apply eq_true_iff_eq.
  rewrite orb_true_iff, andb_true_iff, cmp_nonpos, cmp_neg, !Contains_member by
    auto using AddRange_ok.
  by apply AddRange_member.
Qed.

Lemma range_set_ok_cons r s :
  range_set_ok (r :: s) → proper r ∧ range_set_ok s ∧ ∀ v, member v s → addr_lt (High r) v.
Proof.
  intros (H1 & H2 & H3)%(range_set_app [r] s). destruct H1 as [[Hp _]%Forall_cons _].
  split_and!; [done|done|]. intros v (r' & Hr & Hl & _)%Exists_exists.
  specialize (H3 r r' ltac:(by left) Hr). unfold before in H3. addr_order.
Qed.

(** A set of ranges is determined by its addresses. *)
Lemma range_set_ext s t :
  range_set_ok s → range_set_ok t → (∀ v, member v s ↔ member v t) → s = t.
Proof.
  revert t. induction s as [|r s IH]; intros t Hs Ht Heq.
  { destruct t as [|r' t]; [done|]. apply range_set_ok_cons in Ht as (Hp & _).
    assert (member (Low r') []) as Hm%Exists_nil; [|done]. apply Heq. left. split; [addr_order|done]. }
  destruct t as [|r' t].
  { apply range_set_ok_cons in Hs as (Hp & _).
    assert (member (Low r) []) as Hm%Exists_nil; [|done]. apply Heq. left. split; [addr_order|done]. }
  apply range_set_ok_cons in Hs as (Hp & Hs & Hb), Ht as (Hp' & Ht & Hb').
  assert (∀ v, member v (r :: s) ↔ inside v r ∨ member v s) as E by (intros; apply Exists_cons).
  assert (∀ v, member v (r' :: t) ↔ inside v r' ∨ member v t) as E' by (intros; apply Exists_cons).
  setoid_rewrite E in Heq. setoid_rewrite E' in Heq. clear E E'.
  unfold proper, inside in *.
  assert (Low r = Low r') as El.
  { destruct (proj1 (Heq (Low r))) as [[??]|?%Hb']; [left; split; addr_order|..];
      (destruct (proj2 (Heq (Low r'))) as [[??]|?%Hb]; [left; split; addr_order|..]); addr_order. }
  assert (High r = High r') as Eh.
  { destruct (AddrTotal.lt_total (High r) (High r')) as [Hlt|[He|Hlt]]; [exfalso|done|exfalso].
    - destruct (proj2 (Heq (High r))) as [[??]|?%Hb]; [left; split|..]; addr_order.
    - destruct (proj1 (Heq (High r'))) as [[??]|?%Hb']; [left; split|..]; addr_order. }
  f_equal; [destruct r, r'; simpl in *; congruence|]. apply IH; [done|done|]. intros v. split.
  - intros Hv. pose proof (Hb v Hv). destruct (proj1 (Heq v)) as [[??]|?]; [by right| |done].
    exfalso. addr_order.
  - intros Hv. pose proof (Hb' v Hv). destruct (proj2 (Heq v)) as [[??]|?]; [by right| |done].
    exfalso. addr_order.
Qed.

Lemma add_ranges_members l s :
  range_set_ok s →
  range_set_ok (foldl Add s l) ∧
  ∀ v, member v (foldl Add s l) ↔ member v s ∨ ∃ r, r ∈ l ∧ inside v r.
Proof.
  revert s. induction l as [|r l IH]; intros s Hs; simpl.
  { split; [done|]. intros v. split; [by left|]. intros [?|(r & ?%elem_of_nil & _)]; done. }
  destruct (IH (Add s r) ltac:(by apply AddRange_ok)) as [Hok Hm]. split; [done|].
  intros v. rewrite Hm. unfold Add. rewrite AddRange_member by done.
  destruct r as [lo hi]. simpl. setoid_rewrite elem_of_cons. naive_solver.
Qed.

(** The order in which ranges are added does not matter: an allow list built
    from lines in any order is the same slice. *)
Theorem Add_order_irrelevant (l1 l2 : list AddrRange) :
  l1 ≡ₚ l2 → foldl Add [] l1 = foldl Add [] l2.
Proof.
  intros Hl. destruct (add_ranges_members l1 [] range_set_nil) as [H1 M1].
  destruct (add_ranges_members l2 [] range_set_nil) as [H2 M2].
  apply range_set_ext; [done|done|]. intros v. rewrite M1, M2. by setoid_rewrite Hl.
Qed.

(** C5: the sorted ranges implement a set of addresses: a set built by Add
    from any list of ranges, in any order and overlapping, contains exactly
    the addresses that lie inside one of the ranges. *)
Theorem Contains_exact (l : list AddrRange) (v : Addr) :
  Contains (foldl Add [] l) v = true ↔
  ∃ r, r ∈ l ∧ Compare (Low r) v <= 0 ∧ Compare v (High r) < 0.
Proof.
  destruct (add_ranges_members l [] range_set_nil) as [H1 M1].
  rewrite Contains_member, M1 by done. unfold inside, addr_le, addr_lt.
  unfold member. rewrite Exists_nil. naive_solver.
Qed.

Definition ex_set : AddrRangeSet :=
  foldl Add [] [Range (Addr4 10) (Addr4 20); Range (Addr4 40) (Addr4 50)].

Lemma ex_set_ok : range_set_ok ex_set.
Proof. apply add_ranges_members, range_set_nil. Qed.

Lemma range_set_invariant_witness : range_set_ok (AddRange ex_set (Addr4 15) (Addr4 40)).
Proof. apply range_set_invariant, ex_set_ok. Defined.

Lemma AddRange_Contains_witness :
  Contains (AddRange ex_set (Addr4 20) (Addr4 30)) (Addr4 25) = true.
Proof. rewrite (AddRange_Contains ex_set _ _ _ ex_set_ok). reflexivity. Defined.

Lemma Add_order_irrelevant_witness :
  foldl Add [] [Range (Addr4 10) (Addr4 20); Range (Addr4 15) (Addr6 7 [])] =
  foldl Add [] [Range (Addr4 15) (Addr6 7 []); Range (Addr4 10) (Addr4 20)].
Proof. apply Add_order_irrelevant. apply Permutation_swap. Defined.
