(* ===== verification/Prefix.v ===== *)
(** * Address ranges of prefixes (internal/netiputil/parse.go).

    [ParsePrefix] turns "a/b" into the half-open range of its addresses.  The
    last address of a prefix comes from setting the bits after the prefix
    byte by byte; when it is the last address there is, the range is closed
    instead. *)

From S2P Require Import Prelude Addr AddrRange.

(** ** Big-endian bytes *)

Fixpoint be_bytes (n : nat) (v : Z) : list Z :=
  match n with
  | O => []
  | S n' => (v / 256 ^ Z.of_nat n') mod 256 :: be_bytes n' v
  end.

Definition be_value (l : list Z) : Z := foldl (λ acc b, acc * 256 + b) 0 l.

Lemma be_value_snoc l b : be_value (l ++ [b]) = be_value l * 256 + b.
Proof. unfold be_value. by rewrite foldl_app. Qed.

Lemma be_value_app l m : be_value (l ++ m) = be_value l * 256 ^ Z.of_nat (length m) + be_value m.
Proof.
  induction m as [|b m IH] using rev_ind.
  - rewrite app_nil_r. simpl. unfold be_value at 3. simpl. lia.
  - rewrite app_assoc, !be_value_snoc, IH, length_app. simpl.
    rewrite Nat2Z.inj_add, Z.pow_add_r by lia. lia.
Qed.

Lemma length_be_bytes n v : length (be_bytes n v) = n.
Proof. induction n; simpl; auto. Qed.

Lemma be_bytes_app m k v :
  be_bytes (m + k) v = be_bytes m (v / 256 ^ Z.of_nat k) ++ be_bytes k v.
Proof.
  induction m as [|m IH]; [done|]. simpl. rewrite IH. do 2 f_equal.
  rewrite Z.div_div by lia. f_equal. rewrite Nat2Z.inj_add, Z.pow_add_r by lia. lia.
Qed.

Lemma be_value_bytes n v : 0 <= v → be_value (be_bytes n v) = v mod 256 ^ Z.of_nat n.
Proof.
  intros Hv. induction n as [|n IH]; [by rewrite Z.mod_1_r|].
  change (be_bytes (S n) v) with ([(v / 256 ^ Z.of_nat n) mod 256] ++ be_bytes n v).
  rewrite be_value_app, IH, length_be_bytes. unfold be_value. simpl foldl.
  rewrite Nat2Z.inj_succ, Z.pow_succ_r by lia.
  rewrite (Z.mul_comm 256), Z.rem_mul_r by lia. lia.
Qed.

Lemma be_bytes_ok n v : Forall byte_ok (be_bytes n v).
Proof.
  induction n; constructor; [|done]. unfold byte_ok.
  pose proof (Z.mod_pos_bound (v / 256 ^ Z.of_nat n) 256). lia.
Qed.

Lemma be_value_255 k : be_value (replicate k 255) = 256 ^ Z.of_nat k - 1.
Proof.
  induction k as [|k IH]; [done|].
  rewrite replicate_S_end, be_value_snoc, IH, Nat2Z.inj_succ, Z.pow_succ_r; lia.
Qed.

(** ** ParsePrefix *)

Record IPPrefix := MkPrefix { pf_addr : Addr; pf_bits : Z }.

(** [Prefix.Masked] *)
Definition Masked (p : IPPrefix) : IPPrefix :=
  let mask w a := a / 2 ^ (w - pf_bits p) * 2 ^ (w - pf_bits p) in
  MkPrefix
    match pf_addr p with
    | AddrInvalid => AddrInvalid
    | Addr4 a => Addr4 (mask 32 a)
    | Addr6 a z => Addr6 (mask 128 a) z
    end (pf_bits p).

(** [for i := i0; i < len(a); i++ { ... a[i] |= byte(1<<nz - 1) }], with [n]
    indices to go. *)
Fixpoint fill_loop (n i i0 : nat) (bits : Z) (a : list Z) : list Z :=
  match n with
  | O => a
  | S n' =>
      let nz := if (i =? i0)%nat then 8 - bits mod 8 else 8 in
      fill_loop n' (S i) i0 bits (<[i := Z.lor (a !!! i) ((2 ^ nz - 1) mod 256)]> a)
  end.

Definition fill (bits : Z) (a : list Z) : list Z :=
  let i0 := Z.to_nat (bits / 8) in fill_loop (length a - i0) i0 i0 bits a.

Definition half_open (low high : Addr) : AddrRange * bool :=
  let ip := Next high in
  if IsValid ip then (Range low ip, false) else (Range low high, true).

(** The body of [ParsePrefix] after [netip.ParsePrefix] has read [p]; [None]
    is the error of the default case. *)
Definition prefix_range (p : IPPrefix) : option (AddrRange * bool) :=
  let p := Masked p in
  match pf_addr p with
  | Addr4 a => Some (half_open (pf_addr p) (Addr4 (be_value (fill (pf_bits p) (be_bytes 4 a)))))
  | Addr6 a _ =>
      Some (half_open (pf_addr p) (Addr6 (be_value (fill (pf_bits p) (be_bytes 16 a))) []))
  | AddrInvalid => None
  end.

(** [netip_ParsePrefix]: the standard library's parser of prefixes. *)
Definition ParsePrefix (netip_ParsePrefix : list Z → option IPPrefix) (s : list Z)
    : option (AddrRange * bool) :=
  match netip_ParsePrefix s with
  | None => None
  | Some p => prefix_range p
  end.

(** ** The last address of a prefix *)

Lemma lor_255 x : byte_ok x → Z.lor x 255 = 255.
Proof.
  intros [? ?]. apply Z.bits_inj'. intros n Hn. rewrite Z.lor_spec.
  change 255 with (Z.ones 8). destruct (decide (n < 8)).
  - rewrite Z.ones_spec_low by lia. by rewrite orb_true_r.
  - rewrite Z.ones_spec_high by lia. rewrite orb_false_r.
    rewrite Z.testbit_eqb by lia. rewrite Z.div_small; [done|].
    split; [lia|]. apply Z.lt_le_trans with (2 ^ 8); [lia|]. apply Z.pow_le_mono_r; lia.
Qed.

(** The bytes after the first partial one become 255. *)
Lemma fill_loop_rest n i i0 bits a :
  (i0 < i)%nat → (i + n = length a)%nat → Forall byte_ok a →
  fill_loop n i i0 bits a = take i a ++ replicate n 255.
Proof.
  revert i a. induction n as [|n IH]; intros i a Hi Hn Ha; simpl.
  { rewrite take_ge by lia. by rewrite app_nil_r. }
  destruct (Nat.eqb_spec i i0); [lia|].
  assert (∃ x, a !! i = Some x) as [x Hx] by (apply lookup_lt_is_Some; lia).
  rewrite (list_lookup_total_correct _ _ _ Hx).
  change ((2 ^ 8 - 1) mod 256) with 255.
  rewrite lor_255 by (rewrite Forall_lookup in Ha; by apply (Ha i)).
  rewrite IH; [|lia|by rewrite length_insert; lia|by apply Forall_insert].
  rewrite (take_S_r _ _ 255) by (apply list_lookup_insert_eq; lia).
  by rewrite take_insert_ge, <- app_assoc by lia.
Qed.

Lemma lor_low_ones q r : 0 <= r → Z.lor (q * 2 ^ r) (2 ^ r - 1) = q * 2 ^ r + (2 ^ r - 1).
Proof.
  intros Hr. rewrite <- Z.add_lor_land.
  assert (Z.land (q * 2 ^ r) (2 ^ r - 1) = 0) as ->; [|lia].
  rewrite Z.sub_1_r, <- Z.ones_equiv.
  rewrite Z.land_ones by lia. apply Z.mod_mul. lia.
Qed.

Lemma fill_value n bits v :
  0 <= bits <= 8 * Z.of_nat n → 0 <= v < 256 ^ Z.of_nat n →
  v mod 2 ^ (8 * Z.of_nat n - bits) = 0 →
  be_value (fill bits (be_bytes n v)) = v + 2 ^ (8 * Z.of_nat n - bits) - 1.
Proof.
  intros Hb Hv Hdiv. unfold fill. rewrite length_be_bytes.
  set (i0 := Z.to_nat (bits / 8)). zdiv bits 8.
  assert (Z.of_nat i0 = bits / 8) as Hi0 by (subst i0; lia). clearbody i0.
  destruct (decide (i0 = n)) as [->|Hne].
  { rewrite Nat.sub_diag. simpl. rewrite be_value_bytes, Z.mod_small by lia.
    replace (8 * Z.of_nat n - bits) with 0 by lia. lia. }
  set (k := (n - S i0)%nat).
  assert (n = i0 + S k)%nat as Hn by (subst k; lia). clearbody k.
  replace (n - i0)%nat with (S k) by lia. cbn [fill_loop]. rewrite Nat.eqb_refl.
  set (r := 8 - bits mod 8).
  assert (8 * Z.of_nat n - bits = r + 8 * Z.of_nat k) as Hr by (subst r; lia).
  assert (1 <= r <= 8) as Hr8 by (subst r; lia). clearbody r. rewrite Hr in *.
  assert (2 ^ (r + 8 * Z.of_nat k) = 2 ^ r * 256 ^ Z.of_nat k) as Hpow.
  { rewrite Z.pow_add_r by lia. f_equal. rewrite Z.pow_mul_r by lia. done. }
  rewrite Hpow in *. apply Z.mod_divide in Hdiv as [q Hq]; [|lia].
  set (K := 256 ^ Z.of_nat k) in *. assert (0 < K) as HK by (subst K; lia).
  assert (v / K = q * 2 ^ r) as HvK by (rewrite Hq, Z.mul_assoc; apply Z.div_mul; lia).
  assert ((v / K) mod 256 = q mod 2 ^ (8 - r) * 2 ^ r) as Hx.
  { rewrite HvK. replace 256 with (2 ^ (8 - r) * 2 ^ r); [apply Z.mul_mod_distr_r; lia|].
    rewrite <- Z.pow_add_r by lia. by replace (8 - r + r) with 8 by lia. }
  assert (be_bytes n v = be_bytes i0 (v / 256 ^ Z.of_nat (S k)) ++ (v / K) mod 256 :: be_bytes k v)
    as -> by (rewrite Hn at 1; apply be_bytes_app).
  rewrite list_lookup_total_middle by by rewrite length_be_bytes.
  rewrite insert_app_r_alt, length_be_bytes, Nat.sub_diag by (rewrite length_be_bytes; lia).
  cbn [insert list_insert].
  rewrite (Z.mod_small (2 ^ r - 1)), Hx, lor_low_ones by
    (try lia; pose proof (Z.pow_le_mono_r 2 r 8); lia).
  set (A := be_bytes i0 _). set (y := _ + (2 ^ r - 1)).
  assert (byte_ok y) as Hy.
  { subst y. pose proof (Z.mod_pos_bound q (2 ^ (8 - r)) ltac:(lia)).
    assert (2 ^ (8 - r) * 2 ^ r = 256) by (rewrite <- Z.pow_add_r by lia;
      by replace (8 - r + r) with 8 by lia). unfold byte_ok. nia. }
  assert (length A = i0) as HlA by apply length_be_bytes.
  rewrite fill_loop_rest; [|lia|rewrite length_app; simpl; rewrite length_be_bytes; lia|].
  2: { apply Forall_app. split; [apply be_bytes_ok|]. constructor; [done|apply be_bytes_ok]. }
  rewrite cons_middle, app_assoc, take_app_length' by (rewrite length_app; simpl; lia).
  rewrite be_value_app, be_value_snoc, be_value_255, length_replicate.
  assert (be_value A = v / K / 256) as ->.
  { subst A. rewrite be_value_bytes by (apply Z.div_pos; lia).
    rewrite Nat2Z.inj_succ, Z.pow_succ_r, (Z.mul_comm 256), <- Z.div_div by lia. fold K.
    apply Z.mod_small. split; [apply Z.div_pos; [apply Z.div_pos; lia|lia]|].
    apply Z.div_lt_upper_bound; [lia|]. apply Z.div_lt_upper_bound; [lia|].
    rewrite Hn in Hv. rewrite Nat2Z.inj_add, Nat2Z.inj_succ, Z.pow_add_r, Z.pow_succ_r in Hv by lia.
    fold K in Hv. lia. }
  subst y. rewrite <- Hx. fold K. zdiv (v / K) 256. rewrite HvK in *. nia.
Qed.

(** ** The contract *)

Definition addr_of (six : bool) (x : Z) : Addr := if six then Addr6 x [] else Addr4 x.
Definition width (six : bool) : Z := if six then 128 else 32.

Lemma Compare_addr_of six x y :
  Compare (addr_of six x) (addr_of six y) = match x ?= y with Lt => -1 | Eq => 0 | Gt => 1 end.
Proof. unfold Compare. destruct six; simpl; by destruct (x ?= y). Qed.

Lemma Next_addr_of six x :
  Next (addr_of six x) =
  if x =? 2 ^ width six - 1 then AddrInvalid else addr_of six (x + 1).
Proof. by destruct six. Qed.

(** The first and the last address of a prefix. *)
Lemma prefix_range_addr_of six a b :
  0 <= a < 2 ^ width six → 0 <= b <= width six →
  let base := a / 2 ^ (width six - b) * 2 ^ (width six - b) in
  prefix_range (MkPrefix (addr_of six a) b) =
  Some (half_open (addr_of six base) (addr_of six (base + 2 ^ (width six - b) - 1))).
Proof.
  intros Ha Hb base.
  assert (0 <= base < 2 ^ width six ∧ base mod 2 ^ (width six - b) = 0) as [Hr Hd].
  { pose proof (Z.mul_div_le a (2 ^ (width six - b)) ltac:(lia)).
    assert (0 <= a / 2 ^ (width six - b)) by (apply Z.div_pos; lia).
    subst base. split; [nia|]. apply Z.mod_mul. lia. }
  destruct six; unfold prefix_range, Masked; cbn [addr_of pf_addr pf_bits width] in *;
    fold base; do 3 f_equal; [rewrite (fill_value 16)|rewrite (fill_value 4)]; done || lia.
Qed.

Lemma same_prefix x a e :
  0 <= e → (x / 2 ^ e = a / 2 ^ e ↔ a / 2 ^ e * 2 ^ e <= x <= a / 2 ^ e * 2 ^ e + 2 ^ e - 1).
Proof.
  intros He. assert (0 < 2 ^ e) by lia. zdiv x (2 ^ e). split; [nia|].
  intros Hx. symmetry. apply Z.div_unique with (x - a / 2 ^ e * 2 ^ e); lia.
Qed.

(** C6: the range of a CIDR prefix contains exactly the addresses that share
    the prefix bits (all of them but the last one when the prefix reaches the
    end of the address space). *)
Theorem prefix_range_correct six a b r closed :
  0 <= a < 2 ^ width six → 0 <= b <= width six →
  prefix_range (MkPrefix (addr_of six a) b) = Some (r, closed) →
  ∀ x, 0 <= x < 2 ^ width six →
  x / 2 ^ (width six - b) = a / 2 ^ (width six - b) ↔
  Contains (Add [] r) (addr_of six x) = true ∨ closed = true ∧ addr_of six x = High r.
Proof.
  intros Ha Hb Hr x Hx. rewrite prefix_range_addr_of in Hr by done.
  rewrite same_prefix by lia.
  assert (0 < 2 ^ (width six - b)) by lia.
  set (base := a / 2 ^ (width six - b) * 2 ^ (width six - b)) in *. clearbody base.
  set (e := 2 ^ (width six - b)) in *. clearbody e.
  unfold half_open in Hr. rewrite Next_addr_of in Hr.
  unfold Add. rewrite Contains_member by apply AddRange_ok, range_set_nil.
  rewrite AddRange_member by apply range_set_nil. unfold member. rewrite Exists_nil.
  unfold inside, addr_le, addr_lt.
  destruct (Z.eqb_spec (base + e - 1) (2 ^ width six - 1)); simpl in Hr.
  - injection Hr as <- <-. cbn [Low High]. rewrite !Compare_addr_of.
    assert (addr_of six x = addr_of six (base + e - 1) ↔ x = base + e - 1) as ->
      by (split; [destruct six; by intros [=]|by intros ->]).
    destruct (Z.compare_spec base x), (Z.compare_spec x (base + e - 1)); naive_solver lia.
  - assert (IsValid (addr_of six (base + e - 1 + 1)) = true) as Hv by by destruct six.
    rewrite Hv in Hr. injection Hr as <- <-. cbn [Low High]. rewrite !Compare_addr_of.
    destruct (Z.compare_spec base x), (Z.compare_spec x (base + e - 1 + 1)); naive_solver lia.
Qed.

Lemma prefix_range_correct_witness :
  3232235777 / 2 ^ (width false - 24) = 3232235521 / 2 ^ (width false - 24) ↔
  Contains (Add [] (Range (Addr4 3232235520) (Addr4 3232235776))) (Addr4 3232235777) = true ∨
  false = true ∧ Addr4 3232235777 = Addr4 3232235776.
Proof.
  apply (prefix_range_correct false 3232235521 24
           (Range (Addr4 3232235520) (Addr4 3232235776)) false);
    split || idtac; done.
Defined.

(** A prefix is turned into a range exactly when it has an address, and the
    range is closed exactly when it ends at the last address of its family. *)
Theorem prefix_range_closed six a b :
  0 <= a < 2 ^ width six → 0 <= b <= width six →
  ∃ r, prefix_range (MkPrefix (addr_of six a) b) =
    Some (r, bool_decide (a / 2 ^ (width six - b) = 2 ^ b - 1)) ∧ IsValid (High r) = true.
Proof.
  intros Ha Hb. rewrite prefix_range_addr_of by done. unfold half_open. rewrite Next_addr_of.
  assert (2 ^ width six = 2 ^ b * 2 ^ (width six - b)) as Hw.
  { rewrite <- Z.pow_add_r by lia. f_equal. lia. }
  assert (0 < 2 ^ (width six - b)) by lia.
  assert (a / 2 ^ (width six - b) * 2 ^ (width six - b) + 2 ^ (width six - b) - 1 =
    2 ^ width six - 1 ↔ a / 2 ^ (width six - b) = 2 ^ b - 1) as Hiff by (rewrite Hw; nia).
  case_bool_decide as Hd.
  - apply Hiff in Hd. rewrite Hd, Z.eqb_refl. eexists. split; [reflexivity|]. by destruct six.
  - destruct (Z.eqb_spec (a / 2 ^ (width six - b) * 2 ^ (width six - b) +
      2 ^ (width six - b) - 1) (2 ^ width six - 1)) as [E|_]; [by apply Hiff in E|].
    assert (∀ y, IsValid (addr_of six y) = true) as Hv by (intros; by destruct six).
    rewrite Hv. eexists. split; [reflexivity|apply Hv].
Qed.

Lemma prefix_range_closed_witness :
  ∃ r, prefix_range (MkPrefix (Addr4 4294967295) 31) = Some (r, true) ∧ IsValid (High r) = true.
Proof. apply (prefix_range_closed false 4294967295 31); split; (discriminate || reflexivity). Defined.
