(* ===== verification/Failover.v ===== *)
(** * The failover queue (service/socks/balancer/failover/failover.go).

    A queue keeps pointers to scored candidates, best score first.  An
    attempt that gets an answer raises the score of its candidate, one that
    fails lowers it, by the Fibonacci number of the length of its streak; when
    every score is low, or every score is high, all are shifted back around
    the middle.  The elems are shared between the queue and the connections
    that report on them, so they live in a store and the queue holds their
    places in it. *)

From stdpp Require Import sorting.
From S2P Require Import Prelude.

Definition maxScore : Z := 64.
Definition maxN : Z := 9.

(** [for i, j := 0, 1; ; i, j, n = j, i+j, n-1 { if n < 1 { return i } }] *)
Fixpoint fib_loop (n : nat) (i j : Z) : Z :=
  match n with O => i | S n' => fib_loop n' j (i + j) end.

Definition fib (n : Z) : Z := fib_loop (Z.to_nat n) 0 1.

Record elem := Elem { e_Index : nat; e_Score : Z; e_N : Z }.

#[export] Instance elem_inhabited : Inhabited elem := populate (Elem 0 0 0).

Definition newElem (i : nat) : elem := Elem i (Z.quot maxScore 2) 0.

Definition Less (e other : elem) : bool :=
  let d := e_Score e - e_Score other in
  if negb (d =? 0) then 0 <? d else (e_Index e <? e_Index other)%nat.

Definition elem_succ (e : elem) : elem :=
  if e_Score e =? maxScore then e
  else
    let n0 := if e_N e <? 0 then 0 else e_N e in
    let n1 := if n0 <? maxN then n0 + 1 else n0 in
    let score := e_Score e + fib n1 in
    Elem (e_Index e) (if maxScore <? score then maxScore else score) n1.

Definition elem_fail (e : elem) : elem :=
  if e_Score e =? 0 then e
  else
    let n0 := if 0 <? e_N e then 0 else e_N e in
    let n1 := if - maxN <? n0 then n0 - 1 else n0 in
    let score := e_Score e - fib (- n1) in
    Elem (e_Index e) (if score <? 0 then 0 else score) n1.

(** [*elem] is a place in [q_store]; [q_elems] is the slice of pointers. *)
Record queue := Queue {
  q_store : list elem;
  q_elems : list nat;
  q_recent : option nat;
  q_nLowScore : Z;
  q_nHighScore : Z
}.

Definition newQueue (n : nat) : queue := Queue (newElem <$> seq 0 n) (seq 0 n) None 0 0.

Definition score (store : list elem) (p : nat) : Z := e_Score (store !!! p).

(** [pick]; [rand] is [rand.IntN].  [None]: [s[0]] panics on an empty queue. *)
Definition pick (q : queue) (rand : nat → nat) : option (queue * nat * bool) :=
  let s := q_elems q in
  match s with
  | [] => None
  | e0 :: rest =>
      let n := (sort_Search (length rest)
                 (λ i, (score (q_store q) (s !!! S i) <? score (q_store q) e0)%Z) + 1)%nat in
      let e := s !!! rand n in
      let recent := q_recent q in
      Some (Queue (q_store q) s (Some e) (q_nLowScore q) (q_nHighScore q), e,
            bool_decide (recent = Some e))
  end.

Definition scoreChanged (oldScore newScore : Z) (n : Z * Z) : Z * Z :=
  let half := Z.quot maxScore 2 in
  let '(nLow, nHigh) := n in
  if oldScore <? half then
    if half <? newScore then (nLow - 1, nHigh + 1)
    else if newScore =? half then (nLow - 1, nHigh) else (nLow, nHigh)
  else if half <? oldScore then
    if newScore <? half then (nLow + 1, nHigh - 1)
    else if newScore =? half then (nLow, nHigh - 1) else (nLow, nHigh)
  else
    if newScore <? half then (nLow + 1, nHigh)
    else if half <? newScore then (nLow, nHigh + 1) else (nLow, nHigh).

(** [slices.Index] *)
Fixpoint slices_Index (s : list nat) (e : nat) : nat :=
  match s with [] => O | x :: s' => if (x =? e)%nat then O else S (slices_Index s' e) end.

(** The two loops that move the elem at [j] to its place; the first ends at
    the last index, which [fuel] reaches. *)
Fixpoint sift_down (fuel : nat) (sc : nat → Z) (s : list nat) (j : nat) : list nat :=
  match fuel with
  | O => s
  | S fuel' =>
      if (j <? length s - 1)%nat then
        if sc (s !!! S j) <=? sc (s !!! j) then s
        else sift_down fuel' sc (swap j (S j) s) (S j)
      else s
  end.

Fixpoint sift_up (sc : nat → Z) (s : list nat) (j : nat) : list nat :=
  match j with
  | O => s
  | S j' => if sc (s !!! j) <=? sc (s !!! j') then s else sift_up sc (swap j j' s) j'
  end.

(** [for _, e := range s { e.Score += offset; q.scoreChanged(...) }] *)
Fixpoint shift_scores (offset : Z) (s : list nat) (store : list elem) (n : Z * Z)
    : list elem * (Z * Z) :=
  match s with
  | [] => (store, n)
  | p :: s' =>
      let e := store !!! p in
      let e' := Elem (e_Index e) (e_Score e + offset) (e_N e) in
      shift_scores offset s' (<[p := e']> store) (scoreChanged (e_Score e) (e_Score e') n)
  end.

Definition fix_ (q : queue) (p : nat) (success : bool) : queue :=
  let e := q_store q !!! p in
  let oldScore := e_Score e in
  let e' := if success then elem_succ e else elem_fail e in
  let store := <[p := e']> (q_store q) in
  if e_Score e' =? oldScore then
    Queue store (q_elems q) (q_recent q) (q_nLowScore q) (q_nHighScore q)
  else
    let sc := score store in
    let i := slices_Index (q_elems q) p in
    let s1 := sift_down (length (q_elems q)) sc (q_elems q) i in
    let s := sift_up sc s1 i in
    let '(nLow, nHigh) :=
      scoreChanged oldScore (e_Score e') (q_nLowScore q, q_nHighScore q) in
    let len := Z.of_nat (length s) in
    if (nLow <? len) && (nHigh <? len) then Queue store s (q_recent q) nLow nHigh
    else
      let totalScore := foldl (λ t p, t + score store p) 0 s in
      let offset := Z.quot maxScore 2 - Z.quot totalScore len in
      let '(store', (nLow', nHigh')) := shift_scores offset s store (nLow, nHigh) in
      Queue store' s (q_recent q) nLow' nHigh'.

Definition succ (q : queue) (p : nat) : queue := fix_ q p true.
Definition fail (q : queue) (p : nat) : queue := fix_ q p false.

Example fib_9 : fib 9 = 34.
Proof. reflexivity. Qed.

(** ** The invariant *)

Definition low (store : list elem) (p : nat) : Z := if score store p <? 32 then 1 else 0.
Definition high (store : list elem) (p : nat) : Z := if 32 <? score store p then 1 else 0.

Definition total (f : nat → Z) (s : list nat) : Z := foldr (λ p t, f p + t) 0 s.

Definition elem_ok (e : elem) : Prop := 0 <= e_Score e <= 64 ∧ -9 <= e_N e <= 9.

Record queue_ok (q : queue) : Prop := QueueOk {
  qk_elems : q_elems q ≡ₚ seq 0 (length (q_store q));
  qk_some : q_elems q ≠ [];
  qk_elem : Forall elem_ok (q_store q);
  qk_index : ∀ p, (p < length (q_store q))%nat → e_Index (q_store q !!! p) = p;
  qk_sorted : StronglySorted (λ p p', score (q_store q) p' <= score (q_store q) p) (q_elems q);
  qk_low : q_nLowScore q = total (low (q_store q)) (q_elems q);
  qk_high : q_nHighScore q = total (high (q_store q)) (q_elems q);
  qk_mixed : q_nLowScore q < Z.of_nat (length (q_elems q)) ∧
             q_nHighScore q < Z.of_nat (length (q_elems q))
}.

(** ** Scores of one elem *)

Lemma fib_loop_nonneg n i j : 0 <= i → 0 <= j → 0 <= fib_loop n i j.
Proof. revert i j. induction n as [|n IH]; intros i j Hi Hj; simpl; [done|]. apply IH; lia. Qed.

Lemma fib_nonneg n : 0 <= fib n.
Proof. by apply fib_loop_nonneg. Qed.

Lemma elem_step_ok e (b : bool) :
  elem_ok e → elem_ok (if b then elem_succ e else elem_fail e) ∧
  e_Index (if b then elem_succ e else elem_fail e) = e_Index e.
Proof.
  intros [Hs Hn]. unfold elem_ok, elem_succ, elem_fail, maxScore, maxN.
  destruct b; case_match; try done; simpl; (split; [|done]).
  - pose proof (fib_nonneg (if (if e_N e <? 0 then 0 else e_N e) <? 9
      then (if e_N e <? 0 then 0 else e_N e) + 1 else (if e_N e <? 0 then 0 else e_N e))).
    repeat case_match; lia.
  - pose proof (fib_nonneg (- (if - (9) <? (if 0 <? e_N e then 0 else e_N e)
      then (if 0 <? e_N e then 0 else e_N e) - 1 else (if 0 <? e_N e then 0 else e_N e)))).
    repeat case_match; lia.
Qed.

(** ** Sums over the queue *)

Lemma total_perm f s t : s ≡ₚ t → total f s = total f t.
Proof. induction 1; simpl in *; lia. Qed.

Lemma total_ext f g s : (∀ p, p ∈ s → f p = g p) → total f s = total g s.
Proof.
  induction s as [|p s IH]; intros H; [done|]. simpl.
  rewrite H, IH; [done| |by left]. intros. apply H. by right.
Qed.

(** A change at one place of a list without duplicates. *)
Lemma total_update f g s p :
  NoDup s → p ∈ s → (∀ x, x ≠ p → f x = g x) → total f s = total g s - g p + f p.
Proof.
  intros Hd Hp Hfg. induction Hd as [|x s Hx Hd IH]; [by apply elem_of_nil in Hp|].
  simpl. apply elem_of_cons in Hp as [->|Hp].
  - rewrite (total_ext f g s); [lia|]. intros y Hy. apply Hfg. set_solver.
  - rewrite IH by done. rewrite (Hfg x); [lia|]. set_solver.
Qed.

Lemma total_le f k s : (∀ p, p ∈ s → f p <= k) → total f s <= k * Z.of_nat (length s).
Proof.
  induction s as [|p s IH]; intros H; simpl; [lia|].
  specialize (IH ltac:(intros; apply H; by right)). specialize (H p ltac:(by left)). lia.
Qed.

Lemma total_opp f s : total (λ p, - f p) s = - total f s.
Proof. induction s as [|p s IH]; simpl; lia. Qed.

Lemma total_ge f k s : (∀ p, p ∈ s → k <= f p) → k * Z.of_nat (length s) <= total f s.
Proof.
  intros H. pose proof (total_le (λ p, - f p) (- k) s) as Hle.
  rewrite total_opp in Hle. specialize (Hle ltac:(intros; specialize (H p ltac:(done)); lia)). lia.
Qed.

(** Some score is at least the mean and some is at most the mean. *)
Lemma mean_between f s :
  s ≠ [] → let m := total f s / Z.of_nat (length s) in
  (∃ p, p ∈ s ∧ m <= f p) ∧ (∃ p, p ∈ s ∧ f p <= m).
Proof.
  intros Hs m. assert (0 < Z.of_nat (length s)) as Hl by (destruct s; simpl; [done|lia]).
  pose proof (Z.div_mod (total f s) (Z.of_nat (length s)) ltac:(lia)).
  pose proof (Z.mod_pos_bound (total f s) (Z.of_nat (length s)) Hl). fold m in H.
  split.
  - destruct (Exists_dec (λ p, m <= f p) s) as [(p & Hp & Hm)%Exists_exists|Hn]; [by exists p|].
    exfalso.
    assert (∀ p, p ∈ s → f p <= m - 1) as Hall.
    { intros p Hp. destruct (decide (m <= f p)); [|lia].
      exfalso. apply Hn, Exists_exists. eauto. }
    pose proof (total_le f (m - 1) s Hall). nia.
  - destruct (Exists_dec (λ p, f p <= m) s) as [(p & Hp & Hm)%Exists_exists|Hn]; [by exists p|].
    exfalso. assert (∀ p, p ∈ s → m + 1 <= f p) as Hall.
    { intros p Hp. destruct (decide (f p <= m)); [|lia].
      exfalso. apply Hn, Exists_exists. eauto. }
    pose proof (total_ge f (m + 1) s Hall). nia.
Qed.

Lemma total_lt f s p :
  (∀ x, x ∈ s → f x <= 1) → p ∈ s → f p = 0 → total f s < Z.of_nat (length s).
Proof.
  induction s as [|x s IH]; intros H Hp H0; [by apply elem_of_nil in Hp|]. simpl.
  assert (∀ x, x ∈ s → f x <= 1) as H' by (intros; apply H; by right).
  apply elem_of_cons in Hp as [<-|Hp].
  - pose proof (total_le f 1 s H'). lia.
  - specialize (IH H' Hp H0). specialize (H x ltac:(by left)). lia.
Qed.

Lemma total_all f s :
  (∀ x, x ∈ s → f x <= 1) → Z.of_nat (length s) <= total f s → ∀ x, x ∈ s → f x = 1.
Proof.
  intros H Ht x Hx. specialize (H x Hx) as Hfx. destruct (decide (f x = 1)); [done|].
  exfalso. revert Ht Hx. induction s as [|y s IH]; [by intros _ ?%elem_of_nil|].
  intros Ht Hx. simpl in Ht.
  assert (∀ x, x ∈ s → f x <= 1) as H' by (intros; apply H; by right).
  pose proof (total_le f 1 s H'). pose proof (H y ltac:(by left)).
  apply elem_of_cons in Hx as [<-|Hx]; [lia|]. apply IH; [done|lia|done].
Qed.

(** ** Moving an elem to its place *)

Lemma swap_middle (A B : list nat) x y :
  swap (length A) (S (length A)) (A ++ x :: y :: B) = A ++ y :: x :: B ∧
  swap (S (length A)) (length A) (A ++ x :: y :: B) = A ++ y :: x :: B.
Proof.
  assert ((A ++ x :: y :: B) !! length A = Some x) as E1 by by apply list_lookup_middle.
  assert ((A ++ x :: y :: B) !! S (length A) = Some y) as E2.
  { rewrite lookup_app_r by lia. by replace (S (length A) - length A)%nat with 1%nat by lia. }
  unfold swap. rewrite E1, E2.
  assert (∀ u v, <[S (length A):=v]> (<[length A:=u]> (A ++ x :: y :: B)) = A ++ u :: v :: B) as H.
  { intros u v. rewrite !insert_app_r_alt by lia.
    rewrite Nat.sub_diag. by replace (S (length A) - length A)%nat with 1%nat by lia. }
  split; [apply H|]. rewrite list_insert_insert_ne by lia. apply H.
Qed.

Section Sift.
Variable sc : nat → Z.

Definition above (p p' : nat) : Prop := sc p' <= sc p.

Lemma sift_down_spec fuel A p B :
  (length B ≤ fuel)%nat → ∃ B1 B2, B = B1 ++ B2 ∧
    sift_down fuel sc (A ++ p :: B) (length A) = A ++ B1 ++ p :: B2 ∧
    Forall (λ x, sc p < sc x) B1 ∧ (∀ x, head B2 = Some x → sc x <= sc p).
Proof.
  revert A B. induction fuel as [|fuel IH]; intros A B Hf.
  { destruct B; [|simpl in Hf; lia]. by exists [], []. }
  destruct B as [|b B].
  { exists [], []. split_and!; try done. cbn [sift_down].
    rewrite length_app. simpl. by destruct (Nat.ltb_spec (length A) (length A + 1 - 1)); [lia|]. }
  cbn [sift_down]. rewrite length_app. simpl.
  destruct (Nat.ltb_spec (length A) (length A + S (S (length B)) - 1)); [|lia].
  rewrite (list_lookup_total_middle A _ _ (length A)) by done.
  assert ((A ++ p :: b :: B) !!! S (length A) = b) as ->.
  { rewrite cons_middle, app_assoc. apply list_lookup_total_middle. rewrite length_app. simpl. lia. }
  destruct (Z.leb_spec (sc b) (sc p)).
  { exists [], (b :: B). split_and!; try done. by intros x [= <-]. }
  destruct (swap_middle A B p b) as [-> _].
  destruct (IH (A ++ [b]) B ltac:(simpl in Hf; lia)) as (B1 & B2 & -> & E & H1 & H2).
  rewrite length_app, Nat.add_1_r, <- app_assoc in E. simpl in E.
  exists (b :: B1), B2. rewrite E, <- app_assoc. split_and!; try done. by constructor.
Qed.

Lemma sift_up_spec A p B :
  ∃ A1 A2, A = A1 ++ A2 ∧ sift_up sc (A ++ p :: B) (length A) = A1 ++ p :: A2 ++ B ∧
    Forall (λ x, sc x < sc p) A2 ∧ (∀ x, last A1 = Some x → sc p <= sc x).
Proof.
  revert B. induction A as [|a A IH] using rev_ind; intros B.
  { by exists [], []. }
  rewrite length_app, Nat.add_1_r, <- app_assoc. simpl.
  rewrite (list_lookup_total_middle A _ _ (length A)) by done.
  assert ((A ++ a :: p :: B) !!! S (length A) = p) as ->.
  { rewrite cons_middle, app_assoc. apply list_lookup_total_middle. rewrite length_app. simpl. lia. }
  destruct (Z.leb_spec (sc p) (sc a)).
  { exists (A ++ [a]), []. rewrite app_nil_r, <- app_assoc. split_and!; try done.
    intros x. rewrite last_snoc. by intros [= <-]. }
  destruct (swap_middle A B a p) as [_ ->].
  destruct (IH (a :: B)) as (A1 & A2 & -> & E & H1 & H2).
  exists A1, (A2 ++ [a]). rewrite E, <- !app_assoc. split_and!; try done.
  apply Forall_app. auto.
Qed.

Lemma above_insert X Y p :
  StronglySorted above (X ++ Y) → Forall (λ x, sc p <= sc x) X → Forall (λ y, sc y <= sc p) Y →
  StronglySorted above (X ++ p :: Y).
Proof.
  intros (H1 & H2 & H3)%StronglySorted_app HX HY. rewrite Forall_forall in HX, HY.
  apply StronglySorted_app. split_and!; [|done|].
  - intros x y Hx [->|Hy]%elem_of_cons; [by apply HX|by apply H1].
  - constructor; [done|]. apply Forall_forall. apply HY.
Qed.

Lemma above_head Y k :
  StronglySorted above Y → (∀ y, head Y = Some y → sc y <= k) → Forall (λ y, sc y <= k) Y.
Proof.
  intros HY Hh. destruct HY as [|y Y HY Hy]; [done|].
  specialize (Hh y eq_refl). constructor; [done|].
  eapply Forall_impl; [exact Hy|]. unfold above. simpl. lia.
Qed.

Lemma above_last X k :
  StronglySorted above X → (∀ x, last X = Some x → k <= sc x) → Forall (λ x, k <= sc x) X.
Proof.
  intros HX Hl. destruct X as [|x X _] using rev_ind; [done|].
  rewrite last_snoc in Hl. specialize (Hl x eq_refl).
  apply StronglySorted_app in HX as (H & _ & _).
  apply Forall_app. split; [|by constructor].
  apply Forall_forall. intros y Hy. specialize (H y x Hy ltac:(by left)). unfold above in H. lia.
Qed.

(** Both loops together: the elem whose score changed goes to its place. *)
Lemma sift_sorted fuel A p B :
  (length B ≤ fuel)%nat → StronglySorted above (A ++ B) →
  let s := sift_up sc (sift_down fuel sc (A ++ p :: B) (length A)) (length A) in
  StronglySorted above s ∧ s ≡ₚ A ++ p :: B.
Proof.
  intros Hf Hs. cbv zeta.
  destruct (sift_down_spec fuel A p B Hf) as (B1 & B2 & -> & -> & H1 & H2).
  pose proof Hs as Hs0. rewrite app_assoc in Hs. apply StronglySorted_app in Hs as (_ & HX & HY).
  pose proof (above_head _ _ HY H2) as HB2. destruct B1 as [|b B1].
  - rewrite app_nil_r in HX. simpl.
    destruct (sift_up_spec A p B2) as (A1 & A2 & -> & -> & H3 & H4).
    apply StronglySorted_app in HX as (_ & HA1 & _). rewrite <- app_assoc in Hs0. split.
    + apply above_insert; [done|by apply above_last|]. apply Forall_app. split; [|done].
      eapply Forall_impl; [exact H3|]. simpl. lia.
    + solve_Permutation.
  - destruct (sift_up_spec A b (B1 ++ p :: B2)) as (A1 & A2 & -> & E & H3 & H4).
    simpl in *. rewrite E.
    assert (A2 = []) as ->.
    { destruct A2 as [|a A2]; [done|]. apply Forall_cons in H3 as [Ha _].
      apply StronglySorted_app in HX as (H & _).
      specialize (H a b ltac:(set_solver) ltac:(set_solver)). unfold above in H. lia. }
    rewrite app_nil_r in *. simpl. apply Forall_cons in H1 as [Hb HB1].
    rewrite app_comm_cons, app_assoc. split.
    + apply above_insert; [by rewrite <- app_assoc| |done]. apply Forall_app.
      split; [|constructor; [lia|eapply Forall_impl; [exact HB1|simpl; lia]]].
      apply StronglySorted_app in HX as (H & _). apply Forall_forall. intros x Hx.
      specialize (H x b Hx ltac:(set_solver)). unfold above in H. lia.
    + solve_Permutation.
Qed.
End Sift.

(** ** Counting *)

Definition lowv (x : Z) : Z := if x <? 32 then 1 else 0.
Definition highv (x : Z) : Z := if 32 <? x then 1 else 0.

Lemma scoreChanged_spec o n l h :
  scoreChanged o n (l, h) = (l - lowv o + lowv n, h - highv o + highv n).
Proof.
  unfold scoreChanged, lowv, highv. change (Z.quot maxScore 2) with 32.
  destruct (Z.ltb_spec o 32), (Z.ltb_spec 32 o), (Z.ltb_spec n 32), (Z.ltb_spec 32 n),
    (Z.eqb_spec n 32); try lia; f_equal; lia.
Qed.

Definition shift_elem (off : Z) (e : elem) : elem := Elem (e_Index e) (e_Score e + off) (e_N e).

Lemma shift_scores_spec off s store l h :
  NoDup s → (∀ p, p ∈ s → (p < length store)%nat) →
  let '(store', (l', h')) := shift_scores off s store (l, h) in
  length store' = length store ∧
  (∀ p, store' !!! p = if decide (p ∈ s) then shift_elem off (store !!! p) else store !!! p) ∧
  l' = l - total (low store) s + total (low store') s ∧
  h' = h - total (high store) s + total (high store') s.
Proof.
  intros Hd. revert store l h. induction Hd as [|p s Hp Hd IH]; intros store l h Hlt.
  { simpl. split_and!; try done; try lia. }
  cbn [shift_scores]. rewrite scoreChanged_spec. fold (shift_elem off (store !!! p)).
  set (store1 := <[p := shift_elem off (store !!! p)]> store).
  assert (length store1 = length store) as Hlen by apply length_insert.
  specialize (IH store1 (l - lowv (e_Score (store !!! p)) + lowv (e_Score (shift_elem off (store !!! p))))
    (h - highv (e_Score (store !!! p)) + highv (e_Score (shift_elem off (store !!! p))))).
  destruct (shift_scores off s store1 _) as [store' [l' h']].
  destruct IH as (H1 & H2 & H3 & H4); [intros x Hx; rewrite Hlen; apply Hlt; by right|].
  assert (store1 !!! p = shift_elem off (store !!! p)) as E1.
  { apply list_lookup_total_insert_eq. apply Hlt. by left. }
  assert (∀ x, x ≠ p → store1 !!! x = store !!! x) as E2.
  { intros x Hx. by apply list_lookup_total_insert_ne. }
  assert (store' !!! p = shift_elem off (store !!! p)) as E3 by by rewrite H2, decide_False.
  assert (∀ x, x ∈ s → x ≠ p) as Hne by set_solver.
  assert (total (low store) s = total (low store1) s) as El.
  { apply total_ext. intros x Hx. unfold low, score. rewrite E2; auto. }
  assert (total (high store) s = total (high store1) s) as Eh.
  { apply total_ext. intros x Hx. unfold high, score. rewrite E2; auto. }
  cbn [total foldr]. fold (total (low store) s) (total (high store) s) (total (low store') s)
    (total (high store') s). rewrite El, Eh. unfold low at 1 3, high at 1 3, score. rewrite E3.
  unfold lowv, highv in *. split_and!; [congruence| |lia|lia].
  intros x. rewrite H2. destruct (decide (x = p)) as [->|Hx].
  - rewrite decide_False, decide_True by set_solver. done.
  - rewrite E2 by done. by repeat case_decide; set_solver.
Qed.

Lemma slices_Index_middle A p B : p ∉ A → slices_Index (A ++ p :: B) p = length A.
Proof.
  induction A as [|a A IH]; intros Hp; simpl; [by rewrite Nat.eqb_refl|].
  apply not_elem_of_cons in Hp as [Hne Hp]. destruct (Nat.eqb_spec a p); [congruence|].
  by rewrite IH.
Qed.

Lemma low_le1 store x : low store x <= 1.
Proof. unfold low. case_match; lia. Qed.
Lemma high_le1 store x : high store x <= 1.
Proof. unfold high. case_match; lia. Qed.

(** Scores that are all low, or all high, mixed again by moving their mean to
    the middle. *)
Lemma rebalanced store s :
  s ≠ [] → (∀ p, p ∈ s → 0 <= score store p <= 64) →
  Z.of_nat (length s) <= total (low store) s ∨ Z.of_nat (length s) <= total (high store) s →
  let off := 32 - Z.quot (total (score store) s) (Z.of_nat (length s)) in
  (∀ p, p ∈ s → 0 <= score store p + off <= 64) ∧
  (∃ p, p ∈ s ∧ 32 <= score store p + off) ∧ (∃ p, p ∈ s ∧ score store p + off <= 32).
Proof.
  intros Hs Hb Hall off. assert (0 < Z.of_nat (length s)) as Hl by (destruct s; simpl; [done|lia]).
  assert (0 <= total (score store) s) as Ht.
  { pose proof (total_ge (score store) 0 s ltac:(intros; by apply Hb)). lia. }
  subst off. rewrite Z.quot_div_nonneg by lia.
  destruct (mean_between (score store) s Hs) as [(p & Hp & H1) (q & Hq & H2)].
  split_and!; [|exists p; split; [done|lia]|exists q; split; [done|lia]].
  intros x Hx. set (m := total (score store) s / _) in *.
  destruct Hall as [Hall|Hall].
  - pose proof (total_all _ s (λ x _, low_le1 store x) Hall) as H.
    pose proof (H p Hp). pose proof (H q Hq). pose proof (H x Hx). pose proof (Hb x Hx).
    pose proof (Hb q Hq). unfold low in *. repeat case_match; lia.
  - pose proof (total_all _ s (λ x _, high_le1 store x) Hall) as H.
    pose proof (H p Hp). pose proof (H q Hq). pose proof (H x Hx). pose proof (Hb x Hx).
    pose proof (Hb p Hp). unfold high in *. repeat case_match; lia.
Qed.

Lemma foldl_total f s t : foldl (λ t p, t + f p) t s = t + total f s.
Proof. revert t. induction s as [|p s IH]; intros t; simpl; [lia|]. rewrite IH. lia. Qed.

Lemma sorted_ext (R R' : nat → nat → Prop) s :
  (∀ x y, x ∈ s → y ∈ s → R x y → R' x y) → StronglySorted R s → StronglySorted R' s.
Proof.
  intros H Hs. induction Hs as [|x s Hs IH Hf]; [constructor|]. constructor.
  - apply IH. intros. apply H; [by right|by right|done].
  - rewrite Forall_forall in *. intros y Hy. apply H; [by left|by right|by apply Hf].
Qed.

(** ** The queue after one report, before it is rebalanced *)

Definition raise (e : elem) (success : bool) : elem := if success then elem_succ e else elem_fail e.

Section Fix.
Variables (q : queue) (p : nat) (e' : elem).
Hypotheses (Hq : queue_ok q) (Hp : (p < length (q_store q))%nat).

Let store := <[p := e']> (q_store q).

Lemma store_at x : store !!! x = if decide (x = p) then e' else q_store q !!! x.
Proof using Hp.
  subst store. case_decide as H; [subst x; by apply list_lookup_total_insert_eq|].
  by apply list_lookup_total_insert_ne.
Qed.

Lemma elems_lt x : x ∈ q_elems q ↔ (x < length (q_store q))%nat.
Proof using Hq. clear -Hq. rewrite (qk_elems q Hq), elem_of_seq. lia. Qed.

Lemma elems_nodup : NoDup (q_elems q).
Proof using Hq. clear -Hq. rewrite (qk_elems q Hq). apply NoDup_seq. Qed.

Lemma moved_sorted :
  let s1 := sift_down (length (q_elems q)) (score store) (q_elems q) (slices_Index (q_elems q) p) in
  let s := sift_up (score store) s1 (slices_Index (q_elems q) p) in
  StronglySorted (λ p p', score store p' <= score store p) s ∧ s ≡ₚ q_elems q.
Proof using Hq Hp.
  assert (p ∈ q_elems q) as (A & B & E)%list_elem_of_split by by apply elems_lt.
  pose proof elems_nodup as Hd. pose proof (qk_sorted q Hq) as Hs. rewrite E in *.
  apply NoDup_app in Hd as (HA & HAB & HB). apply NoDup_cons in HB as [HB _].
  assert (p ∉ A) as HpA by (intros H; apply (HAB p H); by left).
  rewrite slices_Index_middle by done.
  apply (sift_sorted (score store)); [rewrite length_app; simpl; lia|].
  apply (sorted_ext (λ p p', score (q_store q) p' <= score (q_store q) p)).
  - intros x y Hx Hy. unfold above, score. rewrite !store_at.
    rewrite !decide_False by set_solver. done.
  - apply StronglySorted_app in Hs as (H1 & H2 & H3). inversion H3 as [|?? H4 H5]; subst.
    apply StronglySorted_app. split_and!; [|done|done]. intros x y Hx Hy.
    apply H1; [done|by right].
Qed.

Lemma moved_counts s :
  s ≡ₚ q_elems q →
  let '(nLow, nHigh) := scoreChanged (e_Score (q_store q !!! p)) (e_Score e')
                          (q_nLowScore q, q_nHighScore q) in
  nLow = total (low store) s ∧ nHigh = total (high store) s.
Proof using Hq Hp.
  intros Hs. rewrite scoreChanged_spec, (qk_low q Hq), (qk_high q Hq).
  rewrite !(total_perm _ _ _ Hs).
  assert (∀ f : Z → Z, total (λ x, f (score store x)) (q_elems q) =
    total (λ x, f (score (q_store q) x)) (q_elems q) - f (e_Score (q_store q !!! p)) + f (e_Score e')) as H.
  { intros f. rewrite (total_update (λ x, f (score store x)) (λ x, f (score (q_store q) x)) _ p).
    - unfold score. by rewrite (store_at p), decide_True by done.
    - apply elems_nodup.
    - by apply elems_lt.
    - intros x Hx. unfold score. by rewrite store_at, decide_False. }
  pose proof (H lowv) as Hl. pose proof (H highv) as Hh.
  unfold low, high, lowv, highv in *. lia.
Qed.

Lemma store_ok :
  elem_ok e' → e_Index e' = e_Index (q_store q !!! p) →
  Forall elem_ok store ∧ length store = length (q_store q) ∧
  (∀ x, (x < length (q_store q))%nat → e_Index (store !!! x) = x).
Proof using Hq Hp.
  intros He Hi. split_and!.
  - apply Forall_insert; [apply Hq|done].
  - apply length_insert.
  - intros x Hx. rewrite store_at. case_decide; [subst; rewrite Hi|]; by apply Hq.
Qed.
End Fix.

Lemma rebalance_ok store s recent :
  s ≡ₚ seq 0 (length store) → s ≠ [] → Forall elem_ok store →
  (∀ x, (x < length store)%nat → e_Index (store !!! x) = x) →
  StronglySorted (λ p p', score store p' <= score store p) s →
  Z.of_nat (length s) <= total (low store) s ∨ Z.of_nat (length s) <= total (high store) s →
  let off := 32 - Z.quot (total (score store) s) (Z.of_nat (length s)) in
  let '(store', (nLow, nHigh)) := shift_scores off s store (total (low store) s, total (high store) s) in
  queue_ok (Queue store' s recent nLow nHigh) ∧ length store' = length store ∧
  ∀ x, (x < length store)%nat → store' !!! x = shift_elem off (store !!! x).
Proof.
  intros Hs Hne Hok Hidx Hsort Hall off.
  assert (∀ x, x ∈ s ↔ (x < length store)%nat) as Hin.
  { intros x. rewrite Hs, elem_of_seq. lia. }
  assert (∀ x, x ∈ s → elem_ok (store !!! x)) as Hel.
  { intros x Hx%Hin. rewrite Forall_lookup in Hok. apply (Hok x).
    by apply list_lookup_lookup_total_lt. }
  destruct (rebalanced store s Hne ltac:(intros x Hx; by apply Hel) Hall)
    as (Hb & (a & Ha & Ha32) & (b & Hb' & Hb32)). fold off in Hb, Ha32, Hb32. clearbody off.
  pose proof (shift_scores_spec off s store (total (low store) s) (total (high store) s)
    ltac:(rewrite Hs; apply NoDup_seq) ltac:(intros; by apply Hin)) as H.
  destruct (shift_scores _ _ _ _) as [store' [nLow nHigh]].
  destruct H as (Hlen & Hat & -> & ->).
  assert (∀ x, x ∈ s → store' !!! x = shift_elem off (store !!! x)) as Hat'.
  { intros x Hx. by rewrite Hat, decide_True. }
  assert (∀ x, x ∈ s → score store' x = score store x + off) as Hsc.
  { intros x Hx. unfold score. by rewrite Hat'. }
  split_and!; [|done|intros x Hx; by apply Hat', Hin].
  split; cbn [q_store q_elems q_nLowScore q_nHighScore]; rewrite ?Hlen; try done; try lia.
  - apply Forall_lookup. intros x e Hx.
    assert (x ∈ s) as Hxs by (apply Hin; rewrite <- Hlen; by eapply lookup_lt_Some).
    rewrite <- (list_lookup_total_correct _ _ _ Hx), Hat' by done.
    specialize (Hb x Hxs). destruct (Hel x Hxs). by split.
  - intros x Hx. rewrite Hat' by (by apply Hin). by apply Hidx.
  - eapply sorted_ext; [|exact Hsort]. intros x y Hx Hy. rewrite !Hsc by done. lia.
  - assert (∀ x, x ∈ s → low store' x <= 1) by (intros; apply low_le1).
    assert (∀ x, x ∈ s → high store' x <= 1) by (intros; apply high_le1).
    assert (low store' a = 0) by (unfold low; rewrite Hsc by done; case_match; lia).
    assert (high store' b = 0) by (unfold high; rewrite Hsc by done; case_match; lia).
    pose proof (total_lt (low store') s a H Ha H1).
    pose proof (total_lt (high store') s b H0 Hb' H2). lia.
Qed.

(** What [fix] does to the store: one step of one elem, and a common shift. *)
Lemma fix_spec q p success :
  queue_ok q → (p < length (q_store q))%nat →
  queue_ok (fix_ q p success) ∧
  length (q_store (fix_ q p success)) = length (q_store q) ∧
  q_recent (fix_ q p success) = q_recent q ∧
  ∃ off, ∀ x, (x < length (q_store q))%nat → q_store (fix_ q p success) !!! x =
    shift_elem off (if decide (x = p) then raise (q_store q !!! p) success else q_store q !!! x).
Proof.
  intros Hq Hp. unfold fix_. fold (raise (q_store q !!! p) success).
  assert (elem_ok (q_store q !!! p)) as He.
  { pose proof (qk_elem q Hq) as H. rewrite Forall_lookup in H. apply (H p).
    by apply list_lookup_lookup_total_lt. }
  destruct (elem_step_ok _ success He) as [He' Hi]. fold (raise (q_store q !!! p) success) in *.
  set (e' := raise (q_store q !!! p) success) in *.
  destruct (store_ok q p e' Hq Hp He' Hi) as (Hok & Hlen & Hidx).
  pose proof (store_at q p e' Hp) as Hat.
  assert (∀ e, shift_elem 0 e = e) as H0 by (intros []; unfold shift_elem; f_equal; simpl; lia).
  destruct (Z.eqb_spec (e_Score e') (e_Score (q_store q !!! p))) as [Heq|Hne].
  { assert (∀ x, score (<[p:=e']> (q_store q)) x = score (q_store q) x) as Hsc.
    { intros x. unfold score. rewrite Hat. case_decide; congruence. }
    split_and!; [|done|done|exists 0; intros x Hx; by rewrite H0, <- Hat].
    destruct Hq as [K1 K2 K3 K4 K5 K6 K7 K8]. split; cbn [q_store q_elems q_recent q_nLowScore q_nHighScore];
      rewrite ?Hlen; try done.
    - eapply sorted_ext; [|exact K5]. intros x y _ _. by rewrite !Hsc.
    - rewrite K6. apply total_ext. intros x _. unfold low. by rewrite Hsc.
    - rewrite K7. apply total_ext. intros x _. unfold high. by rewrite Hsc. }
  destruct (moved_sorted q p e' Hq Hp) as [Hsort Hperm].
  set (store := <[p:=e']> (q_store q)) in *. set (s := sift_up _ _ _) in *. clearbody s.
  pose proof (moved_counts q p e' Hq Hp s Hperm) as Hc. fold store in Hc.
  destruct (scoreChanged _ _ _) as [nLow nHigh]. destruct Hc as [-> ->].
  assert (s ≠ []) as Hs0.
  { intros ->. apply Permutation_nil_l in Hperm. by apply (qk_some q Hq). }
  assert (s ≡ₚ seq 0 (length store)) as Hperm' by (rewrite Hlen, Hperm; apply Hq).
  destruct (Z.ltb_spec (total (low store) s) (Z.of_nat (length s)));
    [destruct (Z.ltb_spec (total (high store) s) (Z.of_nat (length s)))|]; simpl andb; cbv iota.
  { split_and!; [|done|done|exists 0; intros x Hx; by rewrite H0, <- Hat].
    split; cbn [q_store q_elems q_nLowScore q_nHighScore]; rewrite ?Hlen in *; try done. }
  all: rewrite foldl_total, Z.add_0_l; change (Z.quot maxScore 2) with 32.
  all: pose proof (rebalance_ok store s (q_recent q) Hperm' Hs0 Hok
    ltac:(by rewrite Hlen) Hsort ltac:(lia)) as Hr; cbv zeta in Hr.
  all: destruct (shift_scores _ _ _ _) as [store' [nLow' nHigh']].
  all: destruct Hr as (Hr1 & Hr2 & Hr3); cbn [q_store q_recent].
  all: split_and!; [done|congruence|done|].
  all: eexists; intros x Hx; rewrite Hr3 by (by rewrite Hlen); by rewrite Hat.
Qed.

Lemma newQueue_ok n : (0 < n)%nat → queue_ok (newQueue n) ∧ length (q_store (newQueue n)) = n.
Proof.
  intros Hn. assert (length (newElem <$> seq 0 n) = n) as Hlen by (by rewrite length_fmap, length_seq).
  assert (∀ x, (x < n)%nat → (newElem <$> seq 0 n) !!! x = newElem x) as Hat.
  { intros x Hx. apply list_lookup_total_correct. rewrite list_lookup_fmap.
    by rewrite lookup_seq_lt. }
  assert (∀ x, x ∈ seq 0 n → score (newElem <$> seq 0 n) x = 32) as Hsc.
  { intros x Hx%elem_of_seq. unfold score. rewrite Hat by lia. done. }
  assert (∀ f, (∀ x, x ∈ seq 0 n → f x = 0) → total f (seq 0 n) = 0) as Ht.
  { intros f Hf. rewrite (total_ext f (λ _, 0)) by done. clear. induction (seq 0 n); simpl; auto. }
  split; [|done]. split; cbn [newQueue q_store q_elems q_nLowScore q_nHighScore]; rewrite ?Hlen.
  - done.
  - by destruct n; [lia|].
  - apply Forall_fmap, Forall_forall. intros x _. split; simpl; [change (Z.quot maxScore 2) with 32|]; lia.
  - intros x Hx. by rewrite Hat.
  - apply (sorted_ext (λ _ _, True)).
    + intros x y Hx Hy _. by rewrite !Hsc.
    + clear. induction (seq 0 n); constructor; [done|]. by apply Forall_forall.
  - symmetry. apply Ht. intros x Hx. unfold low. by rewrite Hsc.
  - symmetry. apply Ht. intros x Hx. unfold high. by rewrite Hsc.
  - rewrite length_seq. lia.
Qed.

(** The elems [pick] chooses among are those with the best score. *)
Lemma pick_spec q rand q' p same :
  queue_ok q → (∀ n, (0 < n)%nat → (rand n < n)%nat) →
  pick q rand = Some (q', p, same) →
  q' = Queue (q_store q) (q_elems q) (Some p) (q_nLowScore q) (q_nHighScore q) ∧
  same = bool_decide (q_recent q = Some p) ∧ (p < length (q_store q))%nat ∧
  ∀ x, (x < length (q_store q))%nat → score (q_store q) x <= score (q_store q) p.
Proof.
  intros Hq Hr H. unfold pick in H. destruct (q_elems q) as [|e0 rest] eqn:E; [done|].
  set (f := λ i, score (q_store q) ((e0 :: rest) !!! S i) <? score (q_store q) e0) in H.
  pose proof (sort_Search_le (length rest) f) as Hle.
  pose proof (qk_sorted q Hq) as Hs. rewrite E in Hs. inversion Hs as [|?? Hs' Hf]; subst.
  rewrite Forall_forall in Hf.
  assert (monotone_upto (length rest) f) as Hm.
  { intros i j Hij. subst f. cbn beta. simpl. intros Hi.
    destruct (decide (i = j)) as [->|Hne]; [done|].
    rewrite <- (take_drop_middle rest i (rest !!! i)) in Hs' by
      (apply list_lookup_lookup_total_lt; lia).
    apply StronglySorted_app in Hs' as (_ & _ & Hs'). inversion Hs' as [|?? _ Hg]; subst.
    rewrite Forall_lookup in Hg. specialize (Hg (j - S i)%nat (rest !!! j)).
    rewrite lookup_drop in Hg. replace (S i + (j - S i))%nat with j in Hg by lia.
    rewrite list_lookup_lookup_total_lt in Hg by lia. specialize (Hg eq_refl). lia. }
  destruct (sort_Search_spec (length rest) f Hm) as (_ & Hlo & _).
  set (n := (sort_Search (length rest) f + 1)%nat) in *.
  specialize (Hr n ltac:(subst n; lia)). injection H as <- <- <-.
  set (k := rand n) in *. clearbody k.
  assert ((e0 :: rest) !!! k ∈ q_elems q) as Hin.
  { rewrite E. apply list_elem_of_lookup. exists k.
    apply list_lookup_lookup_total_lt. simpl. subst n. lia. }
  assert (score (q_store q) e0 <= score (q_store q) ((e0 :: rest) !!! k)) as Htop.
  { destruct k as [|k]; [done|]. specialize (Hlo k ltac:(subst n; lia)). subst f. simpl in *. lia. }
  split_and!; [done|done|by apply elems_lt|]. intros x Hx%(elems_lt q Hq).
  rewrite E in Hx. apply elem_of_cons in Hx as [->|Hx]; [done|]. specialize (Hf x Hx). lia.
Qed.

(** ** Histories *)

(** What the users of a queue do to it. *)
Inductive queue_step (rand : nat → nat) : queue → queue → Prop :=
  | StepPick q q' p same : pick q rand = Some (q', p, same) → queue_step rand q q'
  | StepSucc q p : (p < length (q_store q))%nat → queue_step rand q (succ q p)
  | StepFail q p : (p < length (q_store q))%nat → queue_step rand q (fail q p).

Definition queue_reach (n : nat) (q : queue) : Prop :=
  rtc (λ q q', ∃ rand, (∀ n, (0 < n)%nat → (rand n < n)%nat) ∧ queue_step rand q q') (newQueue n) q.

Lemma queue_step_ok rand q q' :
  queue_ok q → (∀ n, (0 < n)%nat → (rand n < n)%nat) → queue_step rand q q' →
  queue_ok q' ∧ length (q_store q') = length (q_store q).
Proof.
  intros Hq Hr Hs. revert Hq. destruct Hs as [q0 q1 p same H|q0 p Hp|q0 p Hp]; intros Hq.
  - destruct (pick_spec _ _ _ _ _ Hq Hr H) as (-> & _). split; [|done].
    destruct Hq. by split.
  - by destruct (fix_spec q0 p true Hq Hp) as (H1 & H2 & _).
  - by destruct (fix_spec q0 p false Hq Hp) as (H1 & H2 & _).
Qed.

Lemma queue_reach_ok n q :
  (0 < n)%nat → queue_reach n q → queue_ok q ∧ length (q_store q) = n.
Proof.
  intros Hn Hreach. destruct (newQueue_ok n Hn) as [H0 Hl0]. unfold queue_reach in Hreach.
  revert H0 Hl0. generalize (newQueue n) Hreach. clear Hreach.
  intros q0 Hreach. induction Hreach as [|q0 q1 q2 (rand & Hr & Hs) _ IH]; [done|].
  intros H0 Hl. destruct (queue_step_ok _ _ _ H0 Hr Hs). apply IH; congruence.
Qed.

(** ** The contract *)

(** C7: in every reachable queue the elements are a permutation of the
    candidates sorted by falling score, scores stay within 0..64 and streaks
    within -9..9, the two counters count the elements below and above 32, and
    neither of them counts all of them. *)
Theorem queue_invariant n q :
  (0 < n)%nat → queue_reach n q →
  q_elems q ≡ₚ seq 0 n ∧ Forall elem_ok (q_store q) ∧
  StronglySorted (λ p p', score (q_store q) p' <= score (q_store q) p) (q_elems q) ∧
  q_nLowScore q = Z.of_nat (length (filter (λ p, score (q_store q) p < 32) (q_elems q))) ∧
  q_nHighScore q = Z.of_nat (length (filter (λ p, 32 < score (q_store q) p) (q_elems q))) ∧
  q_nLowScore q < Z.of_nat n ∧ q_nHighScore q < Z.of_nat n.
Proof.
  intros Hn Hreach. destruct (queue_reach_ok n q Hn Hreach) as [Hq Hlen].
  assert (∀ P (Hd : ∀ p, Decision (P p)) s,
    Z.of_nat (length (filter P s)) = total (λ p, if decide (P p) then 1 else 0) s) as Hf.
  { intros P Hd s. induction s as [|x s IH]; [done|]. rewrite filter_cons. simpl.
    case_decide; simpl; lia. }
  assert (length (q_elems q) = n) as Hle.
  { by rewrite (qk_elems q Hq), length_seq. }
  pose proof (qk_mixed q Hq) as Hmix. rewrite Hle in Hmix. split_and!; try apply Hmix.
  - rewrite <- Hlen. apply Hq.
  - apply Hq.
  - apply Hq.
  - rewrite Hf, (qk_low q Hq). apply total_ext. intros x _. unfold low.
    case_decide; case_match; lia.
  - rewrite Hf, (qk_high q Hq). apply total_ext. intros x _. unfold high.
    case_decide; case_match; lia.
Qed.

Theorem pick_best n q rand :
  (0 < n)%nat → queue_reach n q → (∀ k, (0 < k)%nat → (rand k < k)%nat) →
  ∃ q' p same, pick q rand = Some (q', p, same) ∧ (p < n)%nat ∧ e_Index (q_store q !!! p) = p ∧
    (∀ x, (x < n)%nat → score (q_store q) x <= score (q_store q) p) ∧
    (same = true ↔ q_recent q = Some p) ∧ q_recent q' = Some p.
Proof.
  intros Hn Hreach Hr. destruct (queue_reach_ok n q Hn Hreach) as [Hq Hlen].
  destruct (pick q rand) as [[[q' p] same]|] eqn:E.
  - exists q', p, same. destruct (pick_spec _ _ _ _ _ Hq Hr E) as (-> & -> & Hp & Hm).
    rewrite Hlen in *. split_and!; try done.
    + apply (qk_index q Hq). by rewrite Hlen.
    + apply bool_decide_eq_true.
  - exfalso. unfold pick in E. pose proof (qk_some q Hq). by destruct (q_elems q).
Qed.

Theorem report_effect n q p success :
  (0 < n)%nat → queue_reach n q → (p < n)%nat →
  ∃ off, ∀ x, (x < n)%nat → q_store (fix_ q p success) !!! x =
    let e := q_store q !!! x in
    let e1 := if decide (x = p) then (if success then elem_succ e else elem_fail e) else e in
    Elem (e_Index e1) (e_Score e1 + off) (e_N e1).
Proof.
  intros Hn Hreach Hp. destruct (queue_reach_ok n q Hn Hreach) as [Hq Hlen].
  destruct (fix_spec q p success Hq ltac:(by rewrite Hlen)) as (_ & _ & _ & off & H).
  exists off. intros x Hx. rewrite H by (by rewrite Hlen). unfold shift_elem, raise.
  case_decide; by subst.
Qed.

Definition ex_queue : queue := succ (fail (newQueue 3) 1%nat) 0%nat.

Lemma ex_queue_reach : queue_reach 3 ex_queue.
Proof.
  apply (rtc_l _ _ (fail (newQueue 3) 1%nat)); [|apply rtc_once];
    (exists (λ _, 0%nat); split; [done|]); constructor; apply Nat.ltb_lt; reflexivity.
Qed.

Lemma queue_invariant_witness : q_nLowScore ex_queue < 3 ∧ q_elems ex_queue ≡ₚ [0; 1; 2]%nat.
Proof.
  destruct (queue_invariant 3 ex_queue ltac:(lia) ex_queue_reach) as (H1 & _ & _ & _ & _ & H2 & _).
  split; [exact H2|exact H1].
Defined.

Lemma pick_best_witness :
  ∃ q' p same, pick ex_queue pred = Some (q', p, same) ∧ (p < 3)%nat.
Proof.
  destruct (pick_best 3 ex_queue pred ltac:(lia) ex_queue_reach ltac:(lia))
    as (q' & p & same & H1 & H2 & _). eauto.
Defined.

Lemma report_effect_witness :
  ∃ off, score (q_store (fail ex_queue 2%nat)) 1 = score (q_store ex_queue) 1 + off.
Proof.
  destruct (report_effect 3 ex_queue 2 false ltac:(lia) ex_queue_reach ltac:(lia)) as [off H].
  exists off. unfold fail, score. by rewrite (H 1%nat ltac:(lia)).
Defined.

(** ** Connections that report *)

(** [type conn struct]: the flags; the queue and the elem do not change. *)
Record conn := Conn { c_success : bool; c_failure : bool; c_readfailed : bool }.

Definition newConn : conn := Conn false false false.

(** [Read] got [n] bytes and, when [err], an error; the second component is
    the report it makes to the queue. *)
Definition conn_Read (c : conn) (n : Z) (err : bool) : conn * option bool :=
  let '(success, report) :=
    if (0 <? n) && negb (c_success c) then (true, Some true) else (c_success c, None) in
  (Conn success (c_failure c) (if err then true else c_readfailed c), report).

Definition conn_Close (c : conn) : conn * option bool :=
  if negb (c_success c) && negb (c_failure c) && c_readfailed c
  then (Conn (c_success c) true (c_readfailed c), Some false)
  else (c, None).

Inductive conn_call := CallRead (n : Z) (err : bool) | CallClose.

(** The reports of a sequence of calls, in order. *)
Fixpoint conn_run (c : conn) (calls : list conn_call) : list bool :=
  match calls with
  | [] => []
  | call :: calls' =>
      let '(c', report) :=
        match call with CallRead n err => conn_Read c n err | CallClose => conn_Close c end in
      match report with Some b => b :: conn_run c' calls' | None => conn_run c' calls' end
  end.

(** The calls between which nothing more is read after a close. *)
Definition got_data (call : conn_call) : bool :=
  match call with CallRead n _ => 0 <? n | CallClose => false end.
Definition read_failed (call : conn_call) : bool :=
  match call with CallRead _ err => err | CallClose => false end.

Lemma conn_run_cons c call calls :
  conn_run c (call :: calls) =
  let '(c', report) :=
    match call with CallRead n err => conn_Read c n err | CallClose => conn_Close c end in
  match report with Some b => b :: conn_run c' calls | None => conn_run c' calls end.
Proof. reflexivity. Qed.

Lemma conn_run_success f r calls : conn_run (Conn true f r) calls = [].
Proof.
  revert r. induction calls as [|[n err|] calls IH]; intros r; [done|..]; rewrite conn_run_cons.
  - unfold conn_Read. simpl. rewrite andb_false_r. apply IH.
  - apply IH.
Qed.

Lemma conn_run_failure r calls :
  conn_run (Conn false true r) calls = if existsb got_data calls then [true] else [].
Proof.
  revert r. induction calls as [|[n err|] calls IH]; intros r; [done|..]; rewrite conn_run_cons.
  - unfold conn_Read. simpl. rewrite andb_true_r. destruct (0 <? n); simpl; [|apply IH].
    by rewrite conn_run_success.
  - apply IH.
Qed.

(** A close that finds no data and a failed read before it. *)
Definition closed_failed (rf : bool) (calls : list conn_call) : Prop :=
  ∃ pre post, calls = pre ++ CallClose :: post ∧ existsb got_data pre = false ∧
    rf || existsb read_failed pre = true.

Lemma closed_failed_read rf n err calls :
  closed_failed rf (CallRead n err :: calls) ↔ (0 <? n) = false ∧ closed_failed (err || rf) calls.
Proof.
  split.
  - intros (pre & post & E & H1 & H2). destruct pre as [|call pre]; [done|].
    injection E as <- ->. simpl in *. apply orb_false_iff in H1 as [-> H1]. split; [done|].
    exists pre, post. split_and!; [done|done|]. by destruct err, rf.
  - intros [Hn (pre & post & -> & H1 & H2)]. exists (CallRead n err :: pre), post.
    split_and!; [done|simpl; by rewrite Hn|]. simpl. by destruct err, rf.
Qed.

Lemma closed_failed_close rf calls :
  closed_failed rf (CallClose :: calls) ↔ rf = true ∨ closed_failed rf calls.
Proof.
  split.
  - intros (pre & post & E & H1 & H2). destruct pre as [|call pre].
    + left. by rewrite orb_false_r in H2.
    + right. injection E as <- ->. by exists pre, post.
  - intros [->|(pre & post & -> & H1 & H2)].
    + exists [], calls. done.
    + exists (CallClose :: pre), post. done.
Qed.

Lemma conn_run_fresh rf calls :
  let r := conn_run (Conn false false rf) calls in
  (true ∈ r ↔ existsb got_data calls = true) ∧
  (false ∈ r ↔ closed_failed rf calls) ∧
  (r = [] ∨ r = [true] ∨ r = [false] ∨ r = [false; true]).
Proof.
  revert rf. induction calls as [|[n err|] calls IH]; intros rf; cbv zeta.
  - split_and!; [split; [by intros ?%elem_of_nil|done]| |by left].
    split; [by intros ?%elem_of_nil|]. by intros ([|] & ? & ? & _).
  - rewrite conn_run_cons, closed_failed_read. unfold conn_Read. simpl. rewrite andb_true_r.
    destruct (0 <? n); cbn [orb].
    + rewrite conn_run_success. split_and!; [|set_solver|auto].
      split; [done|]. intros _. left.
    + destruct (IH (if err then true else rf)) as (H1 & H2 & H3).
      split_and!; [done| |done]. rewrite H2. destruct err; simpl; naive_solver.
  - rewrite conn_run_cons, closed_failed_close. unfold conn_Close. simpl.
    destruct rf; cbn [andb].
    + rewrite conn_run_failure. destruct (existsb got_data calls); set_solver.
    + destruct (IH false) as (H1 & H2 & H3). split_and!; [done| |done]. rewrite H2. naive_solver.
Qed.

(** One connection makes at most one report of each kind, and none that
    failed after one that succeeded: a success exactly when it got data, a
    failure exactly when it was closed without data after a failed read. *)
Theorem conn_reports calls :
  let r := conn_run newConn calls in
  (true ∈ r ↔ ∃ n err, CallRead n err ∈ calls ∧ 0 < n) ∧
  (false ∈ r ↔ ∃ pre post, calls = pre ++ CallClose :: post ∧
     (∀ n err, CallRead n err ∈ pre → n <= 0) ∧ ∃ n, CallRead n true ∈ pre) ∧
  (r = [] ∨ r = [true] ∨ r = [false] ∨ r = [false; true]).
Proof.
  cbv zeta. destruct (conn_run_fresh false calls) as (H1 & H2 & H3).
  fold newConn in *. unfold newConn in *.
  assert (∀ l, existsb got_data l = true ↔ ∃ n err, CallRead n err ∈ l ∧ 0 < n) as Hd.
  { intros l. rewrite existsb_exists. setoid_rewrite <- list_elem_of_In. split.
    - intros ([n err|] & Hin & Hn); [|done]. exists n, err. simpl in Hn. split; [done|lia].
    - intros (n & err & Hin & Hn). exists (CallRead n err). simpl. split; [done|lia]. }
  assert (∀ l, existsb read_failed l = true ↔ ∃ n, CallRead n true ∈ l) as Hr.
  { intros l. rewrite existsb_exists. setoid_rewrite <- list_elem_of_In. split.
    - intros ([n [|]|] & Hin & Hn); try done. by exists n.
    - intros (n & Hin). by exists (CallRead n true). }
  split_and!; [by rewrite H1, Hd| |done]. rewrite H2. unfold closed_failed.
  setoid_rewrite orb_false_l. setoid_rewrite Hr.
  assert (∀ l, existsb got_data l = false ↔ ∀ n err, CallRead n err ∈ l → n <= 0) as Hd'.
  { intros l. rewrite <- not_true_iff_false, Hd. split.
    - intros H n err Hin. destruct (decide (0 < n)); [|lia]. exfalso. eauto.
    - intros H (n & err & Hin & Hn). specialize (H n err Hin). lia. }
  by setoid_rewrite Hd'.
Qed.
