(* ===== verification/GoStrings.v ===== *)
(** * Strings.

    Strings are lists of bytes.  The functions of Go's packages strings,
    net and path that the program calls, on bytes; letters are folded in the
    ASCII range. *)

From S2P Require Import Prelude.

Abbreviation gostring := (list Z) (only parsing).

Definition HasPrefix (s prefix : gostring) : bool := bool_decide (take (length prefix) s = prefix).

Definition HasSuffix (s suffix : gostring) : bool :=
  (length suffix <=? length s)%nat &&
  bool_decide (drop (length s - length suffix) s = suffix).

(** [strings.IndexByte] and [strings.LastIndexByte] *)
Fixpoint IndexByte (s : gostring) (c : Z) : option nat :=
  match s with
  | [] => None
  | b :: s' => if b =? c then Some O else S <$> IndexByte s' c
  end.

Fixpoint LastIndexByte (s : gostring) (c : Z) : option nat :=
  match s with
  | [] => None
  | b :: s' =>
      match LastIndexByte s' c with
      | Some i => Some (S i)
      | None => if b =? c then Some O else None
      end
  end.

Definition ContainsByte (s : gostring) (c : Z) : bool :=
  match IndexByte s c with Some _ => true | None => false end.

Definition is_space (c : Z) : bool := ((9 <=? c) && (c <=? 13)) || (c =? 32).

Fixpoint TrimLeftFunc (f : Z → bool) (s : gostring) : gostring :=
  match s with
  | [] => []
  | c :: s' => if f c then TrimLeftFunc f s' else s
  end.

Definition TrimRightFunc (f : Z → bool) (s : gostring) : gostring :=
  reverse (TrimLeftFunc f (reverse s)).

Definition TrimSpace (s : gostring) : gostring := TrimRightFunc is_space (TrimLeftFunc is_space s).

Definition upper_byte (c : Z) : Z := if (97 <=? c) && (c <=? 122) then c - 32 else c.
Definition lower_byte (c : Z) : Z := if (65 <=? c) && (c <=? 90) then c + 32 else c.
Definition ToUpper (s : gostring) : gostring := upper_byte <$> s.
Definition ToLower (s : gostring) : gostring := lower_byte <$> s.
Definition EqualFold (s t : gostring) : bool := bool_decide (ToLower s = ToLower t).

(** [strings.ReplaceAll] of one byte by another. *)
Definition ReplaceByte (s : gostring) (c d : Z) : gostring :=
  (λ b, if b =? c then d else b) <$> s.

Definition TrimPrefix (s prefix : gostring) : gostring :=
  if HasPrefix s prefix then drop (length prefix) s else s.
Definition TrimSuffix (s suffix : gostring) : gostring :=
  if HasSuffix s suffix then take (length s - length suffix) s else s.

(** [strings.Cut] at a byte. *)
Definition Cut (s : gostring) (c : Z) : gostring * gostring * bool :=
  match IndexByte s c with
  | Some i => (take i s, drop (S i) s, true)
  | None => (s, [], false)
  end.

(** [strings.SplitN] at a byte; [n] substrings at most. *)
Fixpoint SplitN (s : gostring) (c : Z) (n : nat) : list gostring :=
  match n with
  | O => []
  | S O => [s]
  | S n' =>
      match IndexByte s c with
      | None => [s]
      | Some i => take i s :: SplitN (drop (S i) s) c n'
      end
  end.

(** [cmp.Or] on strings: the first that is not empty. *)
Definition cmp_Or (s t : gostring) : gostring := match s with [] => t | _ => s end.

(** [strings.TrimRight] with a cutset *)
Definition TrimRight (s cutset : gostring) : gostring :=
  TrimRightFunc (λ c, bool_decide (c ∈ cutset)) s.

(** ** strconv

    [ParseInt s 10 64], and [Atoi] on a machine with 64-bit ints: an optional
    sign and decimal digits whose value fits. *)

Fixpoint parse_digits (acc : Z) (s : gostring) : option Z :=
  match s with
  | [] => Some acc
  | c :: s' => if (48 <=? c) && (c <=? 57) then parse_digits (acc * 10 + (c - 48)) s' else None
  end.

Definition parse_uint (s : gostring) : option Z :=
  match s with [] => None | _ => parse_digits 0 s end.

Definition in_int64 (z : Z) : bool := (- 2 ^ 63 <=? z) && (z <? 2 ^ 63).

Definition ParseInt (s : gostring) : option Z :=
  let v := match s with
           | 45 :: s' => Z.opp <$> parse_uint s'
           | 43 :: s' => parse_uint s'
           | _ => parse_uint s
           end in
  match v with
  | Some z => if in_int64 z then Some z else None
  | None => None
  end.

Definition Atoi (s : gostring) : option Z := ParseInt s.

(** The value of an [int64] computation that may overflow. *)
Definition wrap64 (z : Z) : Z := (z + 2 ^ 63) mod 2 ^ 64 - 2 ^ 63.

Example atoi_1 : Atoi (bs "-42") = Some (-42).
Proof. reflexivity. Qed.
Example atoi_2 : Atoi (bs "9223372036854775808") = None.
Proof. reflexivity. Qed.

Lemma in_int64_iff z : in_int64 z = true ↔ - 2 ^ 63 <= z < 2 ^ 63.
Proof. unfold in_int64. lia. Qed.

Lemma wrap64_id z : in_int64 z = true → wrap64 z = z.
Proof. rewrite in_int64_iff. intros. unfold wrap64. rewrite Z.mod_small; lia. Qed.

Lemma ParseInt_in s z : ParseInt s = Some z → in_int64 z = true.
Proof.
  unfold ParseInt. generalize (match s with 45 :: s' => Z.opp <$> parse_uint s'
    | 43 :: s' => parse_uint s' | _ => parse_uint s end).
  intros [v|]; [|done]. destruct (in_int64 v) eqn:E; [|done]. by intros [= <-].
Qed.

(** [Itoa] of a number that is not negative. *)
Fixpoint itoa_loop (fuel : nat) (n : Z) (acc : gostring) : gostring :=
  match fuel with
  | O => acc
  | S fuel =>
      if n <? 10 then (48 + n) :: acc else itoa_loop fuel (n / 10) ((48 + n mod 10) :: acc)
  end.

Definition Itoa (n : Z) : gostring := itoa_loop 20 n [].

Lemma parse_itoa_loop fuel n acc :
  0 <= n < 10 ^ Z.of_nat fuel → parse_digits 0 (itoa_loop fuel n acc) = parse_digits n acc.
Proof.
  revert n acc. induction fuel as [|fuel IH]; intros n acc Hn.
  - replace n with 0 by (simpl in Hn; lia). done.
  - cbn [itoa_loop]. rewrite Nat2Z.inj_succ, Z.pow_succ_r in Hn by lia.
    destruct (Z.ltb_spec n 10) as [Hlt|Hge].
    + simpl. zif. f_equal. lia.
    + pose proof (Z.pow_pos_nonneg 10 (Z.of_nat fuel)). zdiv n 10.
      rewrite IH by nia. cbn [parse_digits]. zif. f_equal. lia.
Qed.

Lemma itoa_loop_cons fuel n acc :
  (0 < fuel)%nat → 0 <= n →
  ∃ c l, itoa_loop fuel n acc = c :: l ∧ 48 <= c <= 57.
Proof.
  revert n acc. induction fuel as [|fuel IH]; intros n acc Hf Hn; [lia|]. cbn [itoa_loop].
  destruct (Z.ltb_spec n 10) as [Hlt|Hge]; [by eexists _, _; split; [done|lia]|].
  destruct fuel; [eexists _, _; split; [done|zdiv n 10; lia]|].
  apply IH; [lia|zdiv n 10; lia].
Qed.

Lemma itoa_loop_app fuel n acc : itoa_loop fuel n acc = itoa_loop fuel n [] ++ acc.
Proof.
  revert n acc. induction fuel as [|fuel IH]; intros n acc; [done|]. cbn [itoa_loop].
  destruct (n <? 10); [done|]. rewrite IH, (IH _ [_]), <- app_assoc. done.
Qed.

Lemma Itoa_bounds n : 0 <= n → Forall (λ c, 48 <= c <= 57) (Itoa n).
Proof.
  unfold Itoa. generalize 20%nat. intros fuel Hn. revert n Hn. 
  induction fuel as [|fuel IH]; intros n Hn; [constructor|]. cbn [itoa_loop].
  destruct (Z.ltb_spec n 10); [repeat constructor; lia|].
  rewrite itoa_loop_app. apply Forall_app. zdiv n 10. split; [apply IH; lia|repeat constructor; lia].
Qed.

(** A number is read back, with or without letters trimmed from its end. *)
Lemma ParseInt_Itoa n : 0 <= n < 2 ^ 63 → ParseInt (Itoa n) = Some n.
Proof.
  intros Hn. destruct (itoa_loop_cons 20 n []) as (c & l & E & Hc); [lia..|].
  assert (parse_uint (Itoa n) = Some n) as Hp.
  { unfold parse_uint, Itoa. rewrite E, <- E. by rewrite parse_itoa_loop by lia. }
  unfold ParseInt. replace (match Itoa n with 45 :: s' => Z.opp <$> parse_uint s'
    | 43 :: s' => parse_uint s' | _ => parse_uint (Itoa n) end) with (Some n).
  - by rewrite (proj2 (in_int64_iff n)) by lia.
  - rewrite Hp. unfold Itoa. rewrite E.
    assert (c ∈ [48; 49; 50; 51; 52; 53; 54; 55; 56; 57]) as Hin.
    { rewrite !elem_of_cons. lia. }
    rewrite !elem_of_cons, elem_of_nil in Hin. by destruct_or! Hin; subst.
Qed.

(** ** net.SplitHostPort and net.JoinHostPort *)

Definition SplitHostPort (hostport : gostring) : option (gostring * gostring) :=
  match LastIndexByte hostport 58 with
  | None => None
  | Some i =>
      let finish host j k :=
        if ContainsByte (drop j hostport) 91 then None
        else if ContainsByte (drop k hostport) 93 then None
        else Some (host, drop (S i) hostport) in
      match hostport with
      | 91 :: _ =>
          match IndexByte hostport 93 with
          | None => None
          | Some e =>
              if (S e =? i)%nat then finish (take (e - 1) (drop 1 hostport)) 1%nat (S e) else None
          end
      | _ =>
          let host := take i hostport in
          if ContainsByte host 58 then None else finish host O O
      end
  end.

Definition JoinHostPort (host port : gostring) : gostring :=
  if ContainsByte host 58 then [91] ++ host ++ [93; 58] ++ port else host ++ [58] ++ port.

Example split_1 : SplitHostPort (bs "127.0.0.1:8080") = Some (bs "127.0.0.1", bs "8080").
Proof. reflexivity. Qed.
Example split_2 : SplitHostPort (bs "[::1]:80") = Some (bs "::1", bs "80").
Proof. reflexivity. Qed.
Example split_3 : SplitHostPort (bs "::1:80") = None.
Proof. reflexivity. Qed.
Example split_4 : SplitHostPort (bs "localhost") = None.
Proof. reflexivity. Qed.
Example split_5 : SplitHostPort (bs ":80") = Some ([], bs "80").
Proof. reflexivity. Qed.

Lemma IndexByte_Some s c i :
  IndexByte s c = Some i ↔ s !! i = Some c ∧ ∀ k, (k < i)%nat → s !! k ≠ Some c.
Proof.
  revert i. induction s as [|b s IH]; intros i; simpl.
  { split; [done|]. by intros [? _]. }
  destruct (Z.eqb_spec b c) as [->|Hne].
  - split.
    + intros [= <-]. split; [done|]. intros k Hk. lia.
    + intros [H1 H2]. destruct i as [|i]; [done|]. exfalso. by apply (H2 O); [lia|].
  - rewrite fmap_Some. setoid_rewrite IH. split.
    + intros (j & [H1 H2] & ->). split; [done|]. intros [|k] Hk; simpl; [congruence|].
      apply H2. lia.
    + intros [H1 H2]. destruct i as [|i]; [simpl in H1; congruence|]. exists i.
      split_and!; [done| |done]. intros k Hk. apply (H2 (S k)). lia.
Qed.

Lemma IndexByte_None s c : IndexByte s c = None ↔ c ∉ s.
Proof.
  induction s as [|b s IH]; simpl; [split; [intros _; apply not_elem_of_nil|done]|].
  destruct (Z.eqb_spec b c) as [->|]; [split; [done|set_solver]|].
  destruct (IndexByte s c); simpl; set_solver.
Qed.

Lemma ContainsByte_iff s c : ContainsByte s c = true ↔ c ∈ s.
Proof.
  unfold ContainsByte. pose proof (IndexByte_None s c). destruct (IndexByte s c).
  - split; [|done]. intros _. destruct (decide (c ∈ s)); [done|]. exfalso. naive_solver.
  - split; [done|]. intros. exfalso. naive_solver.
Qed.

Lemma ContainsByte_false s c : ContainsByte s c = false ↔ c ∉ s.
Proof. rewrite <- not_true_iff_false, ContainsByte_iff. done. Qed.

Lemma LastIndexByte_app s t c :
  c ∉ t → LastIndexByte (s ++ c :: t) c = Some (length s).
Proof.
  intros Ht. assert (∀ t, c ∉ t → LastIndexByte t c = None) as Hn.
  { clear. induction t as [|b t IH]; intros Ht; simpl; [done|].
    rewrite IH by set_solver. destruct (Z.eqb_spec b c); [set_solver|done]. }
  induction s as [|b s IH]; simpl.
  - by rewrite Hn, Z.eqb_refl.
  - by rewrite IH.
Qed.

(** Joining and splitting again gives the parts back. *)
Lemma SplitHostPort_JoinHostPort host port :
  91 ∉ host → 93 ∉ host → 58 ∉ port → 91 ∉ port → 93 ∉ port →
  SplitHostPort (JoinHostPort host port) = Some (host, port).
Proof.
  intros H1 H2 H3 H4 H5. unfold JoinHostPort.
  assert (∀ l, ContainsByte l 91 = false ↔ 91 ∉ l) as C91 by (intros; apply ContainsByte_false).
  assert (∀ l, ContainsByte l 93 = false ↔ 93 ∉ l) as C93 by (intros; apply ContainsByte_false).
  destruct (ContainsByte host 58) eqn:Ec.
  - assert ([91] ++ host ++ [93; 58] ++ port = (91 :: host ++ [93]) ++ 58 :: port) as ->
      by (simpl; by rewrite <- app_assoc).
    unfold SplitHostPort. rewrite LastIndexByte_app by done.
    assert (IndexByte ((91 :: host ++ [93]) ++ 58 :: port) 93 = Some (S (length host))) as E.
    { apply IndexByte_Some. simpl. rewrite <- app_assoc. split.
      - rewrite lookup_app_r, Nat.sub_diag by lia. done.
      - intros [|k] Hk; [done|]. simpl. rewrite lookup_app_l by lia.
        intros Hin. by apply H2, (list_elem_of_lookup_2 _ k). }
    change ((91 :: host ++ [93]) ++ 58 :: port) with (91 :: (host ++ [93]) ++ 58 :: port) in *.
    cbv iota zeta. rewrite E.
    assert (length (91 :: host ++ [93]) = S (S (length host))) as -> by
      (simpl; rewrite length_app; simpl; lia).
    rewrite Nat.eqb_refl. rewrite <- !app_assoc. simpl app.
    change (drop 1 (91 :: host ++ 93 :: 58 :: port)) with (host ++ 93 :: 58 :: port).
    rewrite (proj2 (C91 _)) by set_solver. rewrite take_app_length' by lia.
    change (drop (S (S (length host))) (91 :: host ++ 93 :: 58 :: port))
      with (drop (S (length host)) (host ++ [93] ++ 58 :: port)).
    change (drop (S (S (S (length host)))) (91 :: host ++ 93 :: 58 :: port))
      with (drop (S (S (length host))) (host ++ [93; 58] ++ port)).
    rewrite !app_assoc, !drop_app_length' by (rewrite length_app; simpl; lia).
    by rewrite (proj2 (C93 _)) by set_solver.
  - assert (host ++ [58] ++ port = host ++ 58 :: port) as -> by done.
    apply ContainsByte_false in Ec.
    unfold SplitHostPort. rewrite LastIndexByte_app by done.
    assert (∀ (x : option (gostring * gostring)) y, match host ++ 58 :: port with 91 :: _ => x | _ => y end = y) as Hm.
    { intros x y. destruct host as [|c host]; [done|]. simpl.
      assert (c ≠ 91) by set_solver. destruct c as [|p|p]; [done| |done].
      repeat (destruct p as [p|p|]; try done). }
    rewrite Hm, take_app_length' by done. rewrite (proj2 (ContainsByte_false _ _)) by done.
    rewrite !drop_0, (proj2 (C91 _)), (proj2 (C93 _)) by set_solver.
    do 2 f_equal. change (host ++ 58 :: port) with (host ++ [58] ++ port).
    rewrite app_assoc, drop_app_length'; [done|]. rewrite length_app. simpl. lia.
Qed.
