(* ===== verification/Url.v ===== *)
(** * URLs.

    What the program uses of Go's package net/url (Go 1.25): [Parse],
    [URL.Hostname], [URL.Port] and [URL.Query], on strings as lists of
    bytes, and the base64 decoder the proxy URLs go through.
    [netip_ParseAddr] stands for the parser of addresses that vets a host in
    brackets. *)

From S2P Require Import Prelude GoStrings.

Record URL := MkURL {
  u_Scheme : gostring;
  u_Opaque : gostring;
  u_User : option (gostring * option gostring);   (* username, password *)
  u_Host : gostring;
  u_Path : gostring;
  u_RawQuery : gostring;
  u_Fragment : gostring }.

#[export] Instance URL_eq_dec : EqDecision URL.
Proof. solve_decision. Defined.

Definition is_lower (c : Z) : bool := (97 <=? c) && (c <=? 122).
Definition is_upper (c : Z) : bool := (65 <=? c) && (c <=? 90).
Definition is_digit (c : Z) : bool := (48 <=? c) && (c <=? 57).
Definition is_alpha (c : Z) : bool := is_lower c || is_upper c.
Definition one_of (c : Z) (l : gostring) : bool := bool_decide (c ∈ l).

(** [stringContainsCTLByte] *)
Definition has_ctl (s : gostring) : bool := existsb (λ c, (c <? 32) || (c =? 127)) s.

(** ** unescape *)

Inductive mode := MHost | MZone | MUserPassword | MPath | MFragment | MQuery.

Definition unhex (c : Z) : option Z :=
  if is_digit c then Some (c - 48)
  else if (97 <=? c) && (c <=? 102) then Some (c - 87)
  else if (65 <=? c) && (c <=? 70) then Some (c - 55)
  else None.

(** [shouldEscape c encodeHost] *)
Definition bad_in_host (c : Z) : bool :=
  negb (is_alpha c || is_digit c || one_of c (bs "!$&'()*+,;=:[]<>-_.~") || (c =? 34)).

Definition is_host_mode (m : mode) : bool := match m with MHost | MZone => true | _ => false end.

Fixpoint unescape_loop (fuel : nat) (m : mode) (s : gostring) : option gostring :=
  match fuel, s with
  | O, _ => None
  | _, [] => Some []
  | S fuel, 37 :: s' =>
      match s' with
      | h :: l :: rest =>
          match unhex h, unhex l with
          | Some a, Some b =>
              let v := a * 16 + b in
              let is_25 := (h =? 50) && (l =? 53) in
              if match m with
                 | MHost => (a <? 8) && negb is_25
                 | MZone => negb is_25 && negb (v =? 32) && bad_in_host v
                 | _ => false
                 end
              then None else cons v <$> unescape_loop fuel m rest
          | _, _ => None
          end
      | _ => None
      end
  | S fuel, c :: s' =>
      if is_host_mode m && (c <? 128) && bad_in_host c then None
      else cons (match m with MQuery => if c =? 43 then 32 else c | _ => c end) <$>
             unescape_loop fuel m s'
  end.

Definition unescape (m : mode) (s : gostring) : option gostring :=
  unescape_loop (S (length s)) m s.

(** ** Parse *)

(** [getScheme]: the scheme and the rest; [None] when the scheme is missing. *)
Fixpoint scheme_loop (first : bool) (s : gostring) : option (option (gostring * gostring)) :=
  match s with
  | [] => Some None
  | c :: s' =>
      if is_alpha c then option_map (option_map (λ '(a, r), (c :: a, r))) (scheme_loop false s')
      else if is_digit c || one_of c (bs "+-.") then
        if first then Some None
        else option_map (option_map (λ '(a, r), (c :: a, r))) (scheme_loop false s')
      else if c =? 58 then if first then None else Some (Some ([], s'))
      else Some None
  end.

Definition getScheme (rawURL : gostring) : option (gostring * gostring) :=
  match scheme_loop true rawURL with
  | None => None
  | Some None => Some ([], rawURL)
  | Some (Some p) => Some p
  end.

Definition validOptionalPort (port : gostring) : bool :=
  match port with
  | [] => true
  | c :: s => (c =? 58) && forallb is_digit s
  end.

(** [validUserinfo] *)
Definition validUserinfo (s : gostring) : bool :=
  forallb (λ c, is_alpha c || is_digit c || one_of c (bs "-._:~!$&'()*+,;=%@")) s.

(** [strings.Index s "%25"] *)
Fixpoint index_25 (s : gostring) : option nat :=
  match s with
  | [] => None
  | _ :: s' => if HasPrefix s [37; 50; 53] then Some O else S <$> index_25 s'
  end.

(** [strings.SplitN s sep (-1)] at a byte *)
Fixpoint Split (s : gostring) (c : Z) : list gostring :=
  match s with
  | [] => [[]]
  | b :: s' =>
      if b =? c then [] :: Split s' c
      else match Split s' c with
           | [] => [[b]]
           | w :: ws => (b :: w) :: ws
           end
  end.

Section with_netip.
Context (netip_ParseAddr : gostring → option bool).  (* is it an IPv4 address? *)

Definition parseHost (host : gostring) : option gostring :=
  match LastIndexByte host 91 with
  | Some o =>
      match LastIndexByte host 93 with
      | None => None
      | Some i =>
          let colonPort := drop (S i) host in
          if negb (validOptionalPort colonPort) then None else
          port ← unescape MHost colonPort;
          let hostname := drop (S o) (take i host) in
          name ← match index_25 hostname with
                 | Some z =>
                     a ← unescape MHost (take z hostname);
                     b ← unescape MZone (drop z hostname);
                     Some (a ++ b)
                 | None => unescape MHost hostname
                 end;
          match netip_ParseAddr name with
          | Some false => Some ([91] ++ name ++ [93] ++ port)
          | _ => None
          end
      end
  | None =>
      match LastIndexByte host 58 with
      | Some i => if validOptionalPort (drop i host) then unescape MHost host else None
      | None => unescape MHost host
      end
  end.

Definition parseAuthority (authority : gostring)
    : option (option (gostring * option gostring) * gostring) :=
  match LastIndexByte authority 64 with
  | None => h ← parseHost authority; Some (None, h)
  | Some i =>
      host ← parseHost (drop (S i) authority);
      let userinfo := take i authority in
      if negb (validUserinfo userinfo) then None else
      if negb (ContainsByte userinfo 58) then
        user ← unescape MUserPassword userinfo;
        Some (Some (user, None), host)
      else
        let '(username, password, _) := Cut userinfo 58 in
        username ← unescape MUserPassword username;
        password ← unescape MUserPassword password;
        Some (Some (username, Some password), host)
  end.

(** [parse rawURL false] *)
Definition parse (rawURL : gostring) : option URL :=
  if has_ctl rawURL then None else
  if bool_decide (rawURL = [42]) then Some (MkURL [] [] None [] [42] [] []) else
  '(scheme, rest) ← getScheme rawURL;
  let scheme := ToLower scheme in
  let '(rest, query, _) := Cut rest 63 in
  if negb (HasPrefix rest [47]) && negb (bool_decide (scheme = [])) then
    Some (MkURL scheme rest None [] [] query [])
  else if negb (HasPrefix rest [47]) && ContainsByte (Cut rest 47).1.1 58 then None
  else if (negb (bool_decide (scheme = [])) || negb (HasPrefix rest [47; 47; 47])) &&
          HasPrefix rest [47; 47] then
    let authority := drop 2 rest in
    let '(authority, rest) :=
      match IndexByte authority 47 with
      | Some i => (take i authority, drop i authority)
      | None => (authority, [])
      end in
    '(user, host) ← parseAuthority authority;
    path ← unescape MPath rest;
    Some (MkURL scheme [] user host path query [])
  else
    path ← unescape MPath rest;
    Some (MkURL scheme [] None [] path query []).

Definition Parse (rawURL : gostring) : option URL :=
  let '(u, frag, _) := Cut rawURL 35 in
  url ← parse u;
  match frag with
  | [] => Some url
  | _ =>
      frag ← unescape MFragment frag;
      Some (MkURL (u_Scheme url) (u_Opaque url) (u_User url) (u_Host url) (u_Path url)
              (u_RawQuery url) frag)
  end.
End with_netip.

(** ** Host, port and query *)

(** [splitHostPort] of package net/url *)
Definition split_host_port (hostPort : gostring) : gostring * gostring :=
  let '(host, port) :=
    match LastIndexByte hostPort 58 with
    | Some colon =>
        if validOptionalPort (drop colon hostPort)
        then (take colon hostPort, drop (S colon) hostPort) else (hostPort, [])
    | None => (hostPort, [])
    end in
  if HasPrefix host [91] && HasSuffix host [93]
  then (drop 1 (take (length host - 1) host), port) else (host, port).

Definition Hostname (u : URL) : gostring := (split_host_port (u_Host u)).1.
Definition Port (u : URL) : gostring := (split_host_port (u_Host u)).2.

(** [ParseQuery], errors skipped, as a list of pairs in order. *)
Definition query_pair (s : gostring) : option (gostring * gostring) :=
  if ContainsByte s 59 then None else
  if bool_decide (s = []) then None else
  let '(key, value, _) := Cut s 61 in
  key ← unescape MQuery key;
  value ← unescape MQuery value;
  Some (key, value).

Definition Query (u : URL) : list (gostring * gostring) :=
  omap query_pair (Split (u_RawQuery u) 38).

(** [Values.Get] *)
Definition Get (values : list (gostring * gostring)) (key : gostring) : gostring :=
  match filter (λ kv, kv.1 = key) values with
  | kv :: _ => kv.2
  | [] => []
  end.

(** ** Base64 *)

Definition b64_digit (c : Z) : option Z :=
  if is_upper c then Some (c - 65)
  else if is_lower c then Some (c - 71)
  else if is_digit c then Some (c + 4)
  else if c =? 43 then Some 62
  else if c =? 47 then Some 63
  else None.

(** The last quantum: two or three digits; [pad] digits were dropped.  The
    decoder skips carriage returns and newlines. *)
Fixpoint b64_decode (s : list Z) : option gostring :=
  match s with
  | [] => Some []
  | [a; b] => Some [(a * 4 + b / 16) mod 256]
  | [a; b; c] => Some [(a * 4 + b / 16) mod 256; (b * 16 + c / 4) mod 256]
  | a :: b :: c :: d :: s' =>
      app [(a * 4 + b / 16) mod 256; (b * 16 + c / 4) mod 256; (c * 64 + d) mod 256] <$>
        b64_decode s'
  | _ => None
  end.

Definition strip_newlines (s : gostring) : gostring :=
  filter (λ c, c ≠ 10 ∧ c ≠ 13) s.

(** [RawStdEncoding.DecodeString] *)
Definition raw_decode (s : gostring) : option gostring :=
  ds ← mapM b64_digit (strip_newlines s); b64_decode ds.

(** [StdEncoding.DecodeString]: padded to a multiple of four with at most
    two [=]. *)
Definition std_decode (s : gostring) : option gostring :=
  let s := strip_newlines s in
  let body := TrimRightFunc (λ c, c =? 61) s in
  let pad := (length s - length body)%nat in
  if (pad <=? 2)%nat && (length s mod 4 =? 0)%nat
  then ds ← mapM b64_digit body; b64_decode ds else None.

Example parse_1 : Parse (λ _, None) (bs "socks5://127.0.0.1:9150") =
  Some (MkURL (bs "socks5") [] None (bs "127.0.0.1:9150") [] [] []).
Proof. by_compute. Qed.
Example parse_2 : Parse (λ _, None) (bs "ss://method:password@example.com:12345/?a=b#x") =
  Some (MkURL (bs "ss") [] (Some (bs "method", Some (bs "password")))
    (bs "example.com:12345") (bs "/") (bs "a=b") (bs "x")).
Proof. by_compute. Qed.
Example decode_1 : raw_decode (bs "MTIzNDU2") = Some (bs "123456").
Proof. by_compute. Qed.
Example decode_2 : std_decode (bs "MTIzNDU=") = Some (bs "12345").
Proof. by_compute. Qed.

(** Before its fragment, a URL that parses has no control characters. *)
Lemma Parse_no_ctl netip s u :
  35 ∉ s → Parse netip s = Some u → has_ctl s = false.
Proof.
  intros Hs. unfold Parse, Cut. rewrite (proj2 (IndexByte_None s 35) Hs). unfold parse.
  by destruct (has_ctl s).
Qed.
