(* ===== verification/Proxy.v ===== *)
(** * Proxies.

    proxy.go and the package proxy: how proxy URLs become chained dialers,
    what a chain dials, and how proxies are compared.  The hash (SHA-1), the
    Shadowsocks ciphers and the address parsers of other packages are
    parameters. *)

From S2P Require Import Prelude GoStrings Url.

(** ** Dialers *)

Section dialers.
Context {Cipher : Type}.

Definition Auth : Type := gostring * gostring.

(** The implementations of [proxy.Dialer] in the repository. *)
Inductive Dialer :=
  | Direct
  | blockOrReset (block : bool)
  | socksDialer (Server : gostring) (auth : option Auth) (Forward : Dialer)
  | httpDialer (Server : gostring) (auth : option Auth) (Forward : Dialer)
  | shadowsocksDialer (Server : gostring) (cipher : Cipher) (Forward : Dialer)
  | rateLimitDialer (ReadRate WriteRate : Z) (Forward : Dialer)
  | tcptunDialer (Server : gostring) (HasPort : bool) (Forward : Dialer)
  | wsDialer (url : URL) (Forward : Dialer).

Definition is_direct (d : Dialer) : bool := match d with Direct => true | _ => false end.

Context (netip_ParseAddr : gostring → option bool).
Context (PickCipher : gostring → gostring → option Cipher).

Definition auth_of (u : URL) : option Auth :=
  match u_User u with
  | Some (user, pass) => Some (user, default [] pass)
  | None => None
  end.

Definition socksFromURL (u : URL) (forward : Dialer) : option Dialer :=
  Some (socksDialer (u_Host u) (auth_of u) forward).

Definition httpFromURL (u : URL) (forward : Dialer) : option Dialer :=
  let host := if bool_decide (Port u = []) then JoinHostPort (u_Host u) (bs "80") else u_Host u in
  Some (httpDialer host (auth_of u) forward).

Definition decodeBase64String (s : gostring) : option gostring :=
  let s := ReplaceByte s 45 43 in
  let s := ReplaceByte s 95 47 in
  if (length s mod 4 =? 0)%nat then std_decode s else raw_decode s.

Definition shadowsocksFromURL (u : URL) (forward : Dialer) : option Dialer :=
  u ← match u_User u with
      | None =>
          bytes ← decodeBase64String (u_Host u);
          u' ← Parse netip_ParseAddr (u_Scheme u ++ bs "://" ++ bytes);
          match u_User u' with None => None | Some _ => Some u' end
      | Some _ => Some u
      end;
  '(method, password) ← match u_User u with
      | None => None
      | Some (method, Some password) => Some (method, password)
      | Some (method, None) =>
          bytes ← decodeBase64String method;
          match SplitN bytes 58 2 with
          | [method; password] => Some (method, password)
          | _ => None
          end
      end;
  cipher ← PickCipher method password;
  Some (shadowsocksDialer (u_Host u) cipher forward).

Fixpoint rateLimitParseRate (values : list (gostring * gostring)) (keys : list gostring) : Z :=
  match keys with
  | [] => 0
  | key :: keys =>
      let s := Get values key in
      match last s with
      | None => rateLimitParseRate values keys
      | Some c =>
          let n := if one_of c (bs "Kk") then 10
                   else if one_of c (bs "Mm") then 20
                   else if one_of c (bs "Gg") then 30 else 0 in
          match Atoi (TrimRight s (bs "KkMmGg")) with
          | None => 0
          | Some i => wrap64 (Z.shiftl i n)
          end
      end
  end.

Definition rateLimitFromURL (u : URL) (forward : Dialer) : option Dialer :=
  let values := Query u in
  let r := rateLimitParseRate values [bs "r"; bs "read"; bs "rw"; bs "readwrite"] in
  let w := rateLimitParseRate values [bs "w"; bs "write"; bs "rw"; bs "readwrite"] in
  Some (rateLimitDialer r w forward).

Definition tcptunFromURL (u : URL) (forward : Dialer) : option Dialer :=
  Some (tcptunDialer (u_Host u) (negb (bool_decide (Port u = []))) forward).

Definition wsFromURL (u : URL) (forward : Dialer) : option Dialer := Some (wsDialer u forward).

(** What the [init] functions of the package register. *)
Definition proxySchemes : list (gostring * (URL → Dialer → option Dialer)) :=
  [(bs "http", httpFromURL); (bs "ratelimit", rateLimitFromURL);
   (bs "ss", shadowsocksFromURL); (bs "socks", socksFromURL);
   (bs "tcptun", tcptunFromURL); (bs "ws", wsFromURL)].

(** [proxy_FromURL] behind [FromURL]: the built-in socks5 case is never
    reached, for the scheme has been renamed. *)
Definition proxy_FromURL (u : URL) (forward : Dialer) : option Dialer :=
  if bool_decide (u_Scheme u = bs "socks5") || bool_decide (u_Scheme u = bs "socks5h") then
    let port := cmp_Or (Port u) (bs "1080") in
    Some (socksDialer (JoinHostPort (Hostname u) port) (auth_of u) forward)
  else
    match filter (λ sf, sf.1 = u_Scheme u) proxySchemes with
    | sf :: _ => sf.2 u forward
    | [] => None
    end.

Definition with_scheme (u : URL) (scheme : gostring) : URL :=
  MkURL scheme (u_Opaque u) (u_User u) (u_Host u) (u_Path u) (u_RawQuery u) (u_Fragment u).

Definition FromURL (u : URL) (forward : Dialer) : option Dialer :=
  let u := if bool_decide (u_Scheme u = bs "socks5") || bool_decide (u_Scheme u = bs "socks5h")
           then with_scheme u (bs "socks") else u in
  proxy_FromURL u forward.

(** ** chrome.Proxy *)

(** A nil [sum] is the empty string: [bytes.Equal] does not tell them
    apart. *)
Record Proxy := MkProxy { d : option Dialer; sum : gostring }.

Context (sha1 : gostring → gostring).

(** The loop over the URLs; [h] is what has been written to the hash. *)
Fixpoint make_proxy (fwd : Dialer) (h : gostring) (urls : list gostring) : option Proxy :=
  match urls with
  | [] => Some (MkProxy (Some fwd) (if is_direct fwd then [] else sha1 h))
  | s :: urls =>
      if bool_decide (s = []) || EqualFold s (bs "Direct") then make_proxy fwd h urls
      else if EqualFold s (bs "Block") then Some (MkProxy (Some (blockOrReset true)) (bs "Block"))
      else if EqualFold s (bs "Reset") then Some (MkProxy (Some (blockOrReset false)) (bs "Reset"))
      else
        match Parse netip_ParseAddr s with
        | None => None
        | Some u =>
            match FromURL u fwd with
            | None => None
            | Some d => make_proxy d (h ++ s ++ [10]) urls
            end
        end
  end.

Definition MakeProxy (fwd : option Dialer) (urls : list gostring) : option Proxy :=
  make_proxy (default Direct fwd) [] urls.

Definition ProxyFromDialer (d : Dialer) : Proxy := MkProxy (Some d) [].

Definition IsZero (p : Proxy) : bool :=
  match d p with None => true | Some d => is_direct d end.

Definition Equal (p other : Proxy) : bool := bool_decide (sum p = sum other).

Definition proxy_Dialer (p : Proxy) : Dialer := default Direct (d p).

(** [UnmarshalYAML]: [as_list] and [as_string] are what the YAML node decodes
    to as a list of strings and as a string.  The result is the new value of
    [*p] and whether there was no error. *)
Definition UnmarshalYAML (p : Proxy) (as_list : option (list gostring)) (as_string : option gostring)
    : Proxy * bool :=
  match match as_list with
        | Some urls => Some urls
        | None => match as_string with Some s => Some [s] | None => None end
        end with
  | None => (p, false)
  | Some urls =>
      match MakeProxy None (reverse_in_place urls) with
      | Some tmp => (tmp, true)
      | None => (p, false)
      end
  end.
End dialers.
Arguments Dialer : clear implicits.
Arguments Proxy : clear implicits.

(** [slices.EqualFunc(a, b, chrome.Proxy.Equal)] *)
Fixpoint candidates_equal {C} (a b : list (Proxy C)) : bool :=
  match a, b with
  | [], [] => true
  | p :: a, q :: b => Equal p q && candidates_equal a b
  | _, _ => false
  end.

Lemma candidates_equal_length {C} (a b : list (Proxy C)) : candidates_equal a b = true → length a = length b.
Proof.
  revert b. induction a as [|p a IH]; intros [|q b]; simpl; try done.
  intros [_ H]%andb_true_iff. by rewrite (IH b H).
Qed.

(** ** Comparing proxies *)

(** What a list of URLs asks for: to block ([inl true]), to reset
    ([inl false]), or a chain of the URLs that are not "Direct". *)
Fixpoint effective (urls : list gostring) : bool + list gostring :=
  match urls with
  | [] => inr []
  | s :: urls =>
      if bool_decide (s = []) || EqualFold s (bs "Direct") then effective urls
      else if EqualFold s (bs "Block") then inl true
      else if EqualFold s (bs "Reset") then inl false
      else match effective urls with inl b => inl b | inr l => inr (s :: l) end
  end.

Definition hashed (l : list gostring) : gostring := concat ((λ s, s ++ [10]) <$> l).

Lemma hashed_inj l k :
  Forall (λ s, 10 ∉ s) l → Forall (λ s, 10 ∉ s) k → hashed l = hashed k → l = k.
Proof.
  revert k. induction l as [|s l IH]; intros [|t k] Hl Hk H; [done| | |].
  - destruct t; discriminate H.
  - destruct s; discriminate H.
  - apply Forall_cons in Hl as [Hs Hl], Hk as [Ht Hk]. unfold hashed in H. simpl in H.
    rewrite <- !app_assoc in H. fold (hashed l) (hashed k) in H.
    assert (s = t ∧ hashed l = hashed k) as [-> E].
    { clear -Hs Ht H. revert t Ht H. induction s as [|x s IH]; intros [|y t] Ht H.
      - by injection H.
      - injection H as <- _. set_solver.
      - injection H as -> _. set_solver.
      - injection H as -> H. destruct (IH ltac:(set_solver) t ltac:(set_solver) H). by subst. }
    f_equal. by apply IH.
Qed.

Lemma effective_incl urls l : effective urls = inr l → l ⊆ urls.
Proof.
  revert l. induction urls as [|s urls IH]; intros l; simpl; [intros [= <-]; set_solver|].
  case_match; [intros; set_solver|]. case_match; [done|]. case_match; [done|].
  destruct (effective urls); [done|]. intros [= <-]. set_solver.
Qed.

Section compare.
Context {Cipher : Type} (netip : gostring → option bool).
Context (Pick : gostring → gostring → option Cipher) (sha1 : gostring → gostring).

Lemma FromURL_relay u fwd d :
  FromURL netip Pick u fwd = Some d → is_direct d = false.
Proof.
  unfold FromURL. cbv zeta. generalize (if bool_decide (u_Scheme u = bs "socks5") ||
    bool_decide (u_Scheme u = bs "socks5h") then with_scheme u (bs "socks") else u) as u'.
  intros u'. unfold proxy_FromURL.
  case_match; [by intros [= <-]|].
  assert (Forall (λ sf : gostring * (URL → Dialer Cipher → option (Dialer Cipher)),
    ∀ u fwd d, sf.2 u fwd = Some d → is_direct d = false)
    (filter (λ sf, sf.1 = u_Scheme u') (proxySchemes netip Pick))) as Hall.
  { apply Forall_forall. intros sf Hin v f e. apply list_elem_of_filter in Hin as [_ Hin].
    unfold proxySchemes in Hin. rewrite !elem_of_cons in Hin.
    destruct Hin as [->|[->|[->|[->|[->|[->|Hin]]]]]]; simpl; try by intros [= <-].
    - unfold shadowsocksFromURL. intros (u1 & _ & H1)%bind_Some.
      apply bind_Some in H1 as ([m p] & _ & H1). by apply bind_Some in H1 as (c & _ & [= <-]).
    - by apply not_elem_of_nil in Hin. }
  destruct (filter _ _) as [|sf]; [done|]. by apply Forall_cons in Hall as [H1 _]; apply H1.
Qed.

Lemma make_proxy_sum urls fwd h p :
  make_proxy netip Pick sha1 fwd h urls = Some p →
  sum p = match effective urls with
          | inl true => bs "Block"
          | inl false => bs "Reset"
          | inr l => if is_direct fwd && bool_decide (l = []) then [] else sha1 (h ++ hashed l)
          end.
Proof.
  revert fwd h. induction urls as [|s urls IH]; intros fwd h; cbn [make_proxy effective].
  - intros [= <-]. simpl. unfold hashed. simpl. rewrite app_nil_r. by destruct (is_direct fwd).
  - destruct (bool_decide (s = []) || EqualFold s (bs "Direct")); [apply IH|].
    destruct (EqualFold s (bs "Block")); [by intros [= <-]|].
    destruct (EqualFold s (bs "Reset")); [by intros [= <-]|].
    destruct (Parse netip s) as [u|]; [|done]. destruct (FromURL _ _ _ _) as [d|] eqn:Ed; [|done].
    intros E. rewrite (IH _ _ E). rewrite (FromURL_relay _ _ _ Ed). simpl.
    destruct (effective urls) as [[]|l]; [done..|]. rewrite andb_false_r. f_equal.
    unfold hashed. simpl. by rewrite <- !app_assoc.
Qed.

(** C10: two proxies made from URLs without newlines are Equal exactly when
    they ask for the same thing (block, reset, or the same chain once "Direct"
    is dropped), but for a collision of the hash. *)
Theorem Equal_correct urls1 urls2 p1 p2 :
  (∀ s, length (sha1 s) = 20%nat) →
  Forall (λ s, 10 ∉ s) urls1 → Forall (λ s, 10 ∉ s) urls2 →
  MakeProxy netip Pick sha1 None urls1 = Some p1 →
  MakeProxy netip Pick sha1 None urls2 = Some p2 →
  Equal p1 p2 = true ↔
  effective urls1 = effective urls2 ∨
  ∃ s t, s ≠ t ∧ sha1 s = sha1 t ∧ sum p1 = sha1 s ∧ sum p2 = sha1 t.
Proof.
  intros Hlen H1 H2 E1%make_proxy_sum E2%make_proxy_sum. cbn [from_option is_direct andb app] in E1, E2.
  unfold Equal. rewrite bool_decide_eq_true. split.
  - pose proof (effective_incl urls1) as I1. pose proof (effective_incl urls2) as I2.
    rewrite E1, E2. clear E1 E2.
    assert (∀ s, sha1 s ≠ [] ∧ sha1 s ≠ bs "Block" ∧ sha1 s ≠ bs "Reset") as Hs.
    { intros s. pose proof (Hlen s). split_and!; intros E; by rewrite E in *. }
    assert (bs "Block" ≠ bs "Reset" ∧ bs "Block" ≠ [] ∧ bs "Reset" ≠ []) as Hb by done.
    generalize dependent (bs "Block"). generalize dependent (bs "Reset"). intros reset block Hs Hb.
    rewrite Forall_forall in H1, H2.
    destruct Hb as (B1 & B2 & B3).
    destruct (effective urls1) as [[]|l1], (effective urls2) as [[]|l2];
      try (destruct (Hs (hashed l1)) as (X1 & X2 & X3));
      try (destruct (Hs (hashed l2)) as (Y1 & Y2 & Y3));
      repeat case_bool_decide; try (intros; exfalso; congruence); try (intros; left; congruence).
    intros E. destruct (decide (hashed l1 = hashed l2)) as [Eh|]; [|right; exists (hashed l1), (hashed l2); done].
    left. f_equal. apply hashed_inj; [apply Forall_forall..|done]; set_solver.
  - intros [E|(s & t & _ & H & -> & ->)]; [|done]. by rewrite E1, E2, E.
Qed.
End compare.

(** A toy hash with results of 20 bytes, and one cipher. *)
Definition toy_hash (s : gostring) : gostring :=
  take 20 (reverse (take 19 (reverse s)) ++ replicate 20 0).
Definition no_brackets (_ : gostring) : option bool := None.
Definition any_cipher (method password : gostring) : option (gostring * gostring) :=
  Some (method, password).

Lemma toy_hash_length s : length (toy_hash s) = 20%nat.
Proof. unfold toy_hash. rewrite length_take, length_app, length_replicate. lia. Qed.

Lemma Equal_correct_witness :
  ∃ p1 p2,
    MakeProxy no_brackets any_cipher toy_hash None [bs "Direct"; bs "socks5://a:1"; []] = Some p1 ∧
    MakeProxy no_brackets any_cipher toy_hash None [bs "socks5://a:1"] = Some p2 ∧
    Equal p1 p2 = true.
Proof.
  eexists _, _. split; [vm_compute; reflexivity|]. split; [vm_compute; reflexivity|].
  apply (Equal_correct no_brackets any_cipher toy_hash
    [bs "Direct"; bs "socks5://a:1"; []] [bs "socks5://a:1"]).
  - apply toy_hash_length.
  - repeat constructor; by_compute.
  - repeat constructor; by_compute.
  - vm_compute. reflexivity.
  - vm_compute. reflexivity.
  - left. vm_compute. reflexivity.
Defined.

(** A newline is allowed in the fragment of a URL, and separates URLs in the
    hash: one proxy is equal to a chain of two, whatever the hash. *)
Theorem Equal_newline {Cipher} netip (Pick : gostring → gostring → option Cipher) sha1 :
  ∃ p1 p2 d1 d2,
    MakeProxy netip Pick sha1 None [bs "http://a:1#" ++ [10] ++ bs "http://b:2"] = Some p1 ∧
    MakeProxy netip Pick sha1 None [bs "http://a:1#"; bs "http://b:2"] = Some p2 ∧
    Equal p1 p2 = true ∧
    proxy_Dialer p1 = httpDialer (bs "a:1") None d1 ∧
    proxy_Dialer p2 = httpDialer (bs "b:2") None d2 ∧ d1 = Direct ∧ is_direct d2 = false.
Proof.
  eexists _, _, _, _. split; [vm_compute; reflexivity|]. split; [vm_compute; reflexivity|].
  split; [by apply bool_decide_eq_true|]. split; [reflexivity|]. split; [reflexivity|]. done.
Qed.
