(* ===== verification/Dial.v ===== *)
(** * Dialing through a chain.

    The DialContext methods of the package proxy: which connections a chain
    of proxies opens, what it asks of each proxy, and that a dial that fails
    leaves nothing open.  The peers ([answer]), the target parser of the
    Shadowsocks package and the websocket library are parameters.  Deadlines
    and cancellation while a proxy answers are left out: they show as an
    answer that fails. *)

From S2P Require Import Prelude GoStrings Url Proxy.

(** A connection: what was done to establish it, from the inside out. *)
Inductive layer :=
  | Tcp (network addr : gostring)
  | SocksConnect (auth : option Auth) (addr : gostring)
  | HttpConnect (auth : option Auth) (addr : gostring)
  | SsRequest (addr : list Z)
  | WebSocket (host path : gostring)
  | RateLimit (r w : option Z).

Definition conn := list layer.

Inductive dial_error := ErrNetwork | ErrTarget | ErrPeer | ErrCtx | CloseConn.
Inductive event := Open | Close.

#[export] Instance event_eq_dec : EqDecision event.
Proof. solve_decision. Defined.

(** The connections opened and closed on the way, and the result. *)
Definition outcome : Type := list event * (dial_error + conn).

Definition is_tcp (network : gostring) : bool :=
  bool_decide (network ∈ [bs "tcp"; bs "tcp4"; bs "tcp6"]).

Definition socks_splitHostPort (address : gostring) : option (gostring * Z) :=
  '(host, port) ← SplitHostPort address;
  portnum ← Atoi port;
  if (portnum <? 1) || (65535 <? portnum) then None else Some (host, portnum).

Definition limit (rate : Z) : option Z := if 0 <? rate then Some rate else None.

Section dial.
Context {Cipher : Type}.
Context (answer : conn → layer → bool).
Context (socks_ParseAddr : gostring → option (list Z)).
Context (websocket_Dial : URL → outcome → outcome).

(** One more step on an open connection, which is closed when it fails. *)
Definition ask (ev : list event) (c : conn) (l : layer) : outcome :=
  if answer c l then (ev, inr (c ++ [l])) else (ev ++ [Close], inl ErrPeer).

(** Each method gets the dial of its forwarder. *)
Definition forward := gostring → gostring → outcome.

Definition Direct_DialContext : forward := λ network addr,
  if answer [] (Tcp network addr) then ([Open], inr [Tcp network addr]) else ([], inl ErrPeer).

Definition blockOrReset_DialContext (block : bool) : forward := λ _ _,
  ([], inl (if block then ErrCtx else CloseConn)).

(** The dialer of golang.org/x/net behind [socksDialer]: it connects to the
    proxy before it looks at the address. *)
Definition socks_Dialer_DialContext (proxyAddress : gostring) (auth : option Auth)
    (ProxyDial : forward) : forward := λ network address,
  if negb (is_tcp network) then ([], inl ErrNetwork) else
  match ProxyDial (bs "tcp") proxyAddress with
  | (ev, inl err) => (ev, inl err)
  | (ev, inr c) =>
      match socks_splitHostPort address with
      | None => (ev ++ [Close], inl ErrTarget)
      | Some _ => ask ev c (SocksConnect auth address)
      end
  end.

Definition socksDialer_DialContext (d : forward) : forward := λ network addr,
  if negb (is_tcp network) then ([], inl ErrNetwork) else d network addr.

Definition httpDialer_DialContext (Server : gostring) (auth : option Auth) (Forward : forward)
    : forward := λ network addr,
  if negb (is_tcp network) then ([], inl ErrNetwork) else
  match Forward network Server with
  | (ev, inl err) => (ev, inl err)
  | (ev, inr c) => ask ev c (HttpConnect auth addr)
  end.

Definition shadowsocksDialer_DialContext (Server : gostring) (Forward : forward) : forward :=
  λ network addr,
  if negb (is_tcp network) then ([], inl ErrNetwork) else
  match socks_ParseAddr addr with
  | None => ([], inl ErrTarget)
  | Some remoteAddr =>
      match Forward network Server with
      | (ev, inl err) => (ev, inl err)
      | (ev, inr c) => ask ev c (SsRequest remoteAddr)
      end
  end.

Definition rateLimitDialer_DialContext (ReadRate WriteRate : Z) (Forward : forward) : forward :=
  λ network addr,
  if negb (is_tcp network) then ([], inl ErrNetwork) else
  match Forward network addr with
  | (ev, inl err) => (ev, inl err)
  | (ev, inr c) =>
      if (0 <? ReadRate) || (0 <? WriteRate)
      then (ev, inr (c ++ [RateLimit (limit ReadRate) (limit WriteRate)]))
      else (ev, inr c)
  end.

Definition tcptunDialer_DialContext (Server : gostring) (HasPort : bool) (Forward : forward)
    : forward := λ network addr,
  if negb (is_tcp network) then ([], inl ErrNetwork) else
  let target :=
    if HasPort then Server
    else JoinHostPort Server (default [] (snd <$> SplitHostPort addr)) in
  Forward network target.

Definition wsDialer_DialContext (u : URL) (Forward : forward) : forward := λ network addr,
  if negb (is_tcp network) then ([], inl ErrNetwork) else
  let u := MkURL (u_Scheme u) (u_Opaque u) (u_User u) (cmp_Or (u_Host u) addr)
             (cmp_Or (u_Path u) (bs "/")) (u_RawQuery u) (u_Fragment u) in
  websocket_Dial u (Forward (bs "tcp") addr).

(** [Dial]: all the dialers are ContextDialers. *)
Fixpoint DialContext (d : Dialer Cipher) (network addr : gostring) : outcome :=
  match d with
  | Direct => Direct_DialContext
  | blockOrReset block => blockOrReset_DialContext block
  | socksDialer Server auth Forward =>
      socksDialer_DialContext (socks_Dialer_DialContext Server auth (DialContext Forward))
  | httpDialer Server auth Forward => httpDialer_DialContext Server auth (DialContext Forward)
  | shadowsocksDialer Server _ Forward =>
      shadowsocksDialer_DialContext Server (DialContext Forward)
  | rateLimitDialer ReadRate WriteRate Forward =>
      rateLimitDialer_DialContext ReadRate WriteRate (DialContext Forward)
  | tcptunDialer Server HasPort Forward =>
      tcptunDialer_DialContext Server HasPort (DialContext Forward)
  | wsDialer u Forward => wsDialer_DialContext u (DialContext Forward)
  end network addr.

(** ** No leaks *)

Ltac unfold_dial :=
  unfold Direct_DialContext, blockOrReset_DialContext, socksDialer_DialContext,
    socks_Dialer_DialContext, httpDialer_DialContext, shadowsocksDialer_DialContext,
    rateLimitDialer_DialContext, tcptunDialer_DialContext, wsDialer_DialContext.

Definition opens (ev : list event) : nat := length (filter (λ e, e = Open) ev).
Definition closes (ev : list event) : nat := length (filter (λ e, e = Close) ev).

(** One connection stays open when the dial succeeds, none when it fails. *)
Definition balanced (o : outcome) : Prop :=
  match o.2 with
  | inr _ => opens o.1 = S (closes o.1)
  | inl _ => opens o.1 = closes o.1
  end.

Lemma balanced_close ev c e : balanced (ev, inr c) → balanced (ev ++ [Close], inl e).
Proof.
  unfold balanced, opens, closes. simpl. rewrite !filter_app, !length_app. simpl. lia.
Qed.

Lemma balanced_ask ev c l : balanced (ev, inr c) → balanced (ask ev c l).
Proof. intros H. unfold ask. case_match; [done|]. by eapply balanced_close. Qed.

Lemma balanced_error e : balanced ([], inl e).
Proof. done. Qed.

#[local] Hint Resolve balanced_error balanced_close balanced_ask : core.

Lemma balanced_dial d network addr :
  (∀ u o, balanced o → balanced (websocket_Dial u o)) → balanced (DialContext d network addr).
Proof.
  intros Hws. revert network addr. induction d; intros network addr; simpl; unfold_dial;
    try match goal with |- context [negb ?b] => destruct b; [cbn [negb]|by auto] end;
    try match goal with |- context [DialContext ?d ?n ?a] =>
      pose proof (IHd n a) as Hb; destruct (DialContext d n a) as [ev [e|c]] end; auto;
    repeat case_match; simplify_eq; eauto.
  done.
Qed.

(** C9: a dial through any chain leaves exactly one connection open when it
    succeeds and none when it fails, whichever step fails. *)
Theorem dial_no_leak d network addr :
  (∀ u o, balanced o → balanced (websocket_Dial u o)) →
  let '(ev, r) := DialContext d network addr in
  match r with
  | inl _ => opens ev = closes ev
  | inr c => opens ev = S (closes ev)
  end.
Proof.
  intros Hws. pose proof (balanced_dial d network addr Hws) as H.
  by destruct (DialContext d network addr) as [ev []].
Qed.

(** ** The order of the dial *)

(** What a URL stands for: a proxy that is asked to connect to an address is
    reached at [hop_next], through the proxies before it, and adds its layers
    to that connection ([None]: it cannot connect to that address). *)
Record hop := MkHop { hop_next : gostring → gostring; hop_adds : gostring → option (list layer) }.

Context (netip : gostring → option bool).

(** ss://user@host, or all of it but the scheme in base64. *)
Definition ss_server (u : URL) : option gostring :=
  match u_User u with
  | Some _ => Some (u_Host u)
  | None => text ← decodeBase64String (u_Host u); u' ← Parse netip (bs "ss://" ++ text); Some (u_Host u')
  end.

Definition hop_of (u : URL) : option hop :=
  let has s := bool_decide (u_Scheme u = bs s) in
  let server := u_Host u in
  if has "http" then
    Some (MkHop (λ _, if bool_decide (Port u = []) then JoinHostPort server (bs "80") else server)
            (λ addr, Some [HttpConnect (auth_of u) addr]))
  else if has "socks" || has "socks5" || has "socks5h" then
    Some (MkHop (λ _, server)
            (λ addr, _ ← socks_splitHostPort addr; Some [SocksConnect (auth_of u) addr]))
  else if has "ss" then
    server ← ss_server u;
    Some (MkHop (λ _, server) (λ addr, a ← socks_ParseAddr addr; Some [SsRequest a]))
  else if has "tcptun" then
    Some (MkHop (λ addr, if bool_decide (Port u = []) then JoinHostPort server (default [] (snd <$> SplitHostPort addr))
                         else server)
            (λ _, Some []))
  else if has "ratelimit" then
    let r := rateLimitParseRate (Query u) [bs "r"; bs "read"; bs "rw"; bs "readwrite"] in
    let w := rateLimitParseRate (Query u) [bs "w"; bs "write"; bs "rw"; bs "readwrite"] in
    Some (MkHop id (λ _, Some (if (0 <? r) || (0 <? w) then [RateLimit (limit r) (limit w)] else [])))
  else if has "ws" then
    Some (MkHop id (λ addr, match u_User u with
                            | Some _ => None
                            | None => Some [WebSocket (cmp_Or server addr) (cmp_Or (u_Path u) (bs "/"))]
                            end))
  else None.

(** The address that the first of these proxies is reached at, and the layers
    on the connection to it, for a connection to [addr]. *)
Fixpoint entry (hs : list hop) (addr : gostring) : gostring :=
  match hs with h :: hs => hop_next h (entry hs addr) | [] => addr end.

Fixpoint layers (hs : list hop) (addr : gostring) : option (list layer) :=
  match hs with
  | [] => Some []
  | h :: hs => l ← hop_adds h (entry hs addr); ls ← layers hs addr; Some (l ++ ls)
  end.

(** The websocket library: a user in the URL is refused, else it dials once
    and shakes hands on the connection. *)
Definition websocket_spec : Prop := ∀ u o,
  websocket_Dial u o =
  match u_User u, o with
  | Some _, _ => ([], inl ErrTarget)
  | None, (ev, inl e) => (ev, inl e)
  | None, (ev, inr c) => ask ev c (WebSocket (u_Host u) (u_Path u))
  end.

(** [d] is [h] on top of [fwd]. *)
Definition on_top (d fwd : Dialer Cipher) (h : hop) : Prop := ∀ addr,
  (∀ ev c, DialContext d (bs "tcp") addr = (ev, inr c) →
     ∃ ev0 c0 ls, DialContext fwd (bs "tcp") (hop_next h addr) = (ev0, inr c0) ∧
       hop_adds h addr = Some ls ∧ c = c0 ++ ls) ∧
  ((∀ c l, answer c l = true) → ∀ ev0 c0 ls,
     DialContext fwd (bs "tcp") (hop_next h addr) = (ev0, inr c0) → hop_adds h addr = Some ls →
     DialContext d (bs "tcp") addr = (ev0, inr (c0 ++ ls))).

Lemma ask_inr ev c l ev' c' : ask ev c l = (ev', inr c') → c' = c ++ [l].
Proof. unfold ask. case_match; [by intros [= ? <-]|done]. Qed.

Lemma ask_yes ev c l : (∀ c l, answer c l = true) → ask ev c l = (ev, inr (c ++ [l])).
Proof. unfold ask. by intros ->. Qed.

Lemma on_top_http server auth fwd :
  on_top (httpDialer server auth fwd) fwd (MkHop (λ _, server) (λ addr, Some [HttpConnect auth addr])).
Proof.
  intros addr. simpl. unfold_dial. simpl. destruct (DialContext fwd _ _) as [ev0 [e|c0]]; (split; [intros ev c|intros Ha ev c ls]); try done.
  - intros ->%ask_inr. by eexists _, _, _.
  - intros [= <- <-] [= <-]. by apply ask_yes.
Qed.

Lemma on_top_socks server auth fwd :
  on_top (socksDialer server auth fwd) fwd
    (MkHop (λ _, server) (λ addr, _ ← socks_splitHostPort addr; Some [SocksConnect auth addr])).
Proof.
  intros addr. simpl. unfold_dial. simpl.
  destruct (DialContext fwd _ _) as [ev0 [e|c0]], (socks_splitHostPort addr);
    (split; [intros ev c|intros Ha ev c ls]); try done.
  - intros ->%ask_inr. by eexists _, _, _.
  - intros [= <- <-] [= <-]. by apply ask_yes.
Qed.

Lemma on_top_ss server cipher fwd :
  on_top (shadowsocksDialer server cipher fwd) fwd
    (MkHop (λ _, server) (λ addr, a ← socks_ParseAddr addr; Some [SsRequest a])).
Proof.
  intros addr. simpl. unfold_dial. simpl.
  destruct (socks_ParseAddr addr), (DialContext fwd _ _) as [ev0 [e|c0]];
    (split; [intros ev c|intros Ha ev c ls]); try done.
  - intros ->%ask_inr. by eexists _, _, _.
  - intros [= <- <-] [= <-]. by apply ask_yes.
Qed.

Lemma on_top_ratelimit r w fwd :
  on_top (rateLimitDialer r w fwd) fwd
    (MkHop id (λ _, Some (if (0 <? r) || (0 <? w) then [RateLimit (limit r) (limit w)] else []))).
Proof.
  intros addr. simpl. unfold_dial. simpl.
  destruct (DialContext fwd _ _) as [ev0 [e|c0]] eqn:E, ((0 <? r) || (0 <? w));
    (split; [intros ev c|intros Ha ev c ls]); rewrite ?E; try done.
  - intros [= <- <-]. by eexists _, _, _.
  - by intros [= <- <-] [= <-].
  - intros [= <- <-]. eexists _, _, []. by rewrite app_nil_r.
  - intros [= <- <-] [= <-]. by rewrite app_nil_r.
Qed.

Lemma on_top_tcptun server has fwd :
  on_top (tcptunDialer server has fwd) fwd
    (MkHop (λ addr, if has : bool then server else JoinHostPort server (default [] (snd <$> SplitHostPort addr))) (λ _, Some [])).
Proof.
  intros addr. simpl. unfold_dial. simpl. split.
  - intros ev c H. eexists _, _, []. by rewrite app_nil_r.
  - intros _ ev c ls H [= <-]. by rewrite app_nil_r.
Qed.

Context (Hws : websocket_spec).

Lemma on_top_ws u fwd :
  on_top (wsDialer u fwd) fwd
    (MkHop id (λ addr, match u_User u with
                       | Some _ => None
                       | None => Some [WebSocket (cmp_Or (u_Host u) addr) (cmp_Or (u_Path u) (bs "/"))]
                       end)).
Proof using Hws.
  intros addr. simpl. unfold_dial. cbn [negb is_tcp]. simpl. rewrite Hws. simpl.
  destruct (u_User u), (DialContext fwd _ _) as [ev0 [e|c0]] eqn:E;
    (split; [intros ev c|intros Ha ev c ls]); try done.
  - intros ->%ask_inr. by eexists _, _, _.
  - intros [= <- <-] [= <-]. by apply ask_yes.
Qed.

Context (Pick : gostring → gostring → option Cipher).

Lemma FromURL_http u fwd :
  u_Scheme u = bs "http" → FromURL netip Pick u fwd = httpFromURL u fwd.
Proof. destruct u. simpl. by intros ->. Qed.

Lemma FromURL_socks u fwd :
  u_Scheme u = bs "socks" ∨ u_Scheme u = bs "socks5" ∨ u_Scheme u = bs "socks5h" →
  FromURL netip Pick u fwd = socksFromURL u fwd.
Proof. destruct u. simpl. by intros [-> | [-> | ->] ]. Qed.

Lemma FromURL_ss u fwd :
  u_Scheme u = bs "ss" → FromURL netip Pick u fwd = shadowsocksFromURL netip Pick u fwd.
Proof. destruct u. simpl. by intros ->. Qed.

Lemma FromURL_others u fwd :
  (u_Scheme u = bs "tcptun" → FromURL netip Pick u fwd = tcptunFromURL u fwd) ∧
  (u_Scheme u = bs "ratelimit" → FromURL netip Pick u fwd = rateLimitFromURL u fwd) ∧
  (u_Scheme u = bs "ws" → FromURL netip Pick u fwd = wsFromURL u fwd).
Proof. destruct u. simpl. split_and!; by intros ->. Qed.

Lemma FromURL_known u fwd d : FromURL netip Pick u fwd = Some d →
  u_Scheme u ∈ bs <$> ["http"; "socks"; "socks5"; "socks5h"; "ss"; "tcptun"; "ratelimit"; "ws"]%string.
Proof.
  unfold FromURL. cbv zeta.
  destruct (bool_decide (u_Scheme u = bs "socks5")) eqn:E5.
  { intros _. apply bool_decide_eq_true in E5 as ->. simpl. repeat (first [by left|right]). }
  destruct (bool_decide (u_Scheme u = bs "socks5h")) eqn:E5h.
  { intros _. apply bool_decide_eq_true in E5h as ->. simpl. repeat (first [by left|right]). }
  simpl. unfold proxy_FromURL. rewrite E5, E5h. simpl.
  destruct (filter _ _) as [|sf l] eqn:E; [done|]. intros _.
  assert (sf ∈ sf :: l) as Hin by left. rewrite <- E in Hin. apply list_elem_of_filter in Hin as [<- Hin].
  unfold proxySchemes in Hin. rewrite !elem_of_cons in Hin.
  destruct Hin as [->|[->|[->|[->|[->|[->|Hin]]]]]]; simpl; try (by apply not_elem_of_nil in Hin);
    repeat (first [by left|right]).
Qed.

Lemma ss_hop u fwd d : u_Scheme u = bs "ss" → shadowsocksFromURL netip Pick u fwd = Some d →
  ∃ server cipher, ss_server u = Some server ∧ d = shadowsocksDialer server cipher fwd.
Proof.
  intros Es H. unfold shadowsocksFromURL in H. unfold ss_server. rewrite Es in H.
  destruct (u_User u) as [up|] eqn:Eu.
  - apply bind_Some in H as (u0 & [= <-] & H). rewrite Eu in H.
    apply bind_Some in H as ([m pw] & _ & H). apply bind_Some in H as (c & _ & [= <-]). by eexists _, _.
  - apply bind_Some in H as (u1 & H1 & H). apply bind_Some in H1 as (text & -> & H1). cbn [mbind option_bind].
    apply bind_Some in H1 as (u' & E & H1).
    assert (u1 = u') as -> by (by destruct (u_User u'); [injection H1|]).
    change (bs "ss" ++ bs "://" ++ text) with (bs "ss://" ++ text) in E. rewrite E.
    cbn [mbind option_bind]. apply bind_Some in H as ([m pw] & _ & H). apply bind_Some in H as (c & _ & [= <-]). by eexists _, _.
Qed.

Lemma FromURL_hop u fwd d : FromURL netip Pick u fwd = Some d → ∃ h, hop_of u = Some h ∧ on_top d fwd h.
Proof using Hws.
  intros H. pose proof (FromURL_known _ _ _ H) as Hin. pose proof (FromURL_others u fwd) as (Ht & Hr & Hw).
  unfold hop_of. cbv zeta. simpl in Hin. rewrite !elem_of_cons in Hin.
  destruct Hin as [E|[E|[E|[E|[E|[E|[E|[E|Hin]]]]]]]]; [..|by apply not_elem_of_nil in Hin].
  - rewrite FromURL_http in H by done. rewrite E. injection H as <-. eexists. split; [reflexivity|]. apply on_top_http.
  - rewrite FromURL_socks in H by auto. rewrite E. injection H as <-. eexists. split; [reflexivity|]. apply on_top_socks.
  - rewrite FromURL_socks in H by auto. rewrite E. injection H as <-. eexists. split; [reflexivity|]. apply on_top_socks.
  - rewrite FromURL_socks in H by auto. rewrite E. injection H as <-. eexists. split; [reflexivity|]. apply on_top_socks.
  - rewrite FromURL_ss in H by done. destruct (ss_hop _ _ _ E H) as (server & cipher & Es & ->).
    rewrite E, Es. eexists. split; [reflexivity|]. apply on_top_ss.
  - rewrite (Ht E) in H. rewrite E. injection H as <-. eexists. split; [reflexivity|].
    pose proof (on_top_tcptun (u_Host u) (negb (bool_decide (Port u = []))) fwd) as Ho.
    by destruct (bool_decide (Port u = [])).
  - rewrite (Hr E) in H. rewrite E. injection H as <-. eexists. split; [reflexivity|]. apply on_top_ratelimit.
  - rewrite (Hw E) in H. rewrite E. injection H as <-. eexists. split; [reflexivity|]. apply on_top_ws.
Qed.

Definition parsed_as (s : gostring) (h : hop) : Prop :=
  ∃ u, Parse netip s = Some u ∧ hop_of u = Some h.

(** [d] is a chain on top of [fwd]. *)
Definition chained (d fwd : Dialer Cipher) (hs : list hop) : Prop := ∀ addr,
  (∀ ev c, DialContext d (bs "tcp") addr = (ev, inr c) →
     ∃ ev0 c0 ls, DialContext fwd (bs "tcp") (entry hs addr) = (ev0, inr c0) ∧ layers hs addr = Some ls ∧ c = c0 ++ ls) ∧
  ((∀ c l, answer c l = true) → ∀ ev0 c0 ls,
     DialContext fwd (bs "tcp") (entry hs addr) = (ev0, inr c0) → layers hs addr = Some ls →
     DialContext d (bs "tcp") addr = (ev0, inr (c0 ++ ls))).

Lemma chained_nil d : chained d d [].
Proof.
  intros addr. split.
  - intros ev c H. eexists _, _, []. by rewrite app_nil_r.
  - intros _ ev c ls H [= <-]. by rewrite app_nil_r.
Qed.

Lemma chained_cons d d1 fwd h hs : chained d d1 hs → on_top d1 fwd h → chained d fwd (h :: hs).
Proof.
  intros Hc Ho addr. destruct (Hc addr) as [C1 C2], (Ho (entry hs addr)) as [O1 O2]. split.
  - intros ev c (ev1 & c1 & ls & H1 & Hl & ->)%C1. destruct (O1 _ _ H1) as (ev0 & c0 & l & H0 & Ha & ->).
    exists ev0, c0, (l ++ ls). split; [exact H0|]. simpl. rewrite Ha. simpl. rewrite Hl. simpl. by rewrite app_assoc.
  - intros Hy ev0 c0 ls H0 Hl. simpl in Hl. apply bind_Some in Hl as (l & Ha & Hl).
    apply bind_Some in Hl as (ls' & Hl & [= <-]). rewrite app_assoc. apply C2; [done| |done]. by apply O2.
Qed.

Context (sha1 : gostring → gostring).

Lemma make_proxy_chained urls fwd h p l :
  make_proxy netip Pick sha1 fwd h urls = Some p → effective urls = inr l →
  ∃ hs, Forall2 parsed_as l hs ∧ chained (proxy_Dialer p) fwd hs.
Proof using Hws.
  revert fwd h l. induction urls as [|s urls IH]; intros fwd h l; cbn [make_proxy effective].
  - intros [= <-] [= <-]. exists []. split; [constructor|apply chained_nil].
  - destruct (bool_decide (s = []) || EqualFold s (bs "Direct")); [by apply IH|].
    destruct (EqualFold s (bs "Block")); [done|]. destruct (EqualFold s (bs "Reset")); [done|].
    destruct (Parse netip s) as [u|] eqn:Ep; [|done].
    destruct (FromURL _ _ _ _) as [d|] eqn:Ed; [|done].
    destruct (effective urls) as [|l']; [done|]. intros Hm [= <-].
    destruct (IH _ _ _ Hm eq_refl) as (hs & Hp & Hc). destruct (FromURL_hop _ _ _ Ed) as (h' & Hh & Ho).
    exists (h' :: hs). split; [constructor; [by exists u|done]|]. by eapply chained_cons.
Qed.

Lemma make_proxy_refuses urls fwd h p block :
  make_proxy netip Pick sha1 fwd h urls = Some p → effective urls = inl block →
  proxy_Dialer p = blockOrReset block.
Proof.
  revert fwd h. induction urls as [|s urls IH]; intros fwd h; cbn [make_proxy effective]; [done|].
  destruct (bool_decide (s = []) || EqualFold s (bs "Direct")); [by apply IH|].
  destruct (EqualFold s (bs "Block")); [by intros [= <-] [= <-]|].
  destruct (EqualFold s (bs "Reset")); [by intros [= <-] [= <-]|].
  destruct (Parse netip s) as [u|]; [|done]. destruct (FromURL _ _ _ _) as [d|]; [|done].
  destruct (effective urls) as [b|]; [|done]. intros Hm [= <-]. by eapply IH.
Qed.

(** C8: the proxies of a YAML list (or single URL) are chained in reverse, for
    every registered scheme: a dial through a "Block" or "Reset" opens no
    connection; otherwise each URL but "Direct" and the empty one stands for a
    hop (http, socks, ss, tcptun, ratelimit, ws), a connection that is
    established went to the address at which the first hop is reached and
    through it made the request of each hop in turn, the last one for the
    address, and when all peers agree and every hop can take its address the
    dial succeeds. Networks are "tcp"; the websocket library is assumed to
    refuse a URL with a user and otherwise to dial once and shake hands. *)
Theorem dial_order p p' as_list as_string urls :
  UnmarshalYAML netip Pick sha1 p as_list as_string = (p', true) →
  match as_list with Some l => Some l | None => (λ s, [s]) <$> as_string end = Some urls →
  match effective (reverse urls) with
  | inl block => ∀ addr, DialContext (proxy_Dialer p') (bs "tcp") addr = ([], inl (if block then ErrCtx else CloseConn))
  | inr l =>
      ∃ hs, Forall2 parsed_as l hs ∧ ∀ addr,
        (∀ ev c, DialContext (proxy_Dialer p') (bs "tcp") addr = (ev, inr c) →
           ∃ ls, layers hs addr = Some ls ∧ c = Tcp (bs "tcp") (entry hs addr) :: ls) ∧
        ((∀ c l, answer c l = true) → ∀ ls, layers hs addr = Some ls →
           DialContext (proxy_Dialer p') (bs "tcp") addr = ([Open], inr (Tcp (bs "tcp") (entry hs addr) :: ls)))
  end.
Proof using Hws.
  intros Hu Hl. unfold UnmarshalYAML, MakeProxy in Hu.
  assert (∃ tmp, make_proxy netip Pick sha1 Direct [] (reverse urls) = Some tmp ∧ p' = tmp) as (tmp & Em & ->).
  { assert (match make_proxy netip Pick sha1 Direct [] (reverse urls) with
            | Some tmp => (tmp, true) | None => (p, false) end = (p', true)) as H.
    { rewrite <- reverse_in_place_rev. destruct as_list; [by simplify_eq|].
      destruct as_string; [|done]. simpl in Hl. by simplify_eq. }
    destruct (make_proxy _ _ _ _ _ _) as [tmp|]; [|done]. injection H as <-. by eexists. }
  destruct (effective (reverse urls)) as [block|l] eqn:Ee.
  - intros addr. by rewrite (make_proxy_refuses _ _ _ _ _ Em Ee).
  - destruct (make_proxy_chained _ _ _ _ _ Em Ee) as (hs & Hp & Hc). exists hs. split; [done|]. intros addr.
    destruct (Hc addr) as [C1 C2]. split.
    + intros ev c (ev0 & c0 & ls & H0 & Hls & ->)%C1. exists ls. split; [done|].
      simpl in H0. unfold Direct_DialContext in H0. case_match; [|done]. by simplify_eq.
    + intros Hy ls Hls. apply (C2 Hy [Open] [Tcp (bs "tcp") (entry hs addr)] ls); [|done].
      simpl. unfold Direct_DialContext. by rewrite Hy.
Qed.
End dial.

(** ** Witnesses *)

Definition yes (_ : conn) (_ : layer) : bool := true.
Definition raw_addr (s : gostring) : option (list Z) := Some s.
Definition ws_ok (u : URL) (o : outcome) : outcome :=
  match u_User u, o with
  | Some _, _ => ([], inl ErrTarget)
  | None, (ev, inl e) => (ev, inl e)
  | None, (ev, inr c) => ask yes ev c (WebSocket (u_Host u) (u_Path u))
  end.

Definition ex_urls : list gostring := [bs "ss://m:p@c:3"; bs "Direct"; bs "http://b"; bs "socks5://a:1"].

Definition ex_proxy : Proxy.Proxy (gostring * gostring) :=
  (UnmarshalYAML no_brackets any_cipher toy_hash (MkProxy None []) (Some ex_urls) None).1.

Example ex_dial : DialContext yes raw_addr ws_ok (proxy_Dialer ex_proxy) (bs "tcp") (bs "d:4") =
  ([Open], inr [Tcp (bs "tcp") (bs "a:1"); SocksConnect None (bs "b:80");
                HttpConnect None (bs "c:3"); SsRequest (bs "d:4")]).
Proof. reflexivity. Qed.

Lemma dial_order_witness :
  ∃ hs, DialContext yes raw_addr ws_ok (proxy_Dialer ex_proxy) (bs "tcp") (bs "d:4") =
    ([Open], inr (Tcp (bs "tcp") (entry hs (bs "d:4")) ::
                  [SocksConnect None (bs "b:80"); HttpConnect None (bs "c:3"); SsRequest (bs "d:4")])).
Proof.
  destruct (dial_order yes raw_addr ws_ok no_brackets (λ u o, eq_refl) any_cipher toy_hash (MkProxy None [])
    ex_proxy (Some ex_urls) None ex_urls ltac:(vm_compute; reflexivity) eq_refl) as (hs & _ & H).
  exists hs. destruct (H (bs "d:4")) as [C _].
  destruct (C _ _ ex_dial) as (ls & _ & E). rewrite ex_dial.
  apply (f_equal (λ c, match c with Tcp _ a :: _ => a | _ => [] end)) in E. cbv beta iota in E. by rewrite <- E.
Defined.

Definition refuses_http (_ : conn) (l : layer) : bool :=
  match l with HttpConnect _ _ => false | _ => true end.

Lemma ws_ok_balanced u o : balanced o → balanced (ws_ok u o).
Proof.
  unfold ws_ok. destruct (u_User u), o as [ev [e|c]]; [done|done|done|]. by apply balanced_ask.
Qed.

Lemma dial_no_leak_witness :
  let '(ev, r) := DialContext refuses_http raw_addr ws_ok (proxy_Dialer ex_proxy) (bs "tcp") (bs "d:4") in
  ev = [Open; Close] ∧ opens ev = closes ev.
Proof.
  pose proof (dial_no_leak refuses_http raw_addr ws_ok (proxy_Dialer ex_proxy) (bs "tcp") (bs "d:4")
    ws_ok_balanced) as H.
  split; [vm_compute; reflexivity|exact H].
Defined.

(** The port that an IPv6 host lacks is added with a second pair of
    brackets: the address of the proxy cannot be split, so it is never
    reached. *)
Theorem http_ipv6_no_port {Cipher} (Pick : gostring → gostring → option Cipher) (fwd : Dialer Cipher) :
  ∃ u server, Parse (λ _, Some false) (bs "http://[::1]") = Some u ∧
    FromURL (λ _, Some false) Pick u fwd = Some (httpDialer server None fwd) ∧
    server = bs "[[::1]]:80" ∧ SplitHostPort server = None.
Proof. eexists _, _. split_and!; [vm_compute; reflexivity|reflexivity..]. Qed.
