(* ===== verification/Config.v ===== *)
(** * Values of the configuration.

    bytes.go, stringlist.go and envstring.go: the helper types that are read
    from YAML.  A YAML node is the results of decoding it. *)

From S2P Require Import Prelude GoStrings Url Proxy.

(** [Bytes.UnmarshalYAML]: the new value, or an error. *)
Definition Bytes_UnmarshalYAML (as_string : option gostring) : option Z :=
  s ← as_string;
  match last s with
  | None => Some 0
  | Some c =>
      let n := if c =? 75 then 10 else if c =? 77 then 20 else if c =? 71 then 30
               else if c =? 84 then 40 else 0 in
      let s := if 0 <? n then take (length s - 1) s else s in
      i ← ParseInt s;
      Some (wrap64 (Z.shiftl i n))
  end.

(** [StringList.UnmarshalYAML] *)
Definition StringList_UnmarshalYAML (as_list : option (list gostring)) (as_string : option gostring)
    : option (list gostring) :=
  match as_list with
  | Some slice => Some slice
  | None => match as_string with Some raw => Some [raw] | None => None end
  end.

(** [EnvString.UnmarshalYAML]; [os_ExpandEnv] reads the environment. *)
Definition EnvString_UnmarshalYAML (os_ExpandEnv : gostring → gostring) (as_string : option gostring)
    : option gostring :=
  raw ← as_string; Some (os_ExpandEnv raw).

(** The binary prefixes: the power of two of a suffix. *)
Inductive binary_prefix : gostring → Z → Prop :=
  | prefix_none : binary_prefix [] 0
  | prefix_K : binary_prefix (bs "K") 10
  | prefix_M : binary_prefix (bs "M") 20
  | prefix_G : binary_prefix (bs "G") 30
  | prefix_T : binary_prefix (bs "T") 40.

Lemma last_Itoa i : 0 <= i → ∃ c, last (Itoa i) = Some c ∧ 48 <= c <= 57.
Proof.
  intros Hi. pose proof (Itoa_bounds i Hi) as Hb.
  destruct (itoa_loop_cons 20 i []) as (c & l & E & _); [lia..|].
  destruct (last (Itoa i)) as [x|] eqn:El.
  - exists x. split; [done|]. rewrite Forall_forall in Hb. apply Hb. clear E Hb.
    apply last_Some in El as [l' ->]. apply elem_of_app. right. constructor.
  - apply last_None in El. unfold Itoa in El. by rewrite E in El.
Qed.

Lemma Bytes_suffix i suffix k :
  0 <= i < 2 ^ 63 → binary_prefix suffix k →
  Bytes_UnmarshalYAML (Some (Itoa i ++ suffix)) = Some (wrap64 (i * 2 ^ k)).
Proof.
  intros Hi Hs. unfold Bytes_UnmarshalYAML. cbn [mbind option_bind].
  assert (∀ c n, last (Itoa i ++ [c]) = Some c ∧
    (i ← ParseInt (take (length (Itoa i ++ [c]) - 1) (Itoa i ++ [c])); Some (wrap64 (Z.shiftl i n))) =
    Some (wrap64 (Z.shiftl i n))) as Hc.
  { intros c n. rewrite last_snoc, length_app, Nat.add_sub, take_app_length by done.
    by rewrite ParseInt_Itoa. }
  rewrite <- Z.shiftl_mul_pow2 by (destruct Hs; lia).
  destruct Hs; [|cbn [bs]; match goal with |- context [Itoa i ++ [?c]] =>
    destruct (Hc c 10) as [-> _] end; apply Hc..].
  destruct (last_Itoa i) as (c & E & Hr); [lia|].
  rewrite app_nil_r, E. cbv zeta. zif. by rewrite ParseInt_Itoa.
Qed.

Lemma wrap64_iff z : wrap64 z = z ↔ in_int64 z = true.
Proof.
  split; [|apply wrap64_id]. rewrite in_int64_iff. unfold wrap64. intros H.
  pose proof (Z.mod_pos_bound (z + 2 ^ 63) (2 ^ 64) ltac:(lia)). lia.
Qed.

Theorem Bytes_value i suffix k :
  0 <= i < 2 ^ 63 → binary_prefix suffix k →
  ∃ v, Bytes_UnmarshalYAML (Some (Itoa i ++ suffix)) = Some v ∧
    - 2 ^ 63 <= v < 2 ^ 63 ∧ (v = i * 2 ^ k ↔ i * 2 ^ k < 2 ^ 63).
Proof.
  intros Hi Hs. exists (wrap64 (i * 2 ^ k)). split; [by apply Bytes_suffix|].
  assert (0 <= i * 2 ^ k) by (destruct Hs; lia).
  rewrite wrap64_iff, in_int64_iff. split; [|lia].
  unfold wrap64. pose proof (Z.mod_pos_bound (i * 2 ^ k + 2 ^ 63) (2 ^ 64) ltac:(lia)). lia.
Qed.

Lemma Bytes_value_witness :
  Bytes_UnmarshalYAML (Some (bs "8388607T")) = Some (8388607 * 2 ^ 40) ∧
  Bytes_UnmarshalYAML (Some (bs "8388608T")) ≠ Some (8388608 * 2 ^ 40).
Proof.
  destruct (Bytes_value 8388607 (bs "T") 40) as (v & E & _ & Hv); [lia|constructor|].
  destruct (Bytes_value 8388608 (bs "T") 40) as (w & F & _ & Hw); [lia|constructor|].
  split.
  - assert (Itoa 8388607 ++ bs "T" = bs "8388607T") as H by (vm_compute; reflexivity).
    rewrite <- H, E. f_equal. apply Hv. lia.
  - assert (Itoa 8388608 ++ bs "T" = bs "8388608T") as H by (vm_compute; reflexivity).
    rewrite <- H, F. intros [= Hx]. apply Hw in Hx. lia.
Defined.
