(* ===== verification/Defaults.v ===== *)
(** * Options of connections and relays.

    ConnOptions (conn.go) and RelayOptions (relay.go), the defaults the
    Manager keeps, and how NewConn and Relay fill in what a call leaves out.
    Durations are nanoseconds. *)

From S2P Require Import Prelude.

Definition millisecond : Z := 1000000.
Definition second : Z := 1000 * millisecond.

Record ConnOptions := MkConnOptions {
  Timeout : Z; Interval : Z; Parallel : Z; MaxAttempts : Z }.

Record RelayOptions := MkRelayOptions {
  ConnIdle : Z; UplinkIdle : Z; DownlinkIdle : Z }.

#[export] Instance ConnOptions_eq_dec : EqDecision ConnOptions.
Proof. solve_decision. Defined.
#[export] Instance RelayOptions_eq_dec : EqDecision RelayOptions.
Proof. solve_decision. Defined.

Definition zero_conn : ConnOptions := MkConnOptions 0 0 0 0.
Definition zero_relay : RelayOptions := MkRelayOptions 0 0 0.

(** The atomics of connService and relayService hold what was last set. *)
Definition SetConnOptions (m : ConnOptions) (opts : ConnOptions) : ConnOptions :=
  MkConnOptions (Timeout opts) (Interval opts) (Parallel opts) (MaxAttempts opts).

Definition SetRelayOptions (m : RelayOptions) (opts : RelayOptions) : RelayOptions :=
  MkRelayOptions (ConnIdle opts) (UplinkIdle opts) (DownlinkIdle opts).

Definition defaultConnTimeout : Z := 10 * second.
Definition defaultConnInterval : Z := 2 * second.
Definition defaultConnParallel : Z := 1.
Definition defaultConnMaxAttempts : Z := 30.
Definition defaultRelayConnIdle : Z := 300 * second.
Definition defaultRelayUplinkIdle : Z := 0.
Definition defaultRelayDownlinkIdle : Z := 0.

(** [if x <= 0 { x = m; if x <= 0 { x = dflt } }] *)
Definition fill_in (x m dflt : Z) : Z :=
  if x <=? 0 then (if m <=? 0 then dflt else m) else x.

(** The first lines of [NewConn]. *)
Definition conn_options (m opts : ConnOptions) : ConnOptions :=
  MkConnOptions
    (fill_in (Timeout opts) (Timeout m) defaultConnTimeout)
    (fill_in (Interval opts) (Interval m) defaultConnInterval)
    (fill_in (Parallel opts) (Parallel m) defaultConnParallel)
    (fill_in (MaxAttempts opts) (MaxAttempts m) defaultConnMaxAttempts).

(** The first lines of [Relay]. *)
Definition relay_options (m opts : RelayOptions) : RelayOptions :=
  MkRelayOptions
    (fill_in (ConnIdle opts) (ConnIdle m) defaultRelayConnIdle)
    (fill_in (UplinkIdle opts) (UplinkIdle m) defaultRelayUplinkIdle)
    (fill_in (DownlinkIdle opts) (DownlinkIdle m) defaultRelayDownlinkIdle).

Lemma fill_in_pos x m dflt : 0 < dflt → 0 < fill_in x m dflt.
Proof. unfold fill_in. intros. repeat case_match; lia. Qed.

Lemma fill_in_nonneg x m dflt : 0 <= dflt → 0 <= fill_in x m dflt.
Proof. unfold fill_in. intros. repeat case_match; lia. Qed.

(** NewConn makes at least one attempt, and waits. *)
Lemma conn_options_pos m opts :
  0 < Timeout (conn_options m opts) ∧ 0 < Interval (conn_options m opts) ∧
  0 < Parallel (conn_options m opts) ∧ 0 < MaxAttempts (conn_options m opts).
Proof. split_and!; by apply fill_in_pos. Qed.

Lemma relay_options_nonneg m opts :
  0 < ConnIdle (relay_options m opts) ∧ 0 <= UplinkIdle (relay_options m opts) ∧
  0 <= DownlinkIdle (relay_options m opts).
Proof. split_and!; [by apply fill_in_pos|by apply fill_in_nonneg..]. Qed.
