(* ===== verification/Jobs.v ===== *)
(** * Jobs.

    Every service of the repository runs the same loop: a goroutine that
    holds the options ([optsIn], [optsOut]), a listener that is opened by
    LoadedEvent and released by a LoadEvent with another address, and
    deferred calls when Run returns.  [Service] is what differs,
    [ServiceLaws] what a service promises, and the theorems about the loop
    are proved from the laws alone. *)

From S2P Require Import Prelude GoStrings.

(** ** The goroutine between optsIn and optsOut

    A send on [optsIn], the observation that it was closed, and a receive
    from [optsOut] with what it got. *)

Section cell.
Context {O : Type} (zero : O).

Inductive cell_label := Send (o : O) | CloseIn | Recv (o : O) (ok : bool).

(** [Some opts]: in the loop; [None]: [optsOut] is closed. *)
Definition cell := option O.

Definition cell_read (c : cell) : O * bool :=
  match c with Some opts => (opts, true) | None => (zero, false) end.

Inductive cell_step : cell → cell_label → cell → Prop :=
  | cell_send opts o : cell_step (Some opts) (Send o) (Some o)
  | cell_close opts : cell_step (Some opts) CloseIn None
  | cell_out opts : cell_step (Some opts) (Recv opts true) (Some opts)
  | cell_out_closed : cell_step None (Recv zero false) None.

Inductive cell_trace : cell → list cell_label → cell → Prop :=
  | trace_nil c : cell_trace c [] c
  | trace_cons c l c' ls c'' : cell_step c l c' → cell_trace c' ls c'' → cell_trace c (l :: ls) c''.

(** The last value sent. *)
Fixpoint last_sent (o : O) (ls : list cell_label) : O :=
  match ls with
  | [] => o
  | Send o' :: ls => last_sent o' ls
  | _ :: ls => last_sent o ls
  end.

Lemma cell_trace_state c ls c' :
  cell_trace c ls c' →
  match c with
  | Some o => c' = Some (last_sent o ls) ∧ CloseIn ∉ ls ∨ c' = None ∧ CloseIn ∈ ls
  | None => c' = None ∧ CloseIn ∉ ls
  end.
Proof.
  induction 1 as [c|c l c' ls c'' Hs Ht IH].
  - destruct c; [left|]; (split; [done|apply not_elem_of_nil]).
  - destruct Hs; simpl in *; set_solver.
Qed.

Theorem cell_recv ls c pre o ok post :
  cell_trace (Some zero) ls c → ls = pre ++ Recv o ok :: post →
  if ok then o = last_sent zero pre ∧ CloseIn ∉ pre else o = zero ∧ CloseIn ∈ pre.
Proof.
  intros Ht ->.
  assert (∀ c ls1 ls2 c'', cell_trace c (ls1 ++ ls2) c'' →
    ∃ c', cell_trace c ls1 c' ∧ cell_trace c' ls2 c'') as Hsplit.
  { clear. intros c ls1. revert c. induction ls1 as [|l ls1 IH]; intros c ls2 c'' H; simpl in H.
    - exists c. split; [constructor|done].
    - inversion H as [|? ? c1 ? ? Hs Ht]; subst. destruct (IH _ _ _ Ht) as (c2 & H1 & H2).
      exists c2. split; [by econstructor|done]. }
  destruct (Hsplit _ _ _ _ Ht) as (c' & H1 & H2). pose proof (cell_trace_state _ _ _ H1) as Hc.
  inversion H2 as [|? ? ? ? ? Hs _]; subst. inversion Hs; subst; naive_solver.
Qed.
End cell.

Lemma cell_recv_witness :
  let ls := [Recv 0 true; Send 7; Recv 7 true; CloseIn; Recv 0 false] in
  (7 = last_sent 0 [Recv 0 true; Send 7] ∧ CloseIn ∉ [Recv 0 true; Send 7]) ∧
  0 = 0 ∧ CloseIn ∈ [Recv 0 true; Send 7; Recv 7 true; CloseIn].
Proof.
  assert (cell_trace 0 (Some 0) [Recv 0 true; Send 7; Recv 7 true; CloseIn; Recv 0 false] None) as H
    by (repeat econstructor).
  split.
  - exact (cell_recv 0 _ _ [Recv 0 true; Send 7] 7 true [CloseIn; Recv 0 false] H eq_refl).
  - exact (cell_recv 0 _ _ [Recv 0 true; Send 7; Recv 7 true; CloseIn] 0 false [] H eq_refl).
Defined.

(** ** The job monad *)

Inductive action := Listening (addr : gostring) | Closed (addr : gostring).

(** [opts] is what [optsOut] gives, [server] the address of the open
    listener, [extra] the other local variables of Run. *)
Record job (O X : Type) := MkJob {
  opts : O; server : option gostring; extra : X; log : list action }.
Arguments MkJob {O X}.
Arguments opts {O X}.
Arguments server {O X}.
Arguments extra {O X}.
Arguments log {O X}.

(** What comes of a piece of a handler: a value; or Run returns; or it never
    comes back. *)
Inductive halt := Return | Hang.
Inductive res (A : Type) := Val (a : A) | Halt (h : halt).
Arguments Val {A}.
Arguments Halt {A}.

Definition J (O X A : Type) : Type := job O X → res A * job O X.

#[export] Instance J_ret O X : MRet (J O X) := λ A a s, (Val a, s).
#[export] Instance J_bind O X : MBind (J O X) := λ A B f m s,
  match m s with
  | (Val a, s') => f a s'
  | (Halt h, s') => (Halt h, s')
  end.

Section ops.
Context {O X : Type}.

Definition optsOut : J O X O := λ s, (Val (opts s), s).
Definition optsIn (o : O) : J O X unit := λ s, (Val tt, MkJob o (server s) (extra s) (log s)).
Definition exit {A} : J O X A := λ s, (Halt Return, s).
Definition hang {A} : J O X A := λ s, (Halt Hang, s).
Definition get_extra : J O X X := λ s, (Val (extra s), s).
Definition put_extra (x : X) : J O X unit := λ s, (Val tt, MkJob (opts s) (server s) x (log s)).

(** [if _, _, err := net.SplitHostPort(addr); err != nil { return }] *)
Definition check_addr (addr : gostring) : J O X unit :=
  match SplitHostPort addr with None => exit | Some _ => mret tt end.

Definition stopServer : J O X unit := λ s,
  match server s with
  | None => (Val tt, s)
  | Some addr => (Val tt, MkJob (opts s) None (extra s) (log s ++ [Closed addr]))
  end.

(** [net_Listen]: whether the address can be listened at. *)
Definition startServer (ListenAddr : O → gostring) (net_Listen : gostring → bool) : J O X unit := λ s,
  match server s with
  | Some _ => (Val tt, s)
  | None =>
      let addr := ListenAddr (opts s) in
      if net_Listen addr
      then (Val tt, MkJob (opts s) (Some addr) (extra s) (log s ++ [Listening addr]))
      else (Halt Return, s)
  end.
End ops.

(** ** Services *)

Class Service (O X : Type) := {
  zero_opts : O;                                   (* var opts Options *)
  init_extra : X;
  ListenAddr : O → gostring;
  watch_down : bool;                               (* case <-serverDown *)
  on_load : (gostring → bool) → O → J O X unit;    (* case chrome.LoadEvent *)
  on_loaded : (gostring → bool) → J O X unit;      (* case chrome.LoadedEvent *)
  on_exit : J O X unit }.                          (* defers, before stopServer *)

(** The listener is kept, or closed with a line in the log. *)
Definition released {O X} (s s' : job O X) : Prop :=
  server s' = server s ∧ log s' = log s ∨
  ∃ a, server s = Some a ∧ server s' = None ∧ log s' = log s ++ [Closed a].

(** The listener is kept, or opened at the address of the options. *)
Definition acquired {O X} `{Service O X} (s s' : job O X) : Prop :=
  server s' = server s ∧ log s' = log s ∨
  server s = None ∧ server s' = Some (ListenAddr (opts s')) ∧
  log s' = log s ++ [Listening (ListenAddr (opts s'))].

(** What a service promises of its handlers. *)
Class ServiceLaws O X `{Service O X} := {
  on_load_released listen o s r s' : on_load listen o s = (r, s') → released s s';
  on_load_addr listen o s s' : on_load listen o s = (Val tt, s') →
    ListenAddr (opts s') = ListenAddr o ∧ is_Some (SplitHostPort (ListenAddr o)) ∧
    (ListenAddr o ≠ ListenAddr (opts s) → server s' = None);
  on_load_invalid listen o s : SplitHostPort (ListenAddr o) = None → (on_load listen o s).1 = Halt Return;
  on_loaded_acquired listen s r s' : on_loaded listen s = (r, s') →
    acquired s s' ∧ ListenAddr (opts s') = ListenAddr (opts s);
  on_loaded_server listen s s' : on_loaded listen s = (Val tt, s') → is_Some (server s');
  on_exit_released s r s' : on_exit s = (r, s') → released s s' }.

(** A LoadEvent with the same address leaves the listener alone. *)
Class KeepsServer O X `{Service O X} :=
  on_load_keeps listen o s s' : on_load listen o s = (Val tt, s') →
    ListenAddr o = ListenAddr (opts s) → server s' = server s ∧ log s' = log s.

(** ** The loop *)

Section run.
Context {O X : Type} `{Service O X}.

Inductive event := LoadEvent (o : O) | LoadedEvent | NilEvent.

(** What the select of the loop gets: the context is done, the server went
    down, or an event, with the addresses that can be listened at then. *)
Inductive input := CtxDone | ServerDown | Ev (listen : gostring → bool) (e : event).

Definition handle (listen : gostring → bool) (e : event) : J O X unit :=
  match e with
  | LoadEvent o => on_load listen o
  | LoadedEvent => on_loaded listen
  | NilEvent => mret tt
  end.

Definition deferred (s : job O X) : job O X := (stopServer (on_exit s).2).2.

Inductive status := Running | Returned | Hung.

Fixpoint run (s : job O X) (ins : list input) : status * job O X :=
  match ins with
  | [] => (Running, s)
  | CtxDone :: _ => (Returned, deferred s)
  | ServerDown :: ins =>
      if watch_down && bool_decide (is_Some (server s)) then (Returned, deferred s) else run s ins
  | Ev listen e :: ins =>
      match handle listen e s with
      | (Val _, s') => run s' ins
      | (Halt Return, s') => (Returned, deferred s')
      | (Halt Hang, s') => (Hung, s')
      end
  end.

Definition start : job O X := MkJob zero_opts None init_extra [].

Definition Run (ins : list input) : status * job O X := run start ins.

(** The listener that a log leaves open; [None] when the log opens a second
    one, or closes one that is not open. *)
Fixpoint replay (open : option gostring) (l : list action) : option (option gostring) :=
  match l with
  | [] => Some open
  | Listening a :: l => match open with None => replay (Some a) l | Some _ => None end
  | Closed a :: l =>
      match open with
      | Some b => if bool_decide (a = b) then replay None l else None
      | None => None
      end
  end.

Lemma replay_app o l1 l2 o1 : replay o l1 = Some o1 → replay o (l1 ++ l2) = replay o1 l2.
Proof.
  revert o. induction l1 as [|a l1 IH]; intros o; simpl; [by intros [= ->]|].
  destruct a, o; try done; [apply IH|]. case_bool_decide; [apply IH|done].
Qed.

(** The invariant of the loop. *)
Record job_ok (s : job O X) : Prop := {
  ok_log : replay None (log s) = Some (server s);
  ok_addr : ∀ a, server s = Some a → a = ListenAddr (opts s) }.

Lemma released_log (s s' : job O X) : replay None (log s) = Some (server s) → released s s' →
  replay None (log s') = Some (server s').
Proof.
  intros Hr [[-> ->]|(a & Ea & -> & ->)]; [done|]. rewrite (replay_app _ _ _ _ Hr), Ea. simpl.
  by rewrite bool_decide_true.
Qed.

Lemma stopServer_released (s : job O X) : released s (stopServer s).2.
Proof. unfold stopServer, released. destruct (server s) eqn:E; simpl; eauto 10. Qed.

Lemma stopServer_none (s : job O X) : server (stopServer s).2 = None.
Proof. unfold stopServer. by destruct (server s) eqn:E. Qed.

Lemma start_ok : job_ok start.
Proof. by split. Qed.

Context `{!ServiceLaws O X}.
#[local] Set Default Proof Using "Type*".

Lemma handle_ok listen e s r s' :
  job_ok s → handle listen e s = (r, s') →
  replay None (log s') = Some (server s') ∧ (r = Val tt → job_ok s').
Proof.
  intros [Hl Ha] E. destruct e as [o| |]; simpl in E.
  - pose proof (on_load_released _ _ _ _ _ E) as Hr. pose proof (released_log _ _ Hl Hr) as Hl'.
    split; [done|]. intros ->. destruct (on_load_addr _ _ _ _ E) as (Eo & _ & Hn). split; [done|].
    intros a Es. rewrite Eo. destruct (decide (ListenAddr o = ListenAddr (opts s))) as [->|Hne].
    + destruct Hr as [[Ek _]|(b & _ & Ek & _)]; [|congruence]. apply Ha. congruence.
    + rewrite Hn in Es by done. done.
  - destruct (on_loaded_acquired _ _ _ _ E) as [Hac Eo].
    assert (replay None (log s') = Some (server s')) as Hl'.
    { destruct Hac as [[-> ->]|(En & -> & ->)]; [done|]. by rewrite (replay_app _ _ _ _ Hl), En. }
    split; [done|]. intros _. split; [done|]. intros a Es.
    destruct Hac as [[Ek _]|(_ & Ek & _)]; [rewrite Eo; apply Ha|]; congruence.
  - injection E as <- <-. done.
Qed.

Lemma deferred_ok (s : job O X) : replay None (log s) = Some (server s) →
  replay None (log (deferred s)) = Some None ∧ server (deferred s) = None.
Proof.
  intros Hl. unfold deferred. destruct (on_exit s) as [r s1] eqn:E. simpl.
  pose proof (released_log _ _ Hl (on_exit_released _ _ _ E)) as Hl1.
  pose proof (released_log _ _ Hl1 (stopServer_released s1)) as Hl2.
  rewrite stopServer_none in Hl2. split; [done|apply stopServer_none].
Qed.

Lemma run_ok s ins st s' :
  job_ok s → run s ins = (st, s') →
  match st with
  | Running => job_ok s'
  | Returned => replay None (log s') = Some None ∧ server s' = None
  | Hung => replay None (log s') = Some (server s')
  end.
Proof.
  revert s. induction ins as [|i ins IH]; intros s Hs; simpl; [by intros [= <- <-]|].
  destruct i as [| |listen e].
  - intros [= <- <-]. apply deferred_ok, Hs.
  - destruct (watch_down && _); [|by apply IH]. intros [= <- <-]. apply deferred_ok, Hs.
  - destruct (handle listen e s) as [r s1] eqn:E. pose proof (handle_ok _ _ _ _ _ Hs E) as [Hl Hok].
    destruct r as [[]|[]]; [by apply IH, Hok|..]; intros [= <- <-]; [by apply deferred_ok|done].
Qed.

(** What the handlers preserve holds while Run is running. *)
Lemma run_inv (P : job O X → Prop) s ins s' :
  (∀ listen e s1 s2, P s1 → handle listen e s1 = (Val tt, s2) → P s2) →
  P s → run s ins = (Running, s') → P s'.
Proof using Type.
  intros Hstep. revert s. induction ins as [|i ins IH]; intros s Hs; simpl; [by intros [= <-]|].
  destruct i as [| |listen e]; [done|destruct (watch_down && _); [done|by apply IH]|].
  destruct (handle listen e s) as [[[]|[]] s1] eqn:E; [|done..]. apply IH. by eapply Hstep.
Qed.

(** ** The contract of a job *)

(** C11: for every service that meets the laws and whatever events, failures
    and cancellations come, a job opens one listener at a time, closes only
    what is open, listens only at the address of its options while it runs,
    and leaves nothing open when Run returns. *)
Theorem listener_discipline ins :
  let '(st, s) := Run ins in
  match st with
  | Running => replay None (log s) = Some (server s) ∧
               ∀ a, server s = Some a → a = ListenAddr (opts s)
  | Returned => replay None (log s) = Some None
  | Hung => replay None (log s) = Some (server s)
  end.
Proof.
  destruct (Run ins) as [st s] eqn:E. pose proof (run_ok _ _ _ _ start_ok E) as Hs.
  destruct st; [split; apply Hs|apply Hs|exact Hs].
Qed.

Lemma run_app s ins1 ins2 s1 :
  run s ins1 = (Running, s1) → run s (ins1 ++ ins2) = run s1 ins2.
Proof.
  revert s. induction ins1 as [|i ins1 IH]; intros s; simpl; [by intros [= ->]|].
  destruct i; [done|destruct (watch_down && _); [done|apply IH]|].
  destruct (handle listen e s) as [[|[]]]; [apply IH|done..].
Qed.

Lemma run_stopped s ins1 ins2 st s1 :
  run s ins1 = (st, s1) → st ≠ Running → run s (ins1 ++ ins2) = (st, s1).
Proof.
  revert s. induction ins1 as [|i ins1 IH]; intros s; simpl; [by intros [= <- <-] []|].
  destruct i; [done|destruct (watch_down && _); [done|apply IH]|].
  destruct (handle listen e s) as [[|[]]]; [apply IH|done..].
Qed.

Theorem load_then_loaded ins o listen1 listen2 s :
  Run (ins ++ [Ev listen1 (LoadEvent o); Ev listen2 LoadedEvent]) = (Running, s) →
  is_Some (SplitHostPort (ListenAddr o)) ∧ server s = Some (ListenAddr o).
Proof.
  intros HR. destruct (Run ins) as [[] s0] eqn:E0.
  2,3: unfold Run in *; by rewrite (run_stopped _ _ _ _ _ E0) in HR.
  pose proof (run_ok _ _ _ _ start_ok E0) as H0.
  unfold Run in *. rewrite (run_app _ _ _ _ E0) in HR. cbn [run handle] in HR.
  destruct (on_load listen1 o s0) as [[[]|[]] s1] eqn:E1; [|done..].
  destruct (on_loaded listen2 s1) as [[[]|[]] s2] eqn:E2; [|done..]. injection HR as <-.
  destruct (on_load_addr _ _ _ _ E1) as (Ea & Hv & _). split; [done|].
  destruct (handle_ok listen1 (LoadEvent o) _ _ _ H0 E1) as [_ H1].
  destruct (handle_ok listen2 LoadedEvent _ _ _ (H1 eq_refl) E2) as [_ H2].
  destruct (on_loaded_server _ _ _ E2) as [a Es]. rewrite Es. f_equal.
  rewrite (ok_addr _ (H2 eq_refl) _ Es). destruct (on_loaded_acquired _ _ _ _ E2) as [_ ->]. done.
Qed.

Theorem reload_releases s o listen st s' :
  run s [Ev listen (LoadEvent o)] = (st, s') → st ≠ Hung →
  ListenAddr o ≠ ListenAddr (opts s) → server s' = None.
Proof.
  simpl. destruct (on_load listen o s) as [[[]|[]] s1] eqn:E; [| |by intros [= <- <-] ].
  - intros [= <- <-] _ Hne. by apply (on_load_addr _ _ _ _ E).
  - intros [= <- <-] _ _. unfold deferred. apply stopServer_none.
Qed.

Theorem invalid_addr_returns s o listen ins :
  SplitHostPort (ListenAddr o) = None →
  ∃ s', run s (Ev listen (LoadEvent o) :: ins) = (Returned, s') ∧ server s' = None.
Proof.
  intros Hv. pose proof (on_load_invalid listen o s Hv) as Hr. simpl.
  destruct (on_load listen o s) as [r s1]. simpl in Hr. subst r. eexists. split; [done|].
  apply stopServer_none.
Qed.
End run.
Arguments event : clear implicits.
Arguments input : clear implicits.

(** ** Proving the laws of a service

    A computation is quiet when it leaves the options, the listener and the
    log alone; it may return from Run and change the other variables. *)

Section quiet.
Context {O X : Type}.

Definition quiet {A} (m : J O X A) : Prop :=
  ∀ s r s', m s = (r, s') → opts s' = opts s ∧ server s' = server s ∧ log s' = log s.

Lemma quiet_ret {A} (a : A) : quiet (mret a).
Proof. by intros s r s' [= <- <-]. Qed.

Lemma quiet_exit {A} : quiet (exit (A := A)).
Proof. by intros s r s' [= <- <-]. Qed.

Lemma quiet_hang {A} : quiet (hang (A := A)).
Proof. by intros s r s' [= <- <-]. Qed.

Lemma quiet_get : quiet get_extra.
Proof. by intros s r s' [= <- <-]. Qed.

Lemma quiet_put x : quiet (put_extra x).
Proof. by intros s r s' [= <- <-]. Qed.

Lemma quiet_out : quiet optsOut.
Proof. by intros s r s' [= <- <-]. Qed.

Lemma quiet_check addr : quiet (check_addr addr).
Proof. unfold check_addr. case_match; [apply quiet_ret|apply quiet_exit]. Qed.

Lemma quiet_bind {A B} (m : J O X A) (f : A → J O X B) :
  quiet m → (∀ a, quiet (f a)) → quiet (m ≫= f).
Proof.
  intros Hm Hf s r s' E. unfold mbind, J_bind in E. destruct (m s) as [[a|h] s1] eqn:E1.
  - destruct (Hm _ _ _ E1) as (H1 & H2 & H3). destruct (Hf _ _ _ _ E) as (H4 & H5 & H6).
    split_and!; congruence.
  - injection E as <- <-. by eapply Hm.
Qed.

(** The shape of every LoadEvent handler: the address is checked, the
    listener released when the address changes, then the rest of the new
    options computed and sent. *)
Definition load_body {A} (addr : O → gostring) (new : O) (before : O → J O X A)
    (after : O → A → J O X O) : J O X unit :=
  old ← optsOut;
  _ ← check_addr (addr new);
  x ← before old;
  _ ← (if bool_decide (addr new = addr old) then mret tt else stopServer);
  new' ← after old x;
  optsIn new'.

Definition halt_of {A} (r : res A) : halt := match r with Halt h => h | Val _ => Return end.

Lemma bind_inv {A B} (m : J O X A) (f : A → J O X B) s r s' :
  (m ≫= f) s = (r, s') →
  (∃ a s1, m s = (Val a, s1) ∧ f a s1 = (r, s')) ∨
  r = Halt (halt_of (m s).1) ∧ m s = (Halt (halt_of (m s).1), s').
Proof.
  unfold mbind, J_bind. destruct (m s) as [[a|h] s1]; [eauto|]. intros [= <- <-]. by right.
Qed.

Lemma bind_val {A B} (m : J O X A) (f : A → J O X B) a s s' r :
  m s = (Val a, s') → (f a s').1 = r → ((m ≫= f) s).1 = r.
Proof. unfold mbind, J_bind. by intros -> <-. Qed.

Lemma bind_halt {A B} (m : J O X A) (f : A → J O X B) h s :
  (m s).1 = Halt h → ((m ≫= f) s).1 = Halt h.
Proof. unfold mbind, J_bind. destruct (m s) as [[a|h'] s']; [done|]. by intros [= ->]. Qed.

Context {A : Type} (addr : O → gostring) (new : O).
Context (before : O → J O X A) (after : O → A → J O X O).
Context (before_quiet : ∀ old, quiet (before old)).
Context (after_quiet : ∀ old x, quiet (after old x)).
Context (after_addr : ∀ old x s new' s', after old x s = (Val new', s') → addr new' = addr new).
#[local] Set Default Proof Using "Type*".

Lemma load_body_spec s r s' :
  load_body addr new before after s = (r, s') →
  released s s' ∧
  match r with
  | Val _ => addr (opts s') = addr new ∧ is_Some (SplitHostPort (addr new)) ∧
     (addr new ≠ addr (opts s) → server s' = None) ∧
     (addr new = addr (opts s) → server s' = server s ∧ log s' = log s)
  | Halt _ => True
  end.
Proof.
  unfold load_body. intros E. apply bind_inv in E as [(old & s0 & E0 & E)|[_ [=]]].
  injection E0 as <- <-.
  apply bind_inv in E as [([] & s1 & E1 & E)|[-> E1]].
  2: { destruct (quiet_check _ _ _ _ E1) as (? & ? & ?). split; [by left|done]. }
  destruct (quiet_check _ _ _ _ E1) as (O1 & S1 & L1).
  assert (is_Some (SplitHostPort (addr new))) as Hv.
  { unfold check_addr in E1. by destruct (SplitHostPort (addr new)). }
  apply bind_inv in E as [(x & s2 & E2 & E)|[-> E2]]; destruct (before_quiet _ _ _ _ E2) as (O2 & S2 & L2).
  2: { split; [left; split; congruence|done]. }
  apply bind_inv in E as [([] & s3 & E3 & E)|[-> E3]].
  2: { exfalso. revert E3. case_bool_decide; [done|]. unfold stopServer. by case_match. }
  assert (released s s3 ∧ (addr new ≠ addr (opts s) → server s3 = None) ∧
    (addr new = addr (opts s) → server s3 = server s ∧ log s3 = log s)) as (R3 & N3 & K3).
  { revert E3. case_bool_decide as Ha.
    - intros [= <-]. split_and!; [left; split; congruence|done|split; congruence].
    - intros E3. pose proof (stopServer_released s2) as R. pose proof (stopServer_none s2) as N.
      rewrite E3 in R, N. simpl in R, N. unfold released in *. rewrite S2, S1, L2, L1 in R. done. }
  apply bind_inv in E as [(n & s4 & E4 & E)|[-> E4]]; destruct (after_quiet _ _ _ _ _ E4) as (O4 & S4 & L4).
  - injection E as <- <-. cbn [opts server log].
    unfold released in *. rewrite S4, L4 in *. split; [done|].
    by rewrite (after_addr _ _ _ _ _ E4).
  - unfold released in *. rewrite S4, L4. done.
Qed.

Lemma load_body_invalid s :
  SplitHostPort (addr new) = None → (load_body addr new before after s).1 = Halt Return.
Proof using Type. intros Hv. unfold load_body, check_addr. by rewrite Hv. Qed.
End quiet.

Create HintDb jobs.
#[export] Hint Resolve quiet_ret quiet_exit quiet_hang quiet_get quiet_put quiet_out quiet_check quiet_bind : jobs.
#[export] Hint Extern 1 (quiet (match ?x with _ => _ end)) => destruct x : jobs.

(** Laws from [load_body] for services that open their listener with
    [startServer]. *)
Section laws.
Context {O X : Type} `{Service O X}.
Context {A : O → Type} (before : ∀ new, O → J O X (A new)) (after : ∀ new, O → A new → J O X O).
Context (load_shape : ∀ listen new s,
  on_load listen new s = load_body ListenAddr new (before new) (after new) s).
Context (loaded_shape : ∀ listen s, on_loaded listen s = startServer ListenAddr listen s).
Context (exit_shape : ∀ s r s', on_exit s = (r, s') → released s s').
Context (before_quiet : ∀ new old, quiet (before new old)).
Context (after_quiet : ∀ new old x, quiet (after new old x)).
Context (after_addr : ∀ new old x s new' s',
  after new old x s = (Val new', s') → ListenAddr new' = ListenAddr new).
#[local] Set Default Proof Using "Type*".

Lemma service_laws : ServiceLaws O X.
Proof.
  split.
  - intros listen o s r s'. rewrite load_shape. intros E.
    eapply load_body_spec in E as [E _]; eauto.
  - intros listen o s s'. rewrite load_shape. intros E.
    eapply load_body_spec in E as [_ E]; eauto. destruct E as (? & ? & ? & _); done.
  - intros listen o s Hv. rewrite load_shape. apply load_body_invalid; eauto.
  - intros listen s r s'. rewrite loaded_shape. unfold startServer, acquired.
    destruct (server s) eqn:Es; [intros [= <- <-]; auto|].
    destruct (listen _); intros [= <- <-]; simpl; auto 10.
  - intros listen s s'. rewrite loaded_shape. unfold startServer.
    destruct (server s) eqn:Es; [intros [= <-]; rewrite Es; eauto|].
    destruct (listen _); [intros [= <-]; simpl; eauto|done].
  - apply exit_shape.
Qed.

Lemma service_keeps : KeepsServer O X.
Proof.
  intros listen o s s'. rewrite load_shape. intros E.
  eapply load_body_spec in E as [_ E]; eauto. destruct E as (_ & _ & _ & ?); done.
Qed.
End laws.

(** Obligations that remain for handlers that do little more. *)
Lemma released_ret {O X A} (a : A) (s : job O X) r s' : (mret a : J O X A) s = (r, s') → released s s'.
Proof. intros [= <- <-]. by left. Qed.
#[export] Hint Resolve released_ret : jobs.

Ltac job_obligations :=
  intros; cbn [on_load on_loaded on_exit ListenAddr] in *; first
    [ reflexivity
    | solve [eauto 12 with jobs]
    | match goal with H : on_exit _ = (_, _) |- _ => exact (released_ret tt _ _ _ H) end
    | match goal with H : mret _ _ = (Val _, _) |- _ => injection H; intros; subst; reflexivity end
    | idtac ].
