(* ===== verification/Tcptun.v ===== *)
(** * The tcptun service (service/tcptun/tcptun.go). *)

From S2P Require Import Prelude GoStrings Url Proxy Dial Defaults Jobs.

Section tcptun.
Context {C : Type}.

Record Options := MkOptions {
  o_ListenAddr : gostring;
  o_ForwardAddr : gostring;
  o_Proxy : Proxy.Proxy C;
  o_Conn : ConnOptions;
  o_Relay : RelayOptions }.

Definition zero : Options := MkOptions [] [] (MkProxy None []) zero_conn zero_relay.

(** [getRemote]: where to dial, and through what. *)
Definition getRemote (c : cell) : dial_error + (Dialer C * gostring) :=
  let '(opts, _) := cell_read zero c in
  if bool_decide (o_ForwardAddr opts = []) then inl CloseConn
  else inr (proxy_Dialer (o_Proxy opts), o_ForwardAddr opts).

Definition LoadEvent_ (new : Options) : J Options unit unit :=
  old ← optsOut;
  _ ← check_addr (o_ListenAddr new);
  _ ← (if bool_decide (o_ListenAddr new = o_ListenAddr old) then mret tt else stopServer);
  optsIn new.

#[export] Instance tcptun : Service Options unit := {
  zero_opts := zero;
  init_extra := tt;
  ListenAddr := o_ListenAddr;
  watch_down := false;
  on_load _ := LoadEvent_;
  on_loaded := startServer o_ListenAddr;
  on_exit := mret tt }.

#[export] Instance tcptun_laws : ServiceLaws Options unit.
Proof.
  refine (service_laws (λ new _, mret tt) (λ new _ _, mret new) _ _ _ _ _ _); job_obligations.
Qed.

#[export] Instance tcptun_keeps : KeepsServer Options unit.
Proof.
  refine (service_keeps (λ new _, mret tt) (λ new _ _, mret new) _ _ _ _ _ _); job_obligations.
Qed.

Definition Run := Jobs.Run (O := Options) (X := unit).
End tcptun.
