(* ===== verification/Shadowsocks.v ===== *)
(** * The shadowsocks service (service/socks/shadowsocks/shadowsocks.go).

    [PickCipher] is the cipher picker of go-shadowsocks2. *)

From S2P Require Import Prelude GoStrings Url Proxy Dial Defaults Jobs.

Section shadowsocks.
Context {C : Type} (PickCipher : gostring → gostring → option C).

Record Options := MkOptions {
  o_ListenAddr : gostring;
  o_Method : gostring;
  o_Password : gostring;
  o_Proxy : Proxy.Proxy C;
  o_Conn : ConnOptions;
  o_Relay : RelayOptions;
  o_cipher : option C }.

Definition zero : Options := MkOptions [] [] [] (MkProxy None []) zero_conn zero_relay None.

Definition with_cipher (o : Options) (cipher : option C) : Options :=
  MkOptions (o_ListenAddr o) (o_Method o) (o_Password o) (o_Proxy o) (o_Conn o) (o_Relay o) cipher.

(** The handler of a connection, with the options as they are when the
    connection is accepted and once its target ([addr]) has been read;
    [None]: the connection is dropped. *)
Definition serve (accepted read : cell) (addr : C → option gostring) : option (gostring * Options) :=
  let '(opts, _) := cell_read zero accepted in
  match o_cipher opts with
  | None => None
  | Some cipher =>
      match addr cipher with
      | None => None
      | Some remoteAddr =>
          let '(opts, ok) := cell_read zero read in
          if ok then Some (remoteAddr, opts) else None
      end
  end.

Definition getRemote (c : cell) (remoteAddr : gostring) : dial_error + (Dialer C * gostring) :=
  let '(opts, ok) := cell_read zero c in
  if negb ok then inl CloseConn else inr (proxy_Dialer (o_Proxy opts), remoteAddr).

Definition LoadEvent_ (new : Options) : J Options unit unit :=
  old ← optsOut;
  let new := with_cipher new (o_cipher old) in
  _ ← check_addr (o_ListenAddr new);
  _ ← (if bool_decide (o_ListenAddr new = o_ListenAddr old) then mret tt else stopServer);
  new ← (if negb (bool_decide (o_Method new = o_Method old)) ||
            negb (bool_decide (o_Password new = o_Password old)) then
           match PickCipher (o_Method new) (o_Password new) with
           | None => exit
           | Some cipher => mret (with_cipher new (Some cipher))
           end
         else mret new);
  optsIn new.

#[export] Instance shadowsocks : Service Options unit := {
  zero_opts := zero;
  init_extra := tt;
  ListenAddr := o_ListenAddr;
  watch_down := false;
  on_load _ := LoadEvent_;
  on_loaded := startServer o_ListenAddr;
  on_exit := mret tt }.

Definition Run := Jobs.Run (O := Options) (X := unit).

Definition pick (new old : Options) : J Options unit Options :=
  let new := with_cipher new (o_cipher old) in
  if negb (bool_decide (o_Method new = o_Method old)) ||
     negb (bool_decide (o_Password new = o_Password old)) then
    match PickCipher (o_Method new) (o_Password new) with
    | None => exit
    | Some cipher => mret (with_cipher new (Some cipher))
    end
  else mret new.

Lemma pick_addr new old s n s' : pick new old s = (Val n, s') → o_ListenAddr n = o_ListenAddr new.
Proof.
  unfold pick. destruct (_ || _); [destruct (PickCipher _ _); [|done]|]; by intros [= <- _].
Qed.

Lemma pick_quiet new old : quiet (pick new old).
Proof. unfold pick. destruct (_ || _); eauto with jobs. Qed.
#[local] Hint Resolve pick_addr pick_quiet : jobs.

#[export] Instance shadowsocks_laws : ServiceLaws Options unit.
Proof.
  refine (service_laws (λ new _, mret tt) (λ new old _, pick new old) _ _ _ _ _ _);
    job_obligations.
Qed.

#[export] Instance shadowsocks_keeps : KeepsServer Options unit.
Proof.
  refine (service_keeps (λ new _, mret tt) (λ new old _, pick new old) _ _ _ _ _ _);
    job_obligations.
Qed.

(** The cipher belongs to the method and password of the options; it is
    missing only as long as both are empty. *)
Definition cipher_ok (o : Options) : Prop :=
  match o_cipher o with
  | Some cipher => PickCipher (o_Method o) (o_Password o) = Some cipher
  | None => o_Method o = [] ∧ o_Password o = []
  end.

Lemma handle_cipher listen e s s' :
  cipher_ok (opts s) → handle listen e s = (Val tt, s') → cipher_ok (opts s').
Proof.
  intros Hs. destruct e as [new| |]; simpl.
  - unfold LoadEvent_. intros E. apply bind_inv in E as [(old & s0 & E0 & E)|[[=] _]].
    injection E0 as <- <-. apply bind_inv in E as [([] & s1 & E1 & E)|[[=] _]].
    apply bind_inv in E as [([] & s2 & E2 & E)|[[=] _]].
    apply bind_inv in E as [(n & s3 & E3 & E)|[[=] _]]. injection E as <-. cbn [opts].
    revert E3. destruct (negb _ || negb _) eqn:Ec.
    + destruct (PickCipher _ _) eqn:Ep; [|done]. intros [= <- _]. done.
    + intros [= <- _]. apply orb_false_iff in Ec as [E4 E5].
      rewrite negb_false_iff, bool_decide_eq_true in E4, E5. unfold cipher_ok, with_cipher in *. simpl in *.
      by rewrite E4, E5.
  - unfold startServer. destruct (server s); [by intros [= <-]|]. destruct (listen _); [|done].
    by intros [= <-].
  - by intros [= <-].
Qed.

Theorem cipher_matches ins s :
  Run ins = (Running, s) →
  match o_cipher (opts s) with
  | Some cipher => PickCipher (o_Method (opts s)) (o_Password (opts s)) = Some cipher
  | None => o_Method (opts s) = [] ∧ o_Password (opts s) = []
  end.
Proof.
  intros E. apply (run_inv (λ s, cipher_ok (opts s)) start ins s); [|by split|done].
  intros listen e s1 s2. apply handle_cipher.
Qed.
End shadowsocks.

Definition ex_opts (method : gostring) : Options (C := gostring * gostring) :=
  MkOptions (bs ":1") method (bs "pw") (MkProxy None []) zero_conn zero_relay None.

Lemma cipher_matches_witness :
  let s := (Run any_cipher [Ev (λ _, true) (LoadEvent (ex_opts (bs "aes")));
    Ev (λ _, true) (LoadEvent (ex_opts (bs "chacha")))]).2 in
  o_cipher (opts s) = Some (bs "chacha", bs "pw") ∧
  any_cipher (o_Method (opts s)) (o_Password (opts s)) = o_cipher (opts s).
Proof.
  split; [vm_compute; reflexivity|].
  exact (cipher_matches any_cipher [Ev (λ _, true) (LoadEvent (ex_opts (bs "aes")));
    Ev (λ _, true) (LoadEvent (ex_opts (bs "chacha")))] _ ltac:(vm_compute; reflexivity)).
Defined.
