(* ===== verification/Random.v ===== *)
(** * The random balancer (service/socks/balancer/random/random.go).

    [rand n] is what [rand.IntN n] returns. *)

From S2P Require Import Prelude GoStrings Url Proxy Dial Defaults Jobs.

Section random.
Context {C : Type}.

Record Options := MkOptions {
  o_ListenAddr : gostring;
  o_Candidates : list (Proxy.Proxy C);
  o_Conn : ConnOptions;
  o_Relay : RelayOptions }.

Definition zero : Options := MkOptions [] [] zero_conn zero_relay.

(** The outer [None] is an index out of range. *)
Definition getRemote (c : cell) (rand : nat → nat) (remoteAddr : gostring)
    : option (dial_error + (Dialer C * gostring)) :=
  let '(opts, _) := cell_read zero c in
  let n := length (o_Candidates opts) in
  if bool_decide (n = 0%nat) then Some (inl CloseConn)
  else
    p ← o_Candidates opts !! rand n;
    Some (inr (proxy_Dialer p, remoteAddr)).

Definition LoadEvent_ (new : Options) : J Options unit unit :=
  old ← optsOut;
  _ ← check_addr (o_ListenAddr new);
  _ ← (if bool_decide (o_ListenAddr new = o_ListenAddr old) then mret tt else stopServer);
  optsIn new.

#[export] Instance random : Service Options unit := {
  zero_opts := zero;
  init_extra := tt;
  ListenAddr := o_ListenAddr;
  watch_down := false;
  on_load _ := LoadEvent_;
  on_loaded := startServer o_ListenAddr;
  on_exit := mret tt }.

Definition Run := Jobs.Run (O := Options) (X := unit).

#[export] Instance random_laws : ServiceLaws Options unit.
Proof.
  refine (service_laws (λ new _, mret tt) (λ new _ _, mret new) _ _ _ _ _ _); job_obligations.
Qed.

#[export] Instance random_keeps : KeepsServer Options unit.
Proof.
  refine (service_keeps (λ new _, mret tt) (λ new _ _, mret new) _ _ _ _ _ _); job_obligations.
Qed.

Theorem random_in_range c rand remoteAddr :
  (∀ n, (0 < n)%nat → (rand n < n)%nat) →
  match getRemote c rand remoteAddr with
  | Some (inr (d, a)) =>
      a = remoteAddr ∧ ∃ o p, c = Some o ∧ p ∈ o_Candidates o ∧ d = proxy_Dialer p
  | Some (inl e) => e = CloseConn ∧ ∀ o, c = Some o → o_Candidates o = []
  | None => False
  end.
Proof.
  intros Hr. unfold getRemote. destruct c as [o|]; simpl; [|split; [done|by intros]].
  case_bool_decide as Hn; [apply length_zero_iff_nil in Hn; split; [done|by intros ? [= <-]]|].
  destruct (lookup_lt_is_Some_2 (o_Candidates o) (rand (length (o_Candidates o)))) as [p Ep].
  { apply Hr. lia. }
  rewrite Ep. simpl. split; [done|]. exists o, p. by eauto using list_elem_of_lookup_2.
Qed.
End random.

Lemma random_in_range_witness :
  ∃ d a, getRemote (C := unit) (Some (MkOptions [] [MkProxy None []; MkProxy (Some Direct) []]
    zero_conn zero_relay)) (λ n, n - 1)%nat (bs "x:1") = Some (inr (d, a)) ∧ a = bs "x:1".
Proof.
  pose proof (random_in_range (C := unit) (Some (MkOptions [] [MkProxy None []; MkProxy (Some Direct) []]
    zero_conn zero_relay)) (λ n, n - 1)%nat (bs "x:1") ltac:(simpl; lia)) as H.
  eexists _, _. split; [vm_compute; reflexivity|]. apply H.
Defined.
