(* ===== verification/Pprof.v ===== *)
(** * The pprof service (service/http/pprof/pprof.go).

    An HTTP server: Run also returns when it goes down. *)

From S2P Require Import Prelude GoStrings Jobs.

Record Options := MkOptions { o_ListenAddr : gostring }.

Definition zero : Options := MkOptions [].

Definition LoadEvent_ (new : Options) : J Options unit unit :=
  old ← optsOut;
  _ ← check_addr (o_ListenAddr new);
  _ ← (if bool_decide (o_ListenAddr new = o_ListenAddr old) then mret tt else stopServer);
  optsIn new.

#[export] Instance pprof : Service Options unit := {
  zero_opts := zero;
  init_extra := tt;
  ListenAddr := o_ListenAddr;
  watch_down := true;
  on_load _ := LoadEvent_;
  on_loaded := startServer o_ListenAddr;
  on_exit := mret tt }.

Definition Run := Jobs.Run (O := Options) (X := unit).

#[export] Instance pprof_laws : ServiceLaws Options unit.
Proof.
  refine (service_laws (λ new _, mret tt) (λ new _ _, mret new) _ _ _ _ _ _); job_obligations.
Qed.

#[export] Instance pprof_keeps : KeepsServer Options unit.
Proof.
  refine (service_keeps (λ new _, mret tt) (λ new _ _, mret new) _ _ _ _ _ _); job_obligations.
Qed.
