(* ===== verification/Httpfs.v ===== *)
(** * The httpfs service (service/http/httpfs/httpfs.go).

    A handler made by [http.FileServer] is the directory it serves. *)

From S2P Require Import Prelude GoStrings Jobs.

Record Options := MkOptions {
  o_ListenAddr : gostring;
  o_Dir : gostring;
  o_handler : option gostring }.

Definition zero : Options := MkOptions [] [] None.

Definition with_handler (o : Options) (h : option gostring) : Options :=
  MkOptions (o_ListenAddr o) (o_Dir o) h.

(** What a request is answered from: a directory, or not found. *)
Definition handler (c : cell) : option gostring := o_handler (cell_read zero c).1.

Definition LoadEvent_ (new : Options) : J Options unit unit :=
  old ← optsOut;
  let new := with_handler new (o_handler old) in
  _ ← check_addr (o_ListenAddr new);
  _ ← (if bool_decide (o_ListenAddr new = o_ListenAddr old) then mret tt else stopServer);
  let new := if bool_decide (o_Dir new = o_Dir old) then new
             else with_handler new (Some (o_Dir new)) in
  optsIn new.

#[export] Instance httpfs : Service Options unit := {
  zero_opts := zero;
  init_extra := tt;
  ListenAddr := o_ListenAddr;
  watch_down := true;
  on_load _ := LoadEvent_;
  on_loaded := startServer o_ListenAddr;
  on_exit := mret tt }.

Definition Run := Jobs.Run (O := Options) (X := unit).

Definition new_handler (new old : Options) : Options :=
  let new := with_handler new (o_handler old) in
  if bool_decide (o_Dir new = o_Dir old) then new else with_handler new (Some (o_Dir new)).

Lemma new_handler_addr new old s n s' :
  (mret (new_handler new old) : J Options unit Options) s = (Val n, s') →
  o_ListenAddr n = o_ListenAddr new.
Proof. intros [= <- _]. unfold new_handler. simpl. by case_bool_decide. Qed.
#[local] Hint Resolve new_handler_addr : jobs.

#[export] Instance httpfs_laws : ServiceLaws Options unit.
Proof.
  refine (service_laws (λ new _, mret tt) (λ new old _, mret (new_handler new old)) _ _ _ _ _ _);
    job_obligations.
Qed.

#[export] Instance httpfs_keeps : KeepsServer Options unit.
Proof.
  refine (service_keeps (λ new _, mret tt) (λ new old _, mret (new_handler new old)) _ _ _ _ _ _);
    job_obligations.
Qed.

Definition load (dir : gostring) : input Options :=
  Ev (λ _, true) (LoadEvent (MkOptions (bs ":1") dir None)).

(** What an empty Dir means depends on the Dir before it: not found at
    first, the working directory ([http.Dir ""]) after another directory. *)
Theorem httpfs_history :
  ∃ s1 s2,
    Run [load []] = (Running, s1) ∧ Run [load (bs "/srv"); load []] = (Running, s2) ∧
    opts s1 = MkOptions (bs ":1") [] None ∧ opts s2 = MkOptions (bs ":1") [] (Some []) ∧
    handler (Some (opts s1)) = None ∧ handler (Some (opts s2)) = Some [].
Proof.
  eexists _, _. split; [vm_compute; reflexivity|]. split; [vm_compute; reflexivity|].
  split_and!; reflexivity.
Qed.

(** A handler, once there, serves the Dir of the options. *)
Theorem httpfs_dir ins s :
  Run ins = (Running, s) →
  handler (Some (opts s)) = Some (o_Dir (opts s)) ∨
  handler (Some (opts s)) = None ∧ o_Dir (opts s) = [].
Proof.
  intros E. apply (run_inv (λ s, handler (Some (opts s)) = Some (o_Dir (opts s)) ∨
    handler (Some (opts s)) = None ∧ o_Dir (opts s) = []) start ins s); [|by right|done].
  clear. intros listen e s s' Hs. destruct e as [new| |]; simpl.
  - intros E. unfold LoadEvent_ in E. apply bind_inv in E as [(old & s0 & E0 & E)|[[=] _]].
    injection E0 as <- <-. apply bind_inv in E as [([] & s1 & E1 & E)|[[=] _]].
    apply bind_inv in E as [([] & s2 & E2 & E)|[[=] _]]. injection E as <-. cbn [opts].
    clear E1 E2. case_bool_decide as Hd; simpl in *; [|by left]. by rewrite Hd.
  - unfold startServer. destruct (server s); [by intros [= <-]|]. destruct (listen _); [|done].
    by intros [= <-].
  - by intros [= <-].
Qed.

Lemma httpfs_dir_witness :
  handler (Some (opts (Run [load (bs "/srv")]).2)) = Some (bs "/srv").
Proof.
  destruct (httpfs_dir [load (bs "/srv")] _ ltac:(vm_compute; reflexivity)) as [H|[H _]].
  - exact H.
  - vm_compute in H. discriminate H.
Defined.
