(* ===== verification/Roundrobin.v ===== *)
(** * The roundrobin balancer (service/socks/balancer/roundrobin/roundrobin.go).

    The atomics that [index] points to live in a heap, a list of counters;
    an index is a position in it.  A compare-and-swap loop is the exchange
    that succeeds. *)

From S2P Require Import Prelude GoStrings Url Proxy Dial Defaults Jobs.

Section roundrobin.
Context {C : Type}.

Record Options := MkOptions {
  o_ListenAddr : gostring;
  o_Candidates : list (Proxy.Proxy C);
  o_Conn : ConnOptions;
  o_Relay : RelayOptions;
  o_index : option nat }.

Definition zero : Options := MkOptions [] [] zero_conn zero_relay None.

Definition with_index (o : Options) (index : option nat) : Options :=
  MkOptions (o_ListenAddr o) (o_Candidates o) (o_Conn o) (o_Relay o) index.

Abbreviation heap := (list Z) (only parsing).

Definition u32 (z : Z) : Z := z mod 2 ^ 32.

(** The variables a connection keeps between attempts. *)
Record local := MkLocal { l_index : option nat; l_indexLoaded : Z }.

Definition fresh : local := MkLocal None 0.

(** The candidate to try: the counter of a new index, which moves on, or
    the candidate after the last one. *)
Definition advance (opts : Options) (n : Z) (h : heap) (l : local) : option (heap * local) :=
  if bool_decide (l_index l = None) || negb (bool_decide (l_index l = o_index opts)) then
    p ← o_index opts;
    i ← h !! p;
    Some (<[p := u32 (i + 1) mod n]> h, MkLocal (Some p) i)
  else Some (h, MkLocal (l_index l) (u32 (l_indexLoaded l + 1) mod n)).

(** One attempt, on the options it has read; [None]: a nil dereference, a
    division by zero or an index out of range. *)
Definition getRemote (opts : Options) (remoteAddr : gostring) (h : heap) (l : local)
    : option ((dial_error + (Dialer C * gostring)) * heap * local) :=
  let n := u32 (Z.of_nat (length (o_Candidates opts))) in
  if bool_decide (length (o_Candidates opts) = 0%nat) then Some (inl CloseConn, h, l)
  else if n =? 0 then None
  else
    '(h, l) ← advance opts n h l;
    c ← o_Candidates opts !! Z.to_nat (l_indexLoaded l);
    Some (inr (proxy_Dialer c, remoteAddr), h, l).

Section service.
Context (rand : nat → nat).

Definition LoadEvent_ (new : Options) : J Options heap unit :=
  old ← optsOut;
  _ ← check_addr (o_ListenAddr new);
  new ← (let n := length (o_Candidates new) in
         if bool_decide (n = 0%nat) then mret new
         else if candidates_equal (o_Candidates new) (o_Candidates old)
         then mret (with_index new (o_index old))
         else
           h ← get_extra;
           _ ← put_extra (h ++ [u32 (Z.of_nat (rand n))]);
           mret (with_index new (Some (length h))));
  _ ← (if bool_decide (o_ListenAddr new = o_ListenAddr old) then mret tt else stopServer);
  optsIn new.

#[export] Instance roundrobin : Service Options heap := {
  zero_opts := zero;
  init_extra := [];
  ListenAddr := o_ListenAddr;
  watch_down := false;
  on_load _ := LoadEvent_;
  on_loaded := startServer o_ListenAddr;
  on_exit := mret tt }.

Definition Run := Jobs.Run (O := Options) (X := heap).

Definition new_index (new old : Options) : J Options heap (option nat) :=
  let n := length (o_Candidates new) in
  if bool_decide (n = 0%nat) then mret (o_index new)
  else if candidates_equal (o_Candidates new) (o_Candidates old) then mret (o_index old)
  else
    h ← get_extra;
    _ ← put_extra (h ++ [u32 (Z.of_nat (rand n))]);
    mret (Some (length h)).

Lemma rr_LoadEvent_shape new s :
  LoadEvent_ new s =
  load_body o_ListenAddr new (new_index new) (λ _ i, mret (with_index new i)) s.
Proof.
  unfold LoadEvent_, load_body, new_index, optsOut, check_addr, mbind, J_bind, mret, J_ret, get_extra,
    put_extra, exit.
  destruct (SplitHostPort _); [|done].
  destruct (bool_decide (length (o_Candidates new) = 0%nat)); [by destruct new|].
  by destruct (candidates_equal _ _).
Qed.

Lemma new_index_quiet new old : quiet (new_index new old).
Proof.
  unfold new_index. cbv zeta. destruct (bool_decide _); [eauto with jobs|].
  destruct (candidates_equal _ _); eauto 10 with jobs.
Qed.
#[local] Hint Resolve new_index_quiet : jobs.

#[export] Instance roundrobin_laws : ServiceLaws Options heap.
Proof.
  refine (service_laws new_index (λ new _ i, mret (with_index new i)) _ _ _ _ _ _);
    try (intros; apply rr_LoadEvent_shape); job_obligations.
Qed.

#[export] Instance roundrobin_keeps : KeepsServer Options heap.
Proof.
  refine (service_keeps new_index (λ new _ i, mret (with_index new i)) _ _ _ _ _ _);
    try (intros; apply rr_LoadEvent_shape); job_obligations.
Qed.
End service.

(** ** The job and its connections *)

(** A connection: its variables, and the options it has read for the attempt
    it is about to make. *)
Record sys := MkSys {
  s_job : job Options heap;
  s_conns : list (local * option Options) }.

Definition set_heap (s : job Options heap) (h : heap) : job Options heap :=
  MkJob (opts s) (server s) h (log s).

(** Events that a running job handles (a new random number for each), new
    connections, and the two steps of an attempt. *)
Inductive sys_step : sys → sys → Prop :=
  | sys_event rand listen e s s' cs :
      (∀ n, (0 < n)%nat → (rand n < n)%nat) →
      (∀ o, e = LoadEvent o → o_index o = None ∧ Z.of_nat (length (o_Candidates o)) < 2 ^ 32) →
      @handle _ _ (roundrobin rand) listen e s = (Val tt, s') →
      sys_step (MkSys s cs) (MkSys s' cs)
  | sys_accept s cs : sys_step (MkSys s cs) (MkSys s (cs ++ [(fresh, None)]))
  | sys_read s cs k l : cs !! k = Some (l, None) →
      sys_step (MkSys s cs) (MkSys s (<[k := (l, Some (opts s))]> cs))
  | sys_pick s cs k l o a r h l' : cs !! k = Some (l, Some o) →
      getRemote o a (extra s) l = Some (r, h, l') →
      sys_step (MkSys s cs) (MkSys (set_heap s h) (<[k := (l', None)]> cs)).

Definition sys_start : sys := MkSys (MkJob zero None [] []) [].

Definition sys_reach : sys → Prop := rtc sys_step sys_start.

(** The counters and their numbers of candidates [sizes]. *)
Definition opts_ok (sizes : list nat) (o : Options) : Prop :=
  o_Candidates o = [] ∨
  ∃ p, o_index o = Some p ∧ sizes !! p = Some (length (o_Candidates o)) ∧
       0 < Z.of_nat (length (o_Candidates o)) < 2 ^ 32.

Definition local_ok (sizes : list nat) (l : local) : Prop :=
  ∀ p, l_index l = Some p → ∃ n, sizes !! p = Some n ∧ 0 <= l_indexLoaded l < Z.of_nat n.

Record sys_ok (sizes : list nat) (s : sys) : Prop := {
  so_heap : Forall2 (λ v n, 0 <= v < Z.of_nat n) (extra (s_job s)) sizes;
  so_opts : opts_ok sizes (opts (s_job s));
  so_conns : Forall (λ c, local_ok sizes c.1 ∧ ∀ o, c.2 = Some o → opts_ok sizes o) (s_conns s) }.

Lemma rr_opts_ok_app sizes n o : opts_ok sizes o → opts_ok (sizes ++ [n]) o.
Proof.
  intros [?|(p & ? & ? & ?)]; [by left|right]. exists p.
  split; [done|]. split; [by apply lookup_app_l_Some|done].
Qed.

Lemma local_ok_app sizes n l : local_ok sizes l → local_ok (sizes ++ [n]) l.
Proof. intros H p (m & ? & ?)%H. exists m. split; [|done]. by apply lookup_app_l_Some. Qed.

Lemma u32_id z : 0 <= z < 2 ^ 32 → u32 z = z.
Proof. apply Z.mod_small. Qed.

Lemma u32_next v n : 0 <= v < n → n < 2 ^ 32 → 0 <= u32 (v + 1) mod n < n ∧ u32 (v + 1) mod n = (v + 1) mod n.
Proof.
  intros Hv Hn. split; [apply Z.mod_pos_bound; lia|]. unfold u32. rewrite (Z.mod_small (v + 1)) by lia.
  done.
Qed.

(** The attempt of a connection picks a candidate and keeps the bounds. *)
Lemma rr_getRemote_ok sizes o a h l :
  Forall2 (λ v n, 0 <= v < Z.of_nat n) h sizes → opts_ok sizes o → local_ok sizes l →
  ∃ r h' l', getRemote o a h l = Some (r, h', l') ∧
    Forall2 (λ v n, 0 <= v < Z.of_nat n) h' sizes ∧ local_ok sizes l' ∧
    (o_Candidates o ≠ [] → ∃ c, r = inr (proxy_Dialer c, a) ∧ c ∈ o_Candidates o).
Proof.
  intros Hh Ho Hl. unfold getRemote.
  destruct Ho as [Ec|(p & Ep & Es & Hn)].
  { rewrite Ec. simpl. by eexists _, _, _. }
  rewrite bool_decide_false by lia. rewrite (u32_id (Z.of_nat _)) by lia. cbv zeta. zif.
  assert (∃ h' l', advance o (Z.of_nat (length (o_Candidates o))) h l = Some (h', l') ∧
    Forall2 (λ v n, 0 <= v < Z.of_nat n) h' sizes ∧ l_index l' = Some p ∧
    0 <= l_indexLoaded l' < Z.of_nat (length (o_Candidates o))) as (h' & l' & -> & Hh' & El & Hl').
  { unfold advance. destruct (bool_decide (l_index l = None) || _) eqn:Eb.
    - destruct (Forall2_lookup_r _ _ _ _ _ Hh Es) as (v & Ev & Hv). rewrite Ep. simpl. rewrite Ev. simpl.
      eexists _, _. split; [done|]. split_and!; [|done|simpl; lia..].
      rewrite <- (list_insert_id sizes p _ Es). apply Forall2_insert; [done|].
      apply u32_next; lia.
    - apply orb_false_iff in Eb as [_ Eb]. rewrite negb_false_iff, bool_decide_eq_true in Eb.
      rewrite Ep in Eb. destruct (Hl p Eb) as (n & En & Hn'). simplify_eq.
      eexists _, _. split; [done|]. cbn [l_index l_indexLoaded]. split; [done|]. split; [congruence|].
      apply u32_next; lia. }
  simpl. destruct (lookup_lt_is_Some_2 (o_Candidates o) (Z.to_nat (l_indexLoaded l'))) as [c Ec]; [lia|].
  rewrite Ec. simpl. eexists _, _, _. split; [done|]. split_and!; [done| |].
  - intros q Eq. rewrite El in Eq. injection Eq as <-. eauto.
  - intros _. exists c. split; [done|]. by eapply list_elem_of_lookup_2.
Qed.

Lemma rr_event_ok rand listen e s s' sizes :
  (∀ n, (0 < n)%nat → (rand n < n)%nat) →
  (∀ o, e = LoadEvent o → o_index o = None ∧ Z.of_nat (length (o_Candidates o)) < 2 ^ 32) →
  @handle _ _ (roundrobin rand) listen e s = (Val tt, s') →
  Forall2 (λ v n, 0 <= v < Z.of_nat n) (extra s) sizes → opts_ok sizes (opts s) →
  ∃ ns, Forall2 (λ v n, 0 <= v < Z.of_nat n) (extra s') (sizes ++ ns) ∧
    opts_ok (sizes ++ ns) (opts s') ∧ (length ns ≤ 1)%nat.
Proof.
  intros Hr He E Hh Ho. destruct e as [new| |]; simpl in E.
  - destruct (He new eq_refl) as [Ei Hn]. clear He. rewrite rr_LoadEvent_shape in E. unfold load_body in E.
    apply bind_inv in E as [(old & s0 & E0 & E)|[[=] _]]. injection E0 as <- <-.
    apply bind_inv in E as [([] & s1 & E1 & E)|[[=] _]].
    apply bind_inv in E as [(i & s2 & E2 & E)|[[=] _]].
    apply bind_inv in E as [([] & s3 & E3 & E)|[[=] _]]. cbn in E. injection E as <-. cbn [opts extra].
    assert (extra s1 = extra s) as X1.
    { revert E1. unfold check_addr. destruct (SplitHostPort _); [by intros [= <-]|done]. }
    assert (extra s3 = extra s2) as ->.
    { revert E3. case_match; [by intros [= <-]|]. unfold stopServer. case_match; by intros [= <-]. }
    clear E3. revert E2. unfold new_index. case_bool_decide as E0.
    { intros [= <- <-]. rewrite X1. exists []. rewrite app_nil_r. split_and!; [done| |simpl; lia].
      left. by apply length_zero_iff_nil. }
    destruct (candidates_equal _ _) eqn:Ec.
    + intros [= <- <-]. rewrite X1. exists []. rewrite app_nil_r. split_and!; [done| |simpl; lia].
      right. apply candidates_equal_length in Ec. destruct Ho as [Ho|(p & ? & ? & ?)].
      { rewrite Ho in Ec. simpl in Ec. lia. }
      exists p. cbn [with_index o_index o_Candidates]. rewrite Ec. done.
    + intros [= <- <-]. cbn [extra]. rewrite X1. exists [length (o_Candidates new)].
      pose proof (Hr (length (o_Candidates new)) ltac:(lia)).
      split_and!; [|right|simpl; lia].
      * apply Forall2_app; [done|]. repeat constructor; unfold u32; rewrite Z.mod_small; lia.
      * exists (length (extra s)). cbn [with_index o_index o_Candidates]. split_and!; [done| |lia..].
        rewrite (Forall2_length _ _ _ Hh). by rewrite lookup_app_r, Nat.sub_diag by lia.
  - exists []. rewrite app_nil_r. revert E. unfold startServer. destruct (server s); [intros [= <-]|].
    + split_and!; [done..|simpl; lia].
    + destruct (listen _); [intros [= <-]|done]. split_and!; [done..|simpl; lia].
  - injection E as <-. exists []. rewrite app_nil_r. split_and!; [done..|simpl; lia].
Qed.

Lemma rr_sys_step_ok sizes s s' : sys_ok sizes s → sys_step s s' → ∃ sizes', sys_ok sizes' s'.
Proof.
  intros [Hh Ho Hc] Hs. destruct Hs as [rand listen e s s' cs Hr He E|s cs|s cs k l Ek|s cs k l o a r h l' Ek E];
    simpl in *.
  - destruct (rr_event_ok _ _ _ _ _ _ Hr He E Hh Ho) as (ns & Hh' & Ho' & Hns). exists (sizes ++ ns).
    split; simpl; [done..|]. eapply Forall_impl; [exact Hc|]. intros [l p] [H1 H2].
    destruct ns as [|n [|]]; simpl in Hns; [by rewrite app_nil_r| |lia].
    split; [by apply local_ok_app|]. intros o Eo. by apply rr_opts_ok_app, H2.
  - exists sizes. split; simpl; [done..|]. apply Forall_app. split; [done|]. by repeat constructor.
  - exists sizes. split; simpl; [done..|]. apply Forall_insert; [done|].
    rewrite Forall_lookup in Hc. destruct (Hc _ _ Ek) as [H1 _]. split; [done|]. by intros o [= <-].
  - exists sizes. rewrite Forall_lookup in Hc. destruct (Hc _ _ Ek) as [H1 H2].
    destruct (rr_getRemote_ok sizes o a (extra s) l Hh (H2 _ eq_refl) H1) as (r1 & h1 & l1 & E1 & ? & ? & _).
    simplify_eq. split; simpl; [done..|]. apply Forall_insert; [by apply Forall_lookup|]. done.
Qed.

Lemma rr_sys_reach_ok s : sys_reach s → ∃ sizes, sys_ok sizes s.
Proof.
  intros Hr. assert (∃ sizes, sys_ok sizes sys_start) as H0.
  { exists []. split; simpl; [constructor|by left|constructor]. }
  induction Hr as [|s1 s2 s3 Hs _ IH]; [done|]. apply IH. destruct H0 as [sz H0].
  by eapply rr_sys_step_ok.
Qed.

Theorem roundrobin_in_range s k l o remoteAddr :
  sys_reach s → s_conns s !! k = Some (l, Some o) →
  ∃ r h' l', getRemote o remoteAddr (extra (s_job s)) l = Some (r, h', l') ∧
    (o_Candidates o ≠ [] → ∃ c, r = inr (proxy_Dialer c, remoteAddr) ∧ c ∈ o_Candidates o).
Proof.
  intros Hr Ek. destruct (rr_sys_reach_ok s Hr) as (sizes & [Hh _ Hc]).
  rewrite Forall_lookup in Hc. destruct (Hc _ _ Ek) as [H1 H2].
  destruct (rr_getRemote_ok sizes o remoteAddr _ l Hh (H2 _ eq_refl) H1) as (r & h & l' & E & _ & _ & H).
  by eauto 10.
Qed.

(** ** Taking turns *)

(** The candidates that [m] new connections get, one after the other. *)
Fixpoint turns (m : nat) (o : Options) (a : gostring) (h : heap) : option (list (dial_error + (Dialer C * gostring))) :=
  match m with
  | O => Some []
  | S m =>
      '(r, h, _) ← getRemote o a h fresh;
      rs ← turns m o a h;
      Some (r :: rs)
  end.

(** And those of [m] attempts of one connection. *)
Fixpoint attempts (m : nat) (o : Options) (a : gostring) (h : heap) (l : local)
    : option (list (dial_error + (Dialer C * gostring))) :=
  match m with
  | O => Some []
  | S m =>
      '(r, h, l) ← getRemote o a h l;
      rs ← attempts m o a h l;
      Some (r :: rs)
  end.

Definition candidate (o : Options) (a : gostring) (i : Z) : dial_error + (Dialer C * gostring) :=
  inr (default Direct (proxy_Dialer <$> o_Candidates o !! Z.to_nat (i mod Z.of_nat (length (o_Candidates o)))), a).

Definition consecutive (o : Options) (a : gostring) (v : Z) (m : nat) : list (dial_error + (Dialer C * gostring)) :=
  (λ i, candidate o a (v + Z.of_nat i)) <$> seq 0 m.

Lemma consecutive_S o a v m :
  consecutive o a v (S m) = candidate o a v :: consecutive o a (v + 1) m.
Proof.
  unfold consecutive. simpl. rewrite Z.add_0_r. f_equal. rewrite <- fmap_S_seq, <- list_fmap_compose.
  apply list_fmap_ext. intros i x _. simpl. f_equal. lia.
Qed.

Lemma candidate_mod o a v n : n = Z.of_nat (length (o_Candidates o)) → candidate o a (v mod n) = candidate o a v.
Proof. intros ->. unfold candidate. by rewrite Zmod_mod. Qed.

Lemma consecutive_mod o a v m n :
  n = Z.of_nat (length (o_Candidates o)) → consecutive o a (v mod n) m = consecutive o a v m.
Proof.
  intros Hn. unfold consecutive. apply list_fmap_ext. intros i x _.
  rewrite <- (candidate_mod _ _ _ _ Hn), Zplus_mod_idemp_l. by apply candidate_mod.
Qed.

(** One pick: the candidate of the counter, or of the last attempt plus one. *)
Lemma pick_candidate o a h p v l :
  o_index o = Some p → h !! p = Some v → 0 <= v < Z.of_nat (length (o_Candidates o)) →
  Z.of_nat (length (o_Candidates o)) < 2 ^ 32 →
  let n := Z.of_nat (length (o_Candidates o)) in
  (l_index l = None → getRemote o a h l = Some (candidate o a v, <[p := (v + 1) mod n]> h, MkLocal (Some p) v)) ∧
  (l_index l = Some p → 0 <= l_indexLoaded l < n →
     getRemote o a h l = Some (candidate o a (l_indexLoaded l + 1), h,
                               MkLocal (Some p) ((l_indexLoaded l + 1) mod n))).
Proof.
  intros Ep Ev Hv Hb n.
  assert (∀ i, 0 <= i < n → ∃ c, o_Candidates o !! Z.to_nat i = Some c ∧
    inr (proxy_Dialer c, a) = candidate o a i) as Hc.
  { intros i Hi. destruct (lookup_lt_is_Some_2 (o_Candidates o) (Z.to_nat i)) as [c Ec]; [lia|].
    exists c. split; [done|]. unfold candidate. fold n. rewrite Z.mod_small by lia. by rewrite Ec. }
  unfold getRemote. rewrite bool_decide_false by lia. rewrite (u32_id (Z.of_nat _)) by lia.
  fold n. cbv zeta. zif. unfold advance. split.
  - intros El. rewrite El, Ep. simpl. rewrite Ev. simpl.
    destruct (Hc v) as (c & -> & <-); [lia|]. simpl.
    by destruct (u32_next v n) as [_ ->]; [lia..|].
  - intros El Hi. rewrite El, Ep.
    rewrite (bool_decide_false (Some p = None)), (bool_decide_true (Some p = Some p)) by done. simpl.
    destruct (u32_next (l_indexLoaded l) n) as [_ ->]; [lia..|].
    rewrite <- (candidate_mod o a (l_indexLoaded l + 1) n eq_refl).
    by destruct (Hc ((l_indexLoaded l + 1) mod n)) as (c & -> & <-); [apply Z.mod_pos_bound; lia|].
Qed.

Lemma attempts_consecutive o a h p v m i :
  o_index o = Some p → h !! p = Some v → 0 <= v < Z.of_nat (length (o_Candidates o)) →
  Z.of_nat (length (o_Candidates o)) < 2 ^ 32 →
  0 <= i < Z.of_nat (length (o_Candidates o)) →
  attempts m o a h (MkLocal (Some p) i) = Some (consecutive o a (i + 1) m).
Proof.
  intros Ep Ev Hv Hb. revert i. induction m as [|m IH]; intros i Hi; [done|]. simpl.
  destruct (pick_candidate o a h p v (MkLocal (Some p) i) Ep Ev Hv Hb) as [_ H].
  rewrite H by done. simpl. rewrite IH by (apply Z.mod_pos_bound; lia). simpl.
  rewrite consecutive_S. do 2 f_equal.
  rewrite <- (consecutive_mod _ _ (i + 1 + 1) _ _ eq_refl).
  rewrite <- (consecutive_mod _ _ ((i + 1) mod _ + 1) _ _ eq_refl). by rewrite Zplus_mod_idemp_l.
Qed.

Theorem takes_turns o a h p v m :
  o_index o = Some p → h !! p = Some v → 0 <= v < Z.of_nat (length (o_Candidates o)) →
  Z.of_nat (length (o_Candidates o)) < 2 ^ 32 →
  turns m o a h = Some (consecutive o a v m) ∧ attempts m o a h fresh = Some (consecutive o a v m).
Proof.
  intros Ep Ev Hv Hb. split.
  - revert h v Ev Hv. induction m as [|m IH]; intros h v Ev Hv; [done|]. simpl.
    destruct (pick_candidate o a h p v fresh Ep Ev Hv Hb) as [H _]. rewrite H by done. simpl.
    rewrite (IH _ ((v + 1) mod Z.of_nat (length (o_Candidates o)))).
    + simpl. rewrite consecutive_S. by rewrite consecutive_mod.
    + apply list_lookup_insert_eq. by eapply lookup_lt_Some.
    + apply Z.mod_pos_bound. lia.
  - destruct m as [|m]; [done|]. simpl.
    destruct (pick_candidate o a h p v fresh Ep Ev Hv Hb) as [H _]. rewrite H by done. simpl.
    erewrite attempts_consecutive; [|done|apply list_lookup_insert_eq; by eapply lookup_lt_Some|apply Z.mod_pos_bound; lia|done..].
    simpl. by rewrite consecutive_S.
Qed.
End roundrobin.

(** ** Witnesses *)

Definition ex_opts (index : option nat) : Options (C := unit) :=
  MkOptions (bs ":1") [MkProxy None [1]; MkProxy (Some Direct) [2]; MkProxy None [3]]
    zero_conn zero_relay index.

Definition ex_job : job (Options (C := unit)) (list Z) := MkJob (ex_opts (Some 0%nat)) None [2] [].

Lemma rr_ex_reach : sys_reach (MkSys ex_job [(fresh, Some (ex_opts (Some 0%nat)))]).
Proof.
  eapply rtc_l.
  { apply (sys_event (λ n, n - 1)%nat (λ _, true) (LoadEvent (ex_opts None)) _ ex_job []); [lia| |].
    - intros o [= <-]. done.
    - reflexivity. }
  eapply rtc_l; [apply sys_accept|].
  apply rtc_once. apply (sys_read ex_job [(fresh, None)] 0 fresh). done.
Qed.

Lemma roundrobin_in_range_witness :
  ∃ h' l', getRemote (ex_opts (Some 0%nat)) (bs "x:1") [2] fresh =
    Some (inr (Direct, bs "x:1"), h', l') ∧ h' = [0].
Proof.
  destruct (roundrobin_in_range _ 0 fresh _ (bs "x:1") rr_ex_reach eq_refl) as (r & h' & l' & E & H).
  destruct (H ltac:(done)) as (c & -> & _). exists h', l'. split; [|by injection E].
  etransitivity; [exact E|]. by injection E as <- _ _.
Defined.

Lemma takes_turns_witness :
  turns 4 (ex_opts (Some 0%nat)) (bs "x:1") [2] =
    Some (candidate (ex_opts None) (bs "x:1") <$> [2; 0; 1; 2]).
Proof.
  destruct (takes_turns (ex_opts (Some 0%nat)) (bs "x:1") [2] 0 2 4) as [H _];
    [reflexivity|reflexivity|simpl; lia|simpl; lia|].
  rewrite H. reflexivity.
Defined.
