(* ===== verification/FailoverRun.v ===== *)
(** * The failover balancer (service/socks/balancer/failover/failover.go).

    The service around the queue of Failover.v: queues live in a heap, and
    the options point to one of them. *)

From S2P Require Import Prelude GoStrings Url Proxy Dial Defaults Jobs Failover.

Section failover.
Context {C : Type}.

Record Options := MkOptions {
  o_ListenAddr : gostring;
  o_Candidates : list (Proxy.Proxy C);
  o_Conn : ConnOptions;
  o_Relay : RelayOptions;
  o_queue : option nat }.

Definition zero : Options := MkOptions [] [] zero_conn zero_relay None.

Definition with_queue (o : Options) (q : option nat) : Options :=
  MkOptions (o_ListenAddr o) (o_Candidates o) (o_Conn o) (o_Relay o) q.

Abbreviation heap := (list queue) (only parsing).

(** What an attempt comes to before it dials: nothing to dial, or the dialer
    with the queue and the element to report to. *)
Inductive attempt := Refused | Dialing (d : Dialer C) (q e : nat).

(** The start of [getRemote], on the options it has read; [None] is a nil
    dereference or an index out of range. *)
Definition getRemote (opts : Options) (rand : nat → nat) (h : heap) : option (attempt * heap) :=
  match o_queue opts with
  | None => Some (Refused, h)
  | Some qp =>
      q ← h !! qp;
      '(q', e, _) ← Failover.pick q rand;
      c ← o_Candidates opts !! e_Index (q_store q' !!! e);
      Some (Dialing (proxy_Dialer c) qp e, <[qp := q']> h)
  end.

(** [q.succ(e)] and [q.fail(e)] by pointer. *)
Definition report (qp e : nat) (success : bool) (h : heap) : heap :=
  alter (λ q, fix_ q e success) qp h.

Definition LoadEvent_ (new : Options) : J Options heap unit :=
  old ← optsOut;
  _ ← check_addr (o_ListenAddr new);
  new ← (let n := length (o_Candidates new) in
         if bool_decide (n = 0%nat) then mret new
         else if candidates_equal (o_Candidates new) (o_Candidates old)
         then mret (with_queue new (o_queue old))
         else
           h ← get_extra;
           _ ← put_extra (h ++ [newQueue n]);
           mret (with_queue new (Some (length h))));
  _ ← (if bool_decide (o_ListenAddr new = o_ListenAddr old) then mret tt else stopServer);
  optsIn new.

#[export] Instance failover : Service Options heap := {
  zero_opts := zero;
  init_extra := [];
  ListenAddr := o_ListenAddr;
  watch_down := false;
  on_load _ := LoadEvent_;
  on_loaded := startServer o_ListenAddr;
  on_exit := mret tt }.

Definition Run := Jobs.Run (O := Options) (X := heap).

Definition new_queue (new old : Options) : J Options heap (option nat) :=
  let n := length (o_Candidates new) in
  if bool_decide (n = 0%nat) then mret (o_queue new)
  else if candidates_equal (o_Candidates new) (o_Candidates old) then mret (o_queue old)
  else
    h ← get_extra;
    _ ← put_extra (h ++ [newQueue n]);
    mret (Some (length h)).

Lemma fo_LoadEvent_shape new s :
  LoadEvent_ new s = load_body o_ListenAddr new (new_queue new) (λ _ q, mret (with_queue new q)) s.
Proof.
  unfold LoadEvent_, load_body, new_queue, optsOut, check_addr, mbind, J_bind, mret, J_ret, get_extra,
    put_extra, exit.
  destruct (SplitHostPort _); [|done].
  destruct (bool_decide (length (o_Candidates new) = 0%nat)); [by destruct new|].
  by destruct (candidates_equal _ _).
Qed.

Lemma new_queue_quiet new old : quiet (new_queue new old).
Proof.
  unfold new_queue. cbv zeta. destruct (bool_decide _); [eauto with jobs|].
  destruct (candidates_equal _ _); eauto 10 with jobs.
Qed.
#[local] Hint Resolve new_queue_quiet : jobs.

#[export] Instance failover_laws : ServiceLaws Options heap.
Proof.
  refine (service_laws new_queue (λ new _ q, mret (with_queue new q)) _ _ _ _ _ _);
    try (intros; apply fo_LoadEvent_shape); job_obligations.
Qed.

#[export] Instance failover_keeps : KeepsServer Options heap.
Proof.
  refine (service_keeps new_queue (λ new _ q, mret (with_queue new q)) _ _ _ _ _ _);
    try (intros; apply fo_LoadEvent_shape); job_obligations.
Qed.

(** ** The job and its connections *)

(** A connection between two steps: idle, with the options it has read for
    an attempt, or with the element it may report to. *)
Inductive cstate := Idle | Read (o : Options) | Picked (q e : nat).

Record sys := MkSys { s_job : job Options heap; s_conns : list cstate }.

Definition set_heap (s : job Options heap) (h : heap) : job Options heap :=
  MkJob (opts s) (server s) h (log s).

Definition after_attempt (a : attempt) : cstate :=
  match a with Refused => Idle | Dialing _ q e => Picked q e end.

(** Events that a running job handles, and the steps of its connections; a
    connection reports and retries as it likes. *)
Inductive sys_step : sys → sys → Prop :=
  | sys_event listen e s s' cs :
      (∀ o, e = LoadEvent o → o_queue o = None) →
      handle listen e s = (Val tt, s') → sys_step (MkSys s cs) (MkSys s' cs)
  | sys_accept s cs : sys_step (MkSys s cs) (MkSys s (cs ++ [Idle]))
  | sys_read s cs k : (k < length cs)%nat →
      sys_step (MkSys s cs) (MkSys s (<[k := Read (opts s)]> cs))
  | sys_pick rand s cs k o a h :
      (∀ n, (0 < n)%nat → (rand n < n)%nat) →
      cs !! k = Some (Read o) → getRemote o rand (extra s) = Some (a, h) →
      sys_step (MkSys s cs) (MkSys (set_heap s h) (<[k := after_attempt a]> cs))
  | sys_report s cs k q e success :
      cs !! k = Some (Picked q e) →
      sys_step (MkSys s cs) (MkSys (set_heap s (report q e success (extra s))) cs).

Definition sys_start : sys := MkSys (MkJob zero None [] []) [].

Definition sys_reach : sys → Prop := rtc sys_step sys_start.

Definition sound (q : queue) (n : nat) : Prop := queue_ok q ∧ length (q_store q) = n.

Definition opts_ok (sizes : list nat) (o : Options) : Prop :=
  match o_queue o with
  | None => o_Candidates o = []
  | Some p => sizes !! p = Some (length (o_Candidates o))
  end.

Definition cstate_ok (sizes : list nat) (c : cstate) : Prop :=
  match c with
  | Idle => True
  | Read o => opts_ok sizes o
  | Picked q e => ∃ n, sizes !! q = Some n ∧ (e < n)%nat
  end.

Record sys_ok (sizes : list nat) (s : sys) : Prop := {
  so_heap : Forall2 sound (extra (s_job s)) sizes;
  so_opts : opts_ok sizes (opts (s_job s));
  so_conns : Forall (cstate_ok sizes) (s_conns s) }.

Lemma fo_opts_ok_app sizes ns o : opts_ok sizes o → opts_ok (sizes ++ ns) o.
Proof. unfold opts_ok. destruct (o_queue o); [apply lookup_app_l_Some|done]. Qed.

Lemma cstate_ok_app sizes ns c : cstate_ok sizes c → cstate_ok (sizes ++ ns) c.
Proof.
  destruct c; simpl; [done|apply fo_opts_ok_app|]. intros (n & ? & ?). exists n.
  split; [by apply lookup_app_l_Some|done].
Qed.

(** A pick is in range, and the heap stays sound. *)
Lemma fo_getRemote_ok sizes o rand h :
  Forall2 sound h sizes → opts_ok sizes o → (∀ n, (0 < n)%nat → (rand n < n)%nat) →
  ∃ a h', getRemote o rand h = Some (a, h') ∧ Forall2 sound h' sizes ∧
    cstate_ok sizes (after_attempt a) ∧
    match a with
    | Refused => o_Candidates o = []
    | Dialing d qp e => ∃ q c, h !! qp = Some q ∧ o_Candidates o !! e = Some c ∧ d = proxy_Dialer c ∧
        ∀ x, (x < length (o_Candidates o))%nat → score (q_store q) x <= score (q_store q) e
    end.
Proof.
  intros Hh Ho Hr. unfold getRemote, opts_ok in *. destruct (o_queue o) as [qp|].
  2: { by eexists _, _. }
  destruct (Forall2_lookup_r _ _ _ _ _ Hh Ho) as (q & Eq & Hq & Hlen). rewrite Eq. simpl.
  destruct (Failover.pick q rand) as [[[q' e] same]|] eqn:Ep.
  2: { exfalso. unfold Failover.pick in Ep. pose proof (qk_some q Hq). by destruct (q_elems q). }
  destruct (pick_spec q rand q' e same Hq Hr Ep) as (Eq' & _ & He & Hbest). simpl.
  assert (e_Index (q_store q' !!! e) = e) as ->.
  { rewrite Eq'. by apply (qk_index q Hq). }
  rewrite Hlen in He. destruct (lookup_lt_is_Some_2 _ _ He) as [c Ec]. rewrite Ec. simpl.
  eexists _, _. split; [done|]. split_and!.
  - rewrite <- (list_insert_id sizes qp _ Ho). apply Forall2_insert; [done|].
    subst q'. split; [by destruct Hq; split|done].
  - exists (length (o_Candidates o)). done.
  - exists q, c. split_and!; [done..|]. intros x Hx. apply Hbest. by rewrite Hlen.
Qed.

Lemma report_ok sizes h q e success n :
  Forall2 sound h sizes → sizes !! q = Some n → (e < n)%nat →
  Forall2 sound (report q e success h) sizes.
Proof.
  intros Hh Hq He. unfold report. apply Forall2_alter_l; [done|].
  intros q0 n0 E1 E2 [H1 H2]. simplify_eq.
  destruct (fix_spec q0 e success H1 He) as (H3 & H4 & _). done.
Qed.

Lemma fo_event_ok listen e s s' sizes :
  (∀ o, e = LoadEvent o → o_queue o = None) →
  handle listen e s = (Val tt, s') → Forall2 sound (extra s) sizes → opts_ok sizes (opts s) →
  ∃ ns, Forall2 sound (extra s') (sizes ++ ns) ∧ opts_ok (sizes ++ ns) (opts s').
Proof.
  intros He E Hh Ho. destruct e as [new| |]; simpl in E.
  - specialize (He new eq_refl). rewrite fo_LoadEvent_shape in E. unfold load_body in E.
    apply bind_inv in E as [(old & s0 & E0 & E)|[[=] _]]. injection E0 as <- <-.
    apply bind_inv in E as [([] & s1 & E1 & E)|[[=] _]].
    apply bind_inv in E as [(i & s2 & E2 & E)|[[=] _]].
    apply bind_inv in E as [([] & s3 & E3 & E)|[[=] _]]. cbn in E. injection E as <-. cbn [opts extra].
    assert (extra s1 = extra s) as X1.
    { revert E1. unfold check_addr. destruct (SplitHostPort _); [by intros [= <-]|done]. }
    assert (extra s3 = extra s2) as ->.
    { revert E3. case_match; [by intros [= <-]|]. unfold stopServer. case_match; by intros [= <-]. }
    clear E3. revert E2. unfold new_queue. case_bool_decide as E0.
    { intros [= <- <-]. rewrite X1. exists []. rewrite app_nil_r. split; [done|].
      unfold opts_ok. simpl. rewrite He. by apply length_zero_iff_nil. }
    destruct (candidates_equal _ _) eqn:Ec.
    + intros [= <- <-]. rewrite X1. exists []. rewrite app_nil_r. split; [done|].
      apply candidates_equal_length in Ec. unfold opts_ok in *. cbn [with_queue o_queue o_Candidates].
      destruct (o_queue (opts s)); [by rewrite Ec|]. rewrite Ho in Ec. simpl in Ec. lia.
    + intros [= <- <-]. cbn [extra]. rewrite X1. exists [length (o_Candidates new)]. split.
      * apply Forall2_app; [done|]. constructor; [|constructor]. apply newQueue_ok. lia.
      * unfold opts_ok. cbn [with_queue o_queue o_Candidates].
        rewrite (Forall2_length _ _ _ Hh). by rewrite lookup_app_r, Nat.sub_diag by lia.
  - exists []. rewrite app_nil_r. revert E. unfold startServer. destruct (server s); [by intros [= <-]|].
    destruct (listen _); [by intros [= <-]|done].
  - injection E as <-. exists []. by rewrite app_nil_r.
Qed.

Lemma fo_sys_step_ok sizes s s' : sys_ok sizes s → sys_step s s' → ∃ sizes', sys_ok sizes' s'.
Proof.
  intros [Hh Ho Hc] Hs.
  destruct Hs as [listen e s s' cs He E|s cs|s cs k Hk|rand s cs k o a h Hr Ek E|s cs k q e success Ek];
    simpl in *.
  - destruct (fo_event_ok _ _ _ _ _ He E Hh Ho) as (ns & Hh' & Ho'). exists (sizes ++ ns).
    split; simpl; [done..|]. eapply Forall_impl; [exact Hc|]. intros c. apply cstate_ok_app.
  - exists sizes. split; simpl; [done..|]. apply Forall_app. split; [done|]. by repeat constructor.
  - exists sizes. split; simpl; [done..|]. by apply Forall_insert.
  - exists sizes. rewrite Forall_lookup in Hc. pose proof (Hc _ _ Ek) as H1. simpl in H1.
    destruct (fo_getRemote_ok sizes o rand (extra s) Hh H1 Hr) as (a1 & h1 & E1 & H2 & H3 & _).
    simplify_eq. split; simpl; [done..|]. apply Forall_insert; [by apply Forall_lookup|done].
  - exists sizes. rewrite Forall_lookup in Hc. destruct (Hc _ _ Ek) as (n & H1 & H2).
    split; simpl; [|done|by apply Forall_lookup]. by eapply report_ok.
Qed.

Lemma fo_sys_reach_ok s : sys_reach s → ∃ sizes, sys_ok sizes s.
Proof.
  intros Hr. assert (∃ sizes, sys_ok sizes sys_start) as H0.
  { exists []. split; simpl; [constructor|done|constructor]. }
  induction Hr as [|s1 s2 s3 Hs _ IH]; [done|]. apply IH. destruct H0 as [sz H0].
  by eapply fo_sys_step_ok.
Qed.

Theorem failover_picks_best s k o rand :
  sys_reach s → s_conns s !! k = Some (Read o) → (∀ n, (0 < n)%nat → (rand n < n)%nat) →
  ∃ a h, getRemote o rand (extra (s_job s)) = Some (a, h) ∧
    match a with
    | Refused => o_Candidates o = []
    | Dialing d qp e => ∃ q c, extra (s_job s) !! qp = Some q ∧ o_Candidates o !! e = Some c ∧
        d = proxy_Dialer c ∧
        ∀ x, (x < length (o_Candidates o))%nat → score (q_store q) x <= score (q_store q) e
    end.
Proof.
  intros Hs Ek Hr. destruct (fo_sys_reach_ok s Hs) as (sizes & [Hh _ Hc]).
  rewrite Forall_lookup in Hc. pose proof (Hc _ _ Ek) as H1.
  destruct (fo_getRemote_ok sizes o rand _ Hh H1 Hr) as (a & h & E & _ & _ & H). by eauto.
Qed.
End failover.

Definition ex_opts (q : option nat) : Options (C := unit) :=
  MkOptions (bs ":1") [MkProxy None [1]; MkProxy (Some Direct) [2]] zero_conn zero_relay q.

Definition ex_job : job (Options (C := unit)) (list queue) :=
  MkJob (ex_opts (Some 0%nat)) None [newQueue 2] [].

(** After a first attempt through candidate 0 that failed. *)
Definition ex_failed : sys (C := unit) :=
  MkSys (set_heap ex_job [fix_ (Queue (q_store (newQueue 2)) [0; 1]%nat (Some 0%nat) 0 0) 0 false])
    [Read (ex_opts (Some 0%nat))].

Lemma fo_ex_reach : sys_reach ex_failed.
Proof.
  eapply rtc_l.
  { apply (sys_event (λ _, true) (LoadEvent (ex_opts None)) _ ex_job []); [by intros o [= <-]|].
    reflexivity. }
  eapply rtc_l; [apply sys_accept|]. eapply rtc_l; [apply (sys_read ex_job [Idle] 0); simpl; lia|].
  eapply rtc_l.
  { apply (sys_pick (λ _, 0%nat) ex_job [Read (ex_opts (Some 0%nat))] 0 (ex_opts (Some 0%nat))
      (Dialing Direct 0 0)); [done|reflexivity|]. reflexivity. }
  eapply rtc_l; [by apply (sys_report _ _ 0 0 0 false)|].
  apply rtc_once.
  match goal with |- sys_step ?a _ =>
    replace a with (MkSys (s_job ex_failed) [Picked 0 0]) by (vm_compute; reflexivity) end.
  apply (sys_read (s_job ex_failed) [Picked 0 0] 0). simpl. lia.
Qed.

Lemma failover_picks_best_witness :
  ∃ h, getRemote (ex_opts (Some 0%nat)) (λ _, 0%nat) (extra (s_job ex_failed)) =
    Some (Dialing Direct 0 1, h).
Proof.
  destruct (failover_picks_best ex_failed 0 _ (λ _, 0%nat) fo_ex_reach eq_refl (λ _ Hn, Hn))
    as (a & h & E & H).
  exists h. rewrite E. by injection E as <- _.
Defined.
