(* ===== verification/Services.v ===== *)
(** * The loop on the services.

    The theorems of Jobs.v at work on concrete services. *)

From S2P Require Import Prelude GoStrings Url Proxy Dial Defaults Jobs Tcptun Pprof.

Definition tunnel (addr : gostring) : Tcptun.Options (C := unit) :=
  Tcptun.MkOptions addr (bs "1.1.1.1:53") (MkProxy None []) zero_conn zero_relay.

Definition free (_ : gostring) : bool := true.

Definition moved : list (input (Tcptun.Options (C := unit))) :=
  [Ev free (LoadEvent (tunnel (bs ":1"))); Ev free LoadedEvent; Ev free NilEvent;
   Ev free (LoadEvent (tunnel (bs ":2"))); Ev free LoadedEvent].

Lemma listener_discipline_witness :
  (Jobs.Run moved).1 = Running ∧
  log (Jobs.Run moved).2 = [Listening (bs ":1"); Closed (bs ":1"); Listening (bs ":2")] ∧
  replay None (log (Jobs.Run moved).2) = Some (server (Jobs.Run moved).2) ∧
  replay None (log (Jobs.Run (moved ++ [CtxDone])).2) = Some None.
Proof.
  split; [reflexivity|]. split; [reflexivity|]. split.
  - exact (proj1 (listener_discipline moved)).
  - exact (listener_discipline (moved ++ [CtxDone])).
Defined.

Lemma load_then_loaded_witness :
  ∃ s : job (Tcptun.Options (C := unit)) unit, Jobs.Run moved = (Running, s) ∧ server s = Some (bs ":2").
Proof.
  eexists. split; [vm_compute; reflexivity|].
  exact (proj2 (load_then_loaded (H := Tcptun.tcptun) [Ev free (LoadEvent (tunnel (bs ":1"))); Ev free LoadedEvent;
    Ev free NilEvent] (tunnel (bs ":2")) free free _ ltac:(vm_compute; reflexivity))).
Defined.

Lemma reload_releases_witness :
  server (run (O := Pprof.Options) (MkJob (Pprof.MkOptions (bs ":1")) (Some (bs ":1")) tt
    [Listening (bs ":1")]) [Ev free (LoadEvent (Pprof.MkOptions (bs ":2")))]).2 = None.
Proof.
  refine (reload_releases (MkJob (Pprof.MkOptions (bs ":1")) (Some (bs ":1")) tt
    [Listening (bs ":1")]) (Pprof.MkOptions (bs ":2")) free Running _ _ _ _); [reflexivity|discriminate..].
Defined.

Lemma invalid_addr_returns_witness :
  ∃ s', run (O := Pprof.Options) start [Ev free (LoadEvent (Pprof.MkOptions (bs "nowhere")));
    Ev free LoadedEvent] = (Returned, s') ∧ server s' = None.
Proof. apply (invalid_addr_returns (O := Pprof.Options)). reflexivity. Defined.
