(* ===== verification/AllowList.v ===== *)
(** * Allow lists (service/http/http.go, allowList).

    Lists of rules in the configuration and in the files it includes: how
    lines are read, parsed and summed, and what a list allows.  The file
    system, SHA-1, the parser and the printer of IP addresses are
    parameters; lines are shorter than the 64K buffer of a bufio.Scanner,
    and spaces are ASCII. *)

From S2P Require Import Prelude GoStrings Url Proxy Addr AddrRange Prefix MatchSet MatchProof.

(** ** Lines *)

Definition drop_cr (s : gostring) : gostring :=
  match last s with Some 13 => take (length s - 1) s | _ => s end.

(** [bufio.ScanLines] at the end of the input. *)
Definition ScanLines (data : gostring) : nat * option gostring :=
  match data with
  | [] => (O, None)
  | _ =>
      match IndexByte data 10 with
      | Some i => (S i, Some (drop_cr (take i data)))
      | None => (length data, Some (drop_cr data))
      end
  end.

Definition is_comment (token : gostring) : bool :=
  bool_decide (token = []) || HasPrefix token [35].

Fixpoint scan_again (fuel : nat) (data : gostring) (start : nat) : nat * option gostring :=
  match fuel with
  | O => (start, None)
  | S fuel =>
      let '(advance, token) := ScanLines (drop start data) in
      let start := (start + advance)%nat in
      match token with
      | None => (start, None)
      | Some token =>
          let token := TrimSpace token in
          if is_comment token then scan_again fuel data start else (start, Some token)
      end
  end.

Definition scanLines (data : gostring) : nat * option gostring :=
  scan_again (S (length data)) data 0.

(** [for s.Scan() { ... s.Text() ... }] *)
Fixpoint scan_loop (fuel : nat) (data : gostring) : list gostring :=
  match fuel with
  | O => []
  | S fuel =>
      match scanLines data with
      | (_, None) => []
      | (advance, Some token) => token :: scan_loop fuel (drop advance data)
      end
  end.

Definition scan (data : gostring) : list gostring := scan_loop (S (length data)) data.

(** ** Paths *)

(** [path.Clean]: the components that remain, last first. *)
Fixpoint clean_loop (rooted : bool) (out : list gostring) (parts : list gostring) : list gostring :=
  match parts with
  | [] => out
  | p :: parts =>
      if bool_decide (p = []) || bool_decide (p = [46]) then clean_loop rooted out parts
      else if bool_decide (p = [46; 46]) then
        match out with
        | q :: out' =>
            if bool_decide (q = [46; 46]) then clean_loop rooted (p :: out) parts
            else clean_loop rooted out' parts
        | [] => clean_loop rooted (if rooted then [] else [p]) parts
        end
      else clean_loop rooted (p :: out) parts
  end.

Fixpoint join_slash (parts : list gostring) : gostring :=
  match parts with
  | [] => []
  | [p] => p
  | p :: parts => p ++ [47] ++ join_slash parts
  end.

Definition path_Clean (p : gostring) : gostring :=
  let rooted := HasPrefix p [47] in
  let out := join_slash (reverse (clean_loop rooted [] (Split p 47))) in
  if rooted then 47 :: out else match out with [] => [46] | _ => out end.

Definition path_Dir (p : gostring) : gostring :=
  path_Clean match LastIndexByte p 47 with Some i => take (S i) p | None => [] end.

Definition path_Join (a b : gostring) : gostring :=
  match a, b with
  | [], [] => []
  | [], _ => path_Clean b
  | _, [] => path_Clean a
  | _, _ => path_Clean (a ++ [47] ++ b)
  end.

Example join_1 : path_Join (path_Dir (bs "a/b.txt")) (bs "../c.txt") = bs "c.txt".
Proof. reflexivity. Qed.
Example join_2 : path_Join (path_Dir (bs ".")) (bs "./c.txt") = bs "c.txt".
Proof. reflexivity. Qed.

(** ** The parser *)

(** [rePortSuffix.FindString]: a colon and digits at the end. *)
Definition port_suffix (line : gostring) : gostring :=
  match LastIndexByte line 58 with
  | Some i =>
      let s := drop i line in
      if forallb is_digit (drop 1 s) && negb (bool_decide (drop 1 s = [])) then s else []
  | None => []
  end.

(** One of the two halves of a list: [None] for a pattern on all ports. *)
Record settings := MkSettings {
  patterns : gmap gostring (option (list gostring));
  ipranges : AddrRangeSet }.

Record parser := MkParser { includes : settings; excludes : settings }.

Definition no_settings : settings := MkSettings ∅ [].
Definition new_parser : parser := MkParser no_settings no_settings.

(** The outcome of reading: [NoFuel] stands for files that include one
    another without end. *)
Inductive result (A : Type) := Ok (a : A) | Err | NoFuel.
Arguments Ok {A}.
Arguments Err {A}.
Arguments NoFuel {A}.

#[export] Instance result_ret : MRet result := λ A a, Ok a.
#[export] Instance result_fmap : FMap result := λ A B f m,
  match m with Ok a => Ok (f a) | Err => Err | NoFuel => NoFuel end.
#[export] Instance result_bind : MBind result := λ A B f m,
  match m with Ok a => f a | Err => Err | NoFuel => NoFuel end.

Lemma bind_Ok {A B} (f : A → result B) (m : result A) (b : B) : (m ≫= f) = Ok b → ∃ a, m = Ok a ∧ f a = Ok b.
Proof. destruct m; [eauto|done..]. Qed.

(** What is out of fuel when there is none. *)
Definition or_stuck {A} (m : option A) : result A := match m with Some a => Ok a | None => NoFuel end.
Definition or_err {A} (m : option A) : result A := match m with Some a => Ok a | None => Err end.

Section files.
Context (fsys : gostring → option gostring).            (* fs.FS: the contents of a file *)
Context (netip_ParsePrefix : list Z → option IPPrefix).
Context (Addr_String : Addr → gostring).

(** The pattern of a line and its port suffix. *)
Definition pattern_of (line : gostring) : gostring * gostring :=
  let portSuffix := port_suffix line in
  let pattern := take (length line - length portSuffix) line in
  if HasPrefix pattern [91] && HasSuffix pattern [93]
  then (drop 1 (take (length pattern - 1) pattern), portSuffix)
  else if negb (bool_decide (portSuffix = [])) && ContainsByte pattern 58
  then (line, []) else (pattern, portSuffix).

Definition add_pattern (st : settings) (line : gostring) : settings :=
  let '(pattern, portSuffix) := pattern_of line in
  let set config := MkSettings (<[pattern := config]> (patterns st)) (ipranges st) in
  if bool_decide (portSuffix = []) then set None
  else
    let port := drop 1 portSuffix in
    match patterns st !! pattern with
    | Some None => st
    | Some (Some ports) =>
        if bool_decide (port ∈ ports) then st else set (Some (ports ++ [port]))
    | None => set (Some [port])
    end.

(** A line without the exclamation mark. *)
Definition add_line (st : settings) (line : gostring) : result settings :=
  if ContainsByte line 47 then
    match ParsePrefix netip_ParsePrefix line with
    | None => Err
    | Some (r, closed) =>
        let st := MkSettings (patterns st) (AddrRange.Add (ipranges st) r) in
        if negb closed then Ok st else Ok (add_pattern st (Addr_String (High r)))
    end
  else Ok (add_pattern st line).

Definition parse_rule (p : parser) (line : gostring) : result parser :=
  if HasPrefix line [33] then
    match add_line (excludes p) (drop 1 line) with
    | Ok st => Ok (MkParser (includes p) st)
    | Err => Err
    | NoFuel => NoFuel
    end
  else
    match add_line (includes p) line with
    | Ok st => Ok (MkParser st (excludes p))
    | Err => Err
    | NoFuel => NoFuel
    end.

Definition include_path (name line : gostring) : gostring :=
  let filepath := drop 1 line in
  if HasPrefix filepath (bs "./") || HasPrefix filepath (bs "../")
  then path_Join (path_Dir name) filepath else filepath.

Section lines.
Context {A : Type} (rule : A → gostring → result A) (file : gostring → A → result A).

(** A line of file [name]: an include, or a rule. *)
Definition read_line (name line : gostring) (a : A) : result A :=
  if HasPrefix line [64] then file (include_path name line) a else rule a line.

Fixpoint read_lines (name : gostring) (lines : list gostring) (a : A) : result A :=
  match lines with
  | [] => Ok a
  | line :: lines =>
      match read_line name line a with
      | Ok a => read_lines name lines a
      | Err => Err
      | NoFuel => NoFuel
      end
  end.
End lines.

Fixpoint read_file {A} (rule : A → gostring → result A) (fuel : nat) (name : gostring) (a : A) : result A :=
  match fuel with
  | O => NoFuel
  | S fuel =>
      match fsys name with
      | None => Err
      | Some data => read_lines rule (read_file rule fuel) name (scan data) a
      end
  end.

(** [parseFile] and [parseLine] *)
Definition parseFile : nat → gostring → parser → result parser := read_file parse_rule.
Definition parseLine (fuel : nat) (name line : gostring) (p : parser) : result parser :=
  read_line parse_rule (parseFile fuel) name line p.

(** What [Init] makes of [What] before the patterns are compiled. *)
Definition parse_list (fuel : nat) (What : gostring) : result parser :=
  read_lines parse_rule (parseFile fuel) [46] (scan What) new_parser.

(** ** Checksums: what is written to the hash *)

Definition sum_rule (digest : gostring) (line : gostring) : result gostring :=
  Ok (digest ++ line ++ [10]).

Definition checksumFile : nat → gostring → gostring → result gostring := read_file sum_rule.
Definition checksumLine (fuel : nat) (name line : gostring) (digest : gostring) : result gostring :=
  read_line sum_rule (checksumFile fuel) name line digest.

Definition checksum (sha1 : gostring → gostring) (fuel : nat) (what : gostring) : result gostring :=
  match read_lines sum_rule (checksumFile fuel) [46] (scan what) [] with
  | Ok digest => Ok (sha1 digest)
  | Err => Err
  | NoFuel => NoFuel
  end.
End files.

(** ** Lists at work

    [allowList]: the compiled patterns of each half and its ranges.  A nil
    [*patternConfig] is [None]. *)

Definition config : Type := option (list gostring).

Record allowList := MkAllowList {
  inc_patterns : MatchSet config; inc_ipranges : AddrRangeSet;
  exc_patterns : MatchSet config; exc_ipranges : AddrRangeSet }.

(** [for pattern, config := range patterns { set.Add(pattern, config) }]:
    [order] is the order in which the map is iterated. *)
Definition compile (order : list (gostring * config)) : option (MatchSet config) :=
  add_all empty_set order.

Definition Init (p : parser) (inc exc : list (gostring * config)) : option allowList :=
  i ← compile inc;
  e ← compile exc;
  Some (MkAllowList i (ipranges (includes p)) e (ipranges (excludes p))).

Definition match_ (patterns : MatchSet config) (ipranges : AddrRangeSet)
    (host port : gostring) (addr : Addr) : bool :=
  if IsValid addr && AddrRange.Contains ipranges addr then true
  else
    existsb (λ c, match c with
                  | None => true
                  | Some ports => bool_decide (port ∈ ports)
                  end) (MatchAll patterns host).

Definition Allow (l : allowList) (host port : gostring) (addr : Addr) : bool :=
  match_ (inc_patterns l) (inc_ipranges l) host port addr &&
  negb (match_ (exc_patterns l) (exc_ipranges l) host port addr).
