(* ===== verification/AllowSpec.v ===== *)
(** * What allow lists mean.

    The lines a list consists of once its includes are expanded, the rules of
    a line, and that Allow decides by them; checksums and termination. *)

From S2P Require Import Prelude GoStrings Url Proxy Addr AddrRange Prefix MatchSet Glob MatchProof AllowList.

(** ** Lines *)

Definition content (line : gostring) : bool := negb (is_comment line).

Definition lines_of (data : gostring) : list gostring :=
  filter (λ l, content l = true) (TrimSpace <$> Split data 10).

Lemma Split_IndexByte s c :
  Split s c = match IndexByte s c with
              | Some i => take i s :: Split (drop (S i) s) c
              | None => [s]
              end.
Proof.
  induction s as [|b s IH]; simpl; [done|]. destruct (b =? c); [by rewrite drop_0|].
  rewrite IH. destruct (IndexByte s c); done.
Qed.

Lemma TrimLeft_app f (s t : gostring) :
  TrimLeftFunc f (s ++ t) = if forallb f s then TrimLeftFunc f t else TrimLeftFunc f s ++ t.
Proof.
  induction s as [|c s IH]; simpl; [done|]. destruct (f c); simpl; [done|].
  done.
Qed.

Lemma TrimSpace_snoc s c : is_space c = true → TrimSpace (s ++ [c]) = TrimSpace s.
Proof.
  intros Hc. unfold TrimSpace, TrimRightFunc. rewrite TrimLeft_app.
  destruct (forallb is_space s) eqn:E.
  - simpl. rewrite Hc. replace (TrimLeftFunc is_space s) with (@nil Z); [done|].
    clear -E. induction s as [|x s IH]; simpl in *; [done|]. apply andb_true_iff in E as [-> E]. by apply IH.
  - rewrite reverse_app. simpl. by rewrite Hc.
Qed.

Lemma TrimSpace_drop_cr s : TrimSpace (drop_cr s) = TrimSpace s.
Proof.
  unfold drop_cr. destruct (last s) as [c|] eqn:E; [|done].
  destruct (Z.eq_dec c 13) as [->|Hne].
  - apply last_Some in E as [s' ->]. rewrite length_app, Nat.add_sub, take_app_length.
    symmetry. by apply TrimSpace_snoc.
  - destruct c as [|p|p]; try done. do 4 (destruct p as [p|p|]; try done).
Qed.

Lemma scan_again_lines fuel data start :
  (length (drop start data) < fuel)%nat →
  match scan_again fuel data start with
  | (_, None) => lines_of (drop start data) = []
  | (n, Some t) => lines_of (drop start data) = t :: lines_of (drop n data) ∧
                   (start < n ≤ length data)%nat
  end.
Proof.
  revert start. induction fuel as [|fuel IH]; intros start Hf; [lia|]. cbn [scan_again].
  unfold ScanLines. destruct (drop start data) as [|b rest] eqn:Ed.
  { done. }
  rewrite <- Ed in *. rewrite length_drop in Hf.
  assert (start < length data)%nat as Hlen.
  { apply (f_equal length) in Ed. rewrite length_drop in Ed. simpl in Ed. lia. }
  assert (∀ adv line, (0 < adv ≤ length data - start)%nat →
    lines_of (drop start data) = filter (λ l, content l = true) [TrimSpace line] ++
      lines_of (drop (start + adv) data) →
    match (let token := TrimSpace (drop_cr line) in
           if is_comment token then scan_again fuel data (start + adv) else ((start + adv)%nat, Some token)) with
    | (_, None) => lines_of (drop start data) = []
    | (n, Some t) => lines_of (drop start data) = t :: lines_of (drop n data) ∧
                     (start < n ≤ length data)%nat
    end) as Hstep.
  { intros adv line Hadv E. cbv zeta. rewrite TrimSpace_drop_cr. rewrite E. unfold content in *.
    destruct (is_comment (TrimSpace line)) eqn:Ec.
    - rewrite filter_cons, decide_False by (by rewrite Ec). simpl.
      specialize (IH (start + adv)%nat). rewrite length_drop in IH.
      destruct (scan_again fuel data (start + adv)) as [n [t|]]; [|apply IH; lia].
      destruct IH as [IH1 IH2]; [lia|]. split; [done|lia].
    - rewrite filter_cons, decide_True by (by rewrite Ec). split; [done|lia]. }
  unfold lines_of in Hstep at 1. rewrite Split_IndexByte in Hstep.
  destruct (IndexByte (drop start data) 10) as [i|] eqn:Ei.
  - apply Hstep.
    + apply IndexByte_Some in Ei as [Ei _]. apply lookup_lt_Some in Ei. rewrite length_drop in Ei. lia.
    + unfold lines_of. rewrite <- drop_drop. by rewrite fmap_cons, <- filter_app.
  - apply (Hstep (length (drop start data)) (drop start data)).
    + rewrite length_drop. lia.
    + rewrite length_drop, (drop_ge data (start + _)) by lia. by rewrite app_nil_r.
Qed.

Lemma scan_loop_lines fuel data : (length data < fuel)%nat → scan_loop fuel data = lines_of data.
Proof.
  revert data. induction fuel as [|fuel IH]; intros data Hf; [lia|]. cbn [scan_loop].
  unfold scanLines. pose proof (scan_again_lines (S (length data)) data 0) as H. rewrite drop_0 in H.
  specialize (H ltac:(lia)). destruct (scan_again _ _ _) as [n [t|]]; [|done].
  destruct H as [-> Hn]. f_equal. apply IH. rewrite length_drop. lia.
Qed.

Theorem scan_lines data :
  scan data = filter (λ l, negb (is_comment l) = true) (TrimSpace <$> Split data 10).
Proof. unfold scan. by rewrite scan_loop_lines by lia. Qed.

Lemma scan_lines_of data : scan data = lines_of data.
Proof. unfold scan. apply scan_loop_lines. lia. Qed.

Lemma TrimLeft_incl f (s : gostring) : TrimLeftFunc f s ⊆ s.
Proof. induction s as [|c s IH]; simpl; [done|]. case_match; set_solver. Qed.

Lemma TrimSpace_incl (s : gostring) : TrimSpace s ⊆ s.
Proof.
  intros c Hc. unfold TrimSpace, TrimRightFunc in Hc. apply elem_of_reverse, TrimLeft_incl in Hc.
  apply elem_of_reverse, TrimLeft_incl in Hc. done.
Qed.

Lemma Split_no_sep s c : Forall (λ w, c ∉ w) (Split s c).
Proof.
  induction s as [|b s IH]; simpl; [repeat constructor; apply not_elem_of_nil|].
  destruct (Z.eqb_spec b c) as [->|Hne]; [constructor; [apply not_elem_of_nil|done]|].
  destruct (Split s c) as [|w ws]; [repeat constructor; set_solver|].
  apply Forall_cons in IH as [H1 H2]. constructor; [set_solver|done].
Qed.

Lemma scan_no_newline data : Forall (λ l, 10 ∉ l) (scan data).
Proof.
  rewrite scan_lines_of. unfold lines_of. apply Forall_forall. intros l [_ Hl]%list_elem_of_filter.
  apply list_elem_of_fmap in Hl as (w & -> & Hw). pose proof (Split_no_sep data 10) as H.
  rewrite Forall_forall in H. intros Hin%TrimSpace_incl. by apply (H w).
Qed.

(** ** Includes *)

Section files.
Context (fsys : gostring → option gostring).

(** The lines of a list with the included files in their place. *)
Definition expand (fuel : nat) (name : gostring) (lines acc : list gostring) : result (list gostring) :=
  read_lines (λ l line, Ok (l ++ [line])) (read_file fsys (λ l line, Ok (l ++ [line])) fuel) name lines acc.

(** Applying a rule to one line after the other. *)
Fixpoint fold_rule {A} (rule : A → gostring → result A) (lines : list gostring) (a : A) : result A :=
  match lines with
  | [] => Ok a
  | l :: lines => match rule a l with Ok a => fold_rule rule lines a | Err => Err | NoFuel => NoFuel end
  end.

Lemma fold_rule_app {A} (rule : A → gostring → result A) l1 l2 a :
  fold_rule rule (l1 ++ l2) a =
  match fold_rule rule l1 a with Ok a => fold_rule rule l2 a | Err => Err | NoFuel => NoFuel end.
Proof. revert a. induction l1 as [|l l1 IH]; intros a; simpl; [done|]. by destruct (rule a l). Qed.

(** Reading is reading the expansion; when there is none, reading fails. *)
Definition reads {A} (rule : A → gostring → result A) (e : list gostring → result (list gostring))
    (r : A → result A) : Prop :=
  ∀ acc a, match e acc with
           | Ok ls => ∃ new, ls = acc ++ new ∧ r a = fold_rule rule new a
           | Err | NoFuel => ∀ b, r a ≠ Ok b
           end.

Lemma reads_lines {A} (rule : A → gostring → result A) name lines e r :
  (∀ file, reads rule (e file) (r file)) →
  reads rule (read_lines (λ l line, Ok (l ++ [line])) e name lines) (read_lines rule r name lines).
Proof.
  intros Hf. induction lines as [|line lines IH]; intros acc a; cbn [read_lines].
  { exists []. by rewrite app_nil_r. }
  unfold read_line. destruct (HasPrefix line [64]).
  - specialize (Hf (include_path name line) acc a).
    destruct (e _ acc) as [ls| |].
    + destruct Hf as (new & -> & ->). specialize (IH (acc ++ new)).
      destruct (fold_rule rule new a) as [b| |] eqn:E.
      * specialize (IH b). destruct (read_lines _ e _ _ _); [|done..].
        destruct IH as (new' & -> & ->). exists (new ++ new'). split; [by rewrite app_assoc|].
        by rewrite fold_rule_app, E.
      * specialize (IH a). destruct (read_lines _ e _ _ _); [|done..].
        destruct IH as (new' & -> & _). exists (new ++ new'). split; [by rewrite app_assoc|].
        by rewrite fold_rule_app, E.
      * specialize (IH a). destruct (read_lines _ e _ _ _); [|done..].
        destruct IH as (new' & -> & _). exists (new ++ new'). split; [by rewrite app_assoc|].
        by rewrite fold_rule_app, E.
    + intros b. destruct (r _ a) eqn:E; [|done..]. exfalso. by eapply Hf.
    + intros b. destruct (r _ a) eqn:E; [|done..]. exfalso. by eapply Hf.
  - specialize (IH (acc ++ [line])). destruct (rule a line) as [b| |] eqn:E.
    + specialize (IH b). destruct (read_lines _ e _ _ _); [|done..].
      destruct IH as (new & -> & ->). exists (line :: new). rewrite <- app_assoc. split; [done|].
      simpl. by rewrite E.
    + specialize (IH a). destruct (read_lines _ e _ _ _); [|done..].
      destruct IH as (new & -> & _). exists (line :: new). rewrite <- app_assoc. split; [done|].
      simpl. by rewrite E.
    + specialize (IH a). destruct (read_lines _ e _ _ _); [|done..].
      destruct IH as (new & -> & _). exists (line :: new). rewrite <- app_assoc. split; [done|].
      simpl. by rewrite E.
Qed.

Lemma reads_file {A} (rule : A → gostring → result A) fuel name :
  reads rule (read_file fsys (λ l line, Ok (l ++ [line])) fuel name) (read_file fsys rule fuel name).
Proof.
  revert name. induction fuel as [|fuel IH]; intros name acc a; cbn [read_file]; [done|].
  destruct (fsys name) as [data|]; [|done]. by apply reads_lines.
Qed.

Lemma read_expand {A} (rule : A → gostring → result A) fuel name lines a :
  match expand fuel name lines [] with
  | Ok ls => read_lines rule (read_file fsys rule fuel) name lines a = fold_rule rule ls a
  | Err | NoFuel => ∀ b, read_lines rule (read_file fsys rule fuel) name lines a ≠ Ok b
  end.
Proof.
  unfold expand. pose proof (reads_lines rule name lines _ _ (reads_file rule fuel) [] a) as H.
  destruct (read_lines _ _ name lines []); [|done..]. by destruct H as (new & -> & ->).
Qed.

(** The lines of the files have no newline. *)
Lemma expand_no_newline fuel name lines acc ls :
  Forall (λ l, 10 ∉ l) acc → Forall (λ l, 10 ∉ l) lines →
  expand fuel name lines acc = Ok ls → Forall (λ l, 10 ∉ l) ls.
Proof.
  unfold expand. revert name lines ls acc.
  induction fuel as [|fuel IH]; intros name lines ls acc Hacc Hl.
  - revert acc Hacc. induction lines as [|line lines IHl]; intros acc Hacc; cbn [read_lines]; [by intros [= <-]|].
    apply Forall_cons in Hl as [Hline Hl]. unfold read_line.
    destruct (HasPrefix line [64]); [done|]. apply IHl; [done|]. apply Forall_app. by repeat constructor.
  - revert acc Hacc. induction lines as [|line lines IHl]; intros acc Hacc; cbn [read_lines]; [by intros [= <-]|].
    apply Forall_cons in Hl as [Hline Hl]. unfold read_line. destruct (HasPrefix line [64]).
    + cbn [read_file]. destruct (fsys _) as [data|]; [|done].
      destruct (read_lines _ _ _ (scan data) acc) as [acc'| |] eqn:E; [|done..]. apply IHl; [done|].
      eapply IH; [exact Hacc| |exact E]. apply scan_no_newline.
    + apply IHl; [done|]. apply Forall_app. by repeat constructor.
Qed.

Lemma fold_sum ls digest : fold_rule sum_rule ls digest = Ok (digest ++ hashed ls).
Proof.
  revert digest. induction ls as [|l ls IH]; intros digest; simpl; [by rewrite app_nil_r|].
  rewrite IH. unfold hashed. simpl. by rewrite <- !app_assoc.
Qed.

Lemma checksum_expand sha1 fuel what c :
  checksum fsys sha1 fuel what = Ok c →
  ∃ ls, expand fuel [46] (scan what) [] = Ok ls ∧ c = sha1 (hashed ls) ∧ Forall (λ l, 10 ∉ l) ls.
Proof.
  unfold checksum, checksumFile. pose proof (read_expand sum_rule fuel [46] (scan what) []) as H.
  destruct (expand fuel [46] (scan what) []) as [ls| |] eqn:E.
  - rewrite H, fold_sum. intros [= <-]. exists ls. split_and!; [done|done|].
    eapply expand_no_newline; [| |exact E]; [constructor|apply scan_no_newline].
  - intros Hc. destruct (read_lines _ _ _ _ _) eqn:E'; [|done..]. exfalso. by eapply H.
  - intros Hc. destruct (read_lines _ _ _ _ _) eqn:E'; [|done..]. exfalso. by eapply H.
Qed.
End files.

Lemma checksum_parse fs1 fs2 netip str sha1 n1 n2 what1 what2 c :
  checksum fs1 sha1 n1 what1 = Ok c → checksum fs2 sha1 n2 what2 = Ok c →
  parse_list fs1 netip str n1 what1 = parse_list fs2 netip str n2 what2 ∨
  ∃ s t, s ≠ t ∧ sha1 s = sha1 t.
Proof.
  intros (ls1 & E1 & -> & H1)%checksum_expand (ls2 & E2 & Hc & H2)%checksum_expand.
  destruct (decide (hashed ls1 = hashed ls2)) as [Eh|]; [|by right; eauto].
  apply hashed_inj in Eh as ->; [|done..]. left. unfold parse_list, parseFile.
  pose proof (read_expand fs1 (parse_rule netip str) n1 [46] (scan what1) new_parser) as R1.
  pose proof (read_expand fs2 (parse_rule netip str) n2 [46] (scan what2) new_parser) as R2.
  rewrite E1 in R1. rewrite E2 in R2. congruence.
Qed.

Theorem checksum_determines fs1 fs2 netip str sha1 n1 n2 what1 what2 c :
  checksum fs1 sha1 n1 what1 = Ok c → checksum fs2 sha1 n2 what2 = Ok c →
  parse_list fs1 netip str n1 what1 = parse_list fs2 netip str n2 what2 ∨
  ∃ s t, s ≠ t ∧ sha1 s = sha1 t.
Proof. apply checksum_parse. Qed.

(** ** Termination *)

Section termination.
Context (fsys : gostring → option gostring) {A : Type} (rule : A → gostring → result A).
Context (rule_ok : ∀ a line, rule a line ≠ NoFuel).

(** [rank] falls along includes. *)
Definition well_founded_includes (rank : gostring → nat) : Prop :=
  ∀ name data line, fsys name = Some data → line ∈ scan data → HasPrefix line [64] = true →
  (rank (include_path name line) < rank name)%nat.

Lemma read_lines_fuel name lines file :
  (∀ line a, line ∈ lines → HasPrefix line [64] = true → file (include_path name line) a ≠ NoFuel) →
  ∀ a, read_lines rule file name lines a ≠ NoFuel.
Proof using Type*.
  induction lines as [|line lines IH]; intros Hf a; cbn [read_lines]; [done|].
  assert (read_line rule file name line a ≠ NoFuel) as Hl.
  { unfold read_line. destruct (HasPrefix line [64]) eqn:E; [apply Hf; [left|done]|apply rule_ok]. }
  destruct (read_line rule file name line a); [|done..]. apply IH. intros l b Hin. apply Hf. by right.
Qed.

Lemma read_file_fuel rank fuel name a :
  well_founded_includes rank → (rank name < fuel)%nat → read_file fsys rule fuel name a ≠ NoFuel.
Proof using Type*.
  intros Hr. revert name a. induction fuel as [|fuel IH]; intros name a Hn; [lia|]. cbn [read_file].
  destruct (fsys name) as [data|] eqn:E; [|done]. apply read_lines_fuel.
  intros line b Hin Hp. apply IH. specialize (Hr _ _ _ E Hin Hp). lia.
Qed.
End termination.

Lemma parse_rule_ok netip str p line : parse_rule netip str p line ≠ NoFuel.
Proof.
  unfold parse_rule, add_line.
  destruct (HasPrefix line [33]), (ContainsByte _ 47); try done;
    destruct (ParsePrefix netip _) as [[r []]|]; done.
Qed.

Theorem parse_terminates fsys netip str rank fuel What :
  well_founded_includes fsys rank →
  (∀ line, line ∈ scan What → HasPrefix line [64] = true →
     (rank (include_path (bs ".") line) < fuel)%nat) →
  parse_list fsys netip str fuel What ≠ NoFuel ∧
  ∀ sha1, checksum fsys sha1 fuel What ≠ NoFuel.
Proof.
  intros Hr Hf. split.
  - apply read_lines_fuel; [apply parse_rule_ok|]. intros line a Hin Hp.
    eapply read_file_fuel; [apply parse_rule_ok|done|by apply Hf].
  - intros sha1. unfold checksum.
    assert (read_lines sum_rule (checksumFile fsys fuel) [46] (scan What) [] ≠ NoFuel) as H.
    { apply read_lines_fuel; [done|]. intros line a Hin Hp.
      by eapply read_file_fuel; [| |apply Hf]. }
    by destruct (read_lines _ _ _ _ _).
Qed.

Definition ex_fs (name : gostring) : option gostring :=
  if bool_decide (name = bs "lists/a.txt") then Some (bs "@../b.txt" ++ [10] ++ bs "# x" ++ [10] ++ bs "!*.uk")
  else if bool_decide (name = bs "b.txt") then Some (bs ".com:443") else None.

Definition ex_rank (name : gostring) : nat := if bool_decide (name = bs "lists/a.txt") then 1%nat else 0%nat.

Lemma parse_terminates_witness :
  parse_list ex_fs (λ _, None) (λ _, []) 2 (bs "@lists/a.txt") ≠ NoFuel ∧
  scan (bs "@lists/a.txt") = [bs "@lists/a.txt"].
Proof.
  split; [|vm_compute; reflexivity].
  apply (parse_terminates ex_fs (λ _, None) (λ _, []) ex_rank).
  - intros name data line Hd Hin Hp. unfold ex_fs in Hd.
    case_bool_decide as E1; [subst name; injection Hd as <-|case_bool_decide as E2; [|done]; injection Hd as <-].
    + vm_compute in Hin. apply elem_of_cons in Hin as [->|Hin]; [vm_compute; repeat constructor|].
      apply elem_of_cons in Hin as [->|Hin]; [discriminate Hp|by apply elem_of_nil in Hin].
    + vm_compute in Hin. apply elem_of_cons in Hin as [->|Hin]; [discriminate Hp|by apply elem_of_nil in Hin].
  - intros line Hin Hp. vm_compute in Hin. apply elem_of_cons in Hin as [->|Hin]; [vm_compute; repeat constructor|].
    by apply elem_of_nil in Hin.
Defined.

(** A file that includes itself is read for ever. *)
Theorem include_cycle fsys netip str sha1 fuel :
  fsys (bs "a") = Some (bs "@a") →
  parse_list fsys netip str fuel (bs "@a") = NoFuel ∧ checksum fsys sha1 fuel (bs "@a") = NoFuel.
Proof.
  intros Hf. assert (scan (bs "@a") = [bs "@a"]) as Hs by by vm_compute.
  assert (∀ A (rule : A → gostring → result A) fuel a, read_file fsys rule fuel (bs "a") a = NoFuel) as H.
  { clear fuel. intros A rule fuel. induction fuel as [|fuel IH]; intros a; [done|]. cbn [read_file].
    rewrite Hf, Hs. cbn [read_lines]. unfold read_line.
    change (include_path (bs "a") (bs "@a")) with (bs "a"). simpl. by rewrite IH. }
  unfold parse_list, checksum. rewrite Hs. cbn [read_lines]. unfold read_line.
  change (include_path [46] (bs "@a")) with (bs "a"). simpl. unfold parseFile, checksumFile.
  by rewrite !H.
Qed.

Lemma include_cycle_witness :
  parse_list (λ _, Some (bs "@a")) (λ _, None) (λ _, []) 100 (bs "@a") = NoFuel.
Proof. apply (include_cycle (λ _, Some (bs "@a")) (λ _, None) (λ _, []) (λ s, s)). reflexivity. Defined.

(** ** Rules *)

Inductive rule :=
  | RRange (r : AddrRange)
  | RPattern (pattern : gostring) (port : option gostring).

Definition port_of (suffix : gostring) : option gostring :=
  match suffix with [] => None | _ :: port => Some port end.

Definition pattern_rule (line : gostring) : rule :=
  let '(pattern, suffix) := pattern_of line in RPattern pattern (port_of suffix).

(** What a rule covers; patterns mean what package matchset says. *)
Definition covers (host port : gostring) (addr : Addr) (r : rule) : Prop :=
  match r with
  | RRange r => IsValid addr = true ∧ inside addr r
  | RPattern pattern p =>
      (pattern_spec (tokens pattern) host = true) ∧ (p = None ∨ p = Some port)
  end.

(** The settings hold the rules [rs]. *)
Definition holds_config (rs : list rule) (pattern : gostring) (c : option config) : Prop :=
  match c with
  | None => ∀ p, RPattern pattern p ∉ rs
  | Some None => RPattern pattern None ∈ rs
  | Some (Some ports) =>
      (RPattern pattern None ∉ rs) ∧ ∀ port, port ∈ ports ↔ RPattern pattern (Some port) ∈ rs
  end.

Record holds_rules (st : settings) (rs : list rule) : Prop := {
  hr_ranges : ∃ l, ipranges st = foldl AddrRange.Add [] l ∧ ∀ r, r ∈ l ↔ RRange r ∈ rs;
  hr_patterns : ∀ pattern, holds_config rs pattern (patterns st !! pattern) }.

Lemma holds_new : holds_rules no_settings [].
Proof.
  split; [exists []; split; [done|intros r; by rewrite !elem_of_nil]|].
  intros pattern. simpl. rewrite lookup_empty. intros p. apply not_elem_of_nil.
Qed.

Lemma elem_snoc_ne (rs : list rule) r r' : r ≠ r' → r ∈ rs ++ [r'] ↔ r ∈ rs.
Proof. intros Hne. rewrite elem_of_app, list_elem_of_singleton. split; [by intros [?|?]|by left]. Qed.

Lemma holds_other st rs pat p q :
  holds_rules st rs → pat ≠ q → holds_config (rs ++ [RPattern pat p]) q (patterns st !! q).
Proof.
  intros Hst Hq. pose proof (hr_patterns st rs Hst q) as H.
  assert (∀ x, RPattern q x ∈ rs ++ [RPattern pat p] ↔ RPattern q x ∈ rs) as Hne.
  { intros x. apply elem_snoc_ne. congruence. }
  unfold holds_config in *. destruct (patterns st !! q) as [[ports|]|]; setoid_rewrite Hne; done.
Qed.

Lemma holds_ranges st rs pat p :
  holds_rules st rs → ∃ l, ipranges st = foldl AddrRange.Add [] l ∧
    ∀ r, r ∈ l ↔ RRange r ∈ rs ++ [RPattern pat p].
Proof.
  intros [(l & E & Hl) _]. exists l. split; [done|]. intros r. by rewrite Hl, elem_snoc_ne.
Qed.

Lemma holds_insert st rs pat p c :
  holds_rules st rs → holds_config (rs ++ [RPattern pat p]) pat (Some c) →
  holds_rules (MkSettings (<[pat := c]> (patterns st)) (ipranges st)) (rs ++ [RPattern pat p]).
Proof.
  intros Hst Hc. split; [exact (holds_ranges st rs pat p Hst)|]. intros q. simpl.
  destruct (decide (pat = q)) as [<-|Hq]; [by rewrite lookup_insert_eq|].
  rewrite lookup_insert_ne by done. by apply holds_other.
Qed.

Lemma holds_same st rs pat p :
  holds_rules st rs → holds_config (rs ++ [RPattern pat p]) pat (patterns st !! pat) →
  holds_rules st (rs ++ [RPattern pat p]).
Proof.
  intros Hst Hc. split; [by apply holds_ranges|]. intros q.
  destruct (decide (pat = q)) as [<-|Hq]; [done|by apply holds_other].
Qed.

Lemma holds_add_pattern st rs line :
  holds_rules st rs → holds_rules (add_pattern st line) (rs ++ [pattern_rule line]).
Proof.
  intros Hst. unfold add_pattern, pattern_rule. destruct (pattern_of line) as [pat suffix].
  pose proof (hr_patterns st rs Hst pat) as Hp.
  assert (∀ x p, RPattern pat x ∈ rs ++ [RPattern pat p] ↔ RPattern pat x ∈ rs ∨ x = p) as Hin.
  { intros x p. rewrite elem_of_app, list_elem_of_singleton. naive_solver. }
  destruct suffix as [|x port]; [rewrite bool_decide_true by done|rewrite bool_decide_false by done].
  { apply holds_insert; [done|]. simpl. rewrite Hin. by right. }
  cbn [drop port_of]. rewrite drop_0. destruct (patterns st !! pat) as [[ports|]|] eqn:E; simpl in Hp.
  - destruct Hp as [H1 H2]. case_bool_decide as Hport.
    + apply holds_same; [done|]. rewrite E. simpl. rewrite Hin. split; [naive_solver|].
      intros q. rewrite Hin, H2. split; [by left|]. intros [?|[= ->]]; [done|by apply H2].
    + apply holds_insert; [done|]. simpl. rewrite Hin. split; [naive_solver|].
      intros q. rewrite Hin, elem_of_app, list_elem_of_singleton, H2. naive_solver.
  - apply holds_same; [done|]. rewrite E. simpl. rewrite Hin. by left.
  - apply holds_insert; [done|]. simpl. rewrite Hin. split; [naive_solver|].
    intros q. rewrite Hin, list_elem_of_singleton. naive_solver.
Qed.

(** What MatchAll needs of the patterns and the host. *)
Definition usable (ps : list (gostring * config)) (host : gostring) : Prop :=
  Forall (λ p, plain p.1 = true) ps ∧ Z.of_nat (total_length ps) <= 55040 ∧
  Forall byte_ok host ∧ Forall (λ p, clear_of (tokens p.1) host = true) ps.

Lemma match_covers st rs order set host port addr :
  holds_rules st rs → order ≡ₚ map_to_list (patterns st) → compile order = Some set →
  usable order host →
  match_ set (ipranges st) host port addr = true ↔ ∃ r, r ∈ rs ∧ covers host port addr r.
Proof.
  intros [(l & El & Hl) Hp] Ho Hc (H1 & H2 & H3 & H4).
  assert (∀ c, c ∈ MatchAll set host ↔ ∃ pat, patterns st !! pat = Some c ∧ pattern_spec (tokens pat) host = true) as Hm.
  { intros c. pose proof (MatchAll_delivers order host H1 H2 H3 H4) as H. unfold compile in Hc.
    rewrite Hc in H. destruct H as (_ & ks & Hks & ->). rewrite (elem_delivered host order ks c Hks).
    setoid_rewrite Ho. by setoid_rewrite elem_of_map_to_list. }
  assert (AddrRange.Contains (ipranges st) addr = true ↔ ∃ r, r ∈ l ∧ inside addr r) as Hr.
  { rewrite El. destruct (add_ranges_members l [] range_set_nil) as [R1 R2].
    rewrite Contains_member by done. rewrite R2. unfold member. rewrite Exists_nil. naive_solver. }
  unfold match_. destruct (IsValid addr && AddrRange.Contains (ipranges st) addr) eqn:Ei.
  - split; [intros _|done]. apply andb_true_iff in Ei as [Ev (r & Hin & Hr')%Hr].
    exists (RRange r). split; [by apply Hl|done].
  - rewrite existsb_exists. setoid_rewrite <- list_elem_of_In. split.
    + intros (c & (pat & Ec & Hs)%Hm & Hport). specialize (Hp pat). rewrite Ec in Hp.
      destruct c as [ports|]; simpl in Hp.
      * apply bool_decide_eq_true in Hport. exists (RPattern pat (Some port)).
        split; [by apply Hp|]. simpl. by auto.
      * exists (RPattern pat None). split; [done|]. simpl. by auto.
    + intros ([r|pat p] & Hin & Hcov); simpl in Hcov.
      * exfalso. destruct Hcov as [Hv Hin'].
        apply andb_false_iff in Ei as [Ei|Ei]; [congruence|].
        apply not_true_iff_false in Ei. apply Ei, Hr. exists r. by rewrite Hl.
      * destruct Hcov as [Hs Hport]. specialize (Hp pat).
        destruct (patterns st !! pat) as [[ports|]|] eqn:Ec; simpl in Hp.
        -- exists (Some ports). split; [apply Hm; eauto|]. apply bool_decide_eq_true, Hp.
           destruct Hp as [Hp _]. destruct Hport; subst; done.
        -- exists None. split; [apply Hm; eauto|done].
        -- by apply Hp in Hin.
Qed.
Section rules.
Context (netip : list Z → option IPPrefix) (str : Addr → gostring).

(** The rules of a line without its exclamation mark. *)
Definition line_rules (line : gostring) : list rule :=
  if ContainsByte line 47 then
    match ParsePrefix netip line with
    | None => []
    | Some (r, closed) => RRange r :: if closed then [pattern_rule (str (High r))] else []
    end
  else [pattern_rule line].

Definition include_rules (lines : list gostring) : list rule :=
  mjoin ((λ l, if HasPrefix l [33] then [] else line_rules l) <$> lines).
Definition exclude_rules (lines : list gostring) : list rule :=
  mjoin ((λ l, if HasPrefix l [33] then line_rules (drop 1 l) else []) <$> lines).

Lemma holds_add_line st rs line st' :
  holds_rules st rs → add_line netip str st line = Ok st' → holds_rules st' (rs ++ line_rules line).
Proof.
  intros Hst. unfold add_line, line_rules. destruct (ContainsByte line 47).
  2: { intros [= <-]. by apply holds_add_pattern. }
  destruct (ParsePrefix netip line) as [[r closed]|]; [|done].
  assert (holds_rules (MkSettings (patterns st) (AddrRange.Add (ipranges st) r)) (rs ++ [RRange r])) as Hr.
  { destruct Hst as [(l & E & Hl) Hp]. split.
    - exists (l ++ [r]). rewrite foldl_snoc, <- E. split; [done|]. intros q.
      rewrite !elem_of_app, !list_elem_of_singleton, Hl.
      split; (intros [?|Heq]; [by left|right; congruence]).
    - intros pat. simpl. specialize (Hp pat). unfold holds_config in *.
      assert (∀ x, RPattern pat x ∈ rs ++ [RRange r] ↔ RPattern pat x ∈ rs) as Hne.
      { intros x. by apply elem_snoc_ne. }
      destruct (patterns st !! pat) as [[ports|]|]; setoid_rewrite Hne; done. }
  destruct closed; simpl; intros [= <-]; [|done].
  rewrite (cons_middle (RRange r) rs), app_assoc. by apply holds_add_pattern.
Qed.

Lemma holds_fold lines p ri re p' :
  holds_rules (includes p) ri → holds_rules (excludes p) re →
  fold_rule (parse_rule netip str) lines p = Ok p' →
  holds_rules (includes p') (ri ++ include_rules lines) ∧
  holds_rules (excludes p') (re ++ exclude_rules lines).
Proof.
  revert p ri re. induction lines as [|line lines IH]; intros p ri re Hi He; cbn [fold_rule].
  { intros [= <-]. unfold include_rules, exclude_rules. simpl. by rewrite !app_nil_r. }
  unfold parse_rule at 1. unfold include_rules, exclude_rules. rewrite !fmap_cons. cbn [mjoin list_join].
  fold (include_rules lines) (exclude_rules lines).
  destruct (HasPrefix line [33]).
  - destruct (add_line netip str (excludes p) (drop 1 line)) as [st| |] eqn:E; [|done..].
    intros Hf. apply (IH _ ri (re ++ line_rules (drop 1 line))) in Hf; [|done|by eapply holds_add_line].
    by rewrite <- app_assoc in Hf.
  - destruct (add_line netip str (includes p) line) as [st| |] eqn:E; [|done..].
    intros Hf. apply (IH _ (ri ++ line_rules line) re) in Hf; [|by eapply holds_add_line|done].
    by rewrite <- app_assoc in Hf.
Qed.

End rules.

(** ** What a line says *)

Definition digits (port : gostring) : Prop := port ≠ [] ∧ Forall (λ c, is_digit c = true) port.

(** A line names hosts and perhaps a port: "host", "host:port", "[host]" or
    "[host]:port", where a host with a colon needs brackets to have a port. *)
Inductive names : gostring → option gostring → gostring → Prop :=
  | names_brackets host : names host None ([91] ++ host ++ [93])
  | names_brackets_port host port : digits port → names host (Some port) (([91] ++ host ++ [93]) ++ 58 :: port)
  | names_port host port : digits port → 58 ∉ host → (∀ h, host ≠ [91] ++ h ++ [93]) →
      names host (Some port) (host ++ 58 :: port)
  | names_host host : (∀ h, host ≠ [91] ++ h ++ [93]) →
      (∀ h port, digits port → host = h ++ 58 :: port → 58 ∈ h ∧ ∀ h', h ≠ [91] ++ h' ++ [93]) →
      names host None host.

Definition host_covers (line host port : gostring) : Prop :=
  ∃ hosts p, names hosts p line ∧ pattern_spec (tokens hosts) host = true ∧ (p = None ∨ p = Some port).

(** The addresses that share the bits of a prefix; zones do not matter. *)
Definition in_prefix (p : IPPrefix) (addr : Addr) : Prop :=
  BitLen addr = BitLen (pf_addr p) ∧
  bits_of addr / 2 ^ (BitLen addr - pf_bits p) = bits_of (pf_addr p) / 2 ^ (BitLen addr - pf_bits p).

(** The last address of the family of [a]. *)
Definition last_addr (a : Addr) : Addr :=
  match a with
  | AddrInvalid => AddrInvalid
  | Addr4 _ => Addr4 (2 ^ 32 - 1)
  | Addr6 _ _ => Addr6 (2 ^ 128 - 1) []
  end.

Definition addr_bits_ok (a : Addr) : Prop := 0 <= bits_of a < 2 ^ BitLen a.

(** netip.ParsePrefix: an address without a zone and a length that fits. *)
Definition netip_spec (netip : list Z → option IPPrefix) : Prop := ∀ s p, netip s = Some p →
  IsValid (pf_addr p) = true ∧ zone_of (pf_addr p) = [] ∧ addr_bits_ok (pf_addr p) ∧
  0 <= pf_bits p <= BitLen (pf_addr p).

(** A line with a slash is a prefix: its addresses, where the last address of
    the family is compared as a host; other lines name hosts. *)
Definition line_covers (netip : list Z → option IPPrefix) (str : Addr → gostring)
    (line host port : gostring) (addr : Addr) : Prop :=
  if ContainsByte line 47 then
    ∃ p, netip line = Some p ∧
      (IsValid addr = true ∧ in_prefix p addr ∧ bits_of addr ≠ 2 ^ BitLen addr - 1 ∨
       in_prefix p (last_addr (pf_addr p)) ∧ host_covers (str (last_addr (pf_addr p))) host port)
  else host_covers line host port.

Lemma LastIndexByte_Some (s : gostring) c i : LastIndexByte s c = Some i → s !! i = Some c.
Proof.
  revert i. induction s as [|b s IH]; intros i; simpl; [done|]. destruct (LastIndexByte s c) as [j|].
  - intros [= <-]. by apply IH.
  - destruct (Z.eqb_spec b c) as [->|]; [by intros [= <-]|done].
Qed.

Lemma bracketed_true (s : gostring) :
  HasPrefix s [91] && HasSuffix s [93] = true → ∃ h, s = [91] ++ h ++ [93] ∧ drop 1 (take (length s - 1) s) = h.
Proof.
  unfold HasPrefix, HasSuffix. rewrite !andb_true_iff, !bool_decide_eq_true. intros (H1 & H2 & H3).
  destruct s as [|c s]; [done|]. simpl in H1. injection H1 as ->.
  destruct s as [|x s _] using rev_ind; [done|]. simpl in *.
  rewrite length_app in *. simpl in *. rewrite Nat.add_1_r in *. simpl in *.
  rewrite drop_app_length in H3. injection H3 as ->. exists s. split; [done|]. by rewrite take_app_length.
Qed.

Lemma bracketed_brackets (h : gostring) : HasPrefix ([91] ++ h ++ [93]) [91] && HasSuffix ([91] ++ h ++ [93]) [93] = true.
Proof.
  unfold HasPrefix, HasSuffix. simpl. rewrite length_app. simpl. rewrite Nat.add_1_r. simpl.
  apply bool_decide_eq_true. apply drop_app_length.
Qed.

Lemma bracketed_false (s : gostring) :
  HasPrefix s [91] && HasSuffix s [93] = false ↔ ∀ h, s ≠ [91] ++ h ++ [93].
Proof.
  rewrite <- not_true_iff_false. split.
  - intros H h ->. by rewrite bracketed_brackets in H.
  - intros H (h & E & _)%bracketed_true. by apply (H h).
Qed.

Lemma port_suffix_some (h port : gostring) : digits port → port_suffix (h ++ 58 :: port) = 58 :: port.
Proof.
  intros [Hne Hd]. unfold port_suffix. rewrite LastIndexByte_app.
  - rewrite drop_app_length. simpl. rewrite drop_0, bool_decide_false by done. rewrite andb_true_r.
    destruct (forallb is_digit port) eqn:E; [done|]. apply not_true_iff_false in E. destruct E.
    apply forallb_forall. intros x Hx%list_elem_of_In. rewrite Forall_forall in Hd. by apply Hd.
  - intros Hin. rewrite Forall_forall in Hd. by apply Hd in Hin.
Qed.

Lemma port_suffix_split (s port : gostring) c :
  port_suffix s = c :: port → ∃ h, digits port ∧ s = h ++ 58 :: port.
Proof.
  unfold port_suffix. intros E. destruct (LastIndexByte s 58) as [i|] eqn:Ei; [|done].
  apply LastIndexByte_Some in Ei. destruct (_ && _) eqn:Ed in E; [|done].
  apply andb_true_iff in Ed as [E1 E2]. apply negb_true_iff, bool_decide_eq_false in E2.
  rewrite E in E1, E2. cbn [drop] in E1, E2. rewrite drop_0 in E1, E2.
  exists (take i s). split.
  - split; [done|]. apply Forall_forall. intros x Hx%list_elem_of_In. by apply (proj1 (forallb_forall is_digit port) E1).
  - pose proof (drop_S s 58 i Ei) as Hd. rewrite E in Hd. injection Hd as -> Hd.
    rewrite <- (take_drop_middle s i 58 Ei) at 1. by rewrite Hd.
Qed.

Lemma port_suffix_none (s : gostring) : (∀ h port, digits port → s ≠ h ++ 58 :: port) → port_suffix s = [].
Proof.
  intros H. destruct (port_suffix s) as [|c port] eqn:E; [done|].
  apply port_suffix_split in E as (h & Hd & ->). by destruct (H h port).
Qed.

Lemma port_suffix_cases (s : gostring) :
  (∃ h port, digits port ∧ s = h ++ 58 :: port) ∨ (∀ h port, digits port → s ≠ h ++ 58 :: port) ∧ port_suffix s = [].
Proof.
  destruct (port_suffix s) as [|c port] eqn:E.
  - right. split; [|done]. intros h port Hd ->. by rewrite port_suffix_some in E.
  - left. apply port_suffix_split in E as (h & H). by exists h, port.
Qed.

Lemma digits_end (s h port : gostring) : digits port → s ++ [93] ≠ h ++ 58 :: port.
Proof.
  intros [Hne Hd]. destruct port as [|c port _] using rev_ind; [done|].
  rewrite app_comm_cons, app_assoc. intros [_ <-]%app_inj_tail.
  apply Forall_app in Hd as [_ Hd]. by rewrite Forall_singleton in Hd.
Qed.

Lemma pattern_of_port (h port : gostring) : digits port →
  pattern_of (h ++ 58 :: port) =
  if HasPrefix h [91] && HasSuffix h [93] then (drop 1 (take (length h - 1) h), 58 :: port)
  else if ContainsByte h 58 then (h ++ 58 :: port, []) else (h, 58 :: port).
Proof.
  intros Hd. unfold pattern_of. rewrite port_suffix_some by done.
  rewrite (length_app h), Nat.add_sub, take_app_length, bool_decide_false by done. reflexivity.
Qed.

Lemma pattern_of_plain (s : gostring) : port_suffix s = [] →
  pattern_of s = if HasPrefix s [91] && HasSuffix s [93] then (drop 1 (take (length s - 1) s), []) else (s, []).
Proof.
  intros E. unfold pattern_of. rewrite E. simpl. rewrite Nat.sub_0_r, firstn_all. by case_match.
Qed.

Lemma names_pattern_of line : names (pattern_of line).1 (port_of (pattern_of line).2) line.
Proof.
  destruct (port_suffix_cases line) as [(h & port & Hd & ->)|[Hn E]].
  - rewrite pattern_of_port by done. destruct (HasPrefix h [91] && HasSuffix h [93]) eqn:Eb.
    { apply bracketed_true in Eb as (h' & -> & ->). by apply names_brackets_port. }
    pose proof (proj1 (bracketed_false h) Eb) as Hb. destruct (ContainsByte h 58) eqn:Ec.
    + apply ContainsByte_iff in Ec. apply names_host.
      * intros h' E. change ([91] ++ h' ++ [93]) with (([91] ++ h') ++ [93]) in E. by eapply digits_end.
      * intros h' port' Hd' E. pose proof (port_suffix_some h port Hd) as P. rewrite E in P.
        rewrite port_suffix_some in P by done. injection P as ->. apply app_inv_tail in E as ->. done.
    + apply ContainsByte_false in Ec. by apply names_port.
  - rewrite pattern_of_plain by done. destruct (HasPrefix line [91] && HasSuffix line [93]) eqn:Eb.
    + apply bracketed_true in Eb as (h' & -> & ->). apply names_brackets.
    + pose proof (proj1 (bracketed_false line) Eb). apply names_host; [done|]. intros h port Hd E'. by destruct (Hn h port).
Qed.

Lemma names_unique (h line : gostring) (p : option gostring) : names h p line → pattern_of line = (h, match p with Some port => 58 :: port | None => [] end).
Proof.
  assert (∀ h : gostring, drop 1 (take (length ([91] ++ h ++ [93]) - 1) ([91] ++ h ++ [93])) = h) as Hdr.
  { intros h'. destruct (bracketed_true _ (bracketed_brackets h')) as (h2 & E & ->).
    injection E as E. by apply app_inv_tail in E. }
  destruct 1 as [h|h port Hd|h port Hd Hc Hb|h Hb Hp].
  - rewrite pattern_of_plain.
    + by rewrite bracketed_brackets, Hdr.
    + apply port_suffix_none. intros h' port Hd. by apply (digits_end ([91] ++ h)).
  - rewrite pattern_of_port by done. by rewrite bracketed_brackets, Hdr.
  - rewrite pattern_of_port by done. by rewrite (proj2 (bracketed_false h) Hb), (proj2 (ContainsByte_false h 58) Hc).
  - destruct (port_suffix_cases h) as [(h' & port & Hd & E)|[_ E]].
    + destruct (Hp _ _ Hd E) as [Hc Hb']. rewrite E, pattern_of_port by done.
      by rewrite (proj2 (bracketed_false h') Hb'), (proj2 (ContainsByte_iff h' 58) Hc).
    + rewrite pattern_of_plain by done. by rewrite (proj2 (bracketed_false h) Hb).
Qed.

Lemma pattern_rule_covers line host port addr :
  covers host port addr (pattern_rule line) ↔ host_covers line host port.
Proof.
  pose proof (names_pattern_of line) as Hn. unfold pattern_rule. destruct (pattern_of line) as [h s] eqn:E. simpl in *. split.
  - intros [H1 H2]. by exists h, (port_of s).
  - intros (h' & p & Hn' & H1 & H2). apply names_unique in Hn'. rewrite E in Hn'. injection Hn' as -> ->. by destruct p.
Qed.

(** ** Prefixes *)

Lemma zoned_inside (six : bool) (z : list Z) lo hi a :
  inside (if six then Addr6 a z else Addr4 a) (Range (addr_of six lo) (addr_of six hi)) ↔ lo <= a < hi.
Proof.
  unfold inside, addr_le, addr_lt, Compare. destruct six; simpl.
  - destruct (Z.compare_spec lo a), (Z.compare_spec a hi), z; simpl; lia.
  - destruct (Z.compare_spec lo a), (Z.compare_spec a hi); simpl; lia.
Qed.

Lemma other_family six lo hi a :
  BitLen a ≠ width six → ¬ inside a (Range (addr_of six lo) (addr_of six hi)).
Proof.
  unfold inside, addr_le, addr_lt, Compare. intros Hb [H1 H2]. revert H1 H2. destruct a, six; simpl in *; try lia; done.
Qed.

Lemma prefix_covers p r closed addr :
  IsValid (pf_addr p) = true → zone_of (pf_addr p) = [] → addr_bits_ok (pf_addr p) →
  0 <= pf_bits p <= BitLen (pf_addr p) → addr_bits_ok addr → prefix_range p = Some (r, closed) →
  (IsValid addr = true ∧ inside addr r ↔
   IsValid addr = true ∧ in_prefix p addr ∧ bits_of addr ≠ 2 ^ BitLen addr - 1) ∧
  (closed = true ↔ in_prefix p (last_addr (pf_addr p))) ∧ (closed = true → High r = last_addr (pf_addr p)).
Proof.
  intros Hv Hz Ha Hb Hx Hr. destruct p as [a b]. cbn [pf_addr pf_bits] in *.
  assert (∃ six v, a = addr_of six v ∧ BitLen a = width six ∧ bits_of a = v ∧
    last_addr a = addr_of six (2 ^ width six - 1)) as (six & v & -> & Ew & Ev & El).
  { destruct a as [|v|v z]; [done|by exists false, v|]. simpl in Hz. subst z. by exists true, v. }
  unfold addr_bits_ok in Ha. rewrite Ew, Ev in *.
  rewrite prefix_range_addr_of in Hr by done. injection Hr as Hr. unfold half_open in Hr. rewrite Next_addr_of in Hr.
  unfold in_prefix. cbn [pf_addr pf_bits]. rewrite Ew, Ev, El.
  assert (BitLen (addr_of six (2 ^ width six - 1)) = width six) as -> by by destruct six.
  assert (bits_of (addr_of six (2 ^ width six - 1)) = 2 ^ width six - 1) as -> by by destruct six.
  assert (0 < 2 ^ (width six - b)) by lia.
  assert (2 ^ width six = 2 ^ b * 2 ^ (width six - b)) as Hw.
  { rewrite <- Z.pow_add_r by lia. f_equal. lia. }
  rewrite (same_prefix (2 ^ width six - 1)) by lia.
  set (base := v / 2 ^ (width six - b) * 2 ^ (width six - b)) in *.
  assert (base + 2 ^ (width six - b) <= 2 ^ width six) as Hle.
  { rewrite Hw. subst base. assert (v / 2 ^ (width six - b) < 2 ^ b); [|nia].
    apply Z.div_lt_upper_bound; [lia|]. lia. }
  assert (∀ hi, IsValid addr = true ∧ inside addr (Range (addr_of six base) (addr_of six hi)) ↔
    IsValid addr = true ∧ BitLen addr = width six ∧ base <= bits_of addr < hi) as Hin.
  { intros hi. destruct (decide (BitLen addr = width six)) as [Eb|Eb].
    - pose proof (zoned_inside six (zone_of addr) base hi (bits_of addr)) as Hi.
      assert ((if six then Addr6 (bits_of addr) (zone_of addr) else Addr4 (bits_of addr)) = addr) as Ea
        by (by destruct addr, six). rewrite Ea in Hi. rewrite Hi. tauto.
    - pose proof (other_family six base hi addr Eb). tauto. }
  assert (BitLen addr = width six ∧ bits_of addr / 2 ^ (BitLen addr - b) = v / 2 ^ (BitLen addr - b) ↔
    BitLen addr = width six ∧ base <= bits_of addr <= base + 2 ^ (width six - b) - 1) as ->.
  { split; intros [Eb Hs]; rewrite Eb in *; (split; [done|]);
      [rewrite same_prefix in Hs by lia|rewrite same_prefix by lia]; exact Hs. }
  unfold addr_bits_ok in Hx.
  destruct (Z.eqb_spec (base + 2 ^ (width six - b) - 1) (2 ^ width six - 1)) as [E|E].
  - simpl in Hr. injection Hr as <- <-. rewrite Hin.
    split; [|split; [split; [split; [by destruct six|lia]|done]|intros _; simpl; by f_equal]].
    split; intros (Hva & Hbl & Hrest); [|destruct Hbl as [Hbl ?]]; rewrite Hbl in *; split_and!; done || lia.
  - assert (IsValid (addr_of six (base + 2 ^ (width six - b) - 1 + 1)) = true) as Hva by by destruct six.
    rewrite Hva in Hr. injection Hr as <- <-. rewrite Hin. split; [|split; [split; [done|lia]|done]].
    split; intros (Hva' & Hbl & Hrest); [|destruct Hbl as [Hbl ?]]; rewrite Hbl in *; split_and!; done || lia.
Qed.

Lemma line_rules_cover netip str line host port addr : netip_spec netip → addr_bits_ok addr →
  (∃ r, r ∈ line_rules netip str line ∧ covers host port addr r) ↔ line_covers netip str line host port addr.
Proof.
  intros Hn Ha. unfold line_rules, line_covers. destruct (ContainsByte line 47).
  2: { setoid_rewrite list_elem_of_singleton. rewrite <- (pattern_rule_covers line host port addr). naive_solver. }
  unfold ParsePrefix. destruct (netip line) as [p|] eqn:Ep.
  2: { setoid_rewrite elem_of_nil. naive_solver. }
  destruct (Hn _ _ Ep) as (Hv & Hz & Hb & Hl).
  destruct (prefix_range p) as [[r closed]|] eqn:Er.
  2: { destruct p as [[|v|v z] b]; [done|simpl in Er; discriminate..]. }
  destruct (prefix_covers _ _ _ addr Hv Hz Hb Hl Ha Er) as (H1 & H2 & H3).
  setoid_rewrite elem_of_cons. destruct closed; simpl.
  - rewrite (H3 eq_refl). setoid_rewrite list_elem_of_singleton. split.
    + intros (r' & [->| ->] & Hc).
      * exists p. split; [done|]. left. by apply H1.
      * apply pattern_rule_covers in Hc. exists p. split; [done|]. right. split; [by apply H2|done].
    + intros (p' & [= <-] & [Hc|[_ Hc] ]).
      * exists (RRange r). split; [by left|]. by apply H1.
      * eexists. split; [by right|]. by apply pattern_rule_covers.
  - setoid_rewrite elem_of_nil. split.
    + intros (r' & [->|[] ] & Hc). exists p. split; [done|]. left. by apply H1.
    + intros (p' & [= <-] & [Hc|[Hc _] ]).
      * exists (RRange r). split; [by left|]. by apply H1.
      * by apply H2 in Hc.
Qed.

Lemma elem_include_rules netip str lines r :
  r ∈ include_rules netip str lines ↔ ∃ line, line ∈ lines ∧ HasPrefix line [33] = false ∧ r ∈ line_rules netip str line.
Proof.
  unfold include_rules. rewrite list_elem_of_join. setoid_rewrite list_elem_of_fmap. split.
  - intros (rs & Hr & line & -> & Hin). destruct (HasPrefix line [33]) eqn:E; [by apply elem_of_nil in Hr|]. by exists line.
  - intros (line & Hin & E & Hr). exists (line_rules netip str line). split; [done|]. exists line. by rewrite E.
Qed.

Lemma elem_exclude_rules netip str lines r :
  r ∈ exclude_rules netip str lines ↔ ∃ line, 33 :: line ∈ lines ∧ r ∈ line_rules netip str line.
Proof.
  unfold exclude_rules. rewrite list_elem_of_join. setoid_rewrite list_elem_of_fmap. split.
  - intros (rs & Hr & line & -> & Hin). destruct (HasPrefix line [33]) eqn:E; [|by apply elem_of_nil in Hr].
    destruct line as [|c line]; [done|]. unfold HasPrefix in E. apply bool_decide_eq_true in E. simpl in E.
    injection E as ->. by exists line.
  - intros (line & Hin & Hr). exists (line_rules netip str line). split; [done|]. exists (33 :: line). done.
Qed.

(** C12: an allow list allows a host, port and address exactly when a line of
    it, or of the files it includes, that is not marked with "!" covers them
    and no line marked with "!" does: a CIDR covers the addresses that share
    its bits (the last address of the family is compared as a host name),
    another line is "host", "host:port", "[host]" or "[host]:port" and covers
    the hosts its pattern means, on its port if it has one. The patterns are
    assumed to be plain (bytes from 5 on, not both "*" and "**") and at most
    55040 bytes together, and the host not to meet the two corner cases of
    leading and trailing dots (`clear_of`); netip.ParsePrefix is assumed to
    give zoneless addresses and lengths that fit. *)
Theorem Allow_correct fsys netip str fuel What p inc exc l host port addr :
  netip_spec netip → addr_bits_ok addr →
  parse_list fsys netip str fuel What = Ok p →
  inc ≡ₚ map_to_list (patterns (includes p)) → exc ≡ₚ map_to_list (patterns (excludes p)) →
  Init p inc exc = Some l → usable inc host → usable exc host →
  ∃ lines, expand fsys fuel (bs ".") (scan What) [] = Ok lines ∧
    (Allow l host port addr = true ↔
     (∃ line, line ∈ lines ∧ HasPrefix line [33] = false ∧ line_covers netip str line host port addr) ∧
     ¬ ∃ line, 33 :: line ∈ lines ∧ line_covers netip str line host port addr).
Proof.
  intros Hn Ha Hp Hi He Hl Ui Ue. unfold parse_list, parseFile in Hp.
  pose proof (read_expand fsys (parse_rule netip str) fuel (bs ".") (scan What) new_parser) as R.
  change [46] with (bs ".") in Hp.
  destruct (expand fsys fuel (bs ".") (scan What) []) as [lines| |]; [|by destruct (R p)..].
  exists lines. split; [done|]. rewrite Hp in R. symmetry in R.
  destruct (holds_fold netip str lines new_parser [] [] p holds_new holds_new R) as [Ri Re].
  unfold Init in Hl. destruct (compile inc) as [si|] eqn:Ci; [|done].
  destruct (compile exc) as [se|] eqn:Ce; [|done]. injection Hl as <-.
  unfold Allow. cbn. rewrite andb_true_iff, negb_true_iff, <- not_true_iff_false.
  rewrite (match_covers _ _ _ _ host port addr Ri Hi Ci Ui), (match_covers _ _ _ _ host port addr Re He Ce Ue). simpl.
  setoid_rewrite elem_include_rules. setoid_rewrite elem_exclude_rules.
  setoid_rewrite <- (line_rules_cover netip str _ host port addr Hn Ha). naive_solver.
Qed.

(** ** Witnesses *)

Definition ex_what : gostring :=
  bs "@lists/a.txt" ++ [10] ++ bs "10.0.0.0/8" ++ [10] ++ bs "example.org" ++ [10] ++ bs "example.org:80".

Definition ex_prefix (s : list Z) : option IPPrefix :=
  if bool_decide (s = bs "10.0.0.0/8") then Some (MkPrefix (Addr4 (10 * 2 ^ 24)) 8) else None.

Lemma ex_prefix_spec : netip_spec ex_prefix.
Proof.
  intros s p. unfold ex_prefix. case_bool_decide; [|done]. intros [= <-].
  by split_and!.
Qed.

Definition ex_parser : parser :=
  match parse_list ex_fs ex_prefix (λ _, []) 2 ex_what with Ok p => p | _ => new_parser end.

Definition ex_inc : list (gostring * config) := map_to_list (patterns (includes ex_parser)).
Definition ex_exc : list (gostring * config) := map_to_list (patterns (excludes ex_parser)).

Lemma Allow_correct_witness :
  match Init ex_parser ex_inc ex_exc with
  | None => False
  | Some l => Allow l (bs "www.example.com") (bs "443") AddrInvalid = true
  end.
Proof.
  destruct (Init ex_parser ex_inc ex_exc) as [l|] eqn:El; [|vm_compute in El; discriminate].
  destruct (Allow_correct ex_fs ex_prefix (λ _, []) 2 ex_what ex_parser ex_inc ex_exc l
    (bs "www.example.com") (bs "443") AddrInvalid) as (lines & E & H);
    [exact ex_prefix_spec|exact (conj (Z.le_refl 0) Z.lt_0_1)|vm_compute; reflexivity|reflexivity|reflexivity|exact El| | |].
  - unfold usable. split_and!; by_compute.
  - unfold usable. split_and!; by_compute.
  - assert (lines = [bs ".com:443"; bs "!*.uk"; bs "10.0.0.0/8"; bs "example.org"; bs "example.org:80"]) as ->.
    { vm_compute in E. injection E as <-. vm_compute. reflexivity. }
    apply H. split.
    + exists (bs ".com:443"). split_and!; [left|reflexivity|]. exists (bs ".com"), (Some (bs "443")).
      split_and!; [|vm_compute; reflexivity|by right]. apply (names_pattern_of (bs ".com:443")).
    + intros (line & Hin & Hc). rewrite !elem_of_cons in Hin.
      destruct Hin as [Hin|[Hin|[Hin|[Hin|[Hin|Hin]]]]];
        [discriminate Hin| |discriminate Hin|discriminate Hin|discriminate Hin|by apply elem_of_nil in Hin].
      injection Hin as ->. destruct Hc as (h & q & Hq%names_unique & Hc & _).
      vm_compute in Hq. injection Hq as <- Hq. vm_compute in Hc. discriminate Hc.
Defined.

Lemma checksum_determines_witness :
  parse_list ex_fs ex_prefix (λ _, []) 2 (bs "@lists/a.txt") =
  parse_list (λ _, None) ex_prefix (λ _, []) 0 (bs " .com:443 " ++ [10; 10] ++ bs "!*.uk").
Proof.
  destruct (checksum_determines ex_fs (λ _, None) ex_prefix (λ _, []) (λ s, s) 2 0
    (bs "@lists/a.txt") (bs " .com:443 " ++ [10; 10] ++ bs "!*.uk")
    (bs ".com:443" ++ [10] ++ bs "!*.uk" ++ [10])) as [H|(s & t & Hne & E)];
    [vm_compute; reflexivity|vm_compute; reflexivity|exact H|by destruct Hne].
Defined.
