(* ===== verification/Http.v ===== *)
(** * The http service (service/http/http.go).

    The options with their routes, the LoadEvent that keeps or rebuilds the
    allow lists, and how a request finds its route and proxy.  The standard
    library's HTTP server and transport are left out.  The caches that the
    options point to live in a heap. *)

From S2P Require Import Prelude GoStrings Url Proxy Dial Defaults Jobs Addr AddrRange Prefix MatchSet MatchProof AllowList.

Section http.
Context {C : Type}.
Context (fsys : gostring → option gostring) (netip_ParsePrefix : list Z → option IPPrefix).
Context (Addr_String : Addr → gostring) (sha1 : gostring → gostring) (hex : gostring → gostring).
Context (ParseAddr : gostring → option Addr) (Unmap : Addr → Addr).
Context (fuel : nat).   (* how deep files may include files *)

Record RouteOptions := MkRouteOptions {
  ro_Name : gostring; ro_What : gostring; ro_Checksum : gostring; ro_Proxy : Proxy.Proxy C }.

(** An allow list with what it was made from. *)
Record listed := MkListed { al_What : gostring; al_Checksum : gostring; al_list : allowList }.

Record route := MkRoute { rt_Name : gostring; rt_AllowList : listed; rt_Proxy : Proxy.Proxy C }.

Record Options := MkOptions {
  o_ListenAddr : gostring;
  o_Proxy : Proxy.Proxy C;
  o_Routes : list RouteOptions;
  o_Redirects : gmap gostring gostring;
  o_RewriteHosts : gmap gostring gostring;
  o_Conn : ConnOptions;
  o_Relay : RelayOptions;
  o_routes : list route;
  o_routeCache : option nat;
  o_allowListMap : gmap gostring listed }.

Definition zero : Options :=
  MkOptions [] (MkProxy None []) [] ∅ ∅ zero_conn zero_relay [] None ∅.

(** The route caches, and the tables of the handler. *)
Record state := MkState {
  caches : list (gmap gostring route);
  redirects : gmap gostring gostring;
  rwhosts : gmap gostring gostring }.

Definition route_equal (r other : RouteOptions) : bool :=
  bool_decide (ro_Name r = ro_Name other) && bool_decide (ro_Checksum r = ro_Checksum other) &&
  Equal (ro_Proxy r) (ro_Proxy other).

Fixpoint routesEqual (a b : list RouteOptions) : bool :=
  match a, b with
  | [], [] => true
  | r :: a, s :: b => route_equal r s && routesEqual a b
  | _, _ => false
  end.

(** A missing key reads as the empty string. *)
Definition mapEqual (a b : gmap gostring gostring) : bool :=
  (size a =? size b)%nat &&
  forallb (λ '(k, v), bool_decide (default [] (b !! k) = v)) (map_to_list a).

(** ** LoadEvent *)

(** The first loop: names and checksums. *)
Definition name_route (i : nat) (r : RouteOptions) : result RouteOptions :=
  let name := ro_Name r in
  let name :=
    if bool_decide (name = []) then
      match scanLines (ro_What r) with
      | (advance, token) => if (advance =? length (ro_What r))%nat then default [] token else name
      end
    else name in
  let name := if bool_decide (name = []) then [35] ++ Itoa (Z.of_nat i) else name in
  sum ← checksum fsys sha1 fuel (ro_What r);
  Ok (MkRouteOptions name (ro_What r) (hex sum) (ro_Proxy r)).

Fixpoint name_routes (i : nat) (l : list RouteOptions) : result (list RouteOptions) :=
  match l with
  | [] => Ok []
  | r :: l =>
      r ← name_route i r;
      l ← name_routes (S i) l;
      Ok (r :: l)
  end.

(** [l.Init]: the patterns are added in the order of [map_to_list]; an [Add]
    that never ends is out of fuel, like files without end. *)
Definition init_list (What Checksum : gostring) : result listed :=
  p ← parse_list fsys netip_ParsePrefix Addr_String fuel What;
  l ← or_stuck (Init p (map_to_list (patterns (includes p))) (map_to_list (patterns (excludes p))));
  Ok (MkListed What Checksum l).

(** The second loop, with [old.allowListMap]. *)
Fixpoint build_routes (old : gmap gostring listed) (l : list RouteOptions)
    (routes : list route) (m : gmap gostring listed) : result (list route * gmap gostring listed) :=
  match l with
  | [] => Ok (routes, m)
  | r :: l =>
      al ← match old !! ro_Name r with
           | Some al =>
               if bool_decide (al_Checksum al = ro_Checksum r) then Ok al
               else init_list (ro_What r) (ro_Checksum r)
           | None => init_list (ro_What r) (ro_Checksum r)
           end;
      build_routes old l (routes ++ [MkRoute (ro_Name r) al (ro_Proxy r)]) (<[ro_Name r := al]> m)
  end.

Definition with_routes (o : Options) (Routes : list RouteOptions) (routes : list route)
    (cache : option nat) (m : gmap gostring listed) : Options :=
  MkOptions (o_ListenAddr o) (o_Proxy o) Routes (o_Redirects o) (o_RewriteHosts o) (o_Conn o)
    (o_Relay o) routes cache m.

Definition J := Jobs.J Options state.

(** An error makes Run return; what does not end keeps it. *)
Definition or_exit {A} (m : result A) : J A :=
  match m with Ok a => mret a | Err => exit | NoFuel => hang end.

(** [&sync.Map{}] *)
Definition new_cache : J (option nat) :=
  x ← get_extra;
  _ ← put_extra (MkState (caches x ++ [∅]) (redirects x) (rwhosts x));
  mret (Some (length (caches x))).

Definition setRedirects (m : gmap gostring gostring) : J unit :=
  x ← get_extra; put_extra (MkState (caches x) m (rwhosts x)).
Definition setRewriteHosts (m : gmap gostring gostring) : J unit :=
  x ← get_extra; put_extra (MkState (caches x) (redirects x) m).

(** The part of LoadEvent that is about routes: the new options. *)
Definition load_routes (new old : Options) : J Options :=
  Routes ← or_exit (name_routes 0 (o_Routes new));
  if routesEqual Routes (o_Routes old) then
    mret (with_routes new Routes (o_routes old) (o_routeCache old) (o_allowListMap old))
  else
    '(routes, m) ← or_exit (build_routes (o_allowListMap old) Routes [] ∅);
    cache ← match routes with [] => mret None | _ => new_cache end;
    mret (with_routes new Routes routes cache m).

Definition LoadEvent_ (new : Options) : J unit :=
  old ← optsOut;
  _ ← check_addr (o_ListenAddr new);
  _ ← (if bool_decide (o_ListenAddr new = o_ListenAddr old) then mret tt else stopServer);
  new ← load_routes new old;
  _ ← (if mapEqual (o_Redirects new) (o_Redirects old) then mret tt
       else setRedirects (o_Redirects new));
  _ ← (if mapEqual (o_RewriteHosts new) (o_RewriteHosts old) then mret tt
       else setRewriteHosts (o_RewriteHosts new));
  optsIn new.

#[export] Instance http : Service Options state := {
  zero_opts := zero;
  init_extra := MkState [] ∅ ∅;
  ListenAddr := o_ListenAddr;
  watch_down := true;
  on_load _ := LoadEvent_;
  on_loaded := startServer o_ListenAddr;
  on_exit := mret tt }.

Definition Run := Jobs.Run (O := Options) (X := state).

(** ** Requests *)

(** Host, port and address of [getopts]. *)
Definition split_addr (addr : gostring) : gostring * gostring * Addr :=
  let '(host, port) := default ([], []) (SplitHostPort addr) in
  match ParseAddr host with
  | Some a => if IsValid a then (Addr_String (Unmap a), port, Unmap a) else (host, port, a)
  | None => (host, port, AddrInvalid)
  end.

Definition first_route (routes : list route) (addr : gostring) : option route :=
  let '(host, port, addr1) := split_addr addr in
  head (filter (λ r, Allow (al_list (rt_AllowList r)) host port addr1 = true) routes).

(** [getopts] on the options it has read: the proxy to use, and whether the
    options were there. *)
Definition getopts (c : cell) (cs : list (gmap gostring route)) (addr : gostring)
    : Proxy.Proxy C * bool * list (gmap gostring route) :=
  let '(opts, ok) := cell_read zero c in
  match o_routeCache opts with
  | None => (o_Proxy opts, ok, cs)
  | Some p =>
      match (cs !!! p) !! addr with
      | Some r => (rt_Proxy r, ok, cs)
      | None =>
          match first_route (o_routes opts) addr with
          | Some r => (rt_Proxy r, ok, <[p := <[addr := r]> (cs !!! p)]> cs)
          | None => (o_Proxy opts, ok, cs)
          end
      end
  end.

(** [getRemote] of CONNECT, upgrade and plain requests. *)
Definition getRemote (c : cell) (cs : list (gmap gostring route)) (addr : gostring)
    : (dial_error + (Dialer C * gostring)) * list (gmap gostring route) :=
  let '(p, ok, cs) := getopts c cs addr in
  if negb ok then (inl Dial.CloseConn, cs) else (inr (proxy_Dialer p, addr), cs).

Definition rewriteHost (x : state) (host : gostring) : gostring :=
  let s := default [] (rwhosts x !! host) in
  if negb (bool_decide (s = [])) && ContainsByte s 58 then s else host.

(** Where a request is redirected to; [u_String] prints a URL. *)
Definition handleRedirect (netip : gostring → option bool) (u_String : URL → gostring)
    (x : state) (Host Path : gostring) : option gostring :=
  match default [] (redirects x !! Host) with
  | [] => None
  | s =>
      match Parse netip s with
      | None => None
      | Some u =>
          Some (u_String (MkURL (u_Scheme u) (u_Opaque u) (u_User u) (u_Host u)
            (cmp_Or (u_Path u) Path) (u_RawQuery u) (u_Fragment u)))
      end
  end.

(** ** The laws *)

Definition finish (new old : Options) : J Options :=
  new ← load_routes new old;
  _ ← (if mapEqual (o_Redirects new) (o_Redirects old) then mret tt
       else setRedirects (o_Redirects new));
  _ ← (if mapEqual (o_RewriteHosts new) (o_RewriteHosts old) then mret tt
       else setRewriteHosts (o_RewriteHosts new));
  mret new.

Lemma or_exit_quiet {A} (m : result A) : quiet (or_exit m).
Proof. destruct m; eauto with jobs. Qed.

Lemma load_routes_quiet new old : quiet (load_routes new old).
Proof.
  unfold load_routes, new_cache. apply quiet_bind; [apply or_exit_quiet|]. intros Routes.
  destruct (routesEqual _ _); [eauto with jobs|]. apply quiet_bind; [apply or_exit_quiet|].
  intros [routes m]. destruct routes; eauto 10 with jobs.
Qed.

Lemma finish_quiet new old : quiet (finish new old).
Proof.
  unfold finish, setRedirects, setRewriteHosts. apply quiet_bind; [apply load_routes_quiet|]. intros o.
  apply quiet_bind; [destruct (mapEqual _ _); eauto with jobs|]. intros [].
  apply quiet_bind; [destruct (mapEqual _ _); eauto with jobs|]. eauto with jobs.
Qed.

Lemma load_routes_addr new old s n s' :
  load_routes new old s = (Val n, s') → o_ListenAddr n = o_ListenAddr new.
Proof.
  unfold load_routes. intros E. apply bind_inv in E as [(Routes & s1 & _ & E)|[[=] _]].
  destruct (routesEqual _ _); [by injection E as <- _|].
  apply bind_inv in E as [([routes m] & s2 & _ & E)|[[=] _]].
  apply bind_inv in E as [(cache & s3 & _ & E)|[[=] _]]. by injection E as <- _.
Qed.

Lemma finish_inv new old s n s' :
  finish new old s = (Val n, s') → ∃ s1, load_routes new old s = (Val n, s1) ∧ caches (extra s') = caches (extra s1).
Proof.
  unfold finish. intros E. apply bind_inv in E as [(o & s1 & E1 & E)|[[=] _]].
  apply bind_inv in E as [([] & s2 & E2 & E)|[[=] _]].
  apply bind_inv in E as [([] & s3 & E3 & E)|[[=] _]]. injection E as <- <-. exists s1.
  split; [done|]. revert E3 E2. do 2 destruct (mapEqual _ _); by intros [= <-] [= <-].
Qed.

Lemma finish_addr new old s n s' :
  finish new old s = (Val n, s') → o_ListenAddr n = o_ListenAddr new.
Proof. intros (s1 & E & _)%finish_inv. by eapply load_routes_addr. Qed.
#[local] Hint Resolve finish_quiet finish_addr : jobs.

Lemma http_LoadEvent_shape new s :
  LoadEvent_ new s = load_body o_ListenAddr new (λ _, mret tt) (λ old _, finish new old) s.
Proof.
  unfold LoadEvent_, load_body, finish. unfold mbind, J_bind, optsOut, mret, J_ret.
  destruct (check_addr (o_ListenAddr new) s) as [[[]|h] s1]; [|done].
  destruct (if bool_decide _ then _ else _) as [[[]|] s2]; [|done].
  destruct (load_routes new (opts s) s2) as [[n|] s3]; [|done].
  destruct (if mapEqual (o_Redirects n) _ then _ else _) as [[[]|] s4]; [|done].
  by destruct (if mapEqual (o_RewriteHosts n) _ then _ else _) as [[[]|] s5].
Qed.

#[export] Instance http_laws : ServiceLaws Options state.
Proof.
  refine (service_laws (λ _ _, mret tt) (λ new old _, finish new old) _ _ _ _ _ _);
    try (intros; apply http_LoadEvent_shape); job_obligations.
Qed.

#[export] Instance http_keeps : KeepsServer Options state.
Proof.
  refine (service_keeps (λ _ _, mret tt) (λ new old _, finish new old) _ _ _ _ _ _);
    try (intros; apply http_LoadEvent_shape); job_obligations.
Qed.
End http.
