(* ===== verification/HttpSpec.v ===== *)
(** * Routes of the http service.

    Reloads keep allow lists by checksum; requests go through caches.  Both
    are shown to make no difference. *)

From S2P Require Import Prelude GoStrings Url Proxy Dial Defaults Jobs Addr AddrRange Prefix MatchSet MatchProof AllowList AllowSpec Http.

Section spec.
Context {C : Type} (netip_ParsePrefix : list Z → option IPPrefix) (Addr_String : Addr → gostring).
Context (sha1 hex : gostring → gostring) (ParseAddr : gostring → option Addr) (Unmap : Addr → Addr).
Context (fuel : nat).

Abbreviation Options := (@Http.Options C) (only parsing).
Abbreviation http fs := (@Http.http C fs netip_ParsePrefix Addr_String sha1 hex fuel) (only parsing).
Abbreviation init_list fs := (Http.init_list fs netip_ParsePrefix Addr_String fuel) (only parsing).

(** One event that the job survives, with the files as they are then. *)
Definition job_step (s s' : job Options (@state C)) : Prop :=
  ∃ fs listen e, @handle _ _ (http fs) listen e s = (Val tt, s').

Definition job_start : job Options (@state C) := MkJob zero None (MkState [] ∅ ∅) [].

Definition job_reach : job Options (@state C) → Prop := rtc job_step job_start.

(** ** Keeping lists by checksum *)

(** A list was made from its [What], with the files as they were. *)
Definition made (l : listed) : Prop :=
  ∃ fs sum, checksum fs sha1 fuel (al_What l) = Ok sum ∧ hex sum = al_Checksum l ∧
    init_list fs (al_What l) (al_Checksum l) = Ok l.

Definition route_for (r : route (C := C)) (ro : RouteOptions) : Prop :=
  rt_Name r = ro_Name ro ∧ al_Checksum (rt_AllowList r) = ro_Checksum ro ∧
  Equal (rt_Proxy r) (ro_Proxy ro) = true ∧ made (rt_AllowList r).

Record routes_ok (o : Options) : Prop := {
  rk_routes : Forall2 route_for (o_routes o) (o_Routes o);
  rk_map : map_Forall (λ name l, made l) (o_allowListMap o);
  rk_cache : o_routeCache o = None ↔ o_routes o = [] }.

(** What the first loop of LoadEvent knows of a route. *)
Definition summed (fs : gostring → option gostring) (ro : @RouteOptions C) : Prop :=
  ∃ sum, checksum fs sha1 fuel (ro_What ro) = Ok sum ∧ hex sum = ro_Checksum ro.

(** The [i]th route by another name: its own, or its only line, or its number. *)
Definition named (i : nat) (ro ro' : @RouteOptions C) : Prop :=
  ro_What ro' = ro_What ro ∧ ro_Proxy ro' = ro_Proxy ro ∧
  (ro_Name ro ≠ [] ∧ ro_Name ro' = ro_Name ro ∨
   ro_Name ro = [] ∧ (scan (ro_What ro) = [ro_Name ro'] ∨ ro_Name ro' = [35] ++ Itoa (Z.of_nat i))).

Lemma name_route_named fs i r r' : name_route fs sha1 hex fuel i r = Ok r' → named i r r' ∧ summed fs r'.
Proof.
  unfold name_route, named. cbv zeta. intros (sum & Hsum & [= <-])%bind_Ok. cbn [ro_What ro_Proxy ro_Name].
  split; [|by exists sum]. split_and!; [done..|].
  destruct (decide (ro_Name r = [])) as [H0|H0].
  2: { left. rewrite (bool_decide_false (ro_Name r = [])) by done. by rewrite bool_decide_false. }
  right. split; [done|]. rewrite (bool_decide_true (ro_Name r = [])) by done.
  destruct (scanLines (ro_What r)) as [n t] eqn:E.
  unfold scanLines in E. pose proof (scan_again_lines (S (length (ro_What r))) (ro_What r) 0) as Hs.
  rewrite drop_0 in Hs. specialize (Hs ltac:(lia)). rewrite E in Hs.
  case_bool_decide as H1; [by right|]. destruct (Nat.eqb_spec n (length (ro_What r))) as [->|]; [|done].
  destruct t as [t|]; [|done]. left. destruct Hs as [Hs _]. simpl.
  rewrite scan_lines_of, Hs, drop_all. done.
Qed.

Lemma name_routes_named fs i l l' : name_routes fs sha1 hex fuel i l = Ok l' →
  length l' = length l ∧ Forall (summed fs) l' ∧
  ∀ k r', l' !! k = Some r' → ∃ r, l !! k = Some r ∧ named (i + k) r r'.
Proof.
  revert i l'. induction l as [|r l IH]; intros i l'; cbn [name_routes]; [by intros [= <-]|].
  intros (r' & [Hr Hs]%name_route_named & H)%bind_Ok. apply bind_Ok in H as (l2 & Hl & [= <-]).
  destruct (IH _ _ Hl) as (H1 & H2 & H3). split_and!; [simpl; by rewrite H1|by constructor|].
  intros [|k] r2; simpl; [intros [= <-]; exists r; by rewrite Nat.add_0_r|].
  intros (r1 & ? & ?)%H3. exists r1. by rewrite Nat.add_succ_r.
Qed.

Lemma init_list_fields fs What c l :
  init_list fs What c = Ok l → al_What l = What ∧ al_Checksum l = c.
Proof.
  unfold Http.init_list. intros (p & _ & H)%bind_Ok. by apply bind_Ok in H as (l' & _ & [= <-]).
Qed.

Lemma build_routes_ok fs old l routes m routes' m' ros :
  map_Forall (λ _ l, made l) old → Forall (summed fs) l →
  Forall2 route_for routes ros → map_Forall (λ _ l, made l) m →
  build_routes fs netip_ParsePrefix Addr_String fuel old l routes m = Ok (routes', m') →
  Forall2 route_for routes' (ros ++ l) ∧ map_Forall (λ _ l, made l) m'.
Proof.
  intros Hold. revert routes m ros. induction l as [|r l IH]; intros routes m ros Hl Hr Hm;
    cbn [build_routes].
  { intros [= <- <-]. by rewrite app_nil_r. }
  apply Forall_cons in Hl as [(sum & Hsum & Hhex) Hl]. intros (al & Hal & H)%bind_Ok.
  assert (made al ∧ al_Checksum al = ro_Checksum r) as [Ha Hc].
  { assert (∀ al, init_list fs (ro_What r) (ro_Checksum r) = Ok al →
      made al ∧ al_Checksum al = ro_Checksum r) as Hnew.
    { intros l0 E. destruct (init_list_fields _ _ _ _ E) as [E1 E2]. split; [|done].
      exists fs, sum. by rewrite E1, E2. }
    destruct (old !! ro_Name r) as [al0|] eqn:Eo; [|by apply Hnew].
    case_bool_decide; [|by apply Hnew]. injection Hal as <-. split; [by eapply Hold|done]. }
  apply (IH _ _ (ros ++ [r])) in H.
  - by rewrite <- app_assoc in H.
  - done.
  - apply Forall2_app; [done|]. repeat constructor; try done. apply bool_decide_eq_true. done.
  - by apply map_Forall_insert_2.
Qed.

Lemma routesEqual_for a b routes :
  routesEqual a b = true → Forall2 route_for routes b → Forall2 route_for routes a.
Proof.
  revert b routes. induction a as [|r a IH]; intros [|s b] routes; simpl; try done.
  intros [Hrs Hab]%andb_true_iff Hf. apply Forall2_cons_inv_r in Hf as (rt & rts & Hrt & Hf & ->).
  constructor; [|by eapply IH]. unfold route_equal in Hrs.
  rewrite !andb_true_iff, !bool_decide_eq_true in Hrs. destruct Hrs as [[Hn Hc] He].
  destruct Hrt as (H1 & H2 & H3 & H4). unfold route_for. split_and!; [congruence..| |done].
  unfold Equal in *. rewrite bool_decide_eq_true in *. congruence.
Qed.

Lemma load_routes_ok fs new old s n s' :
  routes_ok old →
  load_routes fs netip_ParsePrefix Addr_String sha1 hex fuel new old s = (Val n, s') →
  routes_ok n ∧ name_routes fs sha1 hex fuel 0 (o_Routes new) = Ok (o_Routes n) ∧ o_Proxy n = o_Proxy new.
Proof.
  intros [H1 H2 H3]. unfold load_routes. intros E.
  apply bind_inv in E as [(Routes & s1 & E1 & E)|[[=] _]]. unfold or_exit in E1.
  destruct (name_routes _ _ _ _ _ _) as [R| |] eqn:En; [|done..]. injection E1 as -> ->.
  pose proof (proj1 (proj2 (name_routes_named _ _ _ _ En))) as Hs.
  destruct (routesEqual Routes (o_Routes old)) eqn:Eq.
  { injection E as <- <-. split; [|done]. split; [by eapply routesEqual_for|done..]. }
  apply bind_inv in E as [([routes m] & s2 & E2 & E)|[[=] _]]. unfold or_exit in E2.
  destruct (build_routes _ _ _ _ _ _ _ _) as [[routes' m']| |] eqn:Eb; [|done..]. injection E2 as -> -> ->.
  apply bind_inv in E as [(cache & s3 & E3 & E)|[[=] _]]. injection E as <- <-.
  destruct (build_routes_ok _ _ _ _ _ _ _ [] H2 Hs (Forall2_nil_2 _ _ _) (map_Forall_empty _) Eb) as [R1 R2].
  split; [|done]. split; [done|done|]. simpl. destruct routes; [by injection E3 as <- <-|].
  unfold new_cache in E3. by injection E3 as <- <-.
Qed.

Lemma job_step_ok s s' : routes_ok (opts s) → job_step s s' → routes_ok (opts s').
Proof.
  intros Hs (fs & listen & e & E). destruct e as [new| |]; simpl in E.
  - rewrite http_LoadEvent_shape in E. unfold load_body in E.
    apply bind_inv in E as [(old & s0 & E0 & E)|[[=] _]]. injection E0 as <- <-.
    apply bind_inv in E as [([] & s1 & E1 & E)|[[=] _]]. cbn [mbind J_bind mret J_ret] in E.
    apply bind_inv in E as [([] & s2 & E2 & E)|[[=] _]].
    apply bind_inv in E as [([] & s3 & E3 & E)|[[=] _]].
    apply bind_inv in E as [(n & s4 & E4 & E)|[[=] _]]. injection E as <-. cbn [opts].
    apply finish_inv in E4 as (s5 & E5 & _). by eapply load_routes_ok.
  - unfold startServer in E. destruct (server s); [by injection E as <-|].
    destruct (listen _); [by injection E as <-|done].
  - by injection E as <-.
Qed.

Lemma job_reach_ok s : job_reach s → routes_ok (opts s).
Proof.
  intros Hr. assert (routes_ok (opts job_start)) as H0 by (split; [constructor|apply map_Forall_empty|done]).
  induction Hr as [|s1 s2 s3 Hs _ IH]; [done|]. apply IH. by eapply job_step_ok.
Qed.

Lemma init_list_sum fs What c c' : al_list <$> init_list fs What c = al_list <$> init_list fs What c'.
Proof.
  unfold Http.init_list. destruct (parse_list _ _ _ _ _) as [p| |]; [|done..]. simpl.
  by destruct (Init _ _ _).
Qed.

(** C13: after any history of reloads over changing files, the routes after a
    LoadEvent are as many as its options ask for, in their order, each with
    the proxy of its entry, its name (or else its only line or its number) and
    the very list that its rules parse to in the files of that moment, whether
    kept by checksum or made anew, but for a collision of the hash; the
    default proxy is that of the options. hex is assumed to be injective. *)
Theorem routes_current s fs listen new s' :
  (∀ a b, hex a = hex b → a = b) →
  job_reach s → @handle _ _ (http fs) listen (LoadEvent new) s = (Val tt, s') →
  o_Proxy (opts s') = o_Proxy new ∧ length (o_routes (opts s')) = length (o_Routes new) ∧
  ∀ i r, o_routes (opts s') !! i = Some r → ∃ ro, o_Routes new !! i = Some ro ∧
    (ro_Name ro ≠ [] ∧ rt_Name r = ro_Name ro ∨
     ro_Name ro = [] ∧ (scan (ro_What ro) = [rt_Name r] ∨ rt_Name r = [35] ++ Itoa (Z.of_nat i))) ∧
    Equal (rt_Proxy r) (ro_Proxy ro) = true ∧
    (al_list <$> init_list fs (ro_What ro) [] = Ok (al_list (rt_AllowList r)) ∨
     ∃ x y, x ≠ y ∧ sha1 x = sha1 y).
Proof.
  intros Hhex Hr%job_reach_ok E. simpl in E. rewrite http_LoadEvent_shape in E. unfold load_body in E.
  apply bind_inv in E as [(old & s0 & E0 & E)|[[=] _]]. injection E0 as <- <-.
  apply bind_inv in E as [([] & s1 & E1 & E)|[[=] _]].
  apply bind_inv in E as [([] & s2 & E2 & E)|[[=] _]].
  apply bind_inv in E as [([] & s3 & E3 & E)|[[=] _]].
  apply bind_inv in E as [(n & s4 & E4 & E)|[[=] _]]. injection E as <-. cbn [opts].
  apply finish_inv in E4 as (s5 & E5 & _).
  destruct (load_routes_ok _ _ _ _ _ _ Hr E5) as ([H1 _ _] & H2 & H3).
  destruct (name_routes_named _ _ _ _ H2) as (Hlen & Hsum & Hnames).
  split_and!; [done|by rewrite (Forall2_length _ _ _ H1)|]. intros i r Hi.
  destruct (Forall2_lookup_l _ _ _ _ _ H1 Hi) as (ro' & Hi' & N1 & N2 & N3 & fs0 & sum & M1 & M2 & M3).
  destruct (Hnames _ _ Hi') as (ro & Hro & W & P & Nm). exists ro. simpl in Nm.
  rewrite <- N1 in Nm. rewrite P in N3. split_and!; [done..|].
  rewrite Forall_forall in Hsum. destruct (Hsum ro' ltac:(by eapply list_elem_of_lookup_2)) as (sum' & S1 & S2).
  assert (sum' = sum) as -> by (apply Hhex; congruence). rewrite W in S1.
  destruct (checksum_parse fs fs0 netip_ParsePrefix Addr_String sha1 fuel fuel _ _ _ S1 M1) as [P'|P'];
    [left|by right].
  rewrite (init_list_sum fs _ [] (al_Checksum (rt_AllowList r))). unfold Http.init_list in *. rewrite P'.
  destruct (parse_list fs0 _ _ _ _) as [p| |]; [|done..]. simpl in *. destruct (Init _ _ _); [|done]. simpl in *.
  injection M3 as M3. by rewrite <- M3.
Qed.

(** An include that leads back to its own file keeps the handler for ever. *)
Theorem include_blocks fs listen new ro ros s :
  fs (bs "a") = Some (bs "@a") → o_Routes new = ro :: ros → ro_What ro = bs "@a" →
  is_Some (SplitHostPort (o_ListenAddr new)) →
  (@handle _ _ (http fs) listen (LoadEvent new) s).1 = Halt Hang.
Proof.
  intros Hf Hr Hw [hp Hv]. simpl. rewrite http_LoadEvent_shape. unfold load_body.
  assert (∀ (s0 : job Options (@state C)), (finish fs netip_ParsePrefix Addr_String sha1 hex fuel new (opts s) s0).1 = Halt Hang) as H.
  { intros s0. unfold finish, load_routes. rewrite Hr. cbn [name_routes]. unfold name_route. cbv zeta. rewrite Hw.
    destruct (include_cycle fs netip_ParsePrefix Addr_String sha1 fuel Hf) as [_ ->]. done. }
  eapply bind_val; [done|]. apply (bind_val _ _ tt _ s); [unfold check_addr; by rewrite Hv|].
  eapply bind_val; [done|].
  assert (∃ s1, (if bool_decide (o_ListenAddr new = o_ListenAddr (opts s)) then mret tt else stopServer) s = (Val tt, s1)) as [s1 E1].
  { case_bool_decide; [by eexists|]. unfold stopServer. destruct (server s); by eexists. }
  eapply bind_val; [exact E1|]. by apply bind_halt.
Qed.

(** ** Caches *)

(** The job, and the options that requests may still hold. *)
Record sys := MkSys { s_job : job Options (@state C); s_seen : list Options }.

Definition set_caches (s : job Options (@state C)) (cs : list (gmap gostring (@route C))) :
    job Options (@state C) :=
  MkJob (opts s) (server s) (MkState cs (redirects (extra s)) (rwhosts (extra s))) (log s).

Inductive sys_step : sys → sys → Prop :=
  | sys_event s s' seen : job_step s s' → sys_step (MkSys s seen) (MkSys s' (opts s' :: seen))
  | sys_request s seen o addr p ok cs :
      o ∈ seen → getopts Addr_String ParseAddr Unmap (Some o) (caches (extra s)) addr = (p, ok, cs) →
      sys_step (MkSys s seen) (MkSys (set_caches s cs) seen).

Definition sys_start : sys := MkSys job_start [zero].
Definition sys_reach : sys → Prop := rtc sys_step sys_start.

Abbreviation first_route := (Http.first_route Addr_String ParseAddr Unmap) (only parsing).

Definition cache_ok (cs : list (gmap gostring (@route C))) (o : Options) : Prop :=
  match o_routeCache o with
  | None => o_routes o = []
  | Some p => (p < length cs)%nat ∧
      ∀ addr r, (cs !!! p) !! addr = Some r → first_route (o_routes o) addr = Some r
  end.

Record sys_ok (s : sys) : Prop := {
  sk_job : routes_ok (opts (s_job s));
  sk_opts : opts (s_job s) ∈ s_seen s;
  sk_cache : ∀ o, o ∈ s_seen s → cache_ok (caches (extra (s_job s))) o;
  sk_same : ∀ o1 o2 p, o1 ∈ s_seen s → o2 ∈ s_seen s →
    o_routeCache o1 = Some p → o_routeCache o2 = Some p → o_routes o1 = o_routes o2 }.

(** What an event does to the caches: nothing, or one more, for the new
    options. *)
Lemma event_caches s s' :
  job_step s s' →
  o_routeCache (opts s') = o_routeCache (opts s) ∧ o_routes (opts s') = o_routes (opts s) ∧
    caches (extra s') = caches (extra s) ∨
  o_routeCache (opts s') = None ∧ o_routes (opts s') = [] ∧ caches (extra s') = caches (extra s) ∨
  o_routeCache (opts s') = Some (length (caches (extra s))) ∧ caches (extra s') = caches (extra s) ++ [∅].
Proof.
  intros (fs & listen & e & E). destruct e as [new| |]; simpl in E.
  - rewrite http_LoadEvent_shape in E. unfold load_body in E.
    apply bind_inv in E as [(old & s0 & E0 & E)|[[=] _]]. injection E0 as <- <-.
    apply bind_inv in E as [([] & s1 & E1 & E)|[[=] _]].
    apply bind_inv in E as [([] & s2 & E2 & E)|[[=] _]]. injection E2 as <-.
    apply bind_inv in E as [([] & s3 & E3 & E)|[[=] _]].
    apply bind_inv in E as [(n & s4 & E4 & E)|[[=] _]]. injection E as <-. cbn [opts extra].
    assert (extra s3 = extra s) as X3.
    { transitivity (extra s1).
      - revert E3. case_match; [by intros [= <-]|]. unfold stopServer. case_match; by intros [= <-].
      - revert E1. unfold check_addr. destruct (SplitHostPort _); [by intros [= <-]|done]. }
    apply finish_inv in E4 as (s5 & E5 & ->). unfold load_routes in E5.
    apply bind_inv in E5 as [(Routes & s6 & E6 & E5)|[[=] _]]. unfold or_exit in E6.
    destruct (name_routes _ _ _ _ _ _) as [R| |]; [|done..]. injection E6 as -> <-.
    destruct (routesEqual Routes (o_Routes (opts s))).
    { injection E5 as <- <-. left. by rewrite X3. }
    apply bind_inv in E5 as [([routes m] & s7 & E7 & E5)|[[=] _]]. unfold or_exit in E7.
    destruct (build_routes _ _ _ _ _ _ _ _) as [[routes' m']| |]; [|done..]. injection E7 as -> -> <-.
    apply bind_inv in E5 as [(cache & s8 & E8 & E5)|[[=] _]]. injection E5 as <- <-.
    destruct routes; [injection E8 as <- <-; right; left; by rewrite X3|].
    unfold new_cache in E8. injection E8 as <- <-. right; right. cbn [extra caches]. by rewrite X3.
  - left. unfold startServer in E. destruct (server s); [by injection E as <-|].
    destruct (listen _); [by injection E as <-|done].
  - left. by injection E as <-.
Qed.

Lemma cache_ok_grow cs c o : cache_ok cs o → cache_ok (cs ++ [c]) o.
Proof.
  unfold cache_ok. destruct (o_routeCache o) as [p|]; [|done]. intros [Hp H].
  rewrite length_app. split; [lia|]. intros addr r. rewrite lookup_total_app_l by done. apply H.
Qed.

Lemma http_event_ok s s' seen :
  sys_ok (MkSys s seen) → job_step s s' → sys_ok (MkSys s' (opts s' :: seen)).
Proof.
  intros [H1 H2 H3 H4] Hs. simpl in *. pose proof (job_step_ok _ _ H1 Hs) as H1'.
  destruct (event_caches _ _ Hs) as [(C1 & C2 & C3)|[(C1 & C2 & C3)|(C1 & C3)]]; split; simpl;
    try done; try (by left); rewrite ?C3.
  - intros o [->|Ho]%elem_of_cons; [|by apply H3]. unfold cache_ok. rewrite C1, C2. by apply (H3 _ H2).
  - assert (∀ o p, o ∈ opts s' :: seen → o_routeCache o = Some p →
      ∃ o', o' ∈ seen ∧ o_routeCache o' = Some p ∧ o_routes o = o_routes o') as Hd.
    { intros o p [->|Ho]%elem_of_cons Hp; [exists (opts s); split_and!; [done|congruence|done]|eauto]. }
    intros o1 o2 p I1 I2 P1 P2. destruct (Hd _ _ I1 P1) as (q1 & Q1 & Q2 & ->).
    destruct (Hd _ _ I2 P2) as (q2 & Q3 & Q4 & ->). by eapply H4.
  - intros o [->|Ho]%elem_of_cons; [|by apply H3]. unfold cache_ok. by rewrite C1.
  - intros o1 o2 p [->|I1]%elem_of_cons [->|I2]%elem_of_cons P1 P2; try congruence. by eapply H4.
  - intros o [->|Ho]%elem_of_cons; [|by apply cache_ok_grow, H3]. unfold cache_ok. rewrite C1.
    rewrite length_app. simpl. split; [lia|]. intros addr r.
    rewrite lookup_total_app_r, Nat.sub_diag by lia. simpl. by rewrite lookup_empty.
  - assert (∀ o, o ∈ seen → o_routeCache o ≠ Some (length (caches (extra s)))) as Hn.
    { intros o Ho Hp. specialize (H3 o Ho). unfold cache_ok in H3. rewrite Hp in H3. lia. }
    intros o1 o2 p [->|I1]%elem_of_cons [->|I2]%elem_of_cons P1 P2; try done.
    + rewrite C1 in P1. injection P1 as <-. by destruct (Hn _ I2).
    + rewrite C1 in P2. injection P2 as <-. by destruct (Hn _ I1).
    + by eapply H4.
Qed.

(** What [getopts] answers, with or without the cache. *)
Definition uncached (o : Options) (addr : gostring) : Proxy.Proxy C :=
  match first_route (o_routes o) addr with Some r => rt_Proxy r | None => o_Proxy o end.

Lemma getopts_spec o cs addr p ok cs' :
  cache_ok cs o → getopts Addr_String ParseAddr Unmap (Some o) cs addr = (p, ok, cs') →
  p = uncached o addr ∧ ok = true ∧
  (cs' = cs ∨ ∃ q r, o_routeCache o = Some q ∧ (q < length cs)%nat ∧
     first_route (o_routes o) addr = Some r ∧ cs' = <[q := <[addr := r]> (cs !!! q)]> cs).
Proof.
  intros Hc. unfold getopts, uncached. cbn [cell_read]. unfold cache_ok in Hc.
  destruct (o_routeCache o) as [q|].
  2: { intros [= <- <- <-]. rewrite Hc. split; [|by auto]. unfold Http.first_route.
       destruct (split_addr _ _ _ addr) as [[host port] a]. done. }
  destruct Hc as [Hq Hc]. destruct ((cs !!! q) !! addr) as [r|] eqn:Er.
  { intros [= <- <- <-]. rewrite (Hc _ _ Er). auto. }
  destruct (first_route (o_routes o) addr) as [r|] eqn:Ef; intros [= <- <- <-]; [|by auto].
  split_and!; [done..|]. right. by exists q, r.
Qed.

Lemma request_ok s seen o addr p ok cs :
  sys_ok (MkSys s seen) → o ∈ seen →
  getopts Addr_String ParseAddr Unmap (Some o) (caches (extra s)) addr = (p, ok, cs) →
  sys_ok (MkSys (set_caches s cs) seen).
Proof.
  intros [H1 H2 H3 H4] Ho Hg. simpl in *. split; simpl; [done..| |done].
  destruct (getopts_spec _ _ _ _ _ _ (H3 _ Ho) Hg) as (_ & _ & [->|(q & r & Eq & Hq & Ef & ->)]); [done|].
  intros o' Ho'. specialize (H3 o' Ho'). unfold cache_ok in *.
  destruct (o_routeCache o') as [q'|] eqn:Eq'; [|done]. destruct H3 as [Hl Hc].
  rewrite length_insert. split; [done|]. intros addr' r'.
  destruct (decide (q' = q)) as [->|Hne].
  - rewrite list_lookup_total_insert_eq by done. destruct (decide (addr = addr')) as [<-|Hna].
    + rewrite lookup_insert_eq. intros [= <-]. by rewrite (H4 o' o q).
    + rewrite lookup_insert_ne by done. apply Hc.
  - rewrite list_lookup_total_insert_ne by done. apply Hc.
Qed.

Lemma http_sys_reach_ok s : sys_reach s → sys_ok s.
Proof.
  intros Hr. assert (sys_ok sys_start) as H0.
  { split; simpl; [split; [constructor|apply map_Forall_empty|done]|left| |].
    - intros o [->|?%elem_of_nil]%elem_of_cons; done.
    - intros o1 o2 p [->|?%elem_of_nil]%elem_of_cons; done. }
  induction Hr as [|s1 s2 s3 Hs _ IH]; [done|]. apply IH. destruct Hs; [by eapply http_event_ok|].
  by eapply request_ok.
Qed.

(** C14: in every state reachable by reloads and requests, also requests on
    options read before a reload, getopts answers what it would without its
    cache: the proxy of the first route that allows the address, or the
    default one. *)
Theorem cache_transparent s o addr :
  sys_reach s → o ∈ s_seen s →
  ∃ cs, getopts Addr_String ParseAddr Unmap (Some o) (caches (extra (s_job s))) addr =
    (match first_route (o_routes o) addr with Some r => rt_Proxy r | None => o_Proxy o end, true, cs).
Proof.
  intros Hr%http_sys_reach_ok Ho. destruct (getopts _ _ _ _ _ _) as [[p ok] cs] eqn:E.
  destruct (getopts_spec _ _ _ _ _ _ (sk_cache _ Hr _ Ho) E) as (-> & -> & _). by exists cs.
Qed.
End spec.

(** ** Comparing maps *)

(** Maps that differ are equal to [mapEqual] when the first has an empty
    value where the second has no key: a reload then keeps the old table. *)
Theorem mapEqual_missing :
  let old : gmap gostring gostring := {[ bs "b" := bs "http://x" ]} in
  let new : gmap gostring gostring := {[ bs "c" := [] ]} in
  mapEqual new old = true ∧ old !! bs "b" ≠ new !! bs "b".
Proof. split; [by vm_compute|]. intros H. vm_compute in H. discriminate H. Qed.

(** It is otherwise right: without empty values it decides equality. *)
Theorem mapEqual_correct (a b : gmap gostring gostring) :
  map_Forall (λ _ v, v ≠ []) a → mapEqual a b = true ↔ a = b.
Proof.
  intros Ha. unfold mapEqual. rewrite andb_true_iff, Nat.eqb_eq, forallb_forall. split.
  - intros [Hs Hf]. assert (a ⊆ b) as Hsub.
    { apply map_subseteq_spec. intros k v Hk.
      specialize (Hf (k, v) ltac:(by apply list_elem_of_In, elem_of_map_to_list)).
      apply bool_decide_eq_true in Hf. pose proof (Ha k v Hk). destruct (b !! k); simpl in Hf; by subst. }
    by apply map_subseteq_size_eq; [|lia].
  - intros <-. split; [done|]. intros [k v] Hk%list_elem_of_In%elem_of_map_to_list.
    apply bool_decide_eq_true. by rewrite Hk.
Qed.

(** ** Witnesses *)

Definition no_files (_ : gostring) : option gostring := None.
Definition no_prefix (_ : list Z) : option IPPrefix := None.
Definition no_string (_ : Addr) : gostring := [].
Definition same (s : gostring) : gostring := s.

Definition ex_http : Http.Options (C := unit) :=
  Http.MkOptions (bs ":1") (MkProxy None [])
    [MkRouteOptions [] (bs "example.com") [] (MkProxy None [1]);
     MkRouteOptions [] (bs "*.org" ++ [10] ++ bs "b.com") [] (MkProxy None [2])]
    ∅ ∅ zero_conn zero_relay [] None ∅.

Definition ex_job : job (Http.Options (C := unit)) state :=
  (@handle _ _ (Http.http no_files no_prefix no_string same same 1) (λ _, true) (LoadEvent ex_http)
    job_start).2.

Example ex_names : rt_Name <$> o_routes (opts ex_job) = [bs "example.com"; bs "#1"].
Proof. vm_compute. reflexivity. Qed.

Lemma ex_step : job_step no_prefix no_string same same 1 job_start ex_job.
Proof. exists no_files, (λ _, true), (LoadEvent ex_http). vm_compute. reflexivity. Qed.

Lemma routes_current_witness :
  ∃ r r', o_routes (opts ex_job) = [r; r'] ∧ rt_Name r = bs "example.com" ∧ rt_Proxy r' = MkProxy None [2] ∧
    al_list <$> Http.init_list no_files no_prefix no_string 1 (bs "example.com") [] = Ok (al_list (rt_AllowList r)).
Proof.
  pose proof (routes_current no_prefix no_string same same 1 job_start no_files (λ _, true) ex_http ex_job
    (λ a b H, H) (rtc_refl _ _) ltac:(vm_compute; reflexivity)) as (_ & Hl & H).
  destruct (o_routes (opts ex_job)) as [|r [|r' [|]]] eqn:E; [done..| |done].
  exists r, r'. split; [done|]. split.
  { apply (f_equal (fmap rt_Name)) in E. vm_compute in E. by injection E. }
  split.
  { apply (f_equal (fmap rt_Proxy)) in E. vm_compute in E. by injection E. }
  destruct (H 0%nat r eq_refl) as (ro & [= <-] & _ & _ & [Hr|(x & z & Hne & Hx)]); [exact Hr|].
  exfalso. exact (Hne Hx).
Defined.

Lemma include_blocks_witness :
  (@handle _ _ (Http.http (λ _, Some (bs "@a")) no_prefix no_string same same 5) (λ _, true)
    (LoadEvent (Http.MkOptions (C := unit) (bs ":1") (MkProxy None [])
      [MkRouteOptions [] (bs "@a") [] (MkProxy None [1])] ∅ ∅ zero_conn zero_relay [] None ∅)) job_start).1 = Halt Hang.
Proof. by eapply include_blocks; [reflexivity..|eexists; vm_compute; reflexivity]. Defined.

Lemma cache_transparent_witness :
  ∃ cs, getopts no_string (λ _, None) id (Some (opts ex_job)) (caches (extra ex_job))
      (bs "b.com:443") = (MkProxy None [2], true, cs).
Proof.
  destruct (cache_transparent no_prefix no_string same same (λ _, None) id 1
    (MkSys ex_job [opts ex_job; zero]) (opts ex_job) (bs "b.com:443")) as [cs H].
  - apply rtc_once. apply sys_event. apply ex_step.
  - left.
  - exists cs. cbn [s_job] in H. rewrite H. vm_compute. reflexivity.
Defined.

Lemma mapEqual_correct_witness :
  mapEqual {[ bs "a" := bs "x" ]} {[ bs "a" := bs "x" ]} = true.
Proof.
  apply mapEqual_correct; [|reflexivity]. apply map_Forall_singleton. discriminate.
Defined.
