(* ===== verification/Relay.v ===== *)
(** * Relay (relay.go).

    The goroutines of a relay: the two copies, and the loop that waits for
    their resets and for the idle timer.  [true] names the copy from remote
    to local ([copy(l, r, UplinkIdle)]), [false] the other.  A copy reads,
    ends or fails as the network has it; a send on a closed channel or a
    second close panics. *)

From S2P Require Import Prelude Defaults.

(** ** State *)

Inductive phase :=
  | Copying        (* in io.CopyBuffer *)
  | Sending        (* at reset <- idle *)
  | Leaving        (* at the deferred done() *)
  | Gone.

#[export] Instance phase_eq_dec : EqDecision phase.
Proof. solve_decision. Defined.

Record relay := MkRelay {
  up : phase; down : phase;        (* the copies [true] and [false] *)
  reset : option Z;                (* the buffer of the channel *)
  closed : bool;
  n : nat;
  armed : bool;                    (* the timer *)
  expired : bool;
  td : Z;
  past_l : bool; past_r : bool;    (* read deadlines set to long ago *)
  returned : bool;
  panicked : bool }.

Section relay.
Context (opts : RelayOptions).

(** After the first lines of Relay. *)
Definition init : relay :=
  MkRelay Copying Copying None false 0 true false (ConnIdle opts) false false false false.

Definition phase_of (i : bool) (s : relay) : phase := if i then up s else down s.

Definition set_phase (i : bool) (p : phase) (s : relay) : relay :=
  MkRelay (if i then p else up s) (if i then down s else p) (reset s) (closed s) (n s) (armed s)
    (expired s) (td s) (past_l s) (past_r s) (returned s) (panicked s).

Definition set_reset (b : option Z) (s : relay) : relay :=
  MkRelay (up s) (down s) b (closed s) (n s) (armed s) (expired s) (td s) (past_l s) (past_r s)
    (returned s) (panicked s).

Definition set_panicked (s : relay) : relay :=
  MkRelay (up s) (down s) (reset s) (closed s) (n s) (armed s) (expired s) (td s) (past_l s) (past_r s)
    (returned s) true.

Definition set_deadlines (l r : bool) (s : relay) : relay :=
  MkRelay (up s) (down s) (reset s) (closed s) (n s) (armed s) (expired s) (td s) l r
    (returned s) (panicked s).

Definition idle (i : bool) : Z := if i then UplinkIdle opts else DownlinkIdle opts.

(** [case reset <- v] on a channel with room. *)
Definition send (v : Z) (s : relay) : relay :=
  if closed s then set_panicked s else set_reset (Some v) s.

(** [do]: dropped when the buffer is full. *)
Definition do (s : relay) : relay :=
  match reset s with None => send (-1) s | Some _ => if closed s then set_panicked s else s end.

(** [done] *)
Definition done_ (s : relay) : relay :=
  let n' := S (n s) in
  let s := MkRelay (up s) (down s) (reset s) (closed s) n' (armed s) (expired s) (td s) (past_l s)
             (past_r s) (returned s) (panicked s) in
  if (n' =? 2)%nat then
    if closed s then set_panicked s
    else MkRelay (up s) (down s) (reset s) true n' (armed s) (expired s) (td s) (past_l s) (past_r s)
           (returned s) (panicked s)
  else s.

(** [case <-t.C] *)
Definition fire (s : relay) : relay :=
  MkRelay (up s) (down s) (reset s) (closed s) (n s) false true (td s) true true (returned s) (panicked s).

(** [case d, ok := <-reset] with a value. *)
Definition receive (d : Z) (s : relay) : relay :=
  let td' := if 0 <=? d then d else td s in
  MkRelay (up s) (down s) None (closed s) (n s) (if expired s then armed s else true) (expired s) td'
    (past_l s) (past_r s) (returned s) (panicked s).

(** ... and when it is closed: the deadlines are cleared. *)
Definition finish (s : relay) : relay :=
  MkRelay (up s) (down s) (reset s) (closed s) (n s) false (expired s) (td s) false false true (panicked s).

Inductive step : relay → relay → Prop :=
  | step_read i s : phase_of i s = Copying → step s (do s)
  | step_end i s : phase_of i s = Copying → step s (set_phase i Sending s)
  | step_fail i s : phase_of i s = Copying →
      step s (set_phase i Leaving (set_deadlines (i || past_l s) (negb i || past_r s) s))
  | step_send i s : phase_of i s = Sending → reset s = None → step s (set_phase i Leaving (send (idle i) s))
  | step_done i s : phase_of i s = Leaving → step s (set_phase i Gone (done_ s))
  | step_fire s : returned s = false → armed s = true → step s (fire s)
  | step_receive s d : returned s = false → reset s = Some d → step s (receive d s)
  | step_finish s : returned s = false → reset s = None → closed s = true → step s (finish s).

Definition reach : relay → Prop := rtc step init.

(** ** Safety *)

Definition gone (p : phase) : nat := match p with Gone => 1 | _ => 0 end.

Record relay_ok (s : relay) : Prop := {
  ro_n : n s = (gone (up s) + gone (down s))%nat;
  ro_closed : closed s = true ↔ n s = 2%nat;
  ro_returned : returned s = true → closed s = true ∧ reset s = None ∧ past_l s = false ∧
    past_r s = false ∧ armed s = false;
  ro_panicked : panicked s = false;
  ro_expired : expired s = true → armed s = false;
  ro_td : td s = ConnIdle opts ∨ td s = UplinkIdle opts ∨ td s = DownlinkIdle opts;
  ro_reset : ∀ d, reset s = Some d → d = -1 ∨ d = UplinkIdle opts ∨ d = DownlinkIdle opts }.

Lemma not_closed s i : relay_ok s → phase_of i s ≠ Gone → closed s = false.
Proof.
  intros H Hi. destruct (closed s) eqn:E; [|done]. apply (ro_closed _ H) in E.
  rewrite (ro_n _ H) in E. destruct i; simpl in Hi; destruct (up s), (down s); simpl in E; done.
Qed.

Lemma not_returned s i : relay_ok s → phase_of i s ≠ Gone → returned s = false.
Proof.
  intros H Hi. destruct (returned s) eqn:E; [|done]. apply (ro_returned _ H) in E as [E _].
  by rewrite (not_closed s i) in E.
Qed.

Lemma step_ok s s' : relay_ok s → step s s' → relay_ok s'.
Proof.
  intros H Hs. pose proof H as [H1 H2 H3 H4 H5 H6 H7]. destruct Hs as
    [i s Hp|i s Hp|i s Hp|i s Hp Hr|i s Hp|s Hr Ha|s d Hr Hd|s Hr He Hc].
  - assert (closed s = false) as Hc by (apply (not_closed s i); congruence).
    assert (returned s = false) as Hr by (apply (not_returned s i); congruence).
    unfold do, send. rewrite Hc. destruct (reset s) eqn:Es; [done|].
    split; simpl; try done; [by rewrite Hr|]. intros d [= <-]. by left.
  - assert (returned s = false) as Hr by (apply (not_returned s i); congruence).
    destruct i; simpl in Hp; split; simpl; try done; rewrite ?Hr; try done; by rewrite H1, Hp.
  - assert (returned s = false) as Hr by (apply (not_returned s i); congruence).
    destruct i; simpl in Hp; split; simpl; try done; rewrite ?Hr; try done; by rewrite H1, Hp.
  - assert (closed s = false) as Hc by (apply (not_closed s i); congruence).
    assert (returned s = false) as Hre by (apply (not_returned s i); congruence).
    unfold send. rewrite Hc.
    destruct i; simpl in Hp; split; simpl; try done; rewrite ?Hre; try done; try (by rewrite H1, Hp);
      intros d [= <-]; simpl; auto.
  - assert (closed s = false) as Hc by (apply (not_closed s i); congruence).
    assert (returned s = false) as Hre by (apply (not_returned s i); congruence).
    unfold done_. destruct (Nat.eqb_spec (S (n s)) 2) as [En|En]; simpl; rewrite ?Hc;
      destruct i; simpl in Hp; split; simpl; try done; rewrite ?Hre; try done;
      try (rewrite H1, Hp; simpl; lia); rewrite ?Hc; (split; [done|intros E; exfalso; lia]).
  - split; simpl; try done; congruence.
  - split; simpl; try done; try congruence.
    + intros He. rewrite He. by apply H5.
    + destruct (Z.leb_spec 0 d); [|done]. specialize (H7 d Hd).
      destruct H7 as [->|[->| ->]]; [lia|auto..].
  - split; simpl; try done.
Qed.

Lemma reach_ok s : reach s → relay_ok s.
Proof.
  intros Hr. assert (relay_ok init) as H0 by (split; simpl; try done; auto).
  induction Hr as [|s1 s2 s3 Hs _ IH]; [done|]. apply IH. by eapply step_ok.
Qed.

(** C17: in every state that the goroutines of a relay reach, no closed
    channel is sent on or closed again, the channel is closed only after both
    copies have ended, and when Relay returns the timer is stopped and the
    deadlines it set are cleared; the idle time is one of the three of the
    options. *)
Theorem relay_safe s :
  reach s →
  panicked s = false ∧
  (closed s = true → up s = Gone ∧ down s = Gone) ∧
  (returned s = true → up s = Gone ∧ down s = Gone ∧ past_l s = false ∧ past_r s = false ∧ armed s = false) ∧
  (td s = ConnIdle opts ∨ td s = UplinkIdle opts ∨ td s = DownlinkIdle opts).
Proof.
  intros Hr%reach_ok.
  assert (closed s = true → up s = Gone ∧ down s = Gone) as Hc.
  { intros E%(ro_closed _ Hr). rewrite (ro_n _ Hr) in E. by destruct (up s), (down s). }
  split_and!; [apply Hr|done| |apply Hr].
  intros E. destruct (ro_returned _ Hr E) as (E1 & _ & E2 & E3 & E4).
  destruct (Hc E1) as [-> ->]. done.
Qed.

(** ** Termination *)

Definition weight (p : phase) : nat :=
  match p with Copying => 5 | Sending => 4 | Leaving => 1 | Gone => 0 end.

Definition measure (s : relay) : nat :=
  (weight (up s) + weight (down s) + match reset s with Some _ => 2 | None => 0 end + (if armed s then 1 else 0) +
   (if returned s then 0 else 1))%nat.

Lemma send_measure i s : relay_ok s → phase_of i s = Sending → reset s = None →
  (measure (set_phase i Leaving (send (idle i) s)) < measure s)%nat.
Proof.
  intros H Hp Hr. assert (closed s = false) as Hc by (apply (not_closed s i); congruence).
  unfold send. rewrite Hc. unfold measure. destruct i; simpl in Hp; simpl; rewrite Hp, Hr; simpl; lia.
Qed.

Lemma done_measure i s : relay_ok s → phase_of i s = Leaving → (measure (set_phase i Gone (done_ s)) < measure s)%nat.
Proof.
  intros H Hp. assert (closed s = false) as Hc by (apply (not_closed s i); congruence).
  unfold done_, measure. destruct (S (n s) =? 2)%nat; simpl; rewrite ?Hc; destruct i; simpl in Hp; simpl;
    rewrite Hp; simpl; lia.
Qed.

Lemma loop_measure s : returned s = false →
  (armed s = true → measure (fire s) < measure s)%nat ∧
  (∀ d, reset s = Some d → measure (receive d s) < measure s)%nat ∧ (measure (finish s) < measure s)%nat.
Proof.
  intros Hr. unfold measure. split_and!; simpl.
  - intros ->. lia.
  - intros d ->. destruct (expired s), (armed s); simpl; lia.
  - rewrite Hr. destruct (armed s); lia.
Qed.

(** A step counts down, unless a copy has read and resets the timer. *)
Lemma step_measure s s' :
  relay_ok s → step s s' → (measure s' < measure s)%nat ∨ ∃ i, phase_of i s = Copying ∧ s' = do s.
Proof.
  intros H Hs. destruct Hs as [i s Hp|i s Hp|i s Hp|i s Hp Hr|i s Hp|s Hr Ha|s d Hr Hx|s Hr He Hc];
    [right; by exists i|left..].
  - unfold measure. destruct i; simpl in Hp; simpl; rewrite Hp; simpl; lia.
  - unfold measure. destruct i; simpl in Hp; simpl; rewrite Hp; simpl; lia.
  - by apply send_measure.
  - by apply done_measure.
  - by apply (loop_measure s Hr).
  - by apply (loop_measure s Hr).
  - by apply (loop_measure s Hr).
Qed.

Lemma do_measure s : (measure (do s) ≤ measure s + 2)%nat.
Proof. unfold do, send, measure. destruct (reset s) eqn:E, (closed s); simpl; rewrite ?E; lia. Qed.

(** What has ended, and the timer once it has fired, stay so. *)
Lemma step_keeps s s' : step s s' →
  (expired s = true → expired s' = true) ∧ (∀ i, phase_of i s ≠ Copying → phase_of i s' ≠ Copying) ∧
  ((expired s = true → returned s = false → past_l s = true ∧ past_r s = true) →
   expired s' = true → returned s' = false → past_l s' = true ∧ past_r s' = true).
Proof.
  intros Hs. destruct Hs as [i s Hp|i s Hp|i s Hp|i s Hp Hr|i s Hp|s Hr Ha|s d Hr Hx|s Hr He Hc].
  - unfold do, send. destruct (reset s), (closed s); split_and!; try done; by intros [].
  - split_and!; [done|intros j; by destruct i, j|done].
  - split_and!; [done|intros j; by destruct i, j|]. simpl. intros H He Hr. destruct (H He Hr) as [-> ->].
    by rewrite !orb_true_r.
  - unfold send. destruct (closed s); (split_and!; [done|intros j; by destruct i, j|done]).
  - unfold done_. destruct (S (n s) =? 2)%nat; [destruct (closed s) eqn:Ec|]; simpl; rewrite ?Ec;
      (split_and!; [done|intros j; by destruct i, j|done]).
  - split_and!; [done|by intros []|done].
  - split_and!; [done|by intros []|done].
  - split_and!; [done|by intros []|done].
Qed.

(** Once the copies have ended, Relay can always go on until it returns. *)
Lemma progress s :
  relay_ok s → up s ≠ Copying → down s ≠ Copying → returned s = false → ∃ s', step s s'.
Proof.
  intros H Hu Hd Hr. destruct (reset s) as [d|] eqn:Er; [eexists; by eapply step_receive|].
  assert (∀ i, phase_of i s ≠ Gone → phase_of i s ≠ Copying → ∃ s', step s s') as Hi.
  { intros i H1 H2. destruct (phase_of i s) eqn:E; [done| | |done].
    - eexists. by apply (step_send i).
    - eexists. by apply (step_done i). }
  destruct (up s) eqn:Eu; [done|apply (Hi true); simpl; congruence..|].
  destruct (down s) eqn:Ed; [done|apply (Hi false); simpl; congruence..|].
  eexists. apply step_finish; [done..|]. apply (ro_closed _ H). by rewrite (ro_n _ H), Eu, Ed.
Qed.

Theorem relay_ends s :
  reach s → up s ≠ Copying → down s ≠ Copying → eventually step (λ s, returned s = true) s.
Proof.
  intros Hr%reach_ok Hu Hd.
  apply (eventually_measure _ (λ s, relay_ok s ∧ up s ≠ Copying ∧ down s ≠ Copying) _ measure);
    [apply _| | |done].
  - intros s1 s2 (Ho & Hu1 & Hd1) _ Hs. destruct (step_keeps _ _ Hs) as (_ & Hp & _).
    split; [split_and!; [by eapply step_ok|by apply (Hp true)|by apply (Hp false)]|].
    destruct (step_measure _ _ Ho Hs) as [|([] & Hi & _)]; done.
  - intros s1 (Ho & Hu1 & Hd1) Hn. apply progress; [done..|]. by apply not_true_is_false.
Qed.
End relay.

(** ** Witnesses *)

Definition ex_relay : RelayOptions := MkRelayOptions 300 20 10.

(** The remote side ends, its idle time reaches the loop, then writing to it
    fails. *)
Definition ex_ended : relay :=
  MkRelay Leaving Leaving None false 0 true false 20 false true false false.

Lemma ex_ended_reach : reach ex_relay ex_ended.
Proof.
  unfold reach. eapply rtc_l; [by apply (step_end ex_relay true)|].
  eapply rtc_l; [by apply (step_send ex_relay true)|].
  eapply rtc_l; [by eapply (step_receive ex_relay)|].
  apply rtc_once. by apply (step_fail ex_relay false (MkRelay Leaving Copying None false 0 true false 20
    false false false false)).
Qed.

Lemma relay_safe_witness : td ex_ended = 20 ∧ panicked ex_ended = false ∧
  (td ex_ended = ConnIdle ex_relay ∨ td ex_ended = UplinkIdle ex_relay ∨ td ex_ended = DownlinkIdle ex_relay).
Proof.
  destruct (relay_safe ex_relay ex_ended ex_ended_reach) as (H1 & _ & _ & H2).
  split; [reflexivity|]. split; [exact H1|exact H2].
Defined.

Lemma relay_ends_witness : eventually (step ex_relay) (λ s, returned s = true) ex_ended.
Proof. apply (relay_ends ex_relay ex_ended ex_ended_reach); discriminate. Defined.
