(* ===== verification/Manager.v ===== *)
(** * The Manager (service.go).

    Service names, StartService, setOptions and loadConfig: how a new
    configuration reaches the jobs.  A job is anything with the interface
    [ManagedJob]; every service of Jobs.v is one.  YAML decoding is a
    parameter.  The channel of a job is unbuffered, so SendEvent returns when
    the job receives the event, not when it has handled it: a reload is a step
    relation in which the jobs handle their events in any order, each between
    the sends of the Manager.  A handler may never return: then the job keeps
    its event, and the next send to it blocks. *)

From S2P Require Import Prelude GoStrings Url Jobs.

(** ** Service names *)

(** [unicode.IsLetter] and [IsDigit] on ASCII. *)
Definition service_char (c : Z) : bool := (c =? 45) || is_alpha c || is_digit c.

Fixpoint index_other (s : gostring) : option nat :=
  match s with
  | [] => None
  | c :: s => if service_char c then S <$> index_other s else Some O
  end.

Definition findServiceName (s : gostring) : gostring :=
  match index_other s with
  | Some (S i) => take (S i) s
  | _ => s
  end.

Definition isDummyService (name : gostring) : bool :=
  bool_decide (name = []) || bool_decide (name = bs "alias") || bool_decide (name = bs "dummy").

Inductive service_lookup (A : Type) := Found (s : A) | Dummy | NotFound.
Arguments Found {A}.
Arguments Dummy {A}.
Arguments NotFound {A}.

Definition Service {A} (services : gmap gostring A) (name : gostring) : service_lookup A :=
  let name := findServiceName name in
  if isDummyService name then Dummy
  else match services !! name with Some s => Found s | None => NotFound end.

Definition AddService {A} (services : gmap gostring A) (name : gostring) (s : A) : gmap gostring A :=
  <[name := s]> services.

(** ** Jobs as the Manager sees them

    [None]: the handler never returns. *)

Class ManagedJob (P Opt Svc : Type) := {
  start_job : Svc → P;                               (* StartService *)
  do_load : (gostring → bool) → Opt → P → option P;  (* LoadEvent{opts} is handled *)
  do_loaded : (gostring → bool) → P → option P;      (* LoadedEvent{} is handled *)
  cancel : P → P;                                    (* Cancel, then <-Done *)
  ended : P → bool;                                  (* Err() != nil *)
  listens : P → option gostring;
  target : P → gostring;                             (* the address of its options *)
  addr_of : Opt → gostring;
  valid : P → Prop }.

Class ManagedJobLaws P Opt Svc `{ManagedJob P Opt Svc} := {
  start_valid s : valid (start_job s);
  start_listens s : listens (start_job s) = None;
  start_ended s : ended (start_job s) = false;
  ended_listens p : valid p → ended p = true → listens p = None;
  cancel_ended p : ended (cancel p) = true;
  cancel_listens p : valid p → listens (cancel p) = None;
  cancel_valid p : valid p → valid (cancel p);
  load_valid l o p p' : valid p → do_load l o p = Some p' → valid p';
  load_target l o p p' : do_load l o p = Some p' → ended p' = false → target p' = addr_of o;
  load_listens l o p p' : valid p → do_load l o p = Some p' → ended p' = false →
    ∀ a, listens p' = Some a → a = addr_of o;
  loaded_valid l p p' : valid p → do_loaded l p = Some p' → valid p';
  loaded_listens l p p' : valid p → do_loaded l p = Some p' → ended p' = false →
    listens p' = Some (target p);
  loaded_fails l p p' : valid p → ended p = false → do_loaded l p = Some p' → ended p' = true →
    listens p = None ∧ l (target p) = false }.

(** LoadedEvent ends a job only when its address cannot be listened at. *)
Class StartsServer O X `{Jobs.Service O X} :=
  on_loaded_fails listen s s' : on_loaded listen s = (Halt Return, s') →
    server s = None ∧ listen (ListenAddr (opts s)) = false.

Lemma starts_server {O X} `{Jobs.Service O X} :
  (∀ listen s, on_loaded listen s = startServer ListenAddr listen s) → StartsServer O X.
Proof.
  intros Hs listen s s'. rewrite Hs. unfold startServer.
  destruct (server s); [done|]. by destruct (listen _) eqn:E.
Qed.

Section service_job.
Context {O X : Type} `{Jobs.Service O X} `{!ServiceLaws O X} `{!StartsServer O X}.
#[local] Set Default Proof Using "Type*".

Definition service_proc : Type := Jobs.status * job O X.

(** An event sent to a job that has ended is dropped. *)
Definition deliver (i : input O) (p : service_proc) : option service_proc :=
  match p with
  | (Running, s) => match run s [i] with (Hung, _) => None | p' => Some p' end
  | (Returned, s) => Some (Returned, s)
  | (Hung, _) => None
  end.

Definition proc_ended (p : service_proc) : bool :=
  match p.1 with Returned => true | _ => false end.

Definition proc_valid (p : service_proc) : Prop :=
  match p.1 with Running => job_ok p.2 | _ => server p.2 = None end.

Definition proc_cancel (p : service_proc) : service_proc :=
  match p with
  | (Running, s) => run s [CtxDone]
  | (_, s) => (Returned, s)
  end.

#[export] Instance service_managed : ManagedJob service_proc O unit := {
  start_job _ := (Running, start);
  do_load l o := deliver (Ev l (LoadEvent o));
  do_loaded l := deliver (Ev l LoadedEvent);
  cancel := proc_cancel;
  ended := proc_ended;
  listens p := server p.2;
  target p := ListenAddr (opts p.2);
  addr_of := ListenAddr;
  valid := proc_valid }.

Lemma deliver_valid i p p' : proc_valid p → deliver i p = Some p' → proc_valid p'.
Proof.
  destruct p as [[] s]; unfold deliver; [|by intros Hv [= <-]|done]. intros Hs.
  destruct (run s [i]) as [st s'] eqn:E. pose proof (run_ok _ _ _ _ Hs E) as Hok.
  destruct st; intros [= <-]; [exact Hok|apply Hok].
Qed.

(** What comes of a handler that returns. *)
Lemma deliver_event l e s p' : deliver (Ev l e) (Running, s) = Some p' → proc_ended p' = false →
  ∃ s', p' = (Running, s') ∧ handle l e s = (Val tt, s').
Proof using Type.
  simpl. destruct (handle l e s) as [[[]|[]] s'] eqn:E; [|by intros [= <-]|done]. intros [= <-] _. by exists s'.
Qed.

#[export] Instance service_managed_laws : ManagedJobLaws service_proc O unit.
Proof.
  split; try done.
  - intros p Hv He. destruct p as [[] s]; [done|exact Hv|done].
  - intros p. by destruct p as [[] s].
  - intros p Hv. destruct p as [[] s]; [apply stopServer_none|exact Hv|exact Hv].
  - intros p Hv. destruct p as [[] s]; [apply stopServer_none|exact Hv|exact Hv].
  - intros l o p p'. apply deliver_valid.
  - intros l o [[] s] p'; [|by intros [= <-]|done]. intros E He.
    destruct (deliver_event _ _ _ _ E He) as (s' & -> & Es). by apply (on_load_addr _ _ _ _ Es).
  - intros l o [[] s] p'; [|by intros ? [= <-]|done]. intros Hv E He a Hs. pose proof (deliver_valid _ _ _ Hv E) as Hok.
    destruct (deliver_event _ _ _ _ E He) as (s' & -> & Es).
    rewrite (ok_addr _ Hok _ Hs). by apply (on_load_addr _ _ _ _ Es).
  - intros l p p'. apply deliver_valid.
  - intros l [[] s] p'; [|by intros ? [= <-]|done]. intros Hv E He. pose proof (deliver_valid _ _ _ Hv E) as Hok.
    destruct (deliver_event _ _ _ _ E He) as (s' & -> & Es).
    destruct (on_loaded_server _ _ _ Es) as [a Ea]. simpl in *. rewrite Ea.
    rewrite (ok_addr _ Hok _ Ea). f_equal. by apply (on_loaded_acquired _ _ _ _ Es).
  - intros l [[] s] p' _; [|done|done]. intros _. simpl.
    destruct (on_loaded l s) as [[[]|[]] s'] eqn:E; [by intros [= <-]| |done].
    intros _ _. by apply (on_loaded_fails _ _ _ E).
Qed.
End service_job.

(** ** loadConfig *)

Inductive message (Opt : Type) := LoadMsg (opts : Opt) | LoadedMsg | NilMsg.
Arguments LoadMsg {Opt}.
Arguments LoadedMsg {Opt}.
Arguments NilMsg {Opt}.

Lemma passed {A} (k name : gostring) rest (x y : A) :
  k ≠ name →
  (if bool_decide (k ∈ name :: rest) then x else y) = if bool_decide (k ∈ rest) then x else y.
Proof using Type. intros Hne. by rewrite (bool_decide_ext _ (k ∈ rest)) by set_solver. Qed.

Section manager.
Context {P Opt Svc : Type} `{ManagedJob P Opt Svc}.
(** [service.Options] and [dec.Decode]: [None] is an error, [Some None] that
    the service has no options. *)
Context {Data : Type} (decode : Svc → Data → option (option Opt)).
Context (outside : gostring → bool).        (* addresses taken by other processes *)
Context (services : gmap gostring Svc).

(** A job, and the event that it has received and not handled. *)
Abbreviation slot := (option (message Opt) * P)%type.
Abbreviation jobs := (gmap gostring slot).

(** The addresses that a job can listen at: free, and not another job's. *)
Definition free_for (m : jobs) (name : gostring) (a : gostring) : bool :=
  negb (outside a) &&
  forallb (λ '(k, s), bool_decide (k = name) || negb (bool_decide (listens s.2 = Some a)))
    (map_to_list m).

(** [None]: the send blocks. *)
Definition SendEvent (e : message Opt) (s : slot) : option slot :=
  if ended s.2 then Some s
  else match s.1 with None => Some (Some e, s.2) | Some _ => None end.

(** [None]: the handler never returns. *)
Definition handle_event (listen : gostring → bool) (e : message Opt) (p : P) : option P :=
  match e with
  | LoadMsg opts => do_load listen opts p
  | LoadedMsg => do_loaded listen p
  | NilMsg => Some p
  end.

(** The job that there is, or a new one. *)
Definition job_for (m : jobs) (name : gostring) (service : Svc) : slot :=
  match m !! name with
  | Some job => if ended job.2 then (None, start_job service) else job
  | None => (None, start_job service)
  end.

(** [None]: a send blocks.  The flag is whether there was no error. *)
Definition setOptions (name : gostring) (data : Data) (m : jobs) : option (jobs * bool) :=
  match Service services name with
  | NotFound => Some (m, false)
  | Dummy => Some (m, true)
  | Found service =>
      match decode service data with
      | None => Some (m, false)
      | Some opts =>
          let job := job_for m name service in
          let m := <[name := job]> m in
          match opts with
          | None => Some (m, true)
          | Some opts =>
              job ← SendEvent (LoadMsg opts) job;
              Some (<[name := job]> m, true)
          end
      end
  end.

Definition send_to (e : message Opt) (name : gostring) (m : jobs) : option jobs :=
  match m !! name with
  | Some job => job ← SendEvent e job; Some (<[name := job]> m)
  | None => Some m
  end.

(** Jobs that are not in the configuration are cancelled and deleted. *)
Definition stop_removed (config : list (gostring * Data)) (m : jobs) : jobs :=
  filter (λ kp, kp.1 ∈ config.*1) m.

Definition StopJobs (m : jobs) : jobs := (λ s, (None, cancel s.2)) <$> m.

(** The loops of loadConfig, each with what is left of its map. *)
Inductive phase :=
  | Setting (rest : list (gostring * Data))
  | Loading (rest : list gostring)
  | Flushing (rest : list gostring)
  | Finished.

Inductive reload_step : phase * jobs → phase * jobs → Prop :=
  | step_set name data rest m m' ok : setOptions name data m = Some (m', ok) →
      reload_step (Setting ((name, data) :: rest), m) (Setting rest, m')
  | step_set_end order m : order ≡ₚ (map_to_list m).*1 →
      reload_step (Setting [], m) (Loading order, m)
  | step_load name rest m m' : send_to LoadedMsg name m = Some m' →
      reload_step (Loading (name :: rest), m) (Loading rest, m')
  | step_load_end order m : order ≡ₚ (map_to_list m).*1 →
      reload_step (Loading [], m) (Flushing order, m)
  | step_flush name rest m m' : send_to NilMsg name m = Some m' →
      reload_step (Flushing (name :: rest), m) (Flushing rest, m')
  | step_flush_end m : reload_step (Flushing [], m) (Finished, m)
  | step_handle ph name e p p' m : m !! name = Some (Some e, p) →
      handle_event (free_for m name) e p = Some p' →
      reload_step (ph, m) (ph, <[name := (None, p')]> m).

(** [config] is the Jobs field in the order of the loop that sets options. *)
Definition loadConfig (config : list (gostring * Data)) (m : jobs) : phase * jobs → Prop :=
  rtc reload_step (Setting config, stop_removed config m).

(** ** What a configuration asks of the jobs

    An entry asks for new options; or for a job only, which keeps its options
    or has none; or, when its service is a dummy or unknown or its options
    cannot be decoded, for nothing. *)
Inductive request := ForOptions (s : Svc) (o : Opt) | ForJob (s : Svc) | ForNothing.

Definition asks (name : gostring) (data : Data) : request :=
  match Service services name with
  | Found s =>
      match decode s data with
      | Some (Some o) => ForOptions s o
      | Some None => ForJob s
      | None => ForNothing
      end
  | _ => ForNothing
  end.

Definition entry (config : list (gostring * Data)) (name : gostring) : request :=
  match (list_to_map config : gmap gostring Data) !! name with
  | Some data => asks name data
  | None => ForNothing
  end.

(** The job that the reload finds, if it is alive. *)
Definition alive (m : jobs) (name : gostring) : option P :=
  s ← m !! name; if ended s.2 then None else Some s.2.

(** Where a job of the configuration is to listen at. *)
Definition wanted (config : list (gostring * Data)) (m : jobs) (name : gostring) : option gostring :=
  match entry config name with
  | ForOptions _ o => Some (addr_of o)
  | ForJob s => Some (target (default (start_job s) (alive m name)))
  | ForNothing => target <$> alive m name
  end.

(** The jobs after the reload: those that are asked for, and those that were
    there and are still named. *)
Definition has_job (config : list (gostring * Data)) (m : jobs) (name : gostring) : Prop :=
  name ∈ config.*1 ∧ (entry config name ≠ ForNothing ∨ is_Some (m !! name)).

(** The addresses of a configuration are free for its jobs: different, not
    taken outside, and not held by another job when the reload starts. *)
Record satisfiable (config : list (gostring * Data)) (m : jobs) : Prop := {
  sat_distinct k1 k2 a : k1 ∈ config.*1 → k2 ∈ config.*1 →
    wanted config m k1 = Some a → wanted config m k2 = Some a → k1 = k2;
  sat_outside k a : k ∈ config.*1 → wanted config m k = Some a → outside a = false;
  sat_held k1 k2 s a : k1 ∈ config.*1 → wanted config m k1 = Some a → m !! k2 = Some s → k2 ∈ config.*1 →
    listens s.2 = Some a → k1 = k2 }.

(** The jobs between two reloads: at most the last event of a reload is to be
    handled. *)
Definition settled (m : jobs) : Prop :=
  map_Forall (λ _ s, (s.1 = None ∨ s.1 = Some NilMsg ∧ ended s.2 = false) ∧ valid s.2) m.

Context `{!ManagedJobLaws P Opt Svc}.
#[local] Set Default Proof Using "Type*".

Lemma setOptions_cases name data m m' ok :
  setOptions name data m = Some (m', ok) →
  match asks name data with
  | ForOptions s o => ∃ slot, SendEvent (LoadMsg o) (job_for m name s) = Some slot ∧ m' = <[name := slot]> m
  | ForJob s => m' = <[name := job_for m name s]> m
  | ForNothing => m' = m
  end.
Proof using Type.
  unfold setOptions, asks. destruct (Service services name) as [sv| |]; [|by intros [= <- <-]..].
  destruct (decode sv data) as [[o|]|]; [|by intros [= <- <-]..].
  intros (slot & E & [= <- <-])%bind_Some. exists slot. by rewrite insert_insert_eq.
Qed.

Section invariant.
Context (config : list (gostring * Data)) (m0 : jobs).
Context (Hnd : NoDup config.*1) (Hsat : satisfiable config m0).

Abbreviation goal := (wanted config m0).

Definition owned (k a : gostring) : Prop :=
  k ∈ config.*1 ∧ (goal k = Some a ∨ ∃ s, m0 !! k = Some s ∧ listens s.2 = Some a).

Lemma owned_wanted k1 k2 a : owned k1 a → k2 ∈ config.*1 → goal k2 = Some a → k1 = k2.
Proof.
  intros [Hin [Hw|(s & Hs & Hl)]] Hin2 H2; [by eapply sat_distinct|].
  symmetry. by eapply sat_held.
Qed.

Inductive stage := Waiting | Set_ | Loaded | Flushed.

Definition stage_of (ph : phase) (k : gostring) : stage :=
  match ph with
  | Setting rest => if bool_decide (k ∈ rest.*1) then Waiting else Set_
  | Loading rest => if bool_decide (k ∈ rest) then Set_ else Loaded
  | Flushing rest => if bool_decide (k ∈ rest) then Loaded else Flushed
  | Finished => Flushed
  end.

Definition target_ok (k : gostring) (p : P) : Prop := ended p = false → goal k = Some (target p).
Definition listening (k : gostring) (p : P) : Prop := ended p = false → listens p = goal k.

Definition stage_ok (k : gostring) (st : stage) (s : slot) : Prop :=
  match st, s.1 with
  | Waiting, (None | Some NilMsg) => snd <$> m0 !! k = Some s.2
  | Set_, Some (LoadMsg o) => goal k = Some (addr_of o)
  | Set_, (None | Some NilMsg) => target_ok k s.2
  | Loaded, Some LoadedMsg => target_ok k s.2
  | Loaded, None => listening k s.2
  | Flushed, (None | Some NilMsg) => listening k s.2
  | _, _ => False
  end.

Record slot_ok (k : gostring) (st : stage) (s : slot) : Prop := {
  slot_valid : valid s.2;
  slot_owned a : listens s.2 = Some a → owned k a;
  slot_alive : s.1 ≠ None → ended s.2 = false;
  slot_stage : stage_ok k st s }.

Definition rest_ok (ph : phase) : Prop :=
  match ph with
  | Setting rest => ∃ pre, config = pre ++ rest
  | Loading rest | Flushing rest => NoDup rest
  | Finished => True
  end.

(** Every job of the configuration that the first loop has passed is there. *)
Record reload_inv (st : phase * jobs) : Prop := {
  inv_slots : map_Forall (λ k s, slot_ok k (stage_of st.1 k) s) st.2;
  inv_config k s : st.2 !! k = Some s → has_job config m0 k;
  inv_rest : rest_ok st.1;
  inv_there k : has_job config m0 k → stage_of st.1 k ≠ Waiting ∨ is_Some (m0 !! k) → is_Some (st.2 !! k) }.

Lemma entry_in name data : (name, data) ∈ config → entry config name = asks name data.
Proof using Hnd.
  intros Hin. unfold entry. by rewrite (proj1 (elem_of_list_to_map config name data Hnd)).
Qed.

(** A LoadedEvent never finds its address taken. *)
Lemma free_for_wanted st m k a :
  reload_inv (st, m) → k ∈ config.*1 → goal k = Some a → free_for m k a = true.
Proof.
  intros Hinv Hk Hw. unfold free_for. rewrite (sat_outside _ _ Hsat _ _ Hk Hw). simpl.
  apply forallb_forall. intros [k' s] Hin%list_elem_of_In%elem_of_map_to_list.
  apply orb_true_iff. rewrite bool_decide_eq_true, negb_true_iff, bool_decide_eq_false.
  destruct (decide (k' = k)) as [|Hne]; [by left|right]. intros Hl. apply Hne.
  apply (owned_wanted _ _ a); [|done..]. by apply (inv_slots _ Hinv _ _ Hin).
Qed.

Lemma loaded_alive st m k p p' :
  reload_inv (st, m) → k ∈ config.*1 → valid p → target_ok k p → ended p = false →
  do_loaded (free_for m k) p = Some p' → ended p' = false.
Proof.
  intros Hinv Hk Hv Ht He E. destruct (ended p') eqn:E'; [|done]. exfalso.
  destruct (loaded_fails _ _ _ Hv He E E') as [_ Hf].
  rewrite (free_for_wanted st m k (target p)) in Hf by (done || by apply Ht). done.
Qed.

(** What handling an event does to the invariant of a slot. *)
Lemma handle_slot st ph m k e p p' :
  reload_inv (ph, m) → k ∈ config.*1 → slot_ok k st (Some e, p) →
  handle_event (free_for m k) e p = Some p' → slot_ok k st (None, p').
Proof.
  intros Hinv Hk [Hv Ho Ha Hs] E. simpl in *. specialize (Ha ltac:(done)).
  destruct e as [o| |]; simpl in E.
  - destruct st; simpl in Hs; try done. pose proof (load_valid _ _ _ _ Hv E) as Hv'.
    split; simpl; [done| |done|].
    + intros a Hl. destruct (ended p') eqn:E'; [by rewrite (ended_listens _ Hv' E') in Hl|].
      rewrite (load_listens _ _ _ _ Hv E E' _ Hl). split; [done|by left].
    + intros E'. by rewrite (load_target _ _ _ _ E E').
  - destruct st; simpl in Hs; try done.
    pose proof (loaded_alive _ _ _ _ _ Hinv Hk Hv Hs Ha E) as E'.
    pose proof (loaded_listens _ _ _ Hv E E') as Hl.
    split; simpl; [by eapply loaded_valid| |done|].
    + intros a Hl'. split; [done|]. left. rewrite Hl in Hl'. injection Hl' as <-. by apply Hs.
    + intros _. rewrite Hl. symmetry. by apply Hs.
  - injection E as <-. by destruct st.
Qed.

Lemma slot_ok_same k st st' s :
  slot_ok k st s → stage_ok k st' s → slot_ok k st' s.
Proof using Type. by intros [] ?; split. Qed.

Lemma send_slot k e st st' s s' :
  slot_ok k st s → SendEvent e s = Some s' →
  (ended s.2 = true → s.1 = None → stage_ok k st' s) →
  (ended s.2 = false → s.1 = None → stage_ok k st' (Some e, s.2)) →
  slot_ok k st' s'.
Proof using Type.
  intros [Hv Ho Ha Hs] E Hended Hsent. unfold SendEvent in E.
  destruct (ended s.2) eqn:He.
  - injection E as <-. assert (s.1 = None) as Hq.
    { destruct (s.1); [|done]. discriminate (Ha ltac:(done)). }
    split; auto. intros; congruence.
  - destruct s as [[|] p]; simpl in *; [done|]. injection E as <-. split; simpl; auto.
Qed.

(** The invariant after one slot has changed. *)
Lemma inv_insert ph ph' m k s :
  reload_inv (ph, m) → has_job config m0 k → slot_ok k (stage_of ph' k) s →
  (∀ k', k' ≠ k → stage_of ph' k' = stage_of ph k') → rest_ok ph' →
  reload_inv (ph', <[k := s]> m).
Proof using Type.
  intros [H1 H2 H3 H4] Hk Hs Hst Hrest. split; simpl in *; [| |done|].
  - apply map_Forall_lookup. intros k' s' [[<- <-]|[Hne E]]%lookup_insert_Some; [done|].
    rewrite Hst by done. by apply H1.
  - intros k' s' [[<- <-]|[Hne E]]%lookup_insert_Some; [done|by eapply H2].
  - intros k' Hj Hw. destruct (decide (k' = k)) as [->|Hne]; [by rewrite lookup_insert_eq|].
    rewrite lookup_insert_ne by done. apply H4; [done|by rewrite <- Hst].
Qed.

(** The invariant after a step that changes no job. *)
Lemma inv_phase ph ph' m :
  reload_inv (ph, m) →
  (∀ k s, m !! k = Some s → stage_of ph' k = stage_of ph k ∨ slot_ok k (stage_of ph' k) s) →
  (∀ k, has_job config m0 k → stage_of ph' k ≠ Waiting → stage_of ph k ≠ Waiting ∨ is_Some (m0 !! k)) →
  rest_ok ph' → reload_inv (ph', m).
Proof using Type.
  intros [H1 H2 H3 H4] Hst Hw Hrest. split; simpl in *; [|done..|].
  - intros k s E. destruct (Hst _ _ E) as [->|]; [by apply H1|done].
  - intros k Hj Hor. apply H4; [done|]. destruct Hor; [by apply Hw|by right].
Qed.

(** The job that the first loop finds or starts. *)
Lemma job_for_ok name sv m :
  (∀ s, m !! name = Some s → slot_ok name Waiting s) → (is_Some (m0 !! name) → is_Some (m !! name)) →
  let job := job_for m name sv in
  valid job.2 ∧ (∀ a, listens job.2 = Some a → owned name a) ∧ ended job.2 = false ∧
  job.2 = default (start_job sv) (alive m0 name) ∧ (job.1 = None ∨ job.1 = Some NilMsg).
Proof.
  intros Hm Hn. unfold job_for, alive. cbv zeta.
  assert (valid (start_job sv) ∧ (∀ a, listens (start_job sv) = Some a → owned name a) ∧
    ended (start_job sv) = false) as (N1 & N2 & N3).
  { split_and!; [apply start_valid| |apply start_ended]. intros a. by rewrite start_listens. }
  destruct (m !! name) as [s|] eqn:E; simpl.
  - destruct (Hm _ eq_refl) as [Hv Ho Ha Hs].
    assert (snd <$> m0 !! name = Some s.2 ∧ (s.1 = None ∨ s.1 = Some NilMsg)) as [H0 Hq].
    { simpl in Hs. destruct (s.1) as [[]|]; try done; auto. }
    apply fmap_Some in H0 as (s0 & -> & Hs0). simpl. rewrite <- Hs0.
    destruct (ended s.2) eqn:He; simpl; split_and!; auto.
  - destruct (m0 !! name) as [s0|]; [by destruct Hn as [? [=]]|]. simpl. split_and!; auto.
Qed.

Lemma nothing_inv name data rest m :
  reload_inv (Setting ((name, data) :: rest), m) → rest_ok (Setting rest) →
  (∀ k, k ≠ name → stage_of (Setting rest) k = stage_of (Setting ((name, data) :: rest)) k) →
  (∀ s, m !! name = Some s → slot_ok name Waiting s) → stage_of (Setting rest) name = Set_ →
  entry config name = ForNothing → reload_inv (Setting rest, m).
Proof using Type.
  intros Hinv Hrest Hother Hw Hst He. eapply inv_phase; [done| | |done].
  - intros k s Em. destruct (decide (k = name)) as [->|Hne]; [right|left; by apply Hother].
    rewrite Hst. destruct (Hw _ Em) as [H1 H2 H3 H4]. split; [done..|].
    assert (∀ p, snd <$> m0 !! name = Some p → target_ok name p) as Ht.
    { intros p (s0 & Es & ->)%fmap_Some Hal. unfold wanted, alive. rewrite He, Es. simpl. by rewrite Hal. }
    unfold stage_ok in *. destruct (s.1) as [[]|]; try done; by apply Ht.
  - intros k Hj Hk. destruct (decide (k = name)) as [->|Hne]; [right; by destruct Hj as [_ [?|?]]|].
    left. by rewrite <- Hother.
Qed.

Lemma set_inv name data rest m m' ok :
  reload_inv (Setting ((name, data) :: rest), m) → setOptions name data m = Some (m', ok) →
  reload_inv (Setting rest, m').
Proof.
  intros Hinv E. pose proof (inv_rest _ Hinv) as [pre Hpre]. simpl in Hpre.
  assert (name ∈ config.*1) as Hin by (rewrite Hpre, fmap_app; set_solver -Hinv).
  assert (entry config name = asks name data) as He by (apply entry_in; rewrite Hpre; set_solver -Hinv).
  assert (name ∉ rest.*1) as Hnot.
  { clear -Hnd Hpre. rewrite Hpre, fmap_app in Hnd. by apply NoDup_app in Hnd as (_ & _ & [Hn _]%NoDup_cons). }
  assert (∀ k, k ≠ name → stage_of (Setting rest) k = stage_of (Setting ((name, data) :: rest)) k) as Hother.
  { intros k Hne. symmetry. by apply passed. }
  assert (rest_ok (Setting rest)) as Hrest by (exists (pre ++ [(name, data)]); by rewrite <- app_assoc).
  assert (∀ s, m !! name = Some s → slot_ok name Waiting s) as Hw.
  { intros s Em. pose proof (inv_slots _ Hinv _ _ Em) as H0. simpl in H0.
    by rewrite bool_decide_true in H0 by apply list_elem_of_here. }
  assert (stage_of (Setting rest) name = Set_) as Hst by (simpl; by rewrite bool_decide_false).
  assert (asks name data ≠ ForNothing → is_Some (m0 !! name) → is_Some (m !! name)) as Hthere.
  { intros Ha Hs. apply (inv_there _ Hinv); [|by right]. split; [done|by right]. }
  assert (asks name data ≠ ForNothing → has_job config m0 name) as Hjob.
  { intros Ha. split; [done|left; congruence]. }
  apply setOptions_cases in E. destruct (asks name data) as [sv o|sv|].
  - destruct E as (s' & Es & ->). destruct (job_for_ok name sv m Hw (Hthere ltac:(done))) as (H1 & H2 & H3 & _).
    eapply inv_insert; [done|by apply Hjob| |done..]. rewrite Hst. unfold SendEvent in Es. rewrite H3 in Es.
    destruct (job_for m name sv) as [[|] p]; [done|]. injection Es as <-. split; simpl; try done.
    unfold wanted. by rewrite He.
  - subst m'. destruct (job_for_ok name sv m Hw (Hthere ltac:(done))) as (H1 & H2 & H3 & H4 & H5).
    eapply inv_insert; [done|by apply Hjob| |done..]. rewrite Hst.
    assert (target_ok name (job_for m name sv).2) as Ht.
    { intros _. unfold wanted. by rewrite He, H4. }
    split; [done..|]. unfold stage_ok. by destruct H5 as [-> | ->].
  - subst m'. by eapply nothing_inv.
Qed.

(** The loops that send an event to every job. *)
Lemma send_inv e name ph ph' m m' :
  reload_inv (ph, m) → send_to e name m = Some m' →
  stage_of ph name ≠ Waiting →
  (∀ s, stage_ok name (stage_of ph name) s → s.1 = None →
     (ended s.2 = true → stage_ok name (stage_of ph' name) s) ∧
     stage_ok name (stage_of ph' name) (Some e, s.2)) →
  (∀ k, k ≠ name → stage_of ph' k = stage_of ph k) → rest_ok ph' →
  reload_inv (ph', m').
Proof.
  intros Hinv E Hw Hstage Hother Hrest. unfold send_to in E. destruct (m !! name) as [s|] eqn:Em.
  - destruct (SendEvent e s) as [s'|] eqn:Es; [|done]. injection E as <-.
    pose proof (inv_slots _ Hinv _ _ Em) as Hs. simpl in Hs.
    eapply inv_insert; [done|by eapply inv_config| |done..].
    eapply send_slot; [done..| |]; intros He Hq; by apply Hstage; [apply Hs|..].
  - injection E as <-. eapply inv_phase; [done| | |done].
    + intros k s Ek. left. apply Hother. congruence.
    + intros k Hj Hk. destruct (decide (k = name)) as [->|Hne]; [by left|]. left. by rewrite <- Hother.
Qed.

Lemma keys_NoDup (m : jobs) order : order ≡ₚ (map_to_list m).*1 → NoDup order.
Proof using Type. intros ->. apply NoDup_fst_map_to_list. Qed.

Lemma keys_in (m : jobs) order k s : order ≡ₚ (map_to_list m).*1 → m !! k = Some s → k ∈ order.
Proof using Type.
  intros -> Es. apply list_elem_of_fmap. exists (k, s). split; [done|]. by apply elem_of_map_to_list.
Qed.

(** A loop that ends, with the names for the next. *)
Lemma next_loop ph ph' m :
  reload_inv (ph, m) → (∀ k, stage_of ph k ≠ Waiting) →
  (∀ k s, m !! k = Some s → stage_of ph' k = stage_of ph k) → rest_ok ph' → reload_inv (ph', m).
Proof using Type.
  intros Hinv Hw Hst Hrest. eapply inv_phase; [done| | |done].
  - intros k s E. left. by eapply Hst.
  - intros k _ _. left. apply Hw.
Qed.

Lemma step_inv st st' : reload_inv st → reload_step st st' → reload_inv st'.
Proof.
  intros Hinv Hstep. destruct Hstep as
    [name data rest m m' ok E|order m Ho|name rest m m' E|order m Ho|name rest m m' E|m|ph name e p p' m E Eh].
  - by eapply set_inv.
  - eapply next_loop; [done|done| |by eapply keys_NoDup]. intros k s Ek. simpl.
    by rewrite bool_decide_true by by eapply keys_in.
  - pose proof (inv_rest _ Hinv) as [Hn Hr]%NoDup_cons.
    eapply send_inv; [done..| | | |done]; simpl.
    + by rewrite bool_decide_true by apply list_elem_of_here.
    + intros s. rewrite bool_decide_true by apply list_elem_of_here.
      rewrite bool_decide_false by done. unfold stage_ok. intros Hs Hq. rewrite Hq in *. simpl in *.
      split; [|done]. intros He Hf. congruence.
    + intros k Hne. symmetry. by apply passed.
  - eapply next_loop; [done|intros k; by simpl| |by eapply keys_NoDup]. intros k s Ek. simpl.
    by rewrite bool_decide_true by by eapply keys_in.
  - pose proof (inv_rest _ Hinv) as [Hn Hr]%NoDup_cons.
    eapply send_inv; [done..| | | |done]; simpl.
    + by rewrite bool_decide_true by apply list_elem_of_here.
    + intros s. rewrite bool_decide_true by apply list_elem_of_here.
      rewrite bool_decide_false by done. unfold stage_ok. intros Hs Hq. by rewrite Hq in *.
    + intros k Hne. symmetry. by apply passed.
  - by eapply next_loop.
  - pose proof (inv_slots _ Hinv _ _ E) as Hs. pose proof (inv_config _ Hinv _ _ E) as Hj. simpl in Hs.
    eapply inv_insert; [done|done| |done|apply (inv_rest _ Hinv)]. eapply handle_slot; [done|apply Hj|done..].
Qed.

Lemma start_inv :
  settled m0 → reload_inv (Setting config, stop_removed config m0).
Proof using Type.
  intros Hidle. split; simpl.
  - intros k s [E Hk]%map_lookup_filter_Some. simpl in *. rewrite bool_decide_true by done.
    destruct (Hidle _ _ E) as [Hq Hv]. split; simpl; [done| | |].
    + intros a Hl. split; [done|]. right. by exists s.
    + destruct Hq as [->|[_ Hq] ]; done.
    + rewrite E. destruct Hq as [->|[-> _] ]; done.
  - intros k s [E Hk]%map_lookup_filter_Some. split; [done|by right].
  - by exists [].
  - intros k [Hk _]. rewrite bool_decide_true by done. intros [?|[s E] ]; [done|].
    exists s. by apply map_lookup_filter_Some.
Qed.

Lemma reachable_inv st : settled m0 → loadConfig config m0 st → reload_inv st.
Proof.
  intros Hidle Hr. apply start_inv in Hidle. unfold loadConfig in Hr. revert Hidle.
  induction Hr as [|st1 st2 st3 Hs Hr IH]; [done|]. intros Hi. apply IH. by eapply step_inv.
Qed.
End invariant.

(** ** Every reload ends *)

Definition pending (m : jobs) : nat := size (filter (λ ks : gostring * slot, is_Some ks.2.1) m).

Definition steps_left (st : phase * jobs) : nat :=
  (pending st.2 +
   match st.1 with
   | Setting rest => 6 * length rest + 4 * size st.2 + 3
   | Loading rest => 2 * length rest + 2 * size st.2 + 2
   | Flushing rest => 2 * length rest + 1
   | Finished => 0
   end)%nat.

Lemma size_insert_le (m : jobs) k s : (size (<[k := s]> m) ≤ S (size m))%nat.
Proof using Type. rewrite map_size_insert. destruct (m !! k); simpl; lia. Qed.

Lemma size_insert_same (m : jobs) k s : is_Some (m !! k) → size (<[k := s]> m) = size m.
Proof using Type. intros [s' E]. by rewrite map_size_insert, E. Qed.

Lemma pending_insert m k s : (pending (<[k := s]> m) ≤ S (pending m))%nat.
Proof using Type.
  unfold pending. rewrite map_filter_insert. case_decide.
  - rewrite map_size_insert. case_match; simpl; lia.
  - rewrite map_filter_delete, map_size_delete. case_match; simpl; lia.
Qed.

Lemma pending_handle m k e p p' :
  m !! k = Some (Some e, p) → (pending (<[k := (None, p')]> m) < pending m)%nat.
Proof using Type.
  intros E. unfold pending. rewrite map_filter_insert, decide_False by (by intros []).
  rewrite map_filter_delete, map_size_delete.
  set (f := filter _ m). assert (f !! k = Some ((Some e, p) : slot)) as E'
    by by apply map_lookup_filter_Some.
  rewrite E'. pose proof (map_size_ne_0_lookup_2 f k (mk_is_Some _ _ E')). lia.
Qed.

Lemma setOptions_insert name data m m' ok :
  setOptions name data m = Some (m', ok) → m' = m ∨ ∃ s, m' = <[name := s]> m.
Proof using Type.
  intros E%setOptions_cases. destruct (asks name data); [destruct E as (sl & _ & ->)|..]; eauto.
Qed.

Lemma send_to_size e name m m' :
  send_to e name m = Some m' → size m' = size m ∧ (pending m' ≤ S (pending m))%nat.
Proof using Type.
  unfold send_to. destruct (m !! name) as [s|] eqn:E; [|intros [= <-]; lia].
  destruct (SendEvent e _) as [s'|]; [|done]. intros [= <-]. split.
  - by apply size_insert_same; eauto.
  - apply pending_insert.
Qed.

Lemma step_decreases st st' : reload_step st st' → (steps_left st' < steps_left st)%nat.
Proof using Type.
  intros Hs. destruct Hs as
    [name data rest m m' ok E|order m Ho|name rest m m' E|order m Ho|name rest m m' E|m|ph name e p p' m E Eh];
    unfold steps_left; cbn [fst snd length].
  - destruct (setOptions_insert _ _ _ _ _ E) as [->|[s ->]]; [lia|].
    pose proof (size_insert_le m name s). pose proof (pending_insert m name s). lia.
  - apply Permutation_length in Ho. rewrite Ho, length_fmap, length_map_to_list. lia.
  - apply send_to_size in E as [-> ?]. lia.
  - apply Permutation_length in Ho. rewrite Ho, length_fmap, length_map_to_list. lia.
  - apply send_to_size in E as [_ ?]. lia.
  - lia.
  - pose proof (pending_handle m name e p p' E).
    rewrite size_insert_same by eauto. lia.
Qed.

Lemma blocked e s : SendEvent e s = None → ∃ e' p, s = (Some e', p).
Proof using Type. unfold SendEvent. destruct s as [[]]; simpl; eauto; by case_match. Qed.

Lemma setOptions_blocked name data m :
  setOptions name data m = None → ∃ e p, m !! name = Some (Some e, p).
Proof using Type.
  unfold setOptions. destruct (Service services name) as [sv| |]; [|done..].
  destruct (decode sv data) as [[o|]|]; [|done..]. cbv zeta.
  destruct (SendEvent (LoadMsg o) (job_for m name sv)) as [sl|] eqn:E; [done|]. intros _.
  apply blocked in E as (e & p & E). unfold job_for in E. destruct (m !! name) as [sl|]; [|done].
  destruct (ended sl.2); [done|]. subst sl. by exists e, p.
Qed.

Lemma send_to_blocked e name m : send_to e name m = None → ∃ e' p, m !! name = Some (Some e', p).
Proof using Type.
  unfold send_to. destruct (m !! name) as [s|]; [|done].
  destruct (SendEvent e s) eqn:Eb; [done|]. apply blocked in Eb as (e' & p & ->). eauto.
Qed.

(** A send blocks only while a job has an event to handle. *)
Lemma step_or_finished st :
  (∀ k e p, st.2 !! k = Some (Some e, p) → is_Some (handle_event (free_for st.2 k) e p)) →
  st.1 ≠ Finished → ∃ st', reload_step st st'.
Proof using Type.
  intros Hret. assert (∀ k e p, st.2 !! k = Some (Some e, p) → ∃ st', reload_step st st') as Hh.
  { intros k e p E. destruct (Hret k e p E) as [p' E']. destruct st. eexists. by eapply step_handle. }
  clear Hret. destruct st as [[[|[name data] rest]|[|name rest]|[|name rest]|] m]; simpl; intros Hf.
  - eexists. by eapply step_set_end.
  - destruct (setOptions name data m) as [[m' ok]|] eqn:E; [eexists; by eapply step_set|].
    apply setOptions_blocked in E as (? & ? & ?). eauto.
  - eexists. by eapply step_load_end.
  - destruct (send_to LoadedMsg name m) as [m'|] eqn:E; [eexists; by eapply step_load|].
    apply send_to_blocked in E as (? & ? & ?). eauto.
  - eexists. by apply step_flush_end.
  - destruct (send_to NilMsg name m) as [m'|] eqn:E; [eexists; by eapply step_flush|].
    apply send_to_blocked in E as (? & ? & ?). eauto.
  - done.
Qed.

(** A job whose handler never returns. *)
Definition stuck (k : gostring) (o : Opt) (p : P) (st : phase * jobs) : Prop :=
  st.2 !! k = Some (Some (LoadMsg o), p) ∧
  match st.1 with Setting _ => True | Loading rest => k ∈ rest | _ => False end.

Lemma stuck_step k o p st st' :
  ended p = false → (∀ l, do_load l o p = None) → stuck k o p st → reload_step st st' → stuck k o p st'.
Proof using Type.
  intros He Hd [Hk Hph] Hs. unfold stuck in *. destruct Hs as
    [name data rest m m' ok E|order m Ho|name rest m m' E|order m Ho|name rest m m' E|m|ph name e q q' m E Eh];
    simpl in *; try done.
  - split; [|done]. apply setOptions_cases in E. destruct (decide (k = name)) as [->|Hne].
    + destruct (asks name data) as [sv o'|sv|]; [|subst m'..]; unfold job_for in *; try rewrite Hk in *; simpl in *;
        rewrite ?He in *; [|by rewrite lookup_insert_eq|done].
      destruct E as (sl & Es & _). unfold SendEvent in Es. simpl in Es. by rewrite He in Es.
    + destruct (asks name data); [destruct E as (sl & _ & ->)|subst m'..]; by rewrite ?lookup_insert_ne by done.
  - split; [done|]. by eapply keys_in.
  - unfold send_to in E. destruct (decide (k = name)) as [->|Hne].
    { rewrite Hk in E. unfold SendEvent in E. simpl in E. by rewrite He in E. }
    split; [|by apply elem_of_cons in Hph as [?|?]]. destruct (m !! name); [|by injection E as <-].
    apply bind_Some in E as (sl & _ & [= <-]). by rewrite lookup_insert_ne.
  - by apply elem_of_nil in Hph.
  - split; [|done]. destruct (decide (k = name)) as [->|Hne]; [|by rewrite lookup_insert_ne].
    rewrite Hk in E. injection E as <- <-. simpl in Eh. by rewrite Hd in Eh.
Qed.

(** C16: whatever the configuration and the jobs, if every handler that a
    reload can start returns then every execution of the reload returns; and
    if a job has received a LoadEvent whose handler never returns then the
    reload never finishes and the job keeps that event. *)
Theorem reload_ends config m :
  ((∀ st k e p, loadConfig config m st → st.2 !! k = Some (Some e, p) →
      is_Some (handle_event (free_for st.2 k) e p)) →
   eventually reload_step (λ st : phase * jobs, st.1 = Finished) (Setting config, stop_removed config m)) ∧
  (∀ rest m1 k o p st, m1 !! k = Some (Some (LoadMsg o), p) → ended p = false → (∀ l, do_load l o p = None) →
     rtc reload_step (Setting rest, m1) st → st.1 ≠ Finished ∧ st.2 !! k = Some (Some (LoadMsg o), p)).
Proof using Type.
  split.
  - intros Hret. apply (eventually_measure _ (loadConfig config m) _ steps_left); [| | |by apply rtc_refl].
    + intros [[] m']; simpl; first [by left|by right].
    + intros st st' Hr _ Hs. split; [by eapply rtc_r|]. by apply step_decreases.
    + intros st Hr. apply step_or_finished. intros k e p. by apply Hret.
  - intros rest m1 k o p st E He Hd Hr. assert (stuck k o p (Setting rest, m1)) as H0 by (split; done).
    assert (stuck k o p st) as [H1 H2].
    { revert H0. induction Hr as [|st1 st2 st3 Hs _ IH]; [done|]. intros H0. apply IH. by eapply stuck_step. }
    split; [|done]. by destruct (st.1).
Qed.

(** C15: for a configuration with distinct keys (those of a YAML map) and jobs
    as a reload leaves them, when the addresses the configuration asks for are
    different, not taken outside and not held by another job when the reload
    starts, then, whatever the order in which events are sent and handled, no
    LoadedEvent ends a job, and after the reload the jobs are those that the
    entries ask for or that were there and are still named, again as a reload
    leaves them, and each that runs listens at its wanted address: that of its
    new options, or, for an entry without options (an alias, a dummy, an
    unknown service, options that do not decode or that the service does not
    have), the one it had. *)
Theorem reload_reaches config m st :
  NoDup config.*1 → satisfiable config m → settled m → loadConfig config m st →
  (∀ k p p', st.2 !! k = Some (Some LoadedMsg, p) → do_loaded (free_for st.2 k) p = Some p' → ended p' = false) ∧
  (st.1 = Finished →
   (∀ k, is_Some (st.2 !! k) ↔ has_job config m k) ∧ settled st.2 ∧
   ∀ k q p, st.2 !! k = Some (q, p) → ended p = false → listens p = wanted config m k).
Proof.
  intros Hnd Hsat Hidle Hr. pose proof (reachable_inv config m Hnd Hsat st Hidle Hr) as Hinv.
  destruct st as [ph m']. simpl. split.
  - intros k p p' E. pose proof (inv_slots _ _ _ Hinv _ _ E) as [Hv _ Ha Hs].
    pose proof (inv_config _ _ _ Hinv _ _ E) as [Hk _]. simpl in *.
    eapply loaded_alive; [done..| |by apply Ha]. unfold stage_ok in Hs. by case_match.
  - intros ->. split_and!.
    + intros k. split; [intros [s E]; by eapply (inv_config _ _ _ Hinv)|].
      intros Hk. apply (inv_there _ _ _ Hinv); [done|by left].
    + intros k s E. pose proof (inv_slots _ _ _ Hinv _ _ E) as [Hv _ Ha Hs]. split; [|done].
      simpl in Hs. destruct (s.1) as [[]|]; try done; [right; split; [done|by apply Ha]|by left].
    + intros k q p E He. pose proof (inv_slots _ _ _ Hinv _ _ E) as [_ _ _ Hs].
      simpl in Hs. destruct q as [[]|]; try done; by apply Hs.
Qed.
End manager.
