(* ===== verification/Reload.v ===== *)
(** * Reloads executed.

    The steps of a reload as a function of a schedule, and what comes of
    concrete configurations of pprof jobs. *)

From S2P Require Import Prelude GoStrings Url Jobs Pprof Manager.
From S2P Require Defaults Proxy Http HttpSpec.

#[export] Instance pprof_starts : StartsServer Pprof.Options unit.
Proof. by apply starts_server. Qed.

(** What runs next: the Manager, or the job with this name. *)
Inductive turn := Manages | Handles (name : gostring).

Section exec.
Context {P Opt Svc Data : Type} `{ManagedJob P Opt Svc}.
Context (decode : Svc → Data → option (option Opt)) (outside : gostring → bool).
Context (services : gmap gostring Svc).
#[local] Set Default Proof Using "Type*".

Definition take_turn (t : turn) (st : phase (Data := Data) * gmap gostring (option (message Opt) * P))
    : option (phase (Data := Data) * gmap gostring (option (message Opt) * P)) :=
  let '(ph, m) := st in
  match t with
  | Handles name =>
      match m !! name with
      | Some (Some e, p) =>
          p' ← handle_event (free_for outside m name) e p; Some (ph, <[name := (None, p')]> m)
      | _ => None
      end
  | Manages =>
      match ph with
      | Setting ((name, data) :: rest) =>
          '(m', _) ← setOptions decode services name data m; Some (Setting rest, m')
      | Setting [] => Some (Loading (map_to_list m).*1, m)
      | Loading (name :: rest) => m' ← send_to LoadedMsg name m; Some (Loading rest, m')
      | Loading [] => Some (Flushing (map_to_list m).*1, m)
      | Flushing (name :: rest) => m' ← send_to NilMsg name m; Some (Flushing rest, m')
      | Flushing [] => Some (Finished, m)
      | Finished => None
      end
  end.

Fixpoint exec (ts : list turn) st :=
  match ts with
  | [] => Some st
  | t :: ts => st ← take_turn t st; exec ts st
  end.

Lemma take_turn_step t st st' : take_turn t st = Some st' → reload_step decode outside services st st'.
Proof using Type.
  destruct st as [ph m]. destruct t as [|name]; simpl.
  - destruct ph as [[|[name data] rest]|[|name rest]|[|name rest]|]; [..|done].
    + intros [= <-]. by apply step_set_end.
    + destruct (setOptions _ _ _ _ _) as [[m' ok]|] eqn:E; [|done]. intros [= <-]. by eapply step_set.
    + intros [= <-]. by apply step_load_end.
    + destruct (send_to _ _ _) eqn:E; [|done]. intros [= <-]. by apply step_load.
    + intros [= <-]. by apply step_flush_end.
    + destruct (send_to _ _ _) eqn:E; [|done]. intros [= <-]. by apply step_flush.
  - destruct (m !! name) as [[[e|] p]|] eqn:E; [|done..].
    intros (p' & Eh & [= <-])%bind_Some. by eapply step_handle.
Qed.

Lemma exec_reload ts st st' : exec ts st = Some st' → rtc (reload_step decode outside services) st st'.
Proof using Type.
  revert st. induction ts as [|t ts IH]; intros st; simpl; [by intros [= ->]|].
  destruct (take_turn t st) as [st1|] eqn:E; [|done]. intros Hr.
  eapply rtc_l; [by eapply take_turn_step|by apply IH].
Qed.
End exec.

(** ** Two jobs *)

Definition a : gostring := bs "pprof|a".
Definition b : gostring := bs "pprof|b".
Definition services : gmap gostring unit := AddService ∅ (bs "pprof") tt.
Definition decode (_ : unit) (addr : gostring) : option (option Pprof.Options) :=
  Some (Some (Pprof.MkOptions addr)).
Definition nobody (_ : gostring) : bool := false.

Definition first_config : list (gostring * gostring) := [(a, bs ":1"); (b, bs ":2")].
Definition swapped : list (gostring * gostring) := [(a, bs ":2"); (b, bs ":1")].

Abbreviation pprof_jobs := (gmap gostring (option (message Pprof.Options) * service_proc (O := Pprof.Options) (X := unit))).

Definition at_once : list turn :=
  [Manages; Handles a; Manages; Handles b; Manages;
   Manages; Handles b; Manages; Handles a; Manages;
   Manages; Handles b; Manages; Handles a; Manages].

(** The LoadEvent of [a] is handled after the LoadedEvent of [b]. *)
Definition late : list turn :=
  [Manages; Manages; Handles b; Manages;
   Manages; Handles b; Handles a; Manages; Handles a; Manages;
   Manages; Manages; Handles a; Manages].

Definition reload (ts : list turn) (config : list (gostring * gostring)) (m : pprof_jobs) :=
  exec decode nobody services ts (Setting config, stop_removed config m).

Definition listening_at (m : pprof_jobs) : list (gostring * (bool * option gostring)) :=
  (λ ks, (ks.1, (ended ks.2.2, listens ks.2.2))) <$> map_to_list m.

(** The jobs at the end of a schedule, and whether it is one. *)
Definition after (ts : list turn) (config : list (gostring * gostring)) (m : pprof_jobs) : pprof_jobs :=
  match reload ts config m with Some (_, m) => m | None => ∅ end.

Definition finishes (ts : list turn) (config : list (gostring * gostring)) (m : pprof_jobs) : bool :=
  match reload ts config m with Some (Finished, _) => true | _ => false end.

Lemma reload_after ts config m :
  finishes ts config m = true → reload ts config m = Some (Finished, after ts config m).
Proof. unfold finishes, after. by destruct (reload ts config m) as [[[] m']|]. Qed.

Lemma loads_after ts config m :
  finishes ts config m = true → loadConfig decode nobody services config m (Finished, after ts config m).
Proof. intros H%reload_after. by eapply exec_reload. Qed.

Definition both_running : pprof_jobs := after at_once first_config ∅.

(** One job moves, one stays, and an alias asks for nothing. *)
Definition moved : list (gostring * gostring) := [(a, bs ":3"); (bs "alias|x", bs "y"); (b, bs ":2")].

Lemma both_running_list :
  map_to_list (A := option (message Pprof.Options) * service_proc) both_running =
  [(b, (None, (Running, MkJob (Pprof.MkOptions (bs ":2")) (Some (bs ":2")) tt [Listening (bs ":2")])));
   (a, (None, (Running, MkJob (Pprof.MkOptions (bs ":1")) (Some (bs ":1")) tt [Listening (bs ":1")])))].
Proof. vm_compute. reflexivity. Qed.

Lemma both_running_settled : settled both_running.
Proof.
  apply map_Forall_to_list. rewrite both_running_list.
  constructor; [|constructor; [|done]]; (split; [by left|]); (split; [done|]); simpl; intros ? [= <-]; reflexivity.
Qed.

Lemma moved_satisfiable : satisfiable decode nobody services moved both_running.
Proof.
  assert (∀ k, k ∈ moved.*1 → k = a ∧ wanted decode services moved both_running k = Some (bs ":3") ∨
    wanted decode services moved both_running k = None ∨
    k = b ∧ wanted decode services moved both_running k = Some (bs ":2")) as H.
  { intros k. simpl. rewrite !elem_of_cons. intros [->|[->|[->|Hk]]]; [left|right; left|right; right|by apply elem_of_nil in Hk].
    - split; [done|vm_compute; reflexivity].
    - vm_compute; reflexivity.
    - split; [done|vm_compute; reflexivity]. }
  assert (bs ":3" ≠ bs ":2" ∧ bs ":3" ≠ bs ":1" ∧ bs ":2" ≠ bs ":1") as (N1 & N2 & N3) by done.
  split.
  - intros k1 k2 x H1%H H2%H E1 E2.
    destruct H1 as [[-> H1]|[H1|[-> H1]]], H2 as [[-> H2]|[H2|[-> H2]]]; congruence.
  - done.
  - intros k1 k2 s x H1%H E1 H2 _ Hl. apply elem_of_map_to_list in H2. rewrite both_running_list in H2.
    apply elem_of_cons in H2 as [[= -> ->]|H2].
    + assert (Some (bs ":2") = Some x) as Hx by exact Hl. clear Hl. destruct H1 as [[-> H1]|[H1|[-> H1]]]; congruence.
    + apply list_elem_of_singleton in H2 as [= -> ->].
      assert (Some (bs ":1") = Some x) as Hx by exact Hl. clear Hl. destruct H1 as [[-> H1]|[H1|[-> H1]]]; congruence.
Qed.

Definition three_steps : list turn :=
  [Manages; Handles a; Manages; Manages; Handles b; Manages;
   Manages; Handles b; Manages; Handles a; Manages;
   Manages; Handles b; Manages; Handles a; Manages].

Lemma moved_finishes : finishes three_steps moved both_running = true.
Proof. vm_compute. reflexivity. Qed.

Lemma moved_NoDup : NoDup moved.*1.
Proof. apply (bool_decide_unpack _). vm_compute. exact I. Qed.

Lemma reload_reaches_witness :
  finishes three_steps moved both_running = true ∧
  (∀ k q p, after three_steps moved both_running !! k = Some (q, p) → ended p = false →
     listens p = wanted decode services moved both_running k) ∧
  wanted decode services moved both_running a = Some (bs ":3").
Proof.
  split; [exact moved_finishes|]. split; [|vm_compute; reflexivity].
  exact (proj2 (proj2 (proj2 (reload_reaches decode nobody services moved both_running
    (Finished, after three_steps moved both_running)
    moved_NoDup moved_satisfiable both_running_settled (loads_after _ _ _ moved_finishes)) eq_refl))).
Defined.

(** Jobs that exchange their addresses may find them taken. *)
Theorem swap_can_fail :
  settled both_running ∧
  (∃ m, loadConfig decode nobody services swapped both_running (Finished, m) ∧
     listens <$> (snd <$> m !! a) = Some (Some (bs ":2")) ∧
     listens <$> (snd <$> m !! b) = Some (Some (bs ":1"))) ∧
  ∃ m, loadConfig decode nobody services swapped both_running (Finished, m) ∧
    ended <$> (snd <$> m !! b) = Some true.
Proof.
  split_and!; [apply both_running_settled| |].
  - exists (after at_once swapped both_running).
    split; [apply loads_after; vm_compute; reflexivity|]. split; vm_compute; reflexivity.
  - exists (after late swapped both_running).
    split; [apply loads_after; vm_compute; reflexivity|]. vm_compute. reflexivity.
Qed.

(** ** A handler that returns, and one that does not *)

Lemma pprof_returns listen e (p : service_proc (O := Pprof.Options) (X := unit)) :
  p.1 ≠ Hung → is_Some (handle_event listen e p) .
Proof.
  destruct p as [[] s]; intros Hp; [|destruct e; by eexists|done].
  destruct e as [o| |]; [| |by eexists].
  - simpl. destruct (Pprof.LoadEvent_ o s) as [[[]|[]] s'] eqn:E; [by eexists..|]. exfalso. revert E.
    unfold Pprof.LoadEvent_, mbind, J_bind, check_addr, stopServer. simpl.
    destruct (SplitHostPort _); simpl; [|done]. case_bool_decide; simpl; [done|]. by destruct (server s).
  - simpl. unfold startServer. destruct (server s); simpl; [by eexists|]. destruct (listen _); by eexists.
Qed.

Definition unhung (m : pprof_jobs) : Prop := map_Forall (λ _ s, s.2.1 ≠ Hung) m.

Lemma deliver_unhung {O X} `{Jobs.Service O X} i (p p' : service_proc (O := O) (X := X)) :
  deliver i p = Some p' → p'.1 ≠ Hung.
Proof.
  destruct p as [[] s]; unfold deliver; [|by intros [= <-]|done]. destruct (run s [i]) as [[] s']; by intros [= <-].
Qed.

Lemma send_unhung {A P} `{ManagedJob (Jobs.status * P) A unit} (e : message A) (s s' : option (message A) * (Jobs.status * P)) :
  SendEvent e s = Some s' → s'.2 = s.2.
Proof. unfold SendEvent. destruct (ended s.2), s.1; by intros [= <-]. Qed.

Lemma step_unhung (st st' : phase (Data := gostring) * pprof_jobs) :
  unhung st.2 → reload_step decode nobody services st st' → unhung st'.2.
Proof.
  intros Hm Hs. assert (∀ name data m m' ok, unhung m → setOptions decode services name data m = Some (m', ok) → unhung m') as Hset.
  { intros name data m m' ok Hu E%setOptions_cases.
    assert (∀ sv : unit, (job_for m name sv).2.1 ≠ Hung) as Hj.
    { intros sv. unfold job_for. destruct (m !! name) as [s|] eqn:El; [|done]. destruct (ended s.2); [done|].
      by apply (Hu _ _ El). }
    destruct (asks decode services name data) as [sv o|sv|]; [|by subst; apply map_Forall_insert_2|by subst].
    destruct E as (s' & E & ->). apply map_Forall_insert_2; [|done]. by rewrite (send_unhung _ _ _ E). }
  assert (∀ e name m m', unhung m → send_to e name m = Some m' → unhung m') as Hsend.
  { intros e name m m' Hu. unfold send_to. destruct (m !! name) as [s|] eqn:El; [|by intros [= <-]].
    intros (s' & E & [= <-])%bind_Some. apply map_Forall_insert_2; [|done].
    rewrite (send_unhung _ _ _ E). by apply (Hu _ _ El). }
  destruct Hs as [name data rest m m' ok E|order m Ho|name rest m m' E|order m Ho|name rest m m' E|m|ph name e p p' m E Eh];
    simpl in *; try done; [by eapply Hset|by eapply Hsend|by eapply Hsend|].
  apply map_Forall_insert_2; [|done]. destruct e; simpl in Eh; [by eapply deliver_unhung..|].
  injection Eh as <-. by apply (Hm _ _ E).
Qed.

Lemma load_unhung config m st : unhung m → loadConfig decode nobody services config m st → unhung st.2.
Proof.
  intros Hm Hr. unfold loadConfig in Hr.
  assert (unhung (Setting (Data := gostring) config, stop_removed config m).2) as H0.
  { intros k s [E _]%map_lookup_filter_Some. by apply (Hm _ _ E). }
  revert H0. induction Hr as [|st1 st2 st3 Hs _ IH]; [done|]. intros H0. apply IH. by eapply step_unhung.
Qed.

(** A http job that is asked for a list that includes itself. *)
Definition cyclic : Http.Options (C := unit) :=
  Http.MkOptions (bs ":1") (Proxy.MkProxy None []) [Http.MkRouteOptions [] (bs "@a") [] (Proxy.MkProxy None [])]
    ∅ ∅ Defaults.zero_conn Defaults.zero_relay [] None ∅.

#[local] Instance the_http : Jobs.Service (Http.Options (C := unit)) Http.state :=
  Http.http (λ _, Some (bs "@a")) (λ _, None) (λ _, []) id id 9.

#[local] Instance the_http_starts : StartsServer (Http.Options (C := unit)) Http.state.
Proof. by apply starts_server. Qed.

Definition http_job : service_proc (O := Http.Options (C := unit)) (X := Http.state) := (Running, start).

Lemma deliver_hangs {O X} `{Jobs.Service O X} l e (s : job O X) :
  (handle l e s).1 = Halt Hang → deliver (Ev l e) (Running, s) = None.
Proof. intros E. simpl. destruct (handle l e s) as [r s']. simpl in E. by rewrite E. Qed.

Lemma cyclic_hangs l : do_load l cyclic http_job = None.
Proof.
  apply (deliver_hangs l (LoadEvent cyclic)).
  by eapply (HttpSpec.include_blocks (C := unit)); [reflexivity..|eexists; vm_compute; reflexivity].
Qed.

Lemma reload_ends_witness :
  eventually (reload_step decode nobody services) (λ st, st.1 = Finished)
    (Setting first_config, stop_removed first_config (∅ : pprof_jobs)) ∧
  ∀ st, rtc (reload_step (P := service_proc (O := Http.Options (C := unit)) (X := Http.state)) (Data := unit)
      (λ _ _, Some (Some cyclic)) nobody {[ bs "http" := tt ]})
    (Setting [], {[ bs "http" := (Some (LoadMsg cyclic), http_job) ]}) st → st.1 ≠ Finished.
Proof.
  split.
  - apply (reload_ends decode nobody services first_config (∅ : pprof_jobs)). intros st k e p Hr E.
    apply pprof_returns. by apply (load_unhung first_config ∅ st ltac:(apply map_Forall_empty) Hr _ _ E).
  - intros st Hr. apply (proj2 (reload_ends (Data := unit) (λ _ _, Some (Some cyclic)) nobody {[ bs "http" := tt ]} [] ∅)
      [] {[ bs "http" := (Some (LoadMsg cyclic), http_job) ]} (bs "http") cyclic http_job st); [|done|apply cyclic_hangs|exact Hr].
    apply lookup_singleton_eq.
Defined.
