(* ===== verification/ConnLoop.v ===== *)
(** * NewConn (conn.go).

    The coroutines of a connection: the loop that makes attempts, the attempts,
    each with the coroutine that sends the request, and the one that reads the
    request from the client.  The executor runs one coroutine at a time, up to
    its next await or yield, which is a step here; steps come in any order in
    which their conditions allow them, and the results of the network and of
    the timers are choices of the step.  Every attempt sees the same request,
    and the one that responds first gets the rest of the connection. *)

From S2P Require Import Prelude Defaults.


(** ** State *)

Inductive stage :=
  | Dialing                      (* getRemote runs *)
  | Dialed (ok : bool)           (* remote is set *)
  | Waiting                      (* for the response *)
  | Winning (b : Z)              (* for the loop, the reader and the sender, with [resp.buf] *)
  | Relaying (pre : list Z) (b : Z)   (* with these prefixes of l and r *)
  | Closing                      (* deferred: for the sender *)
  | Ended.

#[export] Instance stage_eq_dec : EqDecision stage.
Proof. solve_decision. Defined.

(** An attempt, with [sr] of its sender: [writing] is the end of the bytes
    being written, [wire] what the remote has got. *)
Record attempt := MkAttempt {
  at_stage : stage;
  sent : nat;
  writing : option nat;
  sr_stop : bool;
  sr_done : bool;
  wire : list Z }.

Inductive loop_phase := Checking | Started | Leaving | LoopDone.

#[export] Instance loop_phase_eq_dec : EqDecision loop_phase.
Proof. solve_decision. Defined.

Inductive conn_event := ConnEventResponse | ConnEventMaxAttempts.

(** [myState], with the attempts in order and what was sent to [lifeCycle].
    [ticking] is timerRunning. *)
Record conn := MkConn {
  loop : loop_phase;
  newconn : bool;
  ticking : bool;
  cl_stop : bool;
  connections : nat;
  attempts : nat;
  tries : list attempt;
  data : list Z;
  rr_stop : bool;
  rr_done : bool;
  hasWinner : bool;
  events : list conn_event }.

Definition maxRequestSize : Z := Z.shiftl 32 10.
Definition connBuf_size : Z := Z.shiftl 8 10.

Section conn.
Context (opts : ConnOptions).      (* filled in *)

(** ** Operations *)

Definition init : conn := MkConn Checking true false false 0 0 [] [] false false false [].

Definition set_loop (l : loop_phase) (s : conn) : conn :=
  MkConn l (newconn s) (ticking s) (cl_stop s) (connections s) (attempts s) (tries s) (data s)
    (rr_stop s) (rr_done s) (hasWinner s) (events s).

Definition set_timer (new tick : bool) (s : conn) : conn :=
  MkConn (loop s) new tick (cl_stop s) (connections s) (attempts s) (tries s) (data s)
    (rr_stop s) (rr_done s) (hasWinner s) (events s).

Definition set_try (i : nat) (a : attempt) (s : conn) : conn :=
  MkConn (loop s) (newconn s) (ticking s) (cl_stop s) (connections s) (attempts s) (<[i := a]> (tries s))
    (data s) (rr_stop s) (rr_done s) (hasWinner s) (events s).

Definition emit (e : conn_event) (s : conn) : conn :=
  MkConn (loop s) (newconn s) (ticking s) (cl_stop s) (connections s) (attempts s) (tries s) (data s)
    (rr_stop s) (rr_done s) (hasWinner s) (events s ++ [e]).

(** [stopConnLoop] and [stopReadingRequest]. *)
Definition stopConnLoop (s : conn) : conn :=
  MkConn (loop s) (newconn s) (ticking s) true (connections s) (attempts s) (tries s) (data s)
    (rr_stop s) (rr_done s) (hasWinner s) (events s).

Definition stopReadingRequest (s : conn) : conn :=
  MkConn (loop s) (newconn s) (ticking s) (cl_stop s) (connections s) (attempts s) (tries s) (data s)
    true (rr_done s) (hasWinner s) (events s).

(** [stopTimer]: whether the timer was stopped before it fired is a choice. *)
Definition stopTimer (stopped : bool) (s : conn) : conn :=
  if ticking s && stopped then set_timer true false s else s.

Definition startTimer (s : conn) : conn := set_timer false true s.

Definition newConn (s : conn) : conn :=
  MkConn (loop s) (newconn s) (ticking s) (cl_stop s) (S (connections s)) (S (attempts s))
    (tries s ++ [MkAttempt Dialing 0 None false false []]) (data s) (rr_stop s) (rr_done s)
    (hasWinner s) (events s).

Definition to_stage (st : stage) (a : attempt) : attempt :=
  MkAttempt st (sent a) (writing a) (sr_stop a) (sr_done a) (wire a).

Definition stopSendingRequest (a : attempt) : attempt :=
  MkAttempt (at_stage a) (sent a) (writing a) true (sr_done a) (wire a).

(** The deferred calls at the end of an attempt. *)
Definition finish (i : nat) (a : attempt) (s : conn) : conn :=
  let s := set_try i (to_stage Ended a) s in
  MkConn (loop s) (newconn s) (ticking s) (cl_stop s) (pred (connections s)) (attempts s) (tries s)
    (data s) (rr_stop s) (rr_done s) (hasWinner s) (events s).

(** The sender is told what a write returned. *)
Definition wrote (k : nat) (err : bool) (req : list Z) (a : attempt) : attempt :=
  MkAttempt (at_stage a) (sent a + k) None (sr_stop a) err (wire a ++ take k (drop (sent a) req)).

Definition begin_write (req : list Z) (a : attempt) : attempt :=
  MkAttempt (at_stage a) (sent a) (Some (length req)) (sr_stop a) (sr_done a) (wire a).

Definition sender_done (a : attempt) : attempt :=
  MkAttempt (at_stage a) (sent a) (writing a) (sr_stop a) true (wire a).

(** The first byte of the response came, or an error. *)
Definition respond (i : nat) (a : attempt) (b : Z) (err timer_stopped : bool) (s : conn) : conn :=
  if err || negb timer_stopped || hasWinner s then
    set_try i (stopSendingRequest (to_stage Closing a)) s
  else
    let s := MkConn (loop s) (newconn s) (ticking s) (cl_stop s) (connections s) (attempts s) (tries s)
               (data s) (rr_stop s) (rr_done s) true (events s) in
    let s := emit ConnEventResponse s in
    let s := stopReadingRequest (stopConnLoop s) in
    set_try i (stopSendingRequest (to_stage (Winning b) a)) s.

(** The prefix of what the client side gives to Relay. *)
Definition relay_prefix (a : attempt) (req : list Z) : list Z :=
  if (sent a <? length req)%nat then drop (sent a) req else [].

(** A read of the request returned [chunk]. *)
Definition read_request (chunk : list Z) (err : bool) (s : conn) : conn :=
  let req := data s ++ chunk in
  let stop := err || (maxRequestSize <=? Z.of_nat (length req)) in
  MkConn (loop s) (newconn s) (ticking s) (cl_stop s || stop) (connections s) (attempts s) (tries s) req
    (rr_stop s) (rr_done s || stop) (hasWinner s) (events s).

(** The sender runs from the dial to the end of the attempt. *)
Definition sending (a : attempt) : bool :=
  match at_stage a with Waiting | Winning _ | Closing => negb (sr_done a) | _ => false end.

(** Whether the loop makes another attempt. *)
Definition may_start (s : conn) : bool :=
  negb (cl_stop s) && newconn s && (Z.of_nat (connections s) <? Parallel opts).

(** A read that returns nothing and no error changes nothing: it is no step. *)
Inductive step : conn → conn → Prop :=
  | loop_stop s stopped :
      loop s = Checking → cl_stop s = true → step s (set_loop Leaving (stopTimer stopped s))
  | loop_max s stopped :
      loop s = Checking → may_start s = true → MaxAttempts opts <= Z.of_nat (attempts s) →
      connections s = O →
      step s (set_loop Leaving (stopTimer stopped (emit ConnEventMaxAttempts s)))
  | loop_new s stopped :
      loop s = Checking → may_start s = true → Z.of_nat (attempts s) < MaxAttempts opts →
      step s (set_loop Started (stopTimer stopped (newConn s)))
  | loop_timer s : loop s = Started → ticking s = false → step s (set_loop Checking (startTimer s))
  | loop_done s : loop s = Leaving → ticking s = false → step s (set_loop LoopDone s)
  | timer_fires s : ticking s = true → step s (set_timer true false s)
  | dial_returns s i a ok (close_conn : bool) :
      tries s !! i = Some a → at_stage a = Dialing →
      step s (let s' := set_try i (to_stage (Dialed ok) a) s in
              if close_conn then stopReadingRequest s' else s')
  | dial_failed s i a : tries s !! i = Some a → at_stage a = Dialed false → step s (finish i a s)
  | dial_ok s i a : tries s !! i = Some a → at_stage a = Dialed true →
      step s (set_try i (to_stage Waiting a) s)
  | send_stop s i a : tries s !! i = Some a → sending a = true → writing a = None → sr_stop a = true →
      step s (set_try i (sender_done a) s)
  | send_write s i a : tries s !! i = Some a → sending a = true → writing a = None → sr_stop a = false →
      (sent a < length (data s))%nat → step s (set_try i (begin_write (data s) a) s)
  | send_result s i a k err m : tries s !! i = Some a → sending a = true → writing a = Some m →
      (sent a + k ≤ m)%nat → (err = false → sent a + k = m)%nat →
      step s (set_try i (wrote k err (data s) a) s)
  | response s i a b err timer_stopped : tries s !! i = Some a → at_stage a = Waiting →
      step s (respond i a b err timer_stopped s)
  | relay_start s i a b : tries s !! i = Some a → at_stage a = Winning b →
      loop s = LoopDone → rr_done s = true → sr_done a = true →
      step s (set_try i (to_stage (Relaying (relay_prefix a (data s)) b) a) s)
  | relay_end s i a pre b : tries s !! i = Some a → at_stage a = Relaying pre b → step s (finish i a s)
  | attempt_end s i a : tries s !! i = Some a → at_stage a = Closing → sr_done a = true →
      step s (finish i a s)
  | request_read s chunk err : rr_done s = false → Z.of_nat (length chunk) <= connBuf_size →
      (err = false → chunk ≠ []) → step s (read_request chunk err s).

Definition reach : conn → Prop := rtc step init.

(** ** The invariant *)

Definition live (a : attempt) : nat := match at_stage a with Ended => 0 | _ => 1 end.

Definition winner (a : attempt) : bool :=
  match at_stage a with Winning _ | Relaying _ _ => true | _ => false end.

(** What an attempt has to do with the request. *)
Record try_ok (req : list Z) (done : bool) (a : attempt) : Prop := {
  try_wire : wire a = take (sent a) req;
  try_sent : (sent a ≤ length req)%nat;
  try_writing m : writing a = Some m → (sent a < m ≤ length req)%nat ∧ sr_done a = false;
  try_stage : match at_stage a with
              | Dialing | Dialed _ | Waiting => sr_stop a = false
              | Winning _ | Closing => sr_stop a = true
              | Relaying pre _ => pre = drop (sent a) req ∧ done = true ∧ sr_done a = true
              | Ended => True
              end }.

Record conn_ok (s : conn) : Prop := {
  ok_tries : Forall (try_ok (data s) (rr_done s)) (tries s);
  ok_live : connections s = sum_list_with live (tries s);
  ok_attempts : attempts s = length (tries s);
  ok_winner i j a b : tries s !! i = Some a → tries s !! j = Some b →
    winner a = true → winner b = true → i = j;
  ok_hasWinner i a : tries s !! i = Some a → winner a = true → hasWinner s = true;
  ok_stopped : hasWinner s = true ∨ rr_done s = true → cl_stop s = true;
  ok_parallel : Z.of_nat (connections s) <= Parallel opts;
  ok_max : Z.of_nat (attempts s) <= MaxAttempts opts;
  ok_timer : ticking s = negb (newconn s);
  ok_started : loop s = Started → ticking s = false;
  ok_data : Z.of_nat (length (data s)) < maxRequestSize + connBuf_size ∧
            (rr_done s = false → Z.of_nat (length (data s)) < maxRequestSize);
  ok_events : events s = [] ∧ hasWinner s = false ∨
              events s = [ConnEventResponse] ∧ hasWinner s = true ∨
              events s = [ConnEventMaxAttempts] ∧ hasWinner s = false ∧ connections s = O ∧
              (loop s = Leaving ∨ loop s = LoopDone) }.

Lemma init_ok : 0 <= Parallel opts → 0 <= MaxAttempts opts → conn_ok init.
Proof.
  intros HP HM. split; simpl; try done.
  - by intros [?|?].
  - by left.
Qed.

Lemma try_at s i a : conn_ok s → tries s !! i = Some a → try_ok (data s) (rr_done s) a.
Proof. intros H Hi. exact (proj1 (Forall_lookup _ _) (ok_tries _ H) i a Hi). Qed.

(** An attempt changes, and stays alive or not. *)
Lemma set_try_ok s i a a' :
  conn_ok s → tries s !! i = Some a → try_ok (data s) (rr_done s) a' →
  live a' = live a → (winner a' = true → winner a = true) → conn_ok (set_try i a' s).
Proof.
  intros H Hi Ha' Hl Hw. pose proof (lookup_lt_Some _ _ _ Hi) as Hlt.
  destruct H as [H1 H2 H3 H4 H5 H6 H7 H8 H9 H10 H11 H12]. split; simpl; try done.
  - by apply Forall_insert.
  - pose proof (sum_with_insert live _ _ _ a' Hi). lia.
  - by rewrite length_insert.
  - intros j k b c Hj Hk Hb Hc.
    apply list_lookup_insert_Some in Hj as [(<- & <- & _)|[Hj Ej]];
      apply list_lookup_insert_Some in Hk as [(<- & <- & _)|[Hk Ek]]; eauto.
  - intros j b Hj Hb. apply list_lookup_insert_Some in Hj as [(<- & <- & _)|[Hj Ej]]; eauto.
Qed.

Lemma finish_ok s i a : conn_ok s → tries s !! i = Some a → live a = 1%nat → conn_ok (finish i a s).
Proof.
  intros H Hi Hl. pose proof (lookup_lt_Some _ _ _ Hi) as Hlt. pose proof (try_at _ _ _ H Hi) as Ht.
  destruct H as [H1 H2 H3 H4 H5 H6 H7 H8 H9 H10 H11 H12]. split; simpl; try done.
  - apply Forall_insert; [done|]. by destruct Ht.
  - pose proof (sum_with_insert live _ _ _ (to_stage Ended a) Hi) as E. unfold live at 4 in E. simpl in E. lia.
  - by rewrite length_insert.
  - intros j k b c Hj Hk Hb Hc.
    apply list_lookup_insert_Some in Hj as [(<- & <- & _)|[Hj Ej]]; [done|].
    apply list_lookup_insert_Some in Hk as [(<- & <- & _)|[Hk Ek]]; [done|]. eauto.
  - intros j b Hj Hb. apply list_lookup_insert_Some in Hj as [(<- & <- & _)|[Hj Ej]]; [done|]. eauto.
  - lia.
  - destruct H12 as [?|[?|(? & ? & Hc & ?)]]; [by left|right; by left|]. right. right.
    by rewrite Hc.
Qed.

Lemma conn_start_ok s stopped :
  conn_ok s → loop s = Checking →
  Z.of_nat (connections s) < Parallel opts → Z.of_nat (attempts s) < MaxAttempts opts →
  cl_stop s = false → newconn s = true →
  conn_ok (set_loop Started (stopTimer stopped (newConn s))).
Proof.
  intros H Hl HP HM Hc Hn. assert (ticking s = false) as Ht by (by rewrite (ok_timer _ H), Hn).
  assert (hasWinner s = false) as Hw.
  { destruct (hasWinner s) eqn:E; [|done]. rewrite (ok_stopped _ H) in Hc by auto. done. }
  unfold stopTimer. simpl. rewrite Ht. simpl.
  pose proof H as [H1 H2 H3 H4 H5 H6 H7 H8 H9 H10 H11 H12]. split; simpl; try done.
  - apply Forall_app. split; [done|]. constructor; [|done]. split; simpl; [done|lia|done|done].
  - rewrite sum_list_with_app. simpl. lia.
  - rewrite length_app. simpl. lia.
  - intros j k b c Hj Hk Hb Hwc. apply lookup_snoc_Some in Hj as [[_ Hj]|[_ <-]]; [|done].
    apply lookup_snoc_Some in Hk as [[_ Hk]|[_ <-]]; [|done]. eauto.
  - intros j b Hj Hb. apply lookup_snoc_Some in Hj as [[_ Hj]|[_ <-]]; [|done]. eauto.
  - lia.
  - lia.
  - destruct H12 as [?|[[_ ?]|(_ & _ & _ & [?|?])]]; [by left|congruence..].
Qed.

Lemma stopTimer_ok s stopped : conn_ok s → conn_ok (stopTimer stopped s).
Proof.
  intros H. unfold stopTimer. destruct (ticking s && stopped) eqn:E; [|done].
  destruct H as [H1 H2 H3 H4 H5 H6 H7 H8 H9 H10 H11 H12]. by split.
Qed.

Lemma stop_flags_ok s :
  conn_ok s → conn_ok (stopConnLoop s) ∧ conn_ok (stopReadingRequest s).
Proof. intros [H1 H2 H3 H4 H5 H6 H7 H8 H9 H10 H11 H12]. by split; split. Qed.

Lemma set_loop_ok s l :
  conn_ok s → (l = Started → ticking s = false) → (loop s = Leaving → l = LoopDone) →
  loop s ≠ LoopDone → conn_ok (set_loop l s).
Proof.
  intros [H1 H2 H3 H4 H5 H6 H7 H8 H9 H10 H11 H12] Hs Hl Hd. split; simpl; try done.
  destruct H12 as [?|[?|(? & ? & ? & [E|E])]]; [by left|right; by left|right; right|done].
  split_and!; [done..|]. right. by apply Hl.
Qed.

Lemma emit_max_ok s :
  conn_ok s → cl_stop s = false → connections s = O → loop s = Checking →
  conn_ok (set_loop Leaving (emit ConnEventMaxAttempts s)).
Proof.
  intros H Hc Hn Hl.
  assert (hasWinner s = false) as Hw.
  { destruct (hasWinner s) eqn:E; [|done]. rewrite (ok_stopped _ H) in Hc by auto. done. }
  destruct H as [H1 H2 H3 H4 H5 H6 H7 H8 H9 H10 H11 H12]. split; simpl; try done.
  destruct H12 as [[-> _]|[[_ ?]|(_ & _ & _ & [?|?])]]; [|congruence..].
  right. right. split_and!; try done. by left.
Qed.

(** What the request gains, the attempts have not sent. *)
Lemma read_try_ok req chunk done' a :
  try_ok req false a → try_ok (req ++ chunk) done' a.
Proof.
  intros [H1 H2 H3 H4]. split.
  - by rewrite take_app_le.
  - rewrite length_app. lia.
  - intros m Hm. rewrite length_app. destruct (H3 m Hm). split; [lia|done].
  - destruct (at_stage a); try done. by destruct H4 as (_ & [=] & _).
Qed.

Lemma read_ok s chunk err :
  conn_ok s → rr_done s = false → Z.of_nat (length chunk) <= connBuf_size →
  conn_ok (read_request chunk err s).
Proof.
  intros [H1 H2 H3 H4 H5 H6 H7 H8 H9 H10 H11 H12] Hr Hc. split; simpl; try done.
  - rewrite Hr in H1. eapply Forall_impl; [exact H1|]. intros a. apply read_try_ok.
  - intros [Hw|Hd]; [by rewrite H6; auto|]. rewrite Hr in Hd. simpl in Hd. rewrite Hd. apply orb_true_r.
  - destruct H11 as [_ H11]. specialize (H11 Hr). rewrite length_app. split; [lia|].
    intros Hd. rewrite Hr in Hd. simpl in Hd. apply orb_false_iff in Hd as [_ Hd].
    apply Z.leb_gt in Hd. lia.
Qed.

Lemma win_ok s i a b :
  conn_ok s → tries s !! i = Some a → at_stage a = Waiting → hasWinner s = false →
  conn_ok (respond i a b false true s).
Proof.
  intros H Hi Hst Hw. unfold respond. simpl. rewrite Hw. simpl.
  pose proof (try_at _ _ _ H Hi) as [T1 T2 T3 T4]. rewrite Hst in T4.
  pose proof (lookup_lt_Some _ _ _ Hi) as Hlt.
  assert (∀ j c, tries s !! j = Some c → winner c = false) as Hno.
  { intros j c Hj. destruct (winner c) eqn:Ec; [|done]. rewrite (ok_hasWinner _ H j c) in Hw; done. }
  assert (live a = 1%nat) as Hla by (unfold live; by rewrite Hst).
  destruct H as [H1 H2 H3 H4 H5 H6 H7 H8 H9 H10 H11 H12]. split; simpl; try done.
  - apply Forall_insert; [done|]. by split.
  - pose proof (sum_with_insert live _ _ _ (stopSendingRequest (to_stage (Winning b) a)) Hi) as E.
    unfold live at 4 in E. simpl in E. lia.
  - by rewrite length_insert.
  - intros j k c d Hj Hk Hc Hd.
    apply list_lookup_insert_Some in Hj as [(<- & <- & _)|[Hj Ej]];
      apply list_lookup_insert_Some in Hk as [(<- & <- & _)|[Hk Ek]]; try done;
      [by rewrite (Hno _ _ Ek) in Hd|by rewrite (Hno _ _ Ej) in Hc..].
  - right. left. destruct H12 as [[-> _]|[[_ ?]|(_ & _ & Hc & _)]]; [done|congruence|].
    pose proof (sum_with_lookup live _ _ _ Hi). lia.
Qed.

Lemma may_start_inv s : may_start s = true →
  cl_stop s = false ∧ newconn s = true ∧ Z.of_nat (connections s) < Parallel opts.
Proof.
  unfold may_start. intros [[?%negb_true_iff ?]%andb_prop ?%Z.ltb_lt]%andb_prop. done.
Qed.

Lemma sending_alive a : sending a = true → live a = 1%nat ∧ sr_done a = false ∧
  (at_stage a = Waiting ∨ (∃ b, at_stage a = Winning b) ∨ at_stage a = Closing).
Proof. unfold sending, live. intros H. destruct (at_stage a); try done; apply negb_true_iff in H; eauto 6. Qed.

(** The coroutine that sends changes its own part of an attempt. *)
Lemma sender_ok s i a a' :
  conn_ok s → tries s !! i = Some a → sending a = true → at_stage a' = at_stage a →
  sr_stop a' = sr_stop a → wire a' = take (sent a') (data s) → (sent a' ≤ length (data s))%nat →
  (∀ m, writing a' = Some m → (sent a' < m ≤ length (data s))%nat ∧ sr_done a' = false) →
  conn_ok (set_try i a' s).
Proof.
  intros H Hi Hs Hst Hsr Hw Hse Hwr. pose proof (try_at _ _ _ H Hi) as [T1 T2 T3 T4].
  eapply set_try_ok; [done..| | |].
  - split; [done..|]. rewrite Hst, Hsr. destruct (sending_alive a Hs) as (_ & _ & [E|[[b E]|E]]);
      rewrite E in *; done.
  - unfold live. by rewrite Hst.
  - unfold winner. by rewrite Hst.
Qed.

Lemma conn_step_ok s s' : conn_ok s → step s s' → conn_ok s'.
Proof.
  intros H Hs. destruct Hs as
    [s stopped Hl Hc|s stopped Hl Hm Ha Hn|s stopped Hl Hm Ha|s Hl Ht|s Hl Ht|s Ht
    |s i a ok cc Hi Hst|s i a Hi Hst|s i a Hi Hst|s i a Hi Hse Hw Hp|s i a Hi Hse Hw Hp Hlt
    |s i a k err m Hi Hse Hw Hk Hkm|s i a b err ts Hi Hst|s i a b Hi Hst Hl Hr Hd|s i a pre b Hi Hst
    |s i a Hi Hst Hd|s chunk err Hr Hc Hne].
  - apply set_loop_ok; [by apply stopTimer_ok|done| |]; unfold stopTimer; by destruct (_ && _); simpl; rewrite Hl.
  - destruct (may_start_inv s Hm) as (Hc & Hnew & _). unfold stopTimer. simpl.
    rewrite (ok_timer _ H), Hnew. simpl. by apply emit_max_ok.
  - destruct (may_start_inv s Hm) as (Hc & Hnew & HP). by apply conn_start_ok.
  - destruct H as [H1 H2 H3 H4 H5 H6 H7 H8 H9 H10 H11 H12]. split; simpl; try done.
    destruct H12 as [?|[?|(_ & _ & _ & [?|?])]]; [by left|right; by left|congruence..].
  - apply set_loop_ok; [done..|]. by rewrite Hl.
  - destruct H as [H1 H2 H3 H4 H5 H6 H7 H8 H9 H10 H11 H12]. by split.
  - assert (conn_ok (set_try i (to_stage (Dialed ok) a) s)) as H'.
    { pose proof (try_at _ _ _ H Hi) as [T1 T2 T3 T4]. rewrite Hst in T4.
      eapply set_try_ok; [done..|by split| |done]. unfold live. by rewrite Hst. }
    destruct cc; [by apply stop_flags_ok|done].
  - eapply finish_ok; [done..|]. unfold live. by rewrite Hst.
  - pose proof (try_at _ _ _ H Hi) as [T1 T2 T3 T4]. rewrite Hst in T4.
    eapply set_try_ok; [done..|by split| |done]. unfold live. by rewrite Hst.
  - pose proof (try_at _ _ _ H Hi) as [T1 T2 T3 T4].
    eapply sender_ok; [done..|]. simpl. by rewrite Hw.
  - pose proof (try_at _ _ _ H Hi) as [T1 T2 T3 T4]. destruct (sending_alive a Hse) as (_ & ? & _).
    eapply sender_ok; [done..|]. simpl. intros m [= <-]. split; [lia|done].
  - pose proof (try_at _ _ _ H Hi) as [T1 T2 T3 T4]. destruct (T3 m Hw) as [[Hm1 Hm2] _].
    eapply sender_ok; [done..| | |done]; simpl; [|lia].
    rewrite T1. apply take_take_drop.
  - destruct (err || negb ts || hasWinner s) eqn:E.
    + unfold respond. rewrite E. pose proof (try_at _ _ _ H Hi) as [T1 T2 T3 T4].
      eapply set_try_ok; [done..|by split| |done]. unfold live. by rewrite Hst.
    + apply orb_false_iff in E as [[-> ->%negb_false_iff]%orb_false_iff E]. by apply win_ok.
  - pose proof (try_at _ _ _ H Hi) as [T1 T2 T3 T4].
    eapply set_try_ok; [done..| |by unfold live; rewrite Hst|by unfold winner; rewrite Hst].
    split; simpl; [done..|]. split_and!; [|done..]. unfold relay_prefix.
    destruct (Nat.ltb_spec (sent a) (length (data s))) as [El|El]; [done|]. symmetry. by apply drop_ge.
  - eapply finish_ok; [done..|]. unfold live. by rewrite Hst.
  - eapply finish_ok; [done..|]. unfold live. by rewrite Hst.
  - by apply read_ok.
Qed.

(** ** What a step does to an attempt *)

Definition next_stage (s : conn) (st st' : stage) : bool :=
  match st, st' with
  | Dialing, Dialed _ | Dialed true, Waiting | Dialed false, Ended | Waiting, Closing
  | Relaying _ _, Ended | Closing, Ended => true
  | Waiting, Winning _ => negb (hasWinner s)
  | Winning b, Relaying _ b' => b =? b'
  | _, _ => false
  end.

(** Its sender goes on, or it enters its next stage. *)
Definition moved (s : conn) (a a' : attempt) : Prop :=
  at_stage a' = at_stage a ∧ (wire a' = wire a ∨ sending a = true) ∨
  wire a' = wire a ∧ next_stage s (at_stage a) (at_stage a') = true.

Lemma moved_same s a : moved s a a.
Proof using Type. left. auto. Qed.

Lemma moved_set s i j a b b' : tries s !! i = Some b → moved s b b' → tries s !! j = Some a →
  ∃ a', <[i := b']> (tries s) !! j = Some a' ∧ moved s a a'.
Proof using Type.
  intros Hi Hm Hj. destruct (decide (i = j)) as [<-|Hn].
  - rewrite Hi in Hj. injection Hj as <-. exists b'. split; [|done].
    apply list_lookup_insert_eq. by eapply lookup_lt_Some.
  - exists a. rewrite list_lookup_insert_ne by done. split; [done|apply moved_same].
Qed.

Lemma step_moved s s' j a : step s s' → tries s !! j = Some a →
  ∃ a', tries s' !! j = Some a' ∧ moved s a a'.
Proof using Type.
  intros Hs Hj. assert (∀ s0 stopped, tries (stopTimer stopped s0) = tries s0) as Ht.
  { intros s0 stopped. unfold stopTimer. by destruct (_ && _). }
  destruct Hs as
    [s stopped Hl Hc|s stopped Hl Hm Ha Hn|s stopped Hl Hm Ha|s Hl Hk|s Hl Hk|s Hk
    |s i b ok cc Hi Hst|s i b Hi Hst|s i b Hi Hst|s i b Hi Hse Hw Hp|s i b Hi Hse Hw Hp Hlt
    |s i b k err m Hi Hse Hw Hk Hkm|s i b x err ts Hi Hst|s i b x Hi Hst Hl Hr Hd|s i b pre x Hi Hst
    |s i b Hi Hst Hd|s chunk err Hr Hc Hne]; simpl; rewrite ?Ht; try (exists a; split; [exact Hj|apply moved_same]).
  - simpl. exists a. rewrite lookup_app_l by (by eapply lookup_lt_Some). split; [done|apply moved_same].
  - destruct cc; (eapply moved_set; [done|right; by rewrite Hst|done]).
  - eapply moved_set; [done|right; by rewrite Hst|done].
  - eapply moved_set; [done|right; by rewrite Hst|done].
  - eapply moved_set; [done|left; auto|done].
  - eapply moved_set; [done|left; auto|done].
  - eapply moved_set; [done|left; auto|done].
  - unfold respond. destruct (err || negb ts || hasWinner s) eqn:E; simpl.
    + eapply moved_set; [done|right; by rewrite Hst|done].
    + apply orb_false_iff in E as [_ E]. eapply moved_set; [done|right; split; [done|]; simpl; rewrite Hst; simpl; by rewrite E|done].
  - eapply moved_set; [done|right; split; [done|]; simpl; rewrite Hst; apply Z.eqb_refl|done].
  - eapply moved_set; [done|right; by rewrite Hst|done].
  - eapply moved_set; [done|right; by rewrite Hst|done].
Qed.

(** The attempts that are new have just been made. *)
Lemma step_new s s' j a : step s s' → tries s !! j = None → tries s' !! j = Some a → at_stage a = Dialing.
Proof using Type.
  intros Hs Hj. apply lookup_ge_None in Hj.
  assert (length (tries s') = length (tries s) →
    tries s' !! j = Some a → at_stage a = Dialing) as Hno.
  { intros El Ha%lookup_lt_Some. lia. }
  assert (∀ s0 stopped, tries (stopTimer stopped s0) = tries s0) as Ht.
  { intros s0 stopped. unfold stopTimer. by destruct (_ && _). }
  destruct Hs; simpl; try (apply Hno; simpl; rewrite ?Ht, ?length_insert; done).
  - rewrite Ht. simpl. intros [[Hlt _]|[_ <-]]%lookup_snoc_Some; [lia|done].
  - destruct close_conn; apply Hno; simpl; by rewrite length_insert.
  - apply Hno. unfold respond. destruct (_ || _); simpl; by rewrite length_insert.
Qed.

(** The winner stays, and the request once it was read. *)
Lemma step_flags s s' : step s s' →
  (hasWinner s = true → hasWinner s' = true) ∧
  (rr_done s = true → data s' = data s ∧ rr_done s' = true).
Proof using Type.
  intros Hs. assert (∀ s0 stopped, hasWinner (stopTimer stopped s0) = hasWinner s0 ∧
    data (stopTimer stopped s0) = data s0 ∧ rr_done (stopTimer stopped s0) = rr_done s0) as Ht.
  { intros s0 stopped. unfold stopTimer. by destruct (_ && _). }
  destruct Hs; simpl;
    repeat (match goal with |- context [stopTimer ?b ?t] => destruct (Ht t b) as (-> & -> & ->) end); try done.
  - by destruct close_conn.
  - unfold respond. by destruct (_ || _).
  - split; [done|]. congruence.
Qed.

(** ** What the steps do to the timer and the attempts *)

Inductive paced (c c' : conn) : Prop :=
  | p_stop : loop c' = Leaving ∨ loop c' = LoopDone → attempts c' = attempts c →
      (ticking c' = true → ticking c = true) → paced c c'
  | p_new : loop c = Checking → loop c' = Started → newconn c = true → attempts c' = S (attempts c) →
      ticking c' = ticking c → paced c c'
  | p_start : loop c = Started → loop c' = Checking → attempts c' = attempts c → ticking c' = true → paced c c'
  | p_fires : loop c' = loop c → attempts c' = attempts c → ticking c = true → ticking c' = false → paced c c'
  | p_other : loop c' = loop c → attempts c' = attempts c → ticking c' = ticking c → paced c c'.

Lemma step_paced c c' : conn_ok c → step c c' → paced c c'.
Proof using Type.
  intros H Hs. assert (∀ b s, attempts (stopTimer b s) = attempts s ∧ (ticking (stopTimer b s) = true → ticking s = true)) as Ht.
  { intros b s. unfold stopTimer. by destruct (ticking s) eqn:E, b; simpl; rewrite ?E. }
  destruct Hs as
    [s stopped Hl Hc|s stopped Hl Hm Ha Hn|s stopped Hl Hm Ha|s Hl Hk|s Hl Hk|s Hk
    |s i a ok cc Hi Hst|s i a Hi Hst|s i a Hi Hst|s i a Hi Hse Hw Hp|s i a Hi Hse Hw Hp Hlt
    |s i a k err m Hi Hse Hw Hk Hkm|s i a x err ts Hi Hst|s i a x Hi Hst Hl Hr Hd|s i a pre x Hi Hst
    |s i a Hi Hst Hd|s chunk err Hr Hc Hne]; try (by apply p_other).
  - apply p_stop; simpl; [by left|apply Ht|apply Ht].
  - apply p_stop; simpl; [by left| |]; [rewrite (proj1 (Ht _ _))|intros E; apply (Ht stopped) in E]; done.
  - destruct (may_start_inv s Hm) as (_ & Hnew & _). assert (ticking s = false) as Et by (by rewrite (ok_timer _ H), Hnew).
    apply p_new; simpl; try done; [by rewrite (proj1 (Ht _ _))|]. unfold stopTimer. simpl. by rewrite Et.
  - by apply p_start.
  - apply p_stop; simpl; [by right|done|done].
  - by apply p_fires.
  - apply p_other; by destruct cc.
  - apply p_other; unfold respond; by destruct (_ || _).
Qed.

Lemma step_may_start c c' : step c c' → loop c = Checking → loop c' = Started →
  cl_stop c = false ∧ newconn c = true ∧ Z.of_nat (connections c) < Parallel opts.
Proof using Type.
  intros Hs Hl Hl'. destruct Hs; simpl in *; try congruence.
  - by apply may_start_inv.
  - destruct close_conn; simpl in *; congruence.
  - unfold respond in Hl'. destruct (_ || _); simpl in *; congruence.
Qed.

(** An attempt is made by the loop, without a winner, while no timer runs. *)
Lemma step_attempt c c' : conn_ok c → step c c' → attempts c' ≠ attempts c →
  attempts c' = S (attempts c) ∧ loop c = Checking ∧ ticking c = false ∧ hasWinner c = false ∧ loop c' = Started.
Proof using Type.
  intros H Hs Hne. destruct (step_paced _ _ H Hs) as [? ? _|Hl Hl' Hn Ha _|? ? ? _|? ? ? _|? ? _]; try done.
  split_and!; [done|done|by rewrite (ok_timer _ H), Hn| |done].
  destruct (hasWinner c) eqn:E; [|done]. pose proof (ok_stopped _ H (or_introl E)) as Hc.
  destruct (step_may_start _ _ Hs Hl Hl') as (? & _). congruence.
Qed.

(** After an attempt the loop starts the timer. *)
Lemma step_started c c' : conn_ok c → step c c' → loop c = Started →
  loop c' = Started ∧ ticking c' = false ∨ loop c' = Checking ∧ ticking c' = true.
Proof using Type.
  intros H Hs Hl. pose proof (ok_started _ H Hl) as Ht.
  destruct Hs; simpl in *; try congruence; auto.
  - by destruct close_conn; auto.
  - unfold respond. destruct (_ || _); auto.
Qed.

(** The timer fires, unless the loop leaves. *)
Lemma step_stops c c' : conn_ok c → step c c' → ticking c = true → ticking c' = false →
  c' = set_timer true false c ∨ loop c' = Leaving.
Proof using Type.
  intros H Hs Ht Ht'. destruct Hs; simpl in *; try congruence; auto.
  - match goal with E : may_start _ = true |- _ => destruct (may_start_inv _ E) as (_ & Hn & _) end.
    pose proof (ok_timer _ H) as Hk. rewrite Hn in Hk. simpl in Hk. congruence.
  - by destruct close_conn; simpl in *; congruence.
  - unfold respond in Ht'. destruct (_ || _); simpl in Ht'; congruence.
Qed.

Context (Hpar : 0 <= Parallel opts) (Hmax : 0 <= MaxAttempts opts).
#[local] Set Default Proof Using "Type*".

Lemma conn_reach_ok s : reach s → conn_ok s.
Proof.
  intros Hr. pose proof (init_ok Hpar Hmax) as H0.
  induction Hr as [|s1 s2 s3 Hs _ IH]; [done|]. apply IH. by eapply conn_step_ok.
Qed.

Lemma data_final s s' : rr_done s = true → rtc step s s' → data s' = data s ∧ rr_done s' = true.
Proof using Type.
  intros Hr Hs. induction Hs as [s|s1 s2 s3 Hs _ IH]; [done|].
  destruct (proj2 (step_flags _ _ Hs) Hr) as [<- E]. by apply IH.
Qed.

(** ** Every execution ends *)

Definition capacity : Z := maxRequestSize + connBuf_size.

Lemma capacity_eq : capacity = maxRequestSize + connBuf_size.
Proof using Type. reflexivity. Qed.
#[local] Opaque maxRequestSize connBuf_size capacity.

Definition stage_weight (st : stage) : nat :=
  match st with
  | Dialing => 6 | Dialed _ => 5 | Waiting => 4 | Winning _ => 3 | Relaying _ _ => 2 | Closing => 2 | Ended => 0
  end.

Definition sender_weight (a : attempt) : nat :=
  (if sr_done a then 0
   else 1 + 2 * (Z.to_nat capacity - sent a) + match writing a with Some _ => 0 | None => 1 end)%nat.

Definition weight (a : attempt) : nat :=
  match at_stage a with Ended => 0 | st => (stage_weight st + sender_weight a)%nat end.

Definition loop_weight (l : loop_phase) : nat :=
  match l with Checking => 2 | Started => 4 | Leaving => 1 | LoopDone => 0 end.

Definition fresh_weight : nat := (8 + 2 * Z.to_nat capacity)%nat.

Definition measure (s : conn) : nat :=
  ((Z.to_nat (MaxAttempts opts) - attempts s) * (fresh_weight + 3) + sum_list_with weight (tries s) +
   loop_weight (loop s) + (if ticking s then 1 else 0) +
   Z.to_nat (capacity - Z.of_nat (length (data s))) + (if rr_done s then 0 else 1))%nat.

Definition finished (s : conn) : Prop :=
  loop s = LoopDone ∧ rr_done s = true ∧ Forall (λ a, at_stage a = Ended) (tries s).

Lemma measure_set_try s i a a' :
  tries s !! i = Some a → (weight a' < weight a)%nat → (measure (set_try i a' s) < measure s)%nat.
Proof using Type.
  intros Hi Hw. unfold measure. simpl. pose proof (sum_with_insert weight _ _ _ a' Hi). lia.
Qed.

Lemma measure_finish s i a :
  tries s !! i = Some a → at_stage a ≠ Ended → (measure (finish i a s) < measure s)%nat.
Proof using Type.
  intros Hi Hst. apply (measure_set_try s i a (to_stage Ended a) Hi). unfold weight. simpl.
  destruct (at_stage a); simpl; try lia. done.
Qed.

Lemma measure_stopTimer b s : (measure (stopTimer b s) ≤ measure s)%nat ∧ loop (stopTimer b s) = loop s.
Proof using Type. unfold stopTimer. destruct (ticking s), b; simpl; unfold measure; simpl; split; try done; lia. Qed.

Lemma measure_set_loop l s :
  (measure (set_loop l s) + loop_weight (loop s) = measure s + loop_weight l)%nat.
Proof using Type. unfold measure. simpl. lia. Qed.

Lemma measure_newConn s :
  Z.of_nat (attempts s) < MaxAttempts opts → (measure (newConn s) + 3 = measure s)%nat.
Proof using Type.
  intros Ha. unfold measure. simpl. rewrite sum_list_with_app. simpl.
  unfold weight, sender_weight. simpl. unfold fresh_weight.
  replace (Z.to_nat (MaxAttempts opts) - attempts s)%nat
    with (S (Z.to_nat (MaxAttempts opts) - S (attempts s))) by lia. simpl. lia.
Qed.

Lemma sent_room s i a : conn_ok s → tries s !! i = Some a → (sent a ≤ Z.to_nat capacity)%nat.
Proof using Type.
  intros H Hi. pose proof (try_sent _ _ _ (try_at _ _ _ H Hi)). pose proof (proj1 (ok_data _ H)) as Hd.
  rewrite <- capacity_eq in Hd. lia.
Qed.

Lemma weight_sending a : sending a = true →
  weight a = (stage_weight (at_stage a) + (1 + 2 * (Z.to_nat capacity - sent a) +
    match writing a with Some _ => 0 | None => 1 end))%nat.
Proof using Type.
  intros Hs. destruct (sending_alive a Hs) as (_ & Hd & E). unfold weight, sender_weight. rewrite Hd.
  by destruct E as [->|[[b ->]| ->]].
Qed.

Lemma stage_down s i a st :
  tries s !! i = Some a → (stage_weight st < stage_weight (at_stage a))%nat →
  (weight (to_stage st a) < weight a)%nat ∧ (weight (stopSendingRequest (to_stage st a)) < weight a)%nat.
Proof using Type.
  intros Hi Hw. unfold weight. simpl. unfold sender_weight. simpl.
  destruct (at_stage a), st; simpl in *; lia.
Qed.

Lemma conn_step_measure s s' : conn_ok s → step s s' → (measure s' < measure s)%nat.
Proof using Type.
  intros H Hs. destruct Hs as
    [s stopped Hl Hc|s stopped Hl Hm Ha Hn|s stopped Hl Hm Ha|s Hl Ht|s Hl Ht|s Ht
    |s i a ok cc Hi Hst|s i a Hi Hst|s i a Hi Hst|s i a Hi Hse Hw Hp|s i a Hi Hse Hw Hp Hlt
    |s i a k err m Hi Hse Hw Hk Hkm|s i a b err ts Hi Hst|s i a b Hi Hst Hl Hr Hd|s i a pre b Hi Hst
    |s i a Hi Hst Hd|s chunk err Hr Hc Hne].
  - destruct (measure_stopTimer stopped s) as [Hm El].
    pose proof (measure_set_loop Leaving (stopTimer stopped s)) as E. rewrite El, Hl in E.
    cbn [loop_weight] in E. lia.
  - destruct (measure_stopTimer stopped (emit ConnEventMaxAttempts s)) as [Hms El].
    pose proof (measure_set_loop Leaving (stopTimer stopped (emit ConnEventMaxAttempts s))) as E.
    rewrite El in E. change (loop (emit ConnEventMaxAttempts s)) with (loop s) in E.
    change (measure (emit ConnEventMaxAttempts s)) with (measure s) in Hms. rewrite Hl in E.
    cbn [loop_weight] in E. lia.
  - destruct (measure_stopTimer stopped (newConn s)) as [Hms El].
    pose proof (measure_set_loop Started (stopTimer stopped (newConn s))) as E.
    rewrite El in E. change (loop (newConn s)) with (loop s) in E. rewrite Hl in E.
    pose proof (measure_newConn s Ha). cbn [loop_weight] in E. lia.
  - pose proof (measure_set_loop Checking (startTimer s)) as E.
    change (loop (startTimer s)) with (loop s) in E. rewrite Hl in E. cbn [loop_weight] in E.
    assert (measure (startTimer s) = S (measure s)) by (unfold measure; simpl; rewrite Ht; lia). lia.
  - pose proof (measure_set_loop LoopDone s) as E. rewrite Hl in E. cbn [loop_weight] in E. lia.
  - unfold measure. simpl. rewrite Ht. lia.
  - assert (measure (set_try i (to_stage (Dialed ok) a) s) < measure s)%nat.
    { apply (measure_set_try _ _ a); [done|]. eapply stage_down; [done|]. rewrite Hst. simpl. lia. }
    by destruct cc.
  - by eapply measure_finish; [done|rewrite Hst].
  - apply (measure_set_try _ _ a); [done|]. eapply stage_down; [done|]. rewrite Hst. simpl. lia.
  - apply (measure_set_try _ _ a); [done|]. rewrite (weight_sending a Hse).
    unfold weight, sender_weight. simpl. destruct (at_stage a); simpl; lia.
  - apply (measure_set_try _ _ a); [done|]. rewrite (weight_sending a Hse), Hw.
    unfold weight, sender_weight. simpl. destruct (at_stage a), (sr_done a); simpl; lia.
  - pose proof (try_writing _ _ _ (try_at _ _ _ H Hi) _ Hw) as [Hm _].
    pose proof (proj1 (ok_data _ H)) as Hd. rewrite <- capacity_eq in Hd.
    apply (measure_set_try _ _ a); [done|]. rewrite (weight_sending a Hse), Hw.
    destruct err; [|specialize (Hkm eq_refl)]; unfold weight, sender_weight; simpl;
      destruct (at_stage a); simpl; lia.
  - unfold respond. destruct (err || _ || _).
    + apply (measure_set_try _ _ a); [done|]. eapply stage_down; [done|]. rewrite Hst. simpl. lia.
    + apply (measure_set_try (stopReadingRequest (stopConnLoop (emit ConnEventResponse
        (MkConn (loop s) (newconn s) (ticking s) (cl_stop s) (connections s) (attempts s) (tries s)
          (data s) (rr_stop s) (rr_done s) true (events s))))) i a); [done|].
      eapply (stage_down s); [done|]. rewrite Hst. simpl. lia.
  - apply (measure_set_try _ _ a); [done|]. eapply stage_down; [done|]. rewrite Hst. simpl. lia.
  - by eapply measure_finish; [done|rewrite Hst].
  - by eapply measure_finish; [done|rewrite Hst].
  - pose proof (proj2 (ok_data _ H) Hr) as Hd. unfold measure. simpl. rewrite length_app, Hr. simpl.
    assert (Z.of_nat (length (data s)) + Z.of_nat (length chunk) <= capacity)
      by (rewrite capacity_eq; lia).
    destruct chunk as [|c chunk]; [|simpl in *; destruct (err || _); lia].
    destruct err; [simpl; lia|]. by specialize (Hne eq_refl).
Qed.

Lemma loop_progress s : cl_stop s = true → loop s ≠ LoopDone → ∃ s', step s s'.
Proof using Type.
  intros Hc Hl. destruct (ticking s) eqn:Et; [eexists; by apply timer_fires|].
  destruct (loop s) eqn:El; [..|done].
  - eexists. by apply (loop_stop s false).
  - eexists. by apply loop_timer.
  - eexists. by apply loop_done.
Qed.

Lemma sender_progress s i a :
  conn_ok s → tries s !! i = Some a → sending a = true → sr_stop a = true → ∃ s', step s s'.
Proof using Type.
  intros H Hi Hs Hst. destruct (writing a) as [m|] eqn:Ew.
  - destruct (try_writing _ _ _ (try_at _ _ _ H Hi) m Ew) as [Hm _].
    eexists. eapply (send_result s i a 0 true m); [done..|lia|done].
  - eexists. by eapply send_stop.
Qed.

Lemma conn_progress s : conn_ok s → ¬ finished s → ∃ s', step s s'.
Proof using Type.
  intros H Hf. destruct (rr_done s) eqn:Er.
  2: { eexists. apply (request_read s [] true); [done|simpl|done]. by vm_compute. }
  assert (cl_stop s = true) as Hc by (apply (ok_stopped _ H); auto).
  destruct (decide (loop s = LoopDone)) as [El|El]; [|by apply loop_progress].
  destruct (decide (Forall (λ a, at_stage a = Ended) (tries s))) as [|Hne]; [by destruct Hf|].
  apply not_Forall_Exists in Hne; [|apply _]. apply Exists_exists in Hne as (a & Hin & Ha). simpl in Ha.
  apply list_elem_of_lookup in Hin as [i Hi]. pose proof (try_at _ _ _ H Hi) as [_ _ _ Ht].
  destruct (at_stage a) as [|[]| |b|pre b| |] eqn:Est; [..|done].
  - eexists. by apply (dial_returns s i a true false).
  - eexists. by eapply dial_ok.
  - eexists. by eapply dial_failed.
  - eexists. by apply (response s i a 0 true true).
  - destruct (sr_done a) eqn:Ed; [eexists; by eapply relay_start|].
    eapply sender_progress; [done..| |done]. unfold sending. by rewrite Est, Ed.
  - eexists. by eapply relay_end.
  - destruct (sr_done a) eqn:Ed; [eexists; by eapply attempt_end|].
    eapply sender_progress; [done..| |done]. unfold sending. by rewrite Est, Ed.
Qed.

Lemma reach_ends s : reach s → eventually step finished s.
Proof.
  intros Hr%conn_reach_ok.
  apply (eventually_measure _ conn_ok _ measure); [..|done].
  - intros s1. unfold finished. apply _.
  - intros s1 s2 H _ Hs. split; [by eapply conn_step_ok|by apply conn_step_measure].
  - intros s1. apply conn_progress.
Qed.
End conn.

(** ** NewConn

    with the options of a call, filled in from those of the Manager. *)

(** C20: in every reachable state a connection has made at most MaxAttempts
    attempts, has at most Parallel of them open, has buffered less than 40 KB
    of request, and has reported nothing, one response, or once that all
    attempts were made and none is left; in every step from it attempts are
    made one at a time, by the loop, while no timer runs and nobody has
    responded; after an attempt the loop does nothing but start the timer; and
    the timer stops only by firing or when the loop leaves. *)
Theorem conn_limits m opts s :
  reach (conn_options m opts) s →
  let opts := conn_options m opts in
  Z.of_nat (length (tries s)) <= MaxAttempts opts ∧
  Z.of_nat (length (filter (λ a, at_stage a ≠ Ended) (tries s))) <= Parallel opts ∧
  Z.of_nat (length (data s)) < maxRequestSize + connBuf_size ∧
  (events s = [] ∨ events s = [ConnEventResponse] ∨
   events s = [ConnEventMaxAttempts] ∧ ∀ a, a ∈ tries s → at_stage a = Ended) ∧
  ∀ s', step opts s s' →
    (length (tries s') ≠ length (tries s) → length (tries s') = S (length (tries s)) ∧
       loop s = Checking ∧ ticking s = false ∧ hasWinner s = false ∧ loop s' = Started) ∧
    (loop s = Started → loop s' = Started ∧ ticking s' = false ∨ loop s' = Checking ∧ ticking s' = true) ∧
    (ticking s = true → ticking s' = false → s' = set_timer true false s ∨ loop s' = Leaving).
Proof.
  intros Hr o. destruct (conn_options_pos m opts) as (_ & _ & HP & HM).
  pose proof (conn_reach_ok (conn_options m opts) ltac:(lia) ltac:(lia) _ Hr) as H.
  assert (length (filter (λ a, at_stage a ≠ Ended) (tries s)) = sum_list_with live (tries s)) as El.
  { clear. induction (tries s) as [|a l IH]; [done|]. rewrite filter_cons. simpl. unfold live at 1.
    case_decide as Hd; simpl; rewrite IH; destruct (at_stage a); try done; by destruct Hd. }
  split_and!.
  - rewrite <- (ok_attempts _ _ H). apply H.
  - rewrite El, <- (ok_live _ _ H). apply H.
  - apply H.
  - destruct (ok_events _ _ H) as [[-> _]|[[-> _]|(-> & _ & Hc & _)]]; [auto..|].
    right. right. split; [done|]. intros a [i Hi]%list_elem_of_lookup.
    pose proof (sum_with_lookup live _ _ _ Hi) as Hle. rewrite <- (ok_live _ _ H), Hc in Hle.
    unfold live in Hle. destruct (at_stage a); try done; lia.
  - intros s' Hs. pose proof (conn_step_ok _ _ _ H Hs) as H'. rewrite <- (ok_attempts _ _ H), <- (ok_attempts _ _ H').
    split_and!; [by eapply step_attempt|by eapply step_started|by eapply step_stops].
Qed.

Theorem request_integrity m opts s i a :
  reach (conn_options m opts) s → tries s !! i = Some a →
  wire a = take (sent a) (data s) ∧
  ∀ pre b, at_stage a = Relaying pre b →
    wire a ++ pre = data s ∧
    (∀ s', rtc (step (conn_options m opts)) s s' → data s' = data s) ∧
    ∀ j c pre' b', tries s !! j = Some c → at_stage c = Relaying pre' b' → j = i.
Proof.
  intros Hr Hi. destruct (conn_options_pos m opts) as (_ & _ & HP & HM).
  pose proof (conn_reach_ok (conn_options m opts) ltac:(lia) ltac:(lia) _ Hr) as H.
  pose proof (try_at _ _ _ _ H Hi) as [Hw _ _ Hst]. split; [done|]. intros pre b E. rewrite E in Hst.
  destruct Hst as (-> & Hrd & _). split_and!.
  - rewrite Hw. apply take_drop.
  - intros s' Hs. by apply (data_final _ _ _ Hrd Hs).
  - intros j c pre' b' Hj Ec. eapply (ok_winner _ _ H); [done..|by unfold winner; rewrite Ec|].
    unfold winner. by rewrite E.
Qed.

Theorem conn_ends m opts s :
  reach (conn_options m opts) s → eventually (step (conn_options m opts)) finished s.
Proof.
  intros Hr. destruct (conn_options_pos m opts) as (_ & _ & HP & HM). by apply reach_ends; [lia..|].
Qed.

(** ** Conn

    The deadlines of the connection that a relay uses: [None] is no deadline.
    [now] is the time of a call. *)

Record outgoing := MkOutgoing { oc : option (option Z * option Z); tr : Z; tw : Z }.

Definition toDeadline (now d : Z) : option Z := if d =? 0 then None else Some (now + d).

(** [oc.SetReadDeadline; oc.SetWriteDeadline], when there is one. *)
Definition setOutgoingConn (now : Z) (is_nil : bool) (c : outgoing) : outgoing :=
  MkOutgoing (if is_nil then None else Some (toDeadline now (tr c), toDeadline now (tw c))) (tr c) (tw c).

Definition SetOutgoingTimeout (now r w : Z) (c : outgoing) : outgoing :=
  MkOutgoing (match oc c with Some _ => Some (toDeadline now r, toDeadline now w) | None => None end) r w.

(** A connection that is there has had the last timeouts applied to it. *)
Lemma outgoing_deadlines now r w c :
  match oc (SetOutgoingTimeout now r w c), oc (setOutgoingConn now false (SetOutgoingTimeout now r w c)) with
  | Some d, Some d' => d = d' ∧ d = (toDeadline now r, toDeadline now w)
  | None, Some d' => oc c = None ∧ d' = (toDeadline now r, toDeadline now w)
  | _, None => False
  end.
Proof. unfold SetOutgoingTimeout. simpl. by destruct (oc c). Qed.

(** ** Witnesses *)

(** Half of the request is sent when the response comes: the rest goes to the
    relay. *)
Lemma ex_relaying :
  ∃ s a, reach (conn_options zero_conn zero_conn) s ∧ tries s !! O = Some a ∧
    at_stage a = Relaying [98] 99 ∧ events s = [ConnEventResponse].
Proof.
  eexists. eexists. split.
  - unfold reach.
    eapply rtc_l; [apply (request_read _ _ [97; 98] false); [done|by vm_compute|done]|].
    eapply rtc_l; [apply (loop_new _ _ false); [done|by vm_compute..]|].
    eapply rtc_l; [by apply loop_timer|].
    eapply rtc_l; [by apply (dial_returns _ _ 0 (MkAttempt Dialing 0 None false false []) true false)|].
    eapply rtc_l; [by eapply (dial_ok _ _ 0)|].
    eapply rtc_l; [eapply (send_write _ _ 0); [reflexivity|done..|simpl; lia]|].
    eapply rtc_l; [eapply (response _ _ 0 _ 99 false true); reflexivity|].
    eapply rtc_l; [eapply (send_result _ _ 0 _ 1 true); [reflexivity|done..|simpl; lia|done]|].
    eapply rtc_l; [by apply (loop_stop _ _ true)|].
    eapply rtc_l; [by apply loop_done|].
    eapply rtc_l; [apply (request_read _ _ [] true); [done|by vm_compute|done]|].
    eapply rtc_l; [eapply (relay_start _ _ 0); reflexivity|].
    apply rtc_refl.
  - split; [reflexivity|]. split; reflexivity.
Qed.

Lemma request_integrity_witness :
  ∃ (s : conn) (a : attempt), at_stage a = Relaying [98] 99 ∧ wire a ++ [98] = data s.
Proof.
  destruct ex_relaying as (s & a & Hr & Hi & Hs & _). exists s, a. split; [exact Hs|].
  destruct (request_integrity zero_conn zero_conn s O a Hr Hi) as [_ H]. exact (proj1 (H _ _ Hs)).
Defined.

Lemma conn_limits_witness :
  ∃ s : conn, events s = [ConnEventResponse] ∧ Z.of_nat (length (tries s)) <= 30.
Proof.
  destruct ex_relaying as (s & a & Hr & _ & _ & He). exists s. split; [exact He|].
  exact (proj1 (conn_limits zero_conn zero_conn s Hr)).
Defined.

Lemma conn_ends_witness :
  eventually (step (conn_options zero_conn zero_conn)) finished init.
Proof. apply conn_ends. apply rtc_refl. Defined.
