(* ===== verification/Dns.v ===== *)
(** * DNS pieces (service/socks/socks.go, service/tcptun/dnstun/dnstun.go).

    What the two DNS clients share, in the same words: servers and their
    checks, query types, messages on a stream, and the bounds on TTLs.
    Durations are nanoseconds, strings are ASCII. *)

From S2P Require Import Prelude GoStrings Addr Defaults.

Open Scope go_scope.
#[local] Arguments bs : simpl never.

(** ** Servers *)

Record DNServer := MkServer {
  s_Name : gostring;
  s_IP : list gostring;
  s_Over : gostring;
  s_Port : Z;
  s_Path : gostring;
  s_Method : gostring }.

#[export] Instance DNServer_eq_dec : EqDecision DNServer.
Proof. solve_decision. Defined.

Definition method (s : DNServer) : gostring := if s_Method s == bs "GET" then bs "GET" else bs "POST".

Definition defaultPort (protocol : gostring) : Z :=
  if protocol == bs "TLS" then 853
  else if protocol == bs "HTTPS" then 443
  else if protocol == bs "HTTP" then 80
  else 53.

Definition port (s : DNServer) : Z :=
  if s_Port s != 0 then s_Port s else defaultPort (s_Over s).

Definition url (s : DNServer) : gostring :=
  ToLower (cmp_Or (s_Over s) (bs "TCP")) ++ bs "://" ++ s_Name s ++
  (if (s_Port s != 0) && (s_Port s != defaultPort (s_Over s)) then bs ":" ++ Itoa (s_Port s) else []).

(** One round of the loop that checks the servers of a LoadEvent: the server
    with its fields in upper case, or the end of Run. *)
Definition check_server (s : DNServer) : option DNServer :=
  let s := MkServer (s_Name s) (s_IP s) (ToUpper (s_Over s)) (s_Port s) (s_Path s) (ToUpper (s_Method s)) in
  if (s_Name s == []) && (s_IP s == []) then None
  else if negb (bool_decide (s_Over s ∈ [[]; bs "TCP"; bs "TLS"; bs "HTTPS"; bs "HTTP"])) then None
  else if negb (bool_decide (s_Method s ∈ [[]; bs "GET"; bs "POST"])) then None
  else if ((s_Over s == bs "TLS") || (s_Over s == bs "HTTPS")) && (s_Name s == []) then None
  else Some s.

Definition check_servers : list DNServer → option (list DNServer) := mapM check_server.

(** [if len(Servers) == 0 && (...) { Servers = append(Servers, Server) }] *)
Definition all_servers (servers : list DNServer) (server : DNServer) : list DNServer :=
  if (servers == []) && ((s_Name server != []) || (s_IP server != [])) then [server] else servers.

(** What the rest of the code relies on. *)
Record server_ok (s : DNServer) : Prop := {
  server_addr : s_Name s ≠ [] ∨ s_IP s ≠ [];
  server_over : s_Over s ∈ [[]; bs "TCP"; bs "TLS"; bs "HTTPS"; bs "HTTP"];
  server_method : s_Method s ∈ [[]; bs "GET"; bs "POST"];
  server_tls : s_Over s ∈ [bs "TLS"; bs "HTTPS"] → s_Name s ≠ [] }.

Lemma check_server_ok s s' : check_server s = Some s' → server_ok s'.
Proof.
  unfold check_server. cbn [s_Name s_IP s_Over s_Method].
  case_match eqn:E1; [done|]. case_match eqn:E2; [done|]. case_match eqn:E3; [done|].
  case_match eqn:E4; [done|]. intros [= <-].
  apply negb_false_iff, bool_decide_eq_true in E2, E3. split; simpl; try done.
  - apply andb_false_iff in E1. by rewrite !bool_decide_eq_false in E1.
  - apply andb_false_iff in E4. rewrite orb_false_iff, !bool_decide_eq_false in E4.
    intros Hin. destruct E4 as [[E5 E6]|E4]; [exfalso|exact E4].
    apply elem_of_cons in Hin as [?|Hin]; [done|]. by apply list_elem_of_singleton in Hin.
Qed.

Lemma check_servers_ok l l' : check_servers l = Some l' → Forall server_ok l' ∧ length l' = length l.
Proof.
  intros H%mapM_Some. split; [|symmetry; by eapply Forall2_length].
  apply Forall_forall. intros s Hs. apply list_elem_of_lookup in Hs as [i Hi].
  destruct (Forall2_lookup_r _ _ _ _ _ H Hi) as (x & _ & Hx). by eapply check_server_ok.
Qed.

Lemma ToUpper_idem x : ToUpper (ToUpper x) = ToUpper x.
Proof.
  unfold ToUpper. rewrite <- list_fmap_compose. apply list_fmap_ext. intros _ c _. simpl.
  unfold upper_byte. repeat case_match; lia.
Qed.

Lemma check_server_upper s s' :
  check_server s = Some s' → ToUpper (s_Over s') = s_Over s' ∧ ToUpper (s_Method s') = s_Method s'.
Proof.
  unfold check_server. repeat (case_match; [done|]). intros [= <-]. simpl. by rewrite !ToUpper_idem.
Qed.

Lemma check_server_id s :
  server_ok s → ToUpper (s_Over s) = s_Over s → ToUpper (s_Method s) = s_Method s → check_server s = Some s.
Proof.
  intros [H1 H2 H3 H4] HO HM. unfold check_server. cbn [s_Name s_IP s_Over s_Method]. rewrite HO, HM.
  rewrite (bool_decide_true (_ ∈ _) H2), (bool_decide_true (_ ∈ _) H3). simpl.
  destruct s as [name ip over p pa m]; simpl in *.
  case_match eqn:E; [apply andb_prop in E as [->%bool_decide_eq_true ->%bool_decide_eq_true]; by destruct H1|].
  case_match eqn:E'; [|done]. apply andb_prop in E' as [Ho Hn%bool_decide_eq_true]. exfalso. apply H4; [|done].
  apply orb_prop in Ho as [->%bool_decide_eq_true| ->%bool_decide_eq_true]; set_solver.
Qed.

(** A checked server is checked again without a change. *)
Lemma check_server_again s : check_server s ≫= check_server = check_server s.
Proof.
  destruct (check_server s) as [s'|] eqn:E; [|done]. simpl.
  destruct (check_server_upper _ _ E). apply check_server_id; [by eapply check_server_ok|done..].
Qed.

(** Where a connection to a server goes: to one of its addresses, or to its
    name; [None]: the choice is out of range. *)
Definition dial_host (s : DNServer) (k : nat) : option gostring :=
  match s_IP s with [] => Some (s_Name s) | ips => ips !! k end.

Definition hostport (s : DNServer) (k : nat) : option gostring :=
  host ← dial_host s k;
  Some (JoinHostPort host (Itoa (port s))).

(** The name that the certificate must have, when there is TLS. *)
Definition tls_name (s : DNServer) : option gostring :=
  if (s_Over s == bs "TLS") || (s_Over s == bs "HTTPS") then Some (s_Name s) else None.

Definition defaultIdleTimeout : Z := 10 * second.
Definition defaultReadTimeout : Z := 2 * second.
Definition defaultWriteTimeout : Z := 3 * second.

(** Idle, read and write timeouts of a connection. *)
Definition timeouts (idle read write : Z) : Z * Z * Z :=
  (if 0 <? idle then idle else defaultIdleTimeout,
   if 0 <? read then read else defaultReadTimeout,
   if 0 <? write then write else defaultWriteTimeout).

(** A checked server can be dialed, and has a name where TLS needs one. *)
Lemma server_dial s k :
  server_ok s → (k < length (s_IP s) ∨ s_IP s = [])%nat →
  (∃ host, dial_host s k = Some host ∧ (s_IP s = [] → host ≠ [])) ∧
  (∀ name, tls_name s = Some name → name ≠ []).
Proof.
  intros [H1 _ _ H4] Hk. split.
  - unfold dial_host. destruct (s_IP s) as [|ip ips] eqn:E.
    + exists (s_Name s). split; [done|]. intros _. by destruct H1.
    + destruct Hk as [Hk|]; [|done]. apply lookup_lt_is_Some_2 in Hk as [h Hh]. by exists h.
  - unfold tls_name. intros name. destruct (_ || _) eqn:E; [|done]. intros [= <-]. apply H4.
    apply orb_prop in E as [->%bool_decide_eq_true| ->%bool_decide_eq_true]; set_solver.
Qed.

Lemma timeouts_pos idle read write :
  let '(i, r, w) := timeouts idle read write in 0 < i ∧ 0 < r ∧ 0 < w.
Proof.
  unfold timeouts, defaultIdleTimeout, defaultReadTimeout, defaultWriteTimeout, second, millisecond.
  repeat case_match; lia.
Qed.

(** ** Query types *)

(** [result := qtypes[:0]] shares the array that the loop ranges over. *)
Fixpoint normalize_loop (k i n : nat) (buf : list gostring) : list gostring :=
  match k with
  | O => take n buf
  | S k =>
      match buf !! i with
      | None => take n buf
      | Some t =>
          let t := ToUpper t in
          if (t != bs "A") && (t != bs "AAAA") then normalize_loop k (S i) n buf
          else if bool_decide (t ∈ take n buf) then normalize_loop k (S i) n buf
          else normalize_loop k (S i) (S n) (<[n := t]> buf)
      end
  end.

Definition normalizeQueryTypes (qtypes : list gostring) : list gostring :=
  normalize_loop (length qtypes) 0 0 qtypes.

(** In what order the types were asked for, each once. *)
Fixpoint query_types (seen : list gostring) (qtypes : list gostring) : list gostring :=
  match qtypes with
  | [] => seen
  | t :: qtypes =>
      let t := ToUpper t in
      if bool_decide (t ∈ [bs "A"; bs "AAAA"] ∧ t ∉ seen) then query_types (seen ++ [t]) qtypes
      else query_types seen qtypes
  end.

Lemma normalize_loop_spec pre rest buf n :
  length buf = length (pre ++ rest) → drop (length pre) buf = rest → (n ≤ length pre)%nat →
  normalize_loop (length rest) (length pre) n buf = query_types (take n buf) rest.
Proof.
  revert pre buf n. induction rest as [|t rest IH]; intros pre buf n Hl Hd Hn; [done|].
  simpl. assert (buf !! length pre = Some t) as Ht.
  { rewrite <- (Nat.add_0_r (length pre)), <- lookup_drop, Hd. done. }
  assert (length (pre ++ t :: rest) = length ((pre ++ [t]) ++ rest)) as Hl'.
  { by rewrite <- app_assoc. }
  assert (drop (length (pre ++ [t])) buf = rest) as Hd'.
  { rewrite length_app. simpl. rewrite <- drop_drop, Hd. done. }
  rewrite length_app in Hl. simpl in Hl.
  assert (normalize_loop (length rest) (S (length pre)) n buf = query_types (take n buf) rest) as Hsame.
  { replace (S (length pre)) with (length (pre ++ [t])) by (rewrite length_app; simpl; lia).
    apply IH; [by rewrite <- Hl', length_app|done|rewrite length_app; simpl; lia]. }
  rewrite Ht. cbv zeta. destruct (decide (ToUpper t = bs "A" ∨ ToUpper t = bs "AAAA")) as [Hin|Hno].
  - assert ((ToUpper t != bs "A") && (ToUpper t != bs "AAAA") = false) as ->.
    { destruct Hin as [->| ->]; reflexivity. }
    case_bool_decide as Hs.
    + rewrite bool_decide_false by (by intros [_ ?]). done.
    + rewrite bool_decide_true by (split; [destruct Hin as [->| ->]; set_solver|done]).
      replace (S (length pre)) with (length (pre ++ [t])) by (rewrite length_app; simpl; lia).
      rewrite IH; [|by rewrite length_insert, <- Hl', length_app| |rewrite length_app; simpl; lia].
      * f_equal. rewrite (take_S_r _ _ (ToUpper t)) by (apply list_lookup_insert_eq; lia).
        by rewrite take_insert_ge by lia.
      * rewrite drop_insert_lt by (rewrite length_app; simpl; lia). done.
  - assert ((ToUpper t != bs "A") && (ToUpper t != bs "AAAA") = true) as ->.
    { rewrite !bool_decide_false by naive_solver. done. }
    rewrite bool_decide_false by set_solver. done.
Qed.

Lemma query_types_in seen l t :
  t ∈ query_types seen l ↔ t ∈ seen ∨ t ∈ [bs "A"; bs "AAAA"] ∧ t ∈ ToUpper <$> l.
Proof.
  revert seen. induction l as [|x l IH]; intros seen; simpl; [set_solver|].
  case_bool_decide as Hx; rewrite IH; [set_solver|].
  split; [set_solver|]. intros [?|[Ht Hin]]; [by left|]. apply elem_of_cons in Hin as [->|Hin]; [|by right].
  left. destruct (decide (ToUpper x ∈ seen)); [done|]. by destruct Hx.
Qed.

Lemma query_types_NoDup seen l : NoDup seen → NoDup (query_types seen l).
Proof.
  revert seen. induction l as [|x l IH]; intros seen Hs; simpl; [done|].
  case_bool_decide as Hx; [|by apply IH]. apply IH, NoDup_app. split_and!; [done|set_solver|apply NoDup_singleton].
Qed.

(** Rewriting the slice in place gives the known types, each once. *)
Lemma normalizeQueryTypes_correct l :
  normalizeQueryTypes l = query_types [] l ∧ NoDup (normalizeQueryTypes l) ∧
  ∀ t, t ∈ normalizeQueryTypes l ↔ t ∈ [bs "A"; bs "AAAA"] ∧ t ∈ ToUpper <$> l.
Proof.
  assert (normalizeQueryTypes l = query_types [] l) as E.
  { by apply (normalize_loop_spec [] l l 0). }
  rewrite E. split_and!; [done|by apply query_types_NoDup, NoDup_nil_2|].
  intros t. rewrite query_types_in. set_solver.
Qed.

(** ** Bounds on the TTL of a record *)

Definition u32 (z : Z) : Z := z mod 2 ^ 32.

(** [uint32(math.Ceil(d.Seconds()))]; the rounding of the float is left out:
    it shows only for more than 2^22 seconds and a fraction of a microsecond. *)
Definition ceil_seconds (d : Z) : Z := u32 ((d + (second - 1)) / second).

(** The TTL of a record, in seconds, kept between [mn] and [mx] when they are
    positive. *)
Definition clamp_ttl (mn mx ttl : Z) : Z :=
  if (0 <? mn) || (0 <? mx) then
    let d := ttl * second in
    let d := if (0 <? mn) && (d <? mn) then mn else d in
    let d := if (0 <? mx) && (mx <? d) then mx else d in
    if d != ttl * second then ceil_seconds d else ttl
  else ttl.

(** What fits in 32 bits of seconds. *)
Definition max_seconds : Z := (2 ^ 32 - 1) * second.

Lemma ceil_seconds_spec d :
  0 <= d <= max_seconds → 0 <= ceil_seconds d < 2 ^ 32 ∧ d <= ceil_seconds d * second < d + second.
Proof.
  unfold ceil_seconds, u32, max_seconds. assert (second = 1000000000) as -> by reflexivity. intros Hd.
  zdiv (d + (1000000000 - 1)) 1000000000. rewrite Z.mod_small by lia. lia.
Qed.

(** The TTL stays within the bounds of the options, up to the second, the
    upper one winning; what is within is not changed. *)
Lemma clamp_ttl_spec mn mx ttl :
  0 <= ttl < 2 ^ 32 → mn <= max_seconds → mx <= max_seconds →
  0 <= clamp_ttl mn mx ttl < 2 ^ 32 ∧
  (0 < mx → clamp_ttl mn mx ttl * second < mx + second) ∧
  (0 < mn → mx <= 0 ∨ mn <= mx → mn <= clamp_ttl mn mx ttl * second) ∧
  ((0 < mn → mn <= ttl * second) → (0 < mx → ttl * second <= mx) → clamp_ttl mn mx ttl = ttl).
Proof.
  intros Ht Hmn Hmx. unfold clamp_ttl.
  assert (ttl * second <= max_seconds) as Hd by (unfold max_seconds, second, millisecond in *; lia).
  assert (0 <= ttl * second) as Hd0 by (unfold second, millisecond; lia).
  assert (0 < second) by (unfold second, millisecond; lia).
  set (d := ttl * second) in *.
  destruct (Z.ltb_spec 0 mn) as [Hp|Hp], (Z.ltb_spec 0 mx) as [Hq|Hq]; simpl; [..|lia].
  - set (d1 := if d <? mn then mn else d). set (d2 := if mx <? d1 then mx else d1).
    assert (0 <= d2 <= max_seconds) as Hd2 by (subst d1 d2; repeat case_match; lia).
    pose proof (ceil_seconds_spec d2 Hd2). case_bool_decide as He; simpl; subst d1 d2; repeat case_match; lia.
  - set (d1 := if d <? mn then mn else d).
    assert (0 <= d1 <= max_seconds) as Hd2 by (subst d1; repeat case_match; lia).
    pose proof (ceil_seconds_spec d1 Hd2). case_bool_decide as He; simpl; subst d1; repeat case_match; lia.
  - set (d1 := if mx <? d then mx else d).
    assert (0 <= d1 <= max_seconds) as Hd2 by (subst d1; repeat case_match; lia).
    pose proof (ceil_seconds_spec d1 Hd2). case_bool_decide as He; simpl; subst d1; repeat case_match; lia.
Qed.

(** A lower bound of 2^32 seconds wraps around to zero. *)
Example clamp_wraps : clamp_ttl (2 ^ 32 * second) 0 300 = 0.
Proof. reflexivity. Qed.

(** ** Messages on a stream *)

(** [writeMsgData]: what goes through the buffered writer when no write
    fails. *)
Definition writeMsgData (data : list Z) : list Z :=
  let len := Z.of_nat (length data) mod 2 ^ 16 in
  [len / 256; len mod 256] ++ data.

(** The framing of RFC 1035 4.2.2, which the reader of the library follows. *)
Definition read_msg (stream : list Z) : option (list Z * list Z) :=
  match stream with
  | hi :: lo :: rest =>
      let len := Z.to_nat (hi * 256 + lo) in
      if (len <=? length rest)%nat then Some (take len rest, drop len rest) else None
  | _ => None
  end.

Lemma read_write data rest :
  Z.of_nat (length data) < 2 ^ 16 → read_msg (writeMsgData data ++ rest) = Some (data, rest).
Proof.
  intros Hl. unfold read_msg, writeMsgData. rewrite Z.mod_small by lia. simpl.
  zdiv (Z.of_nat (length data)) 256.
  replace (Z.to_nat _) with (length data) by lia.
  rewrite length_app. destruct (Nat.leb_spec (length data) (length data + length rest)); [|lia].
  by rewrite take_app_length, drop_app_length.
Qed.

Fixpoint read_msgs (fuel : nat) (stream : list Z) : list (list Z) * list Z :=
  match fuel with
  | O => ([], stream)
  | S fuel =>
      match read_msg stream with
      | Some (data, rest) => let '(l, rest) := read_msgs fuel rest in (data :: l, rest)
      | None => ([], stream)
      end
  end.

(** The messages written one after another are the messages read, as long as
    none has 65536 bytes or more. *)
Theorem messages_roundtrip (msgs : list (list Z)) (rest : list Z) :
  Forall (λ m, Z.of_nat (length m) < 2 ^ 16) msgs →
  read_msgs (length msgs) (concat (writeMsgData <$> msgs) ++ rest) = (msgs, rest).
Proof.
  induction 1 as [|m msgs Hm _ IH]; [done|]. rewrite fmap_cons.
  cbn [concat length read_msgs]. rewrite <- app_assoc, (read_write m _ Hm). by rewrite IH.
Qed.

Lemma messages_roundtrip_witness :
  read_msgs 2 (concat (writeMsgData <$> [[1; 2; 3]; repeat 7 300]) ++ [0]) = ([[1; 2; 3]; repeat 7 300], [0]).
Proof. apply (messages_roundtrip [[1; 2; 3]; repeat 7 300] [0]). repeat constructor. Defined.

(** A longer one is cut at its length modulo 65536. *)
Lemma message_too_long data :
  Z.of_nat (length data) = 2 ^ 16 → read_msg (writeMsgData data) = Some ([], data).
Proof. intros Hl. unfold read_msg, writeMsgData. by rewrite Hl. Qed.
