(* ===== verification/Race.v ===== *)
(** * Two dials at once (service/socks/socks.go, getRemote).

    A host with addresses of both kinds is dialed at one of each kind at the
    same time: two goroutines, the first connection wins.  [true] names the
    goroutine of IPv4.  When a dial ends, how it ends, and when the context of
    the attempt is canceled are choices of the steps. *)

From S2P Require Import Prelude.

Inductive dialer :=
  | Dialing
  | Offering      (* at the select that sends the connection *)
  | Counting      (* at n.Add *)
  | Over.

(** What became of the connection of a goroutine. *)
Inductive fate := NoConn | Open | ClosedConn.

Inductive outcome :=
  | Receiving             (* at winner, ok := <-c *)
  | WaitErr               (* at <-errCh *)
  | GotConn (i : bool)
  | GotErr.

#[export] Instance outcome_eq_dec : EqDecision outcome.
Proof. solve_decision. Defined.

Record race := MkRace {
  ipv4 : dialer; ipv6 : dialer;
  conn4 : fate; conn6 : fate;
  done4 : bool; done6 : bool;      (* the contexts are canceled *)
  errCh : bool;                    (* the buffer of one is full *)
  n : nat;
  c_closed : bool;
  main : outcome }.

Definition init : race := MkRace Dialing Dialing NoConn NoConn false false false 0 false Receiving.

Definition dialer_of (i : bool) (s : race) : dialer := if i then ipv4 s else ipv6 s.
Definition conn_of (i : bool) (s : race) : fate := if i then conn4 s else conn6 s.
Definition done_of (i : bool) (s : race) : bool := if i then done4 s else done6 s.

Definition set_dialer (i : bool) (d : dialer) (f : fate) (s : race) : race :=
  MkRace (if i then d else ipv4 s) (if i then ipv6 s else d) (if i then f else conn4 s)
    (if i then conn6 s else f) (done4 s) (done6 s) (errCh s) (n s) (c_closed s) (main s).

Definition set_done (d4 d6 : bool) (s : race) : race :=
  MkRace (ipv4 s) (ipv6 s) (conn4 s) (conn6 s) (done4 s || d4) (done6 s || d6) (errCh s) (n s)
    (c_closed s) (main s).

Definition set_main (o : outcome) (s : race) : race :=
  MkRace (ipv4 s) (ipv6 s) (conn4 s) (conn6 s) (done4 s) (done6 s) (errCh s) (n s) (c_closed s) o.

Definition set_errCh (b : bool) (s : race) : race :=
  MkRace (ipv4 s) (ipv6 s) (conn4 s) (conn6 s) (done4 s) (done6 s) b (n s) (c_closed s) (main s).

(** [if n.Add(1) == N { close(c) }] *)
Definition count (s : race) : race :=
  let n' := S (n s) in
  MkRace (ipv4 s) (ipv6 s) (conn4 s) (conn6 s) (done4 s) (done6 s) (errCh s) n'
    (c_closed s || (n' =? 2)%nat) (main s).

(** The main goroutine received from c: the contexts of the others are
    canceled, and the winner is returned, or an error awaited. *)
Definition receive (winner : option bool) (s : race) : race :=
  match winner with
  | Some i => set_main (GotConn i) (set_done (negb i) i s)
  | None => set_main WaitErr (set_done true true s)
  end.

Inductive step : race → race → Prop :=
  | dial_fails i s : dialer_of i s = Dialing → step s (set_dialer i Counting NoConn (set_errCh true s))
  | dial_ok i s : dialer_of i s = Dialing → step s (set_dialer i Offering Open s)
  | offer_taken i s : dialer_of i s = Offering → main s = Receiving → c_closed s = false →
      step s (receive (Some i) (set_dialer i Counting Open s))
  | offer_dropped i s : dialer_of i s = Offering → done_of i s = true →
      step s (set_dialer i Counting ClosedConn s)
  | dialer_ends i s : dialer_of i s = Counting → step s (count (set_dialer i Over (conn_of i s) s))
  | all_ended s : main s = Receiving → c_closed s = true → step s (receive None s)
  | error_read s : main s = WaitErr → errCh s = true → step s (set_main GotErr (set_errCh false s))
  | canceled s : done4 s && done6 s = false → step s (set_done true true s).   (* localCtx *)

Definition reach : race → Prop := rtc step init.

(** ** The state space

    is small: the states that can be reached are computed, and a property of
    all of them is decided by evaluation. *)

#[export] Instance dialer_eq_dec : EqDecision dialer.
Proof. solve_decision. Defined.
#[export] Instance fate_eq_dec : EqDecision fate.
Proof. solve_decision. Defined.
#[export] Instance race_eq_dec : EqDecision race.
Proof. solve_decision. Defined.

Definition moves_of (i : bool) (s : race) : list race :=
  match dialer_of i s with
  | Dialing => [set_dialer i Counting NoConn (set_errCh true s); set_dialer i Offering Open s]
  | Offering =>
      (if bool_decide (main s = Receiving) && negb (c_closed s)
       then [receive (Some i) (set_dialer i Counting Open s)] else []) ++
      (if done_of i s then [set_dialer i Counting ClosedConn s] else [])
  | Counting => [count (set_dialer i Over (conn_of i s) s)]
  | Over => []
  end.

Definition moves (s : race) : list race :=
  moves_of true s ++ moves_of false s ++
  (if bool_decide (main s = Receiving) && c_closed s then [receive None s] else []) ++
  (if bool_decide (main s = WaitErr) && errCh s then [set_main GotErr (set_errCh false s)] else []) ++
  (if done4 s && done6 s then [] else [set_done true true s]).

Lemma step_moves s s' : step s s' → s' ∈ moves s.
Proof.
  intros Hs. unfold moves. rewrite !elem_of_app.
  destruct Hs as [i s Hd|i s Hd|i s Hd Hm Hc|i s Hd Hx|i s Hd|s Hm Hc|s Hm He|s Hc].
  1-5: destruct i; [left|right; left]; unfold moves_of; rewrite Hd, ?Hm, ?Hc, ?Hx; simpl; set_solver.
  - do 2 right. left. rewrite Hm, Hc. simpl. set_solver.
  - do 3 right. left. rewrite Hm, He. simpl. set_solver.
  - do 4 right. rewrite Hc. set_solver.
Qed.

Lemma moves_of_step i s s' : s' ∈ moves_of i s → step s s'.
Proof.
  unfold moves_of. destruct (dialer_of i s) eqn:Hd.
  - intros [->|[->|[]%elem_of_nil]%elem_of_cons]%elem_of_cons; [by apply dial_fails|by apply dial_ok].
  - intros [Hin|Hin]%elem_of_app.
    + case_bool_decide as Hm; simpl in Hin; [|by apply elem_of_nil in Hin].
      destruct (c_closed s) eqn:Hc; simpl in Hin; [by apply elem_of_nil in Hin|].
      apply list_elem_of_singleton in Hin as ->. by apply offer_taken.
    + destruct (done_of i s) eqn:Hx; [|by apply elem_of_nil in Hin].
      apply list_elem_of_singleton in Hin as ->. by apply offer_dropped.
  - intros ->%list_elem_of_singleton. by apply dialer_ends.
  - by intros []%elem_of_nil.
Qed.

Lemma moves_step s s' : s' ∈ moves s → step s s'.
Proof.
  unfold moves. rewrite !elem_of_app. intros [Hin|[Hin|[Hin|[Hin|Hin]]]]; [by eapply moves_of_step..| | |].
  - case_bool_decide as Hm; simpl in Hin; [|by apply elem_of_nil in Hin].
    destruct (c_closed s) eqn:Hc; [|by apply elem_of_nil in Hin].
    apply list_elem_of_singleton in Hin as ->. by apply all_ended.
  - case_bool_decide as Hm; simpl in Hin; [|by apply elem_of_nil in Hin].
    destruct (errCh s) eqn:He; [|by apply elem_of_nil in Hin].
    apply list_elem_of_singleton in Hin as ->. by apply error_read.
  - destruct (done4 s && done6 s) eqn:Hc; [by apply elem_of_nil in Hin|].
    apply list_elem_of_singleton in Hin as ->. by apply canceled.
Qed.

Definition states : list race := Eval vm_compute in explore moves 12 [init] [init].

(** A property that evaluation finds in every state. *)
Lemma reach_check (P : race → bool) s : forallb P states = true → reach s → P s = true.
Proof.
  apply (check_reachable step moves init states); [apply step_moves|vm_compute; reflexivity].
Qed.

(** ** What becomes of the connections *)

Definition both_over (s : race) : bool := bool_decide (ipv4 s = Over) && bool_decide (ipv6 s = Over).

(** Main waits for an error that nobody will send. *)
Definition blocked (s : race) : Prop := main s = WaitErr ∧ errCh s = false.

#[export] Instance blocked_dec s : Decision (blocked s).
Proof. unfold blocked. apply _. Defined.

Definition safe (s : race) : bool :=
  forallb (λ i, implb (bool_decide (main s = GotConn i)) (bool_decide (conn_of i s = Open)) &&
                implb (both_over s && bool_decide (conn_of i s = Open)) (bool_decide (main s = GotConn i)))
    [true; false] &&
  implb (bool_decide (blocked s))
    (bool_decide (conn4 s = ClosedConn) && bool_decide (conn6 s = ClosedConn)).

(** C25: when two dials race, the connection that is returned is open, every
    other connection that was made is closed once both goroutines are over,
    and the attempt waits for an error that never comes only if both
    connections were made and dropped. *)
Theorem race_no_leak s :
  reach s →
  (∀ i, main s = GotConn i → conn_of i s = Open) ∧
  (ipv4 s = Over → ipv6 s = Over → ∀ i, conn_of i s = Open → main s = GotConn i) ∧
  (blocked s → conn4 s = ClosedConn ∧ conn6 s = ClosedConn).
Proof.
  intros Hr. assert (safe s = true) as Hs by (apply (reach_check safe); [vm_compute; reflexivity|done]).
  unfold safe in Hs. apply andb_prop in Hs as [Hi Hb]. rewrite forallb_forall in Hi.
  assert (∀ i, In i [true; false]) as Hin by (intros []; simpl; auto).
  split_and!.
  - intros i Hm. specialize (Hi i (Hin i)). apply andb_prop in Hi as [Hi _].
    refine (proj1 (bool_decide_eq_true _) (implb_elim _ _ Hi _)). by apply bool_decide_eq_true.
  - intros H4 H6 i Hc. specialize (Hi i (Hin i)). apply andb_prop in Hi as [_ Hi].
    refine (proj1 (bool_decide_eq_true _) (implb_elim _ _ Hi _)). unfold both_over. by rewrite H4, H6, Hc.
  - intros Hbl. pose proof (implb_elim _ _ Hb (proj2 (bool_decide_eq_true _) Hbl)) as Hc.
    apply andb_prop in Hc as [H4%bool_decide_eq_true H6%bool_decide_eq_true]. done.
Qed.

(** ** Termination *)

Definition dialer_weight (d : dialer) : nat :=
  match d with Dialing => 3 | Offering => 2 | Counting => 1 | Over => 0 end.

Definition measure (s : race) : nat :=
  (dialer_weight (ipv4 s) + dialer_weight (ipv6 s) +
   match main s with Receiving => 2 | WaitErr => 1 | _ => 0 end +
   (if done4 s && done6 s then 0 else 1))%nat.

(** Both goroutines are over, and main has returned or is blocked. *)
Definition settled (s : race) : Prop :=
  both_over s = true ∧ ((∃ i, main s = GotConn i) ∨ main s = GotErr ∨ blocked s).

Definition settledb (s : race) : bool :=
  both_over s &&
  (bool_decide (main s = GotConn true) || bool_decide (main s = GotConn false) ||
   bool_decide (main s = GotErr) || bool_decide (blocked s)).

Lemma settled_iff s : settled s ↔ settledb s = true.
Proof.
  unfold settled, settledb. rewrite andb_true_iff, !orb_true_iff, !bool_decide_eq_true. split.
  - intros [? [[[] ?]|[?|?]]]; auto 6.
  - intros [? [[[?|?]|?]|?]]; eauto 6.
Qed.

Theorem race_ends : eventually step settled init.
Proof.
  apply (eventually_measure _ reach _ measure); [| | |apply rtc_refl].
  - intros s. destruct (settledb s) eqn:E; [left|right]; rewrite settled_iff; congruence.
  - intros s s' Hr _ Hs. split; [by eapply rtc_r|].
    assert (forallb (λ s', (measure s' <? measure s)%nat) (moves s) = true) as Hm.
    { apply (reach_check (λ s, forallb (λ s', (measure s' <? measure s)%nat) (moves s))); [|done].
      vm_compute. reflexivity. }
    rewrite forallb_forall in Hm. apply Nat.ltb_lt, Hm, list_elem_of_In. by apply step_moves.
  - intros s Hr Hn. rewrite settled_iff in Hn. apply not_true_is_false in Hn.
    assert (settledb s || (0 <? length (moves s))%nat = true) as Hm.
    { apply (reach_check (λ s, settledb s || (0 <? length (moves s))%nat)); [|done].
      vm_compute. reflexivity. }
    rewrite Hn in Hm. simpl in Hm. destruct (moves s) as [|s' l] eqn:E; [done|].
    exists s'. apply moves_step. rewrite E. by left.
Qed.

(** ** Executions by name *)

Fixpoint follow (s : race) (fs : list (race → race)) : race :=
  match fs with [] => s | f :: fs => follow (f s) fs end.

Fixpoint follow_ok (s : race) (fs : list (race → race)) : bool :=
  match fs with [] => true | f :: fs => bool_decide (f s ∈ moves s) && follow_ok (f s) fs end.

Lemma follow_reach s fs : reach s → follow_ok s fs = true → reach (follow s fs).
Proof.
  revert s. induction fs as [|f fs IH]; intros s Hr; simpl; [done|].
  intros [Hm%bool_decide_eq_true Hf]%andb_prop. apply IH; [|done].
  eapply rtc_r; [done|by apply moves_step].
Qed.

Definition both_dropped : list (race → race) :=
  [set_dialer true Offering Open; set_dialer false Offering Open; set_done true true;
   set_dialer true Counting ClosedConn; set_dialer false Counting ClosedConn;
   (λ s, count (set_dialer true Over (conn_of true s) s));
   (λ s, count (set_dialer false Over (conn_of false s) s)); receive None].

Definition ipv4_wins : list (race → race) :=
  [set_dialer true Offering Open; (λ s, receive (Some true) (set_dialer true Counting Open s))].

Theorem race_can_block :
  ∃ s, reach s ∧ conn4 s = ClosedConn ∧ conn6 s = ClosedConn ∧
    ∀ s', rtc step s s' → main s' = WaitErr.
Proof.
  exists (follow init both_dropped). split; [apply follow_reach; [apply rtc_refl|vm_compute; reflexivity]|].
  split; [reflexivity|]. split; [reflexivity|]. intros s' Hs. inversion Hs as [|x y z Hxy]; [done|].
  apply step_moves in Hxy. vm_compute in Hxy. by apply elem_of_nil in Hxy.
Qed.

Lemma race_no_leak_witness :
  ∃ s, main s = GotConn true ∧ conn_of true s = Open.
Proof.
  exists (follow init ipv4_wins). split; [reflexivity|].
  refine (proj1 (race_no_leak (follow init ipv4_wins) _) true eq_refl).
  apply follow_reach; [apply rtc_refl|vm_compute; reflexivity].
Defined.
