(* ===== verification/Socks.v ===== *)
(** * The socks service (service/socks/socks.go).

    Options with their DNS servers and cache, LoadEvent, the worker that
    resolves hosts and keeps the cache, and what an attempt of a connection
    dials; the two dials at once are Race.v.  The caches that [dnsCache]
    points to live in a heap.  Messages, their packing and their exchange
    (the dns library, TLS, HTTP) are choices of the turns of the worker. *)

From S2P Require Import Prelude GoStrings Url Proxy Dial Defaults Jobs Addr Dns.

Open Scope go_scope.
#[local] Arguments bs : simpl never.

(** ** Answers *)

Inductive rdata := RA (a : Addr) | RAAAA (a : Addr) | ROther.

Record RR := MkRR { rr_ttl : option Z; rr_data : rdata }.

(** dnsQueryResult; no deadline is the zero time. *)
Record result := MkResult { IPv4 : list Addr; IPv6 : list Addr; Deadline : option Z }.

Definition no_result : result := MkResult [] [] None.

Definition MaxUint32 : Z := 2 ^ 32 - 1.

Fixpoint min_ttl (mn mx m : Z) (rrs : list RR) : Z :=
  match rrs with
  | [] => m
  | rr :: rrs =>
      min_ttl mn mx
        match rr_ttl rr with
        | Some t => let t := clamp_ttl mn mx t in if t <? m then t else m
        | None => m
        end rrs
  end.

Definition ipv4_of (rr : RR) : list Addr :=
  match rr_data rr with RA a => if IsValid a then [a] else [] | _ => [] end.

Definition ipv6_of (rr : RR) : list Addr :=
  match rr_data rr with RAAAA a => if IsValid a then [a] else [] | _ => [] end.

(** What an answer at time [now] adds to a result. *)
Definition absorb (mn mx now : Z) (rrs : list RR) (r : result) : result :=
  let minTTL := min_ttl mn mx MaxUint32 rrs in
  MkResult (IPv4 r ++ (rrs ≫= ipv4_of)) (IPv6 r ++ (rrs ≫= ipv6_of))
    (if minTTL <? MaxUint32 then
       let newDeadline := now + minTTL * second in
       match Deadline r with
       | Some d => Some (if newDeadline <? d then newDeadline else d)
       | None => Some newDeadline
       end
     else Deadline r).

(** ** The service *)

Section socks.
Context {C : Type}.

Record Options := MkOptions {
  o_ListenAddr : gostring;
  o_Proxy : Proxy.Proxy C;
  o_Conn : ConnOptions;
  o_Relay : RelayOptions;
  o_Server : DNServer;
  o_Servers : list DNServer;
  o_QueryType : list gostring;
  o_TTLMin : Z;
  o_TTLMax : Z;
  o_IdleTimeout : Z;
  o_ReadTimeout : Z;
  o_WriteTimeout : Z;
  o_DNSProxy : option (Proxy.Proxy C);
  o_dnsCache : option nat }.

Abbreviation cache := (gmap gostring result) (only parsing).
Abbreviation caches := (list (gmap gostring result)) (only parsing).

Definition zero : Options :=
  MkOptions [] (MkProxy None []) zero_conn zero_relay (MkServer [] [] [] 0 [] []) [] [] 0 0 0 0 0 None None.

Definition with_dns (o : Options) (servers : list DNServer) (types : list gostring) (c : option nat) : Options :=
  MkOptions (o_ListenAddr o) (o_Proxy o) (o_Conn o) (o_Relay o) (o_Server o) servers types
    (o_TTLMin o) (o_TTLMax o) (o_IdleTimeout o) (o_ReadTimeout o) (o_WriteTimeout o) (o_DNSProxy o) c.

(** reflect.DeepEqual on the values; a nil slice is an empty one here. *)
Definition shouldResetDNSCache (x y : Options) : bool :=
  (o_TTLMin x != o_TTLMin y) || (o_TTLMax x != o_TTLMax y) ||
  (o_QueryType x != o_QueryType y) || (o_Servers x != o_Servers y).

(** The part of LoadEvent that follows the listener. *)
Definition load_dns (new old : Options) : J Options caches Options :=
  let servers := all_servers (o_Servers new) (o_Server new) in
  if servers == [] then mret (with_dns new [] (o_QueryType new) (o_dnsCache old))
  else
    let types := normalizeQueryTypes (o_QueryType new) in
    let types := if types == [] then [bs "A"; bs "AAAA"] else types in
    match check_servers servers with
    | None => exit
    | Some servers =>
        let new := with_dns new servers types (o_dnsCache old) in
        if (o_dnsCache new == None) || shouldResetDNSCache old new then
          cs ← get_extra;
          _ ← put_extra (cs ++ [∅]);
          mret (with_dns new servers types (Some (length cs)))
        else mret new
    end.

Definition LoadEvent_ (new : Options) : J Options caches unit :=
  old ← optsOut;
  _ ← check_addr (o_ListenAddr new);
  _ ← (if o_ListenAddr new == o_ListenAddr old then mret tt else stopServer);
  new ← load_dns new old;
  optsIn new.

#[export] Instance socks : Service Options caches := {
  zero_opts := zero;
  init_extra := [];
  ListenAddr := o_ListenAddr;
  watch_down := false;
  on_load _ := LoadEvent_;
  on_loaded := startServer o_ListenAddr;
  on_exit := mret tt }.

Definition Run := Jobs.Run (O := Options) (X := caches).

Lemma load_dns_quiet new old : quiet (load_dns new old).
Proof.
  unfold load_dns. case_match; [auto with jobs|]. destruct (check_servers _); [|auto with jobs].
  case_match; eauto with jobs.
Qed.

Lemma load_dns_addr new old s n s' :
  load_dns new old s = (Val n, s') → o_ListenAddr n = o_ListenAddr new.
Proof.
  unfold load_dns. case_match; [by intros [= <- <-]|]. destruct (check_servers _); [|done].
  case_match; by intros [= <- <-].
Qed.

#[export] Instance socks_laws : ServiceLaws Options caches.
Proof.
  refine (service_laws (λ new _, mret tt) (λ new old _, load_dns new old) _ _ _ _ _ _); job_obligations.
  - apply load_dns_quiet.
  - by eapply load_dns_addr.
Qed.

#[export] Instance socks_keeps : KeepsServer Options caches.
Proof.
  refine (service_keeps (λ new _, mret tt) (λ new old _, load_dns new old) _ _ _ _ _ _); job_obligations.
  - apply load_dns_quiet.
  - by eapply load_dns_addr.
Qed.

(** ** The worker *)

(** The type of the question that a query type asks for ([None]: no question
    is set). *)
Definition question (qtype : gostring) : option Z :=
  if qtype == bs "A" then Some 1 else if qtype == bs "AAAA" then Some 28 else None.

(** One round of the loop over the query types: the query was canceled, or
    an exchange was made, with the options of the moment, the choice of a
    server, and the answer if there was one. *)
Inductive turn :=
  | Cancelled
  | Exchange (latest : Options) (k : nat) (answer : option (list RR)) (now : Z).

Inductive resolution :=
  | Resolved (opts : Options) (conn : option DNServer) (r : result)
  | Pending                                     (* the turns are used up *)
  | Panics.                                     (* rand.IntN(0) *)

(** [conn] is the server of the open connection. *)
Fixpoint resolve (opts : Options) (conn : option DNServer) (qtypes : list gostring) (r : result)
    (ts : list turn) {struct ts} : resolution :=
  match qtypes, ts with
  | [], _ => Resolved opts conn r
  | _, [] => Pending
  | _, Cancelled :: _ => Resolved opts conn r
  | _ :: qtypes', Exchange latest k answer now :: ts =>
      let opts := match conn with None => latest | Some _ => opts end in
      match (match conn with Some server => Some server | None => o_Servers opts !! k end) with
      | None => Panics
      | Some server =>
          match answer with
          | None => resolve opts None qtypes r ts
          | Some rrs =>
              resolve opts (Some server) qtypes' (absorb (o_TTLMin opts) (o_TTLMax opts) now rrs r) ts
          end
      end
  end.

Definition Load (cs : caches) (p : option nat) (domain : gostring) : option result :=
  p ← p; m ← cs !! p; (m : cache) !! domain.

Definition Store (cs : caches) (p : option nat) (domain : gostring) (r : result) : caches :=
  match p with Some p => alter (λ m, <[domain := r]> m) p cs | None => cs end.

(** A cached result that can still be used. *)
Definition fresh (cs : caches) (opts : Options) (domain : gostring) (now : Z) : option result :=
  r ← Load cs (o_dnsCache opts) domain;
  d ← Deadline r;
  if now <? d then Some r else None.

Inductive reply := Replied (conn : option DNServer) (cs : caches) (r : option result) | NoReply | Crashed.

(** A query: from the cache, or resolved and cached. *)
Definition query (opts : Options) (conn : option DNServer) (cs : caches) (domain : gostring) (now : Z)
    (ts : list turn) : reply :=
  match fresh cs opts domain now with
  | Some r => Replied conn cs (Some r)
  | None =>
      match resolve opts conn (o_QueryType opts) no_result ts with
      | Pending => NoReply
      | Panics => Crashed
      | Resolved opts conn r =>
          if (length (IPv4 r) + length (IPv6 r) =? 0)%nat then Replied conn cs None
          else Replied conn (match Deadline r with
                             | Some _ => Store cs (o_dnsCache opts) domain r
                             | None => cs
                             end) (Some r)
      end
  end.

(** ** An attempt of a connection *)

Inductive plan :=
  | DialName                                     (* remoteAddr itself *)
  | DialOne (ips : list Addr) (port : gostring)  (* one of them, at random *)
  | DialBoth (ips4 ips6 : list Addr) (port : gostring)
  | NoAddress
  | Ask (host : gostring)                        (* the worker *)
  | Leave.                                       (* CloseConn *)

Definition plan_of (r : result) (port : gostring) : plan :=
  match IPv4 r, IPv6 r with
  | [], [] => NoAddress
  | ips, [] => DialOne ips port
  | [], ips => DialOne ips port
  | ips4, ips6 => DialBoth ips4 ips6 port
  end.

(** [is_ip]: net.ParseIP accepts the host. *)
Definition getRemote (is_ip : gostring → bool) (c : cell) (cs : caches) (remoteAddr : gostring) (now : Z) : plan :=
  let '(opts, ok) := cell_read zero c in
  if negb ok then Leave
  else if o_Servers opts == [] then DialName
  else
    let '(host, port) := match SplitHostPort remoteAddr with Some hp => hp | None => ([], []) end in
    if is_ip host then DialName
    else match fresh cs opts host now with
         | Some r => plan_of r port
         | None => Ask host
         end.

(** ** Options *)

(** With servers, they are checked, the query types are known, and there is
    a cache. *)
Record dns_ok (n : nat) (o : Options) : Prop := {
  ok_cache p : o_dnsCache o = Some p → (p < n)%nat;
  ok_servers : o_Servers o ≠ [] →
    Forall server_ok (o_Servers o) ∧ o_QueryType o ≠ [] ∧ NoDup (o_QueryType o) ∧
    Forall (λ t, t = bs "A" ∨ t = bs "AAAA") (o_QueryType o) ∧ is_Some (o_dnsCache o) }.

Definition socks_inv (s : job Options caches) : Prop := dns_ok (length (extra s)) (opts s).

Lemma query_types_ok l :
  let types := normalizeQueryTypes l in
  let types := if types == [] then [bs "A"; bs "AAAA"] else types in
  types ≠ [] ∧ NoDup types ∧ Forall (λ t, t = bs "A" ∨ t = bs "AAAA") types.
Proof.
  simpl. destruct (normalizeQueryTypes_correct l) as (_ & Hnd & Hin).
  case_bool_decide as E.
  - split_and!; [done|by apply (bool_decide_unpack _); vm_compute|].
    rewrite !Forall_cons. split_and!; [by left|by right|done].
  - split_and!; [done..|]. apply Forall_forall. intros t Ht. apply Hin in Ht as [Ht _].
    apply elem_of_cons in Ht as [->|Ht]; [by left|]. apply list_elem_of_singleton in Ht as ->. by right.
Qed.

Lemma load_dns_ok new old s n s' :
  dns_ok (length (extra s)) old → load_dns new old s = (Val n, s') →
  dns_ok (length (extra s')) n ∧ (length (extra s) ≤ length (extra s'))%nat.
Proof.
  intros [Hc _]. unfold load_dns. destruct (bool_decide (all_servers _ _ = [])) eqn:El.
  { intros [= <- <-]. split; [|done]. by split. }
  pose proof (query_types_ok (o_QueryType new)) as Ht. simpl in Ht.
  destruct (check_servers _) as [servers|] eqn:Es; [|done].
  destruct (check_servers_ok _ _ Es) as [Hs _]. destruct Ht as (Ht1 & Ht2 & Ht3).
  destruct ((_ == None) || _) eqn:Er.
  - intros [= <- <-]. simpl. rewrite length_app. simpl. split; [|lia]. split; simpl.
    + intros p [= <-]. lia.
    + intros _. by split_and!.
  - intros [= <- <-]. split; [|done]. split; simpl; [done|]. intros _. split_and!; try done.
    apply orb_false_iff in Er as [Er _]. apply bool_decide_eq_false in Er. simpl in Er.
    by destruct (o_dnsCache old).
Qed.

Lemma socks_start_inv : socks_inv start.
Proof. by split. Qed.

Lemma handle_inv listen e s s' :
  socks_inv s → handle listen e s = (Val tt, s') → socks_inv s'.
Proof.
  intros Hs E. destruct e as [o| |]; simpl in E.
  - unfold LoadEvent_ in E. apply bind_inv in E as [(old & s0 & [= <- <-] & E)|[_ [=]]].
    apply bind_inv in E as [([] & s1 & E1 & E)|[[=] _]].
    assert (extra s1 = extra s ∧ opts s1 = opts s) as [X1 O1].
    { unfold check_addr in E1. destruct (SplitHostPort _); [by injection E1 as <-|done]. }
    apply bind_inv in E as [([] & s2 & E2 & E)|[[=] _]].
    assert (extra s2 = extra s) as X2.
    { revert E2. case_bool_decide; [by intros [= <-]|]. unfold stopServer.
      destruct (server s1); intros [= <-]; done. }
    apply bind_inv in E as [(n & s3 & E3 & E)|[[=] _]]. injection E as <-.
    eapply load_dns_ok in E3 as [H3 _]; [|rewrite X2; exact Hs]. exact H3.
  - unfold startServer in E. destruct (server s); [by injection E as <-|].
    destruct (listen _); [|done]. by injection E as <-.
  - by injection E as <-.
Qed.

(** While the job runs its options are fit for the worker. *)
(** C26: while a socks job runs, options with DNS servers have only servers
    that passed the checks, known query types, each once and at least one, and
    a cache that exists. *)
Theorem options_fit ins s :
  Run ins = (Running, s) →
  (∀ p, o_dnsCache (opts s) = Some p → (p < length (extra s))%nat) ∧
  (o_Servers (opts s) ≠ [] →
    Forall server_ok (o_Servers (opts s)) ∧
    o_QueryType (opts s) ≠ [] ∧ NoDup (o_QueryType (opts s)) ∧
    Forall (λ t, t = bs "A" ∨ t = bs "AAAA") (o_QueryType (opts s)) ∧
    is_Some (o_dnsCache (opts s))).
Proof.
  intros HR. destruct (run_inv socks_inv start ins s handle_inv socks_start_inv HR) as [H1 H2]. done.
Qed.

(** ** The cache *)

(** An answer that a result was made of, with the options at hand. *)
Record answer := MkAnswer { a_opts : Options; a_now : Z; a_rrs : list RR }.

Definition a_min (a : answer) : Z := o_TTLMin (a_opts a).
Definition a_max (a : answer) : Z := o_TTLMax (a_opts a).

Definition add_answer (r : result) (a : answer) : result :=
  absorb (a_min a) (a_max a) (a_now a) (a_rrs a) r.

(** The options that the turns have read. *)
Definition options_of (ts : list turn) : list Options :=
  omap (λ t, match t with Exchange o _ _ _ => Some o | Cancelled => None end) ts.

(** An answer of one of the turns, its options among those that the query had
    read by then: with its start [opts], and those of the turns so far. *)
Definition in_turns (opts : Options) (ts : list turn) (a : answer) : Prop :=
  ∃ ts1 latest k ts2, ts = ts1 ++ Exchange latest k (Some (a_rrs a)) (a_now a) :: ts2 ∧
    a_opts a ∈ opts :: options_of ts1 ++ [latest].

Lemma in_turns_cons opts t ts o a :
  in_turns o ts a → o ∈ opts :: options_of [t] → in_turns opts (t :: ts) a.
Proof.
  intros (ts1 & latest & k & ts2 & -> & Ha) Ho. exists (t :: ts1), latest, k, ts2. split; [done|].
  assert (options_of (t :: ts1) = options_of [t] ++ options_of ts1) as -> by (by destruct t). set_solver.
Qed.

Lemma resolve_answers opts conn qtypes r ts opts' conn' r' :
  resolve opts conn qtypes r ts = Resolved opts' conn' r' →
  ∃ l, r' = foldl add_answer r l ∧ Forall (in_turns opts ts) l ∧ (length l ≤ length qtypes)%nat.
Proof.
  revert opts conn qtypes r. induction ts as [|t ts IH]; intros opts conn qtypes r.
  - destruct qtypes; simpl; [|done]. intros [= <- <- <-]. exists []. by split_and!.
  - destruct qtypes as [|q qtypes]; simpl; [intros [= <- <- <-]; exists []; by split_and!|].
    destruct t as [|latest k ans now]; [intros [= <- <- <-]; exists []; split_and!; [done..|simpl; lia]|].
    set (o := match conn with None => latest | Some _ => opts end).
    assert (o ∈ opts :: [latest]) as Ho by (subst o; destruct conn; set_solver).
    destruct (match conn with Some server => Some server | None => o_Servers o !! k end) as [server|]; [|done].
    destruct ans as [rrs|]; intros E; apply IH in E as (l & -> & Hl & Hlen).
    + exists (MkAnswer o now rrs :: l). split_and!; [done| |simpl; lia].
      constructor; [by exists [], latest, k, ts|]. eapply Forall_impl; [exact Hl|]. intros a Ha.
      by eapply in_turns_cons.
    + exists l. split_and!; [done| |done]. eapply Forall_impl; [exact Hl|]. intros a Ha. by eapply in_turns_cons.
Qed.

Lemma min_ttl_le mn mx m rrs : min_ttl mn mx m rrs <= m ∧
  ∀ rr t, rr ∈ rrs → rr_ttl rr = Some t → min_ttl mn mx m rrs <= clamp_ttl mn mx t.
Proof.
  revert m. induction rrs as [|x rrs IH]; intros m; simpl; [split; [lia|by intros ? ? ?%elem_of_nil]|].
  set (m' := match rr_ttl x with Some t => _ | None => m end).
  destruct (IH m') as [H1 H2]. assert (m' <= m) by (subst m'; repeat case_match; lia). split; [lia|].
  intros rr t [->|Hin]%elem_of_cons Ht; [|by eapply H2].
  assert (m' <= clamp_ttl mn mx t).
  { subst m'. rewrite Ht. simpl. destruct (Z.ltb_spec (clamp_ttl mn mx t) m); lia. }
  lia.
Qed.

(** The deadline of a result is not after that of any record in it. *)
Definition within (d : Z) (a : answer) : Prop :=
  ∀ rr t, rr ∈ a_rrs a → rr_ttl rr = Some t → clamp_ttl (a_min a) (a_max a) t < MaxUint32 →
    d <= a_now a + clamp_ttl (a_min a) (a_max a) t * second.

Lemma add_answer_deadline r a d :
  Deadline (add_answer r a) = Some d → within d a ∧ ∀ d', Deadline r = Some d' → d <= d'.
Proof.
  unfold add_answer, absorb, within. simpl.
  destruct (min_ttl_le (a_min a) (a_max a) MaxUint32 (a_rrs a)) as [_ Hm].
  assert (0 < second) by (unfold second, millisecond; lia).
  destruct (Z.ltb_spec (min_ttl (a_min a) (a_max a) MaxUint32 (a_rrs a)) MaxUint32) as [Hlt|Hge].
  - intros Hd. split.
    + intros rr t Hin Ht _. specialize (Hm rr t Hin Ht).
      apply (Z.mul_le_mono_nonneg_r _ _ second) in Hm; [|lia].
      destruct (Deadline r) as [d0|]; injection Hd as <-; [|lia].
      destruct (Z.ltb_spec (a_now a + min_ttl (a_min a) (a_max a) MaxUint32 (a_rrs a) * second) d0); lia.
    + intros d' E. rewrite E in Hd. injection Hd as <-.
      destruct (Z.ltb_spec (a_now a + min_ttl (a_min a) (a_max a) MaxUint32 (a_rrs a) * second) d'); lia.
  - intros Hd. split; [|intros d' E; rewrite E in Hd; injection Hd as <-; lia].
    intros rr t Hin Ht Hlt. specialize (Hm rr t Hin Ht). lia.
Qed.

Lemma answers_deadline l r d :
  Deadline (foldl add_answer r l) = Some d →
  Forall (within d) l ∧ ∀ d', Deadline r = Some d' → d <= d'.
Proof.
  revert r. induction l as [|a l IH]; intros r; simpl; [intros ->; split; [done|]; intros d' [= <-]; lia|].
  intros Hd. destruct (IH _ Hd) as [Hl Hr]. split.
  - constructor; [|done]. destruct (Deadline (add_answer r a)) as [d1|] eqn:E.
    + destruct (add_answer_deadline r a d1 E) as [Hw _]. specialize (Hr d1 eq_refl).
      intros rr t Hin Ht Hlt. specialize (Hw rr t Hin Ht Hlt). lia.
    + intros rr t Hin Ht Hlt. exfalso. unfold add_answer, absorb in E. simpl in E.
      destruct (min_ttl_le (a_min a) (a_max a) MaxUint32 (a_rrs a)) as [_ Hm].
      specialize (Hm rr t Hin Ht).
      destruct (Z.ltb_spec (min_ttl (a_min a) (a_max a) MaxUint32 (a_rrs a)) MaxUint32); [by destruct (Deadline r)|lia].
  - intros d' E. destruct (Deadline (add_answer r a)) as [d1|] eqn:E1.
    + destruct (add_answer_deadline r a d1 E1) as [_ Hle]. specialize (Hle d' E). specialize (Hr d1 eq_refl). lia.
    + exfalso. unfold add_answer, absorb in E1. simpl in E1. rewrite E in E1. by case_match.
Qed.

Lemma answers_addrs l r :
  IPv4 (foldl add_answer r l) = IPv4 r ++ (l ≫= λ a, a_rrs a ≫= ipv4_of) ∧
  IPv6 (foldl add_answer r l) = IPv6 r ++ (l ≫= λ a, a_rrs a ≫= ipv6_of).
Proof.
  revert r. induction l as [|a l IH]; intros r; simpl; [by rewrite !app_nil_r|].
  destruct (IH (add_answer r a)) as [-> ->]. simpl. by rewrite <- !app_assoc.
Qed.

(** Caches made by reloads and filled by queries, which read whatever options
    there were; [h] is the queries, with the options each started with. *)
Inductive cached : list (gostring * Options * list turn) → caches → Prop :=
  | cached_none : cached [] []
  | cached_new h cs : cached h cs → cached h (cs ++ [∅])
  | cached_query h cs opts conn domain now ts conn' cs' r :
      cached h cs → query opts conn cs domain now ts = Replied conn' cs' r →
      cached ((domain, opts, ts) :: h) cs'.

Definition made_of (h : list (gostring * Options * list turn)) (domain : gostring) (a : answer) : Prop :=
  ∃ opts ts, (domain, opts, ts) ∈ h ∧ in_turns opts ts a.

Lemma made_of_cons q h domain a : made_of h domain a → made_of (q :: h) domain a.
Proof. intros (o & ts & Hin & Ha). exists o, ts. split; [by right|done]. Qed.

Lemma cached_entry h cs p m domain r :
  cached h cs → cs !! p = Some m → (m : cache) !! domain = Some r →
  ∃ l, r = foldl add_answer no_result l ∧ Forall (made_of h domain) l.
Proof.
  intros Hc. revert p m domain r. induction Hc as [|h cs Hc IH|h cs opts conn dom now ts conn' cs' r0 Hc IH E];
    intros p m domain r Hp Hm; [done| |].
  - apply lookup_snoc_Some in Hp as [[_ Hp]|[_ <-]]; [by eapply IH|by rewrite lookup_empty in Hm].
  - assert (∀ m, cs !! p = Some m → m !! domain = Some r →
      ∃ l, r = foldl add_answer no_result l ∧ Forall (made_of ((dom, opts, ts) :: h) domain) l) as Hold.
    { intros m0 H1 H2. destruct (IH _ _ _ _ H1 H2) as (l & -> & Hl). exists l. split; [done|].
      eapply Forall_impl; [exact Hl|]. intros a. apply made_of_cons. }
    unfold query in E. destruct (fresh cs opts dom now); [injection E as <- <- <-; by eapply Hold|].
    destruct (resolve opts conn _ no_result ts) as [o c r1| |] eqn:Er; [|done..].
    destruct (_ =? 0)%nat; [injection E as <- <- <-; by eapply Hold|].
    destruct (Deadline r1); [|injection E as <- <- <-; by eapply Hold]. injection E as <- <- <-.
    unfold Store in Hp. destruct (o_dnsCache o) as [q|]; [|by eapply Hold].
    destruct (decide (p = q)) as [->|Hne]; [|rewrite list_lookup_alter_ne in Hp by done; by eapply Hold].
    rewrite list_lookup_alter_eq in Hp. apply fmap_Some in Hp as (m0 & Hm0 & ->).
    apply lookup_insert_Some in Hm as [[<- <-]|[Hne Hm]]; [|by eapply Hold].
    destruct (resolve_answers _ _ _ _ _ _ _ _ Er) as (l & -> & Hl & _). exists l. split; [done|].
    eapply Forall_impl; [exact Hl|]. intros a Ha. exists opts, ts. split; [by left|done].
Qed.

(** C27: after any reloads and queries, a cached result that is used for a
    host was built from answers to queries for that host, and its addresses
    are theirs, in order; and no record of those answers has outlived its TTL
    as TTL.Min and TTL.Max bound it, those of options that the query had read
    when the answer came: the ones it started with, or the ones of a round so
    far. (A TTL of 2^32 - 1 seconds counts as none.) *)
Theorem cache_fresh h cs opts domain now r :
  cached h cs → fresh cs opts domain now = Some r →
  ∃ l, r = foldl add_answer no_result l ∧
    IPv4 r = l ≫= (λ a, a_rrs a ≫= ipv4_of) ∧ IPv6 r = l ≫= (λ a, a_rrs a ≫= ipv6_of) ∧
    ∀ a, a ∈ l →
      (∃ o ts, (domain, o, ts) ∈ h ∧
         ∃ ts1 latest k ts2, ts = ts1 ++ Exchange latest k (Some (a_rrs a)) (a_now a) :: ts2 ∧
           a_opts a ∈ o :: options_of ts1 ++ [latest]) ∧
      ∀ rr t, rr ∈ a_rrs a → rr_ttl rr = Some t →
        let ttl := clamp_ttl (o_TTLMin (a_opts a)) (o_TTLMax (a_opts a)) t in
        ttl < MaxUint32 → now < a_now a + ttl * second.
Proof.
  intros Hc Hf. unfold fresh in Hf. destruct (Load cs (o_dnsCache opts) domain) as [r0|] eqn:El; [|done].
  simpl in Hf. destruct (Deadline r0) as [d|] eqn:Ed; [|done]. simpl in Hf.
  destruct (Z.ltb_spec now d) as [Hlt|]; [|done]. injection Hf as <-.
  unfold Load in El. destruct (o_dnsCache opts) as [p|]; [|done]. simpl in El.
  destruct (cs !! p) as [m|] eqn:Ep; [|done]. simpl in El.
  destruct (cached_entry h cs p m domain r0 Hc Ep El) as (l & -> & Hl).
  exists l. destruct (answers_addrs l no_result) as [-> ->].
  destruct (answers_deadline l no_result d Ed) as [Hw _]. split_and!; [done..|].
  intros a Ha. rewrite Forall_forall in Hw. rewrite Forall_forall in Hl.
  split; [exact (Hl a Ha)|]. intros rr t Hrr Ht ttl Hmax.
  specialize (Hw a Ha rr t Hrr Ht Hmax). unfold a_min, a_max in Hw. fold ttl in Hw. lia.
Qed.

(** What an attempt dials are addresses of that result. *)
Lemma plan_addresses r port :
  match plan_of r port with
  | DialOne ips _ => ips = IPv4 r ∧ IPv6 r = [] ∨ ips = IPv6 r ∧ IPv4 r = []
  | DialBoth ips4 ips6 _ => ips4 = IPv4 r ∧ ips6 = IPv6 r ∧ ips4 ≠ [] ∧ ips6 ≠ []
  | NoAddress => IPv4 r = [] ∧ IPv6 r = []
  | _ => False
  end.
Proof. unfold plan_of. destruct (IPv4 r) eqn:E4, (IPv6 r) eqn:E6; auto; by split_and!. Qed.
End socks.

(** Each query type of fit options has its question. *)
Lemma question_some t : t = bs "A" ∨ t = bs "AAAA" → is_Some (question t).
Proof. intros [->| ->]; vm_compute; eauto. Qed.

(** ** At work *)

Definition server (name : gostring) : DNServer := MkServer name [] [] 0 [] [].

Definition socks_options (servers : list DNServer) : Options (C := unit) :=
  MkOptions (bs ":1080") (MkProxy None []) zero_conn zero_relay (MkServer [] [] [] 0 [] []) servers [] 0 0 0 0 0
    None None.

Definition anywhere (_ : gostring) : bool := true.

Definition loads (l : list (list DNServer)) : job (Options (C := unit)) (list (gmap gostring result)) :=
  (Run ((λ servers, Ev anywhere (LoadEvent (socks_options servers))) <$> l)).2.

Definition host : gostring := bs "example.org".

Definition an_answer : list RR := [MkRR (Some 300) (RA (Addr4 16909060)); MkRR (Some 60) ROther].

Definition two_answers : list (turn (C := unit)) :=
  [Exchange (opts (loads [[server (bs "ns1")]])) 0 (Some an_answer) 0;
   Exchange (opts (loads [[server (bs "ns1")]])) 0 (Some []) second].

Definition caches_of (r : reply) : list (gmap gostring result) :=
  match r with Replied _ cs _ => cs | _ => [] end.

Lemma options_fit_witness :
  o_QueryType (opts (loads [[server (bs "ns1")]])) ≠ [].
Proof.
  refine (proj1 (proj2 (proj2 (options_fit [Ev anywhere (LoadEvent (socks_options [server (bs "ns1")]))] _ _) _)));
    [reflexivity|discriminate].
Defined.

Definition with_servers : Options (C := unit) := opts (loads [[server (bs "ns1")]]).
Definition some_caches : list (gmap gostring result) :=
  caches_of (query with_servers None [∅] host 0 two_answers).

Definition the_result : result := MkResult [Addr4 16909060] [] (Some (second * 60)).

Lemma the_result_fresh : fresh some_caches with_servers host (second * 59) = Some the_result.
Proof. vm_compute. reflexivity. Qed.

Lemma some_caches_made : cached [(host, with_servers, two_answers)] some_caches.
Proof.
  apply (cached_query [] [∅] with_servers None host 0 two_answers (Some (server (bs "ns1"))) some_caches
    (Some the_result)); [exact (cached_new _ _ cached_none)|]. vm_compute. reflexivity.
Qed.

Lemma cache_fresh_witness :
  fresh some_caches with_servers host (second * 60) = None ∧
  ∃ l : list (answer (C := unit)), the_result = foldl add_answer no_result l ∧
    [Addr4 16909060] = l ≫= (λ a, a_rrs a ≫= ipv4_of).
Proof.
  split; [vm_compute; reflexivity|].
  destruct (cache_fresh _ some_caches with_servers host (second * 59) the_result some_caches_made
    the_result_fresh) as (l & H1 & H2 & _).
  exists l. split; [exact H1|exact H2].
Defined.

(** A query that waits for a connection while a reload takes the servers away
    makes the worker draw from an empty list. *)
Theorem worker_can_crash :
  ∃ ins1 ins2 s1 s2,
    Run (C := unit) ins1 = (Running, s1) ∧ Run (ins1 ++ ins2) = (Running, s2) ∧
    getRemote (λ _, false) (Some (opts s1)) (extra s1) (JoinHostPort host (bs "80")) 0 = Ask host ∧
    ∀ k answer now ts,
      query (opts s1) None (extra s1) host 0 (Exchange (opts s2) k answer now :: ts) = Crashed.
Proof.
  exists [Ev anywhere (LoadEvent (socks_options [server (bs "ns1")])); Ev anywhere LoadedEvent],
    [Ev anywhere (LoadEvent (socks_options []))].
  eexists. eexists. split; [vm_compute; reflexivity|]. split; [vm_compute; reflexivity|].
  split; [vm_compute; reflexivity|]. intros k answer now ts. reflexivity.
Qed.

(** After a reload with other servers, which has a new cache, a connection
    that is still open answers from the old server, into the new cache. *)
Lemma old_server_new_cache :
  let new := opts (loads [[server (bs "ns1")]; [server (bs "ns2")]]) in
  o_dnsCache new = Some 1%nat ∧ s_Name <$> o_Servers new = [bs "ns2"] ∧
  match query new (Some (server (bs "ns1"))) [∅; ∅] host 0
          [Exchange new 0 (Some an_answer) 0; Exchange new 0 (Some []) 0] with
  | Replied (Some s) cs (Some _) => s_Name s = bs "ns1" ∧ is_Some (Load cs (Some 1%nat) host)
  | _ => False
  end.
Proof. vm_compute. split_and!; try reflexivity. eexists. reflexivity. Qed.

(** A query that is canceled after the first of two answers leaves half a
    result in the cache. *)
Lemma partial_result_cached :
  match query with_servers None [∅] host 0 [Exchange with_servers 0 (Some an_answer) 0; Cancelled] with
  | Replied _ cs (Some r) => o_QueryType with_servers = [bs "A"; bs "AAAA"] ∧ IPv6 r = [] ∧
      fresh cs with_servers host second = Some r
  | _ => False
  end.
Proof. vm_compute. split_and!; reflexivity. Qed.
