(* ===== verification/DnsList.v ===== *)
(** * Allow lists of domains (service/tcptun/dnstun/dnstun.go, allowList).

    The lines, the files and the checksums are those of AllowList.v, in the
    same words; a rule is a pattern without ports, and addresses are ignored. *)

From S2P Require Import Prelude GoStrings Url Utf8 Charset MatchSet Glob MatchProof Proxy AllowList AllowSpec.

(** ** The parser *)

(** The pattern of a line without its exclamation mark; [None]: the line is
    ignored. *)
Definition domain_pattern (line : gostring) : option gostring :=
  if ContainsByte line 47 then None
  else
    let portSuffix := port_suffix line in
    let pattern := take (length line - length portSuffix) line in
    if HasPrefix pattern [91] && HasSuffix pattern [93]
    then Some (drop 1 (take (length pattern - 1) pattern))
    else if negb (bool_decide (portSuffix = [])) && ContainsByte pattern 58 then None
    else Some pattern.

Record domains := MkDomains { includes : gset gostring; excludes : gset gostring }.

Definition no_domains : domains := MkDomains ∅ ∅.

Definition dns_rule (p : domains) (line : gostring) : result domains :=
  let exclude := HasPrefix line [33] in
  let line := if exclude then drop 1 line else line in
  match domain_pattern line with
  | None => Ok p
  | Some pattern =>
      Ok (if exclude then MkDomains (includes p) ({[pattern]} ∪ excludes p)
          else MkDomains ({[pattern]} ∪ includes p) (excludes p))
  end.

Section files.
Context (fsys : gostring → option gostring).

Definition dns_parseFile : nat → gostring → domains → result domains := read_file fsys dns_rule.
Definition dns_parseLine (fuel : nat) (name line : gostring) (p : domains) : result domains :=
  read_line dns_rule (dns_parseFile fuel) name line p.

Definition dns_parse (fuel : nat) (What : gostring) : result domains :=
  read_lines dns_rule (dns_parseFile fuel) [46] (scan What) no_domains.
End files.

(** The lines of a list and its checksum are read by the same functions. *)
Definition dns_scanLines : gostring → nat * option gostring := scanLines.
Definition dns_checksumLine := checksumLine.
Definition dns_checksumFile := checksumFile.
Definition dns_checksum := checksum.

(** ** Lists at work *)

Record domainList := MkDomainList { inc_patterns : MatchSet unit; exc_patterns : MatchSet unit }.

(** [for pattern := range patterns { set.Add(pattern, ...) }], in some order. *)
Definition compile_domains (order : list gostring) : option (MatchSet unit) :=
  add_all empty_set ((λ pattern, (pattern, tt)) <$> order).

Definition dns_Init (inc exc : list gostring) : option domainList :=
  i ← compile_domains inc;
  e ← compile_domains exc;
  Some (MkDomainList i e).

Definition dns_Allow (l : domainList) (domain : gostring) : bool :=
  negb (bool_decide (length (MatchAll (inc_patterns l) domain) = O)) &&
  bool_decide (length (MatchAll (exc_patterns l) domain) = O).

(** ** What a list allows *)

Definition domains_usable (order : list gostring) (domain : gostring) : Prop :=
  Forall (λ p, plain p = true) order ∧ Z.of_nat (total_length ((λ p, (p, tt)) <$> order)) <= 55040 ∧
  Forall byte_ok domain ∧ Forall (λ p, clear_of (tokens p) domain = true) order.

Lemma domains_match order set domain :
  compile_domains order = Some set → domains_usable order domain →
  length (MatchAll set domain) ≠ O ↔ ∃ p, p ∈ order ∧ pattern_spec (tokens p) domain = true.
Proof.
  intros Hc (H1 & H2 & H3 & H4).
  pose proof (MatchAll_delivers ((λ p, (p, tt)) <$> order) domain) as H.
  unfold compile_domains in Hc. rewrite Hc in H.
  destruct H as (_ & ks & Hks & Hm); [by apply Forall_fmap|done|done|by apply Forall_fmap|].
  assert (tt ∈ MatchAll set domain ↔ ∃ p, p ∈ order ∧ pattern_spec (tokens p) domain = true) as Hin.
  { rewrite Hm, (elem_delivered domain _ ks tt Hks). split.
    - intros (p & Hp & Hs). apply list_elem_of_fmap in Hp as (q & [= ->] & Hq). eauto.
    - intros (p & Hp & Hs). exists p. split; [|done]. apply list_elem_of_fmap. eauto. }
  rewrite <- Hin. destruct (MatchAll set domain) as [|[] l]; simpl.
  - split; [done|]. by intros ?%elem_of_nil.
  - split; [|done]. intros _. left.
Qed.

Lemma dns_Allow_iff inc exc l domain :
  dns_Init inc exc = Some l → domains_usable inc domain → domains_usable exc domain →
  dns_Allow l domain = true ↔
  (∃ p, p ∈ inc ∧ pattern_spec (tokens p) domain = true) ∧
  ¬ ∃ p, p ∈ exc ∧ pattern_spec (tokens p) domain = true.
Proof.
  unfold dns_Init. destruct (compile_domains inc) as [i|] eqn:Ei; [|done].
  destruct (compile_domains exc) as [e|] eqn:Ee; [|done]. intros [= <-] Ui Ue.
  unfold dns_Allow. cbn [inc_patterns exc_patterns].
  rewrite andb_true_iff, negb_true_iff, bool_decide_eq_false, bool_decide_eq_true.
  rewrite (domains_match inc i domain Ei Ui). rewrite <- (domains_match exc e domain Ee Ue).
  split; (intros [H1 H2]; split; [done|]).
  - intros H3. by apply H3.
  - destruct (decide (length (MatchAll e domain) = O)) as [|Hne]; [done|]. by destruct (H2 Hne).
Qed.

(** The patterns that lines include and exclude. *)
Definition line_domains (exclude : bool) (lines : list gostring) : list gostring :=
  omap (λ line, if eqb (HasPrefix line [33]) exclude
                then domain_pattern (if exclude then drop 1 line else line) else None) lines.

Lemma dns_fold lines p p' :
  fold_rule dns_rule lines p = Ok p' →
  ∀ d, (d ∈ includes p' ↔ d ∈ includes p ∨ d ∈ line_domains false lines) ∧
       (d ∈ excludes p' ↔ d ∈ excludes p ∨ d ∈ line_domains true lines).
Proof.
  revert p. induction lines as [|line lines IH]; intros p; cbn [fold_rule].
  { intros [= <-] d. unfold line_domains. simpl. rewrite !elem_of_nil. split; tauto. }
  unfold dns_rule at 1. intros Hf d. unfold line_domains. cbn [omap list_omap].
  fold (line_domains false lines) (line_domains true lines).
  destruct (HasPrefix line [33]); simpl;
    (destruct (domain_pattern _) as [pat|]; [|by apply IH]);
    destruct (IH _ Hf d) as [-> ->]; simpl; rewrite elem_of_cons, elem_of_union, elem_of_singleton; tauto.
Qed.

(** A list allows a domain exactly when a pattern of its lines, or of the
    files it includes, that is not marked with "!" matches it, and none that
    is marked does. *)
Theorem dns_Allow_correct fsys fuel What p inc exc l domain :
  dns_parse fsys fuel What = Ok p →
  inc ≡ₚ elements (includes p) → exc ≡ₚ elements (excludes p) →
  dns_Init inc exc = Some l → domains_usable inc domain → domains_usable exc domain →
  ∃ lines, expand fsys fuel (bs ".") (scan What) [] = Ok lines ∧
    (dns_Allow l domain = true ↔
     (∃ pat, pat ∈ line_domains false lines ∧ pattern_spec (tokens pat) domain = true) ∧
     ¬ ∃ pat, pat ∈ line_domains true lines ∧ pattern_spec (tokens pat) domain = true).
Proof.
  intros Hp Hi He Hl Ui Ue. unfold dns_parse, dns_parseFile in Hp.
  pose proof (read_expand fsys dns_rule fuel (bs ".") (scan What) no_domains) as R.
  change [46] with (bs ".") in Hp.
  destruct (expand fsys fuel (bs ".") (scan What) []) as [lines| |]; [|by destruct (R p)..].
  exists lines. split; [done|]. rewrite Hp in R. symmetry in R. pose proof (dns_fold _ _ _ R) as Hd.
  rewrite (dns_Allow_iff inc exc l domain Hl Ui Ue).
  assert (∀ d, d ∈ inc ↔ d ∈ line_domains false lines) as Di.
  { intros d. rewrite Hi, elem_of_elements. destruct (Hd d) as [-> _]. simpl. set_solver. }
  assert (∀ d, d ∈ exc ↔ d ∈ line_domains true lines) as De.
  { intros d. rewrite He, elem_of_elements. destruct (Hd d) as [_ ->]. simpl. set_solver. }
  by setoid_rewrite Di; setoid_rewrite De.
Qed.

Lemma dns_rule_ok p line : dns_rule p line ≠ NoFuel.
Proof. unfold dns_rule. by destruct (domain_pattern _). Qed.

(** Reading ends when includes do not form a cycle. *)
Lemma dns_parse_terminates fsys rank fuel What :
  well_founded_includes fsys rank →
  (∀ line, line ∈ scan What → HasPrefix line [64] = true →
     (rank (include_path (bs ".") line) < fuel)%nat) →
  dns_parse fsys fuel What ≠ NoFuel.
Proof.
  intros Hr Hf. apply read_lines_fuel; [apply dns_rule_ok|]. intros line a Hin Hp.
  eapply read_file_fuel; [apply dns_rule_ok|done|by apply Hf].
Qed.

(** Equal checksums mean equal lists, but for a collision. *)
Lemma dns_checksum_parse fs1 fs2 sha1 n1 n2 what1 what2 c :
  dns_checksum fs1 sha1 n1 what1 = Ok c → dns_checksum fs2 sha1 n2 what2 = Ok c →
  dns_parse fs1 n1 what1 = dns_parse fs2 n2 what2 ∨ ∃ s t, s ≠ t ∧ sha1 s = sha1 t.
Proof.
  intros (ls1 & E1 & -> & H1)%checksum_expand (ls2 & E2 & Hc & H2)%checksum_expand.
  destruct (decide (hashed ls1 = hashed ls2)) as [Eh|]; [|by right; eauto].
  apply hashed_inj in Eh as ->; [|done..]. left. unfold dns_parse, dns_parseFile.
  pose proof (read_expand fs1 dns_rule n1 [46] (scan what1) no_domains) as R1.
  pose proof (read_expand fs2 dns_rule n2 [46] (scan what2) no_domains) as R2.
  rewrite E1 in R1. rewrite E2 in R2. by rewrite R1, R2.
Qed.

(** ** A list *)

Definition dns_what : gostring :=
  bs "@lists/a.txt" ++ [10] ++ bs "10.0.0.0/8" ++ [10] ++ bs "example.org:80".

Definition dns_domains : domains :=
  match dns_parse ex_fs 2 dns_what with Ok p => p | _ => no_domains end.

Lemma dns_Allow_correct_witness :
  match dns_Init (elements (includes dns_domains)) (elements (excludes dns_domains)) with
  | None => False
  | Some l => dns_Allow l (bs "www.example.com") = true
  end.
Proof.
  destruct (dns_Init _ _) as [l|] eqn:E; [|vm_compute in E; discriminate].
  destruct (dns_Allow_correct ex_fs 2 dns_what dns_domains (elements (includes dns_domains))
    (elements (excludes dns_domains)) l (bs "www.example.com")) as (lines & El & ->);
    [vm_compute; reflexivity|done|done|exact E|by_compute|by_compute|].
  assert (lines = [bs ".com:443"; bs "!*.uk"; bs "10.0.0.0/8"; bs "example.org:80"]) as ->.
  { vm_compute in El. by injection El as <-. }
  split.
  - exists (bs ".com"). split; [vm_compute; left|vm_compute; reflexivity].
  - intros (pat & Hp & Hs). vm_compute in Hp. apply list_elem_of_singleton in Hp as ->. vm_compute in Hs.
    discriminate Hs.
Defined.
