(* ===== verification/DnsAnswers.v ===== *)
(** * Answers of dnstun (service/tcptun/dnstun/dnstun.go).

    How an exchange turns the message of a server into a result, and how a
    connection turns a result, new or cached, into the message it writes.
    Packing and unpacking are of the library.  Of a message the model has its
    ID, its question, the records of its answer section and the others that
    RRs goes over; times are nanoseconds. *)

From S2P Require Import Prelude GoStrings Addr Defaults Dns.

Open Scope go_scope.

Inductive rdata := RA (a : Addr) | RAAAA (a : Addr) | ROther.

Record header := MkHeader { h_Name : gostring; h_TTL : Z }.

(** The header may be missing. *)
Record RR := MkRR { rr_header : option header; rr_data : rdata }.

Record Msg := MkMsg {
  m_ID : Z;
  m_Question : list (gostring * Z);
  m_Answer : list RR;
  m_others : list RR }.

Definition RRs (m : Msg) : list RR := m_Answer m ++ m_others m.

(** [Deadline]: [None]: never, the zero time. *)
Record result := MkResult {
  Message : Msg;
  IPList : list Addr;
  Time : Z;
  Deadline : option Z }.

Definition MaxUint32 : Z := 2 ^ 32 - 1.

(** The options that a result depends on. *)
Record settings := MkSettings { st_IPv4Only : bool; st_Min : Z; st_Max : Z }.

(** ** The message of a server *)

Section build.
Context (o : settings) (z fqdn : gostring).

(** One round of the loop over the records: the record as it is left. *)
Definition rewrite_rr (rr : RR) : RR :=
  match rr_header rr with
  | None => rr
  | Some h =>
      let name := if h_Name h == z then fqdn else h_Name h in
      MkRR (Some (MkHeader name (clamp_ttl (st_Min o) (st_Max o) (h_TTL h)))) (rr_data rr)
  end.

Definition min_ttl (m : Z) (rr : RR) : Z :=
  match rr_header rr with Some h => if h_TTL h <? m then h_TTL h else m | None => m end.

Definition add_ip (l : list Addr) (rr : RR) : list Addr :=
  match rr_data rr with
  | RA a => if IsValid a then l ++ [a] else l
  | RAAAA a => if st_IPv4Only o then l else if IsValid a then l ++ [a] else l
  | ROther => l
  end.

Definition is_AAAA (rr : RR) : bool := match rr_data rr with RAAAA _ => true | _ => false end.

Record scan := MkScan { minTTL : Z; ips : list Addr; excludeIPv6 : bool }.

(** The loop: the records change in place. *)
Fixpoint scan_rrs (rrs : list RR) (s : scan) : list RR * scan :=
  match rrs with
  | [] => ([], s)
  | rr :: rrs =>
      let rr := rewrite_rr rr in
      let s := MkScan (min_ttl (minTTL s) rr) (add_ip (ips s) rr)
                 (excludeIPv6 s || st_IPv4Only o && is_AAAA rr) in
      let '(rrs, s) := scan_rrs rrs s in
      (rr :: rrs, s)
  end.

Definition build_result (question : list (gostring * Z)) (m : Msg) (now : Z) : result :=
  let q := if z != fqdn then question else m_Question m in
  let '(answer, s) := scan_rrs (m_Answer m) (MkScan MaxUint32 [] false) in
  let '(others, s) := scan_rrs (m_others m) s in
  let answer := if excludeIPv6 s then List.filter (λ rr, negb (is_AAAA rr)) answer else answer in
  MkResult (MkMsg (m_ID m) q answer others) (ips s) now
    (if minTTL s <? MaxUint32 then Some (now + minTTL s * second) else None).
End build.

(** What is asked: the name, or what it is redirected to. *)
Definition asked (Fqdn : gostring → gostring) (redirects : gmap gostring gostring) (fqdn : gostring) : gostring :=
  match default [] (redirects !! TrimSuffix fqdn (bs ".")) with [] => fqdn | v => Fqdn v end.

(** ** The message that is written *)

(** [r.Deadline.After(time.Now())] *)
Definition fresh (r : result) (now : Z) : bool :=
  match Deadline r with Some d => now <? d | None => false end.

Definition age (n : Z) (rr : RR) : RR :=
  match rr_header rr with
  | Some h =>
      if h_TTL h != 0
      then MkRR (Some (MkHeader (h_Name h) (if n <? h_TTL h then h_TTL h - n else 0))) (rr_data rr)
      else rr
  | None => rr
  end.

(** The message of a result, for a query with this ID. *)
Definition reply (ID now : Z) (r : result) : Msg :=
  let m := Message r in
  let n := u32 ((now - Time r) / second) in
  if 0 <? n then MkMsg ID (m_Question m) (age n <$> m_Answer m) (age n <$> m_others m)
  else MkMsg ID (m_Question m) (m_Answer m) (m_others m).

(** What a connection answers without asking: for AAAA an empty reply, or a
    result of the cache. *)
Definition ready (SetReply : Msg → Msg) (only4 : bool) (cache : option (gmap (gostring * Z) result))
    (query : Msg) (fqdn : gostring) (qtype : Z) (zero_time now : Z) : option result :=
  if only4 && (qtype == 28) then Some (MkResult (SetReply query) [] zero_time None)
  else
    c ← cache;
    r ← c !! (fqdn, qtype);
    if fresh r now then Some r else None.

(** ** Facts *)

Lemma is_AAAA_rewrite o z fqdn rr : is_AAAA (rewrite_rr o z fqdn rr) = is_AAAA rr.
Proof. unfold is_AAAA, rewrite_rr. by destruct (rr_header rr). Qed.

Lemma scan_rrs_spec o z fqdn rrs s :
  (scan_rrs o z fqdn rrs s).1 = rewrite_rr o z fqdn <$> rrs ∧
  minTTL (scan_rrs o z fqdn rrs s).2 = foldl min_ttl (minTTL s) (rewrite_rr o z fqdn <$> rrs) ∧
  ips (scan_rrs o z fqdn rrs s).2 = foldl (add_ip o) (ips s) rrs ∧
  excludeIPv6 (scan_rrs o z fqdn rrs s).2 = excludeIPv6 s || st_IPv4Only o && existsb is_AAAA rrs.
Proof.
  assert (∀ l rr, add_ip o l (rewrite_rr o z fqdn rr) = add_ip o l rr) as Ha.
  { intros l rr. unfold add_ip, rewrite_rr. by destruct (rr_header rr). }
  revert s. induction rrs as [|rr rrs IH]; intros s; simpl.
  { rewrite andb_false_r, orb_false_r. done. }
  specialize (IH (MkScan (min_ttl (minTTL s) (rewrite_rr o z fqdn rr)) (add_ip o (ips s) (rewrite_rr o z fqdn rr))
    (excludeIPv6 s || st_IPv4Only o && is_AAAA (rewrite_rr o z fqdn rr)))).
  destruct (scan_rrs _ _ _ _ _) as [rrs' s']. simpl in *. destruct IH as (-> & -> & -> & ->).
  rewrite Ha, is_AAAA_rewrite. split_and!; [done..|]. by rewrite andb_orb_distrib_r, orb_assoc.
Qed.

Lemma min_ttl_spec l m :
  foldl min_ttl m l <= m ∧
  Forall (λ rr, ∀ h, rr_header rr = Some h → foldl min_ttl m l <= h_TTL h) l.
Proof.
  revert m. induction l as [|rr l IH]; intros m; simpl; [split; [lia|done]|].
  destruct (IH (min_ttl m rr)) as [H1 H2].
  assert (min_ttl m rr <= m) as Hm by (unfold min_ttl; destruct (rr_header rr) as [h|]; [case_match|]; lia).
  split; [lia|]. constructor; [|done]. intros h Hh.
  assert (min_ttl m rr <= h_TTL h) by (unfold min_ttl; rewrite Hh; case_match; lia). lia.
Qed.

(** The two loops together. *)
Lemma build_result_eq o z fqdn question m now :
  let rrs := rewrite_rr o z fqdn <$> RRs m in
  let answer := rewrite_rr o z fqdn <$> m_Answer m in
  build_result o z fqdn question m now =
  MkResult
    (MkMsg (m_ID m) (if z != fqdn then question else m_Question m)
       (if st_IPv4Only o && existsb is_AAAA (RRs m) then List.filter (λ rr, negb (is_AAAA rr)) answer else answer)
       (rewrite_rr o z fqdn <$> m_others m))
    (foldl (add_ip o) [] (RRs m)) now
    (if foldl min_ttl MaxUint32 rrs <? MaxUint32 then Some (now + foldl min_ttl MaxUint32 rrs * second) else None).
Proof.
  cbv zeta. unfold build_result, RRs.
  destruct (scan_rrs_spec o z fqdn (m_Answer m) (MkScan MaxUint32 [] false)) as (Ea & Em & Ei & Ex).
  destruct (scan_rrs o z fqdn (m_Answer m) _) as [answer s].
  destruct (scan_rrs_spec o z fqdn (m_others m) s) as (Ea' & Em' & Ei' & Ex').
  destruct (scan_rrs o z fqdn (m_others m) s) as [others s']. simpl in *. subst answer others.
  rewrite Em', Em, Ei', Ei, Ex', Ex, fmap_app, !foldl_app, existsb_app, andb_orb_distrib_r. done.
Qed.

Lemma filter_in (f : RR → bool) l rr : rr ∈ List.filter f l ↔ rr ∈ l ∧ f rr = true.
Proof. by rewrite !list_elem_of_In, filter_In. Qed.

(** What the records of a result come from. *)
Lemma build_result_rrs o z fqdn question m now rr :
  rr ∈ RRs (Message (build_result o z fqdn question m now)) →
  ∃ rr0, rr0 ∈ RRs m ∧ rr = rewrite_rr o z fqdn rr0.
Proof.
  rewrite build_result_eq. unfold RRs at 1. simpl. intros Hrr.
  assert (rr ∈ rewrite_rr o z fqdn <$> RRs m) as Hin.
  { unfold RRs. rewrite fmap_app. apply elem_of_app in Hrr as [H|H]; apply elem_of_app; [left|by right].
    destruct (_ && _); [|done]. by apply filter_in in H as [H _]. }
  apply list_elem_of_fmap in Hin as (rr0 & -> & Hin). by exists rr0.
Qed.

(** The deadline comes before the end of every record. *)
Lemma build_result_deadline o z fqdn question m now d rr h :
  Deadline (build_result o z fqdn question m now) = Some d →
  rr ∈ RRs (Message (build_result o z fqdn question m now)) → rr_header rr = Some h →
  d <= now + h_TTL h * second.
Proof.
  intros Hd Hrr Hh. apply build_result_rrs in Hrr as (rr0 & Hin & ->).
  rewrite build_result_eq in Hd. simpl in Hd.
  destruct (min_ttl_spec (rewrite_rr o z fqdn <$> RRs m) MaxUint32) as [_ Hm]. rewrite Forall_forall in Hm.
  specialize (Hm _ (list_elem_of_fmap_2 _ _ _ Hin) _ Hh).
  destruct (_ <? _) in Hd; [|done]. injection Hd as <-. unfold second, millisecond. lia.
Qed.

(** A record as it is written at [now], of a result made at [made]: its TTL
    less the seconds that have passed, 0 when they are more. *)
Definition aged (made now : Z) (rr rr' : RR) : Prop :=
  rr_data rr' = rr_data rr ∧
  match rr_header rr with
  | None => rr_header rr' = None
  | Some h => ∃ h', rr_header rr' = Some h' ∧ h_Name h' = h_Name h ∧
      h_TTL h' = Z.max 0 (h_TTL h - (now - made) / second)
  end.

(** A result is written with its records aged: the clock is [uint32], so for
    136 years. *)
Lemma reply_aged ID now r :
  Time r <= now < Time r + 2 ^ 32 * second →
  (∀ rr h, rr ∈ RRs (Message r) → rr_header rr = Some h → 0 <= h_TTL h) →
  Forall2 (aged (Time r) now) (RRs (Message r)) (RRs (reply ID now r)).
Proof.
  intros Ht Hr. assert (0 < second) as Hs by (unfold second, millisecond; lia).
  set (n := (now - Time r) / second).
  assert (n * second <= now - Time r < n * second + second) as Hn by (subst n; zdiv (now - Time r) second; lia).
  assert (0 <= n) as Hn0 by (subst n; apply Z.div_pos; lia).
  assert (u32 n = n) as Hu by (apply Z.mod_small; nia).
  assert (RRs (reply ID now r) = (if 0 <? n then age n else id) <$> RRs (Message r)) as ->.
  { unfold reply, RRs. fold n. rewrite Hu. destruct (0 <? n); simpl; [by rewrite fmap_app|by rewrite list_fmap_id]. }
  apply Forall2_fmap_r, Forall_Forall2_diag, Forall_forall. intros rr Hrr. unfold aged. fold n.
  destruct (rr_header rr) as [h|] eqn:Eh.
  2:{ unfold age. destruct (0 <? n); simpl; by rewrite ?Eh. }
  specialize (Hr _ _ Hrr Eh). destruct (Z.ltb_spec 0 n) as [Hp|Hz].
  - unfold age; simpl. rewrite Eh. destruct (decide (h_TTL h = 0)) as [E0|E0].
    + rewrite (bool_decide_true _ E0). simpl. split; [done|]. exists h. split_and!; [done|done|lia].
    + rewrite (bool_decide_false _ E0). simpl. split; [done|]. eexists. split_and!; [done|done|]. simpl.
      destruct (Z.ltb_spec n (h_TTL h)); lia.
  - simpl. split; [done|]. exists h. split_and!; [done|done|lia].
Qed.

(** As long as a record lives it has a second left. *)
Lemma aged_alive made now rr rr' h h' :
  aged made now rr rr' → rr_header rr = Some h → rr_header rr' = Some h' →
  now < made + h_TTL h * second → 0 < h_TTL h'.
Proof.
  intros [_ Ha] Eh Eh'. rewrite Eh, Eh' in Ha. destruct Ha as (h1 & [= <-] & _ & ->). intros Hlt.
  assert (0 < second) as Hs by (unfold second, millisecond; lia).
  zdiv (now - made) second. nia.
Qed.

Lemma clamp_u32 mn mx ttl : 0 <= ttl < 2 ^ 32 → 0 <= clamp_ttl mn mx ttl < 2 ^ 32.
Proof.
  intros Ht. unfold clamp_ttl. destruct (_ || _); [|done]. cbv zeta. destruct (_ != _); [|done].
  apply Z.mod_pos_bound. lia.
Qed.

Lemma add_ip_in o l rrs a :
  a ∈ foldl (add_ip o) l rrs ↔
  a ∈ l ∨ IsValid a = true ∧
    ∃ rr, rr ∈ rrs ∧ (rr_data rr = RA a ∨ st_IPv4Only o = false ∧ rr_data rr = RAAAA a).
Proof.
  revert l. induction rrs as [|rr rrs IH]; intros l; simpl; [set_solver|]. rewrite IH.
  assert (a ∈ add_ip o l rr ↔ a ∈ l ∨ IsValid a = true ∧
    (rr_data rr = RA a ∨ st_IPv4Only o = false ∧ rr_data rr = RAAAA a)) as ->.
  { unfold add_ip. destruct (rr_data rr) as [b|b|], (st_IPv4Only o); try destruct (IsValid b) eqn:Eb;
      rewrite ?elem_of_app, ?list_elem_of_singleton; try naive_solver;
      (split; [by left|]; intros [?|[? [?|[? ?]]]]; [done|congruence..]). }
  setoid_rewrite elem_of_cons. naive_solver.
Qed.

(** What a result is of: the question of the client when another was asked, no
    record under the name asked instead of its own, the addresses of the
    records, and with IPv4.Only no IPv6 address. *)
Theorem result_fits o z fqdn question m now :
  let r := build_result o z fqdn question m now in
  (z ≠ fqdn → m_Question (Message r) = question) ∧
  (st_IPv4Only o = true → ∀ rr, rr ∈ m_Answer (Message r) → is_AAAA rr = false) ∧
  (∀ rr h, rr ∈ RRs (Message r) → rr_header rr = Some h →
     (z ≠ fqdn → h_Name h ≠ z) ∧
     ∃ rr0 h0, rr0 ∈ RRs m ∧ rr_header rr0 = Some h0 ∧ rr_data rr0 = rr_data rr ∧
       h_TTL h = clamp_ttl (st_Min o) (st_Max o) (h_TTL h0)) ∧
  (∀ a, a ∈ IPList r ↔ IsValid a = true ∧
     ∃ rr, rr ∈ RRs m ∧ (rr_data rr = RA a ∨ st_IPv4Only o = false ∧ rr_data rr = RAAAA a)).
Proof.
  cbv zeta. split_and!.
  - intros Hz. rewrite build_result_eq. simpl. by rewrite bool_decide_false.
  - intros H4 rr. rewrite build_result_eq. simpl. rewrite H4. simpl.
    destruct (existsb is_AAAA (RRs m)) eqn:Eb; [intros [_ ?%negb_true_iff]%filter_in; done|].
    intros (rr0 & -> & Hin)%list_elem_of_fmap. rewrite is_AAAA_rewrite. apply not_true_iff_false. intros Ht.
    apply not_true_iff_false in Eb. apply Eb, existsb_exists. exists rr0. split; [|done].
    apply list_elem_of_In, elem_of_app. by left.
  - intros rr h Hin Hh. apply build_result_rrs in Hin as (rr0 & Hin & ->). unfold rewrite_rr in Hh |- *.
    destruct (rr_header rr0) as [h0|] eqn:Eh; [|congruence]. injection Hh as <-. simpl. split.
    + intros Hz. case_bool_decide; [by apply not_eq_sym|done].
    + by exists rr0, h0.
  - intros a. rewrite build_result_eq. simpl. rewrite add_ip_in, elem_of_nil. naive_solver.
Qed.
