(* ===== verification/Dnstun.v ===== *)
(** * The dnstun service: options and routes (service/tcptun/dnstun/dnstun.go).

    The options with their routes and caches, LoadEvent, and how the worker
    finds the route of a domain.  The caches that the options point to live in
    heaps; a route is pointed to by the cache it was made with and its place,
    since routes and route caches are made together. *)

From S2P Require Import Prelude GoStrings Url Proxy Dial Defaults Jobs AllowList AllowSpec MatchSet DnsList Dns DnsAnswers.

Open Scope go_scope.
#[local] Arguments bs : simpl never.

(** The helpers of dnstun.go are those of socks.go, word for word. *)
Definition dt_method : DNServer → gostring := method.
Definition dt_defaultPort : gostring → Z := defaultPort.
Definition dt_port : DNServer → Z := port.
Definition dt_url : DNServer → gostring := url.
Definition dt_checkServers : list DNServer → option (list DNServer) := check_servers.
Definition dt_all_servers : list DNServer → DNServer → list DNServer := all_servers.
Definition dt_hostport : DNServer → nat → option gostring := hostport.
Definition dt_tls_name : DNServer → option gostring := tls_name.
Definition dt_timeouts : Z → Z → Z → Z * Z * Z := timeouts.
Definition dt_writeMsgData : list Z → list Z := writeMsgData.

Section dnstun.
Context {C : Type}.
Context (fsys : gostring → option gostring) (sha1 : gostring → gostring) (hex : gostring → gostring).
Context (fuel : nat).   (* how deep files may include files *)

Record RouteOptions := MkRouteOptions {
  ro_Name : gostring; ro_What : gostring; ro_Checksum : gostring;
  ro_Proxy : Proxy.Proxy C; ro_Servers : list DNServer }.

Record listed := MkListed { al_What : gostring; al_Checksum : gostring; al_list : domainList }.

Record route := MkRoute {
  rt_Name : gostring; rt_AllowList : listed; rt_Proxy : Proxy.Proxy C; rt_Servers : list DNServer }.

Record Options := MkOptions {
  o_ListenAddr : gostring;
  o_Proxy : Proxy.Proxy C;
  o_Server : DNServer;
  o_Servers : list DNServer;
  o_Routes : list RouteOptions;
  o_Redirects : gmap gostring gostring;
  o_Cache : bool;
  o_IPv4Only : bool;
  o_Conn : ConnOptions;
  o_Relay : RelayOptions;
  o_TTLMin : Z; o_TTLMax : Z;
  o_Idle : Z; o_Read : Z; o_Write : Z;
  o_routes : list route;
  o_routeCache : option nat;
  o_allowListMap : gmap gostring listed;
  o_dnsCache : option nat }.

Definition zero : Options :=
  MkOptions [] (MkProxy None []) (MkServer [] [] [] 0 [] []) [] [] ∅ false false zero_conn zero_relay
    0 0 0 0 0 [] None ∅ None.

(** The caches of routes, by domain, and of answers, by name and type.  A
    cached route may be none. *)
Record state := MkState {
  route_caches : list (gmap gostring (option nat));
  dns_caches : list (gmap (gostring * Z) result) }.

Definition route_equal (r other : RouteOptions) : bool :=
  (ro_Name r == ro_Name other) && (ro_Checksum r == ro_Checksum other) &&
  Equal (ro_Proxy r) (ro_Proxy other) && (ro_Servers r == ro_Servers other).

Fixpoint routesEqual (a b : list RouteOptions) : bool :=
  match a, b with
  | [], [] => true
  | r :: a, s :: b => route_equal r s && routesEqual a b
  | _, _ => false
  end.

Definition shouldResetDNSCache (x y : Options) : bool :=
  negb (eqb (o_IPv4Only x) (o_IPv4Only y)) ||
  (o_TTLMin x != o_TTLMin y) || (o_TTLMax x != o_TTLMax y) ||
  (o_Servers x != o_Servers y) || negb (routesEqual (o_Routes x) (o_Routes y)) ||
  (o_Redirects x != o_Redirects y).

(** ** LoadEvent *)

(** The first loop: names, checksums, servers; [None]: Run ends. *)
Definition name_route (i : nat) (r : RouteOptions) : AllowList.result RouteOptions :=
  let name := ro_Name r in
  let name :=
    if name == [] then
      match dns_scanLines (ro_What r) with
      | (advance, token) => if (advance =? length (ro_What r))%nat then default [] token else name
      end
    else name in
  let name := if name == [] then [35] ++ Itoa (Z.of_nat i) else name in
  sum ← dns_checksum fsys sha1 fuel (ro_What r);
  if ro_Servers r == [] then Err
  else
    servers ← or_err (dt_checkServers (ro_Servers r));
    Ok (MkRouteOptions name (ro_What r) (hex sum) (ro_Proxy r) servers).

Fixpoint name_routes (i : nat) (l : list RouteOptions) : AllowList.result (list RouteOptions) :=
  match l with
  | [] => Ok []
  | r :: l =>
      r ← name_route i r;
      l ← name_routes (S i) l;
      Ok (r :: l)
  end.

(** An [Add] that never ends is out of fuel, like files without end. *)
Definition init_list (What Checksum : gostring) : AllowList.result listed :=
  p ← dns_parse fsys fuel What;
  l ← or_stuck (dns_Init (elements (includes p)) (elements (excludes p)));
  Ok (MkListed What Checksum l).

(** The second loop, with [old.allowListMap]. *)
Fixpoint build_routes (old : gmap gostring listed) (l : list RouteOptions)
    (routes : list route) (m : gmap gostring listed) : AllowList.result (list route * gmap gostring listed) :=
  match l with
  | [] => Ok (routes, m)
  | r :: l =>
      al ← match old !! ro_Name r with
           | Some al => if al_Checksum al == ro_Checksum r then Ok al else init_list (ro_What r) (ro_Checksum r)
           | None => init_list (ro_What r) (ro_Checksum r)
           end;
      build_routes old l (routes ++ [MkRoute (ro_Name r) al (ro_Proxy r) (ro_Servers r)])
        (<[ro_Name r := al]> m)
  end.

Definition with_servers (o : Options) (servers : list DNServer) (Routes : list RouteOptions) : Options :=
  MkOptions (o_ListenAddr o) (o_Proxy o) (o_Server o) servers Routes (o_Redirects o) (o_Cache o)
    (o_IPv4Only o) (o_Conn o) (o_Relay o) (o_TTLMin o) (o_TTLMax o) (o_Idle o) (o_Read o) (o_Write o)
    (o_routes o) (o_routeCache o) (o_allowListMap o) (o_dnsCache o).

Definition with_routes (o : Options) (routes : list route) (cache : option nat) (m : gmap gostring listed)
    (dns : option nat) : Options :=
  MkOptions (o_ListenAddr o) (o_Proxy o) (o_Server o) (o_Servers o) (o_Routes o) (o_Redirects o) (o_Cache o)
    (o_IPv4Only o) (o_Conn o) (o_Relay o) (o_TTLMin o) (o_TTLMax o) (o_Idle o) (o_Read o) (o_Write o)
    routes cache m dns.

Definition J := Jobs.J Options state.

(** An error makes Run return; what does not end keeps it. *)
Definition or_exit {A} (m : AllowList.result A) : J A :=
  match m with Ok a => mret a | Err => exit | NoFuel => hang end.

Definition new_route_cache : J (option nat) :=
  x ← get_extra;
  _ ← put_extra (MkState (route_caches x ++ [∅]) (dns_caches x));
  mret (Some (length (route_caches x))).

Definition new_dns_cache : J (option nat) :=
  x ← get_extra;
  _ ← put_extra (MkState (route_caches x) (dns_caches x ++ [∅]));
  mret (Some (length (dns_caches x))).

(** The servers and routes of the new options, checked. *)
Definition check_options (new : Options) : AllowList.result Options :=
  servers ← or_err (dt_checkServers (dt_all_servers (o_Servers new) (o_Server new)));
  Routes ← name_routes 0 (o_Routes new);
  if (servers == []) && (length Routes =? 0)%nat then Err
  else Ok (with_servers new servers Routes).

(** What follows the listener. *)
Definition load_rest (new old : Options) : J Options :=
  new ← or_exit (check_options new);
  '(routes, cache, m) ←
    (if routesEqual (o_Routes new) (o_Routes old)
     then mret (o_routes old, o_routeCache old, o_allowListMap old)
     else
       '(routes, m) ← or_exit (build_routes (o_allowListMap old) (o_Routes new) [] ∅);
       cache ← match routes with [] => mret None | _ => new_route_cache end;
       mret (routes, cache, m));
  let kept := if eqb (o_Cache new) (o_Cache old) then o_dnsCache old else None in
  dns ← (if o_Cache new && ((kept == None) || shouldResetDNSCache old new) then new_dns_cache else mret kept);
  mret (with_routes new routes cache m dns).

Definition LoadEvent_ (new : Options) : J unit :=
  old ← optsOut;
  _ ← check_addr (o_ListenAddr new);
  _ ← (if o_ListenAddr new == o_ListenAddr old then mret tt else stopServer);
  new ← load_rest new old;
  optsIn new.

#[export] Instance dnstun : Service Options state := {
  zero_opts := zero;
  init_extra := MkState [] [];
  ListenAddr := o_ListenAddr;
  watch_down := false;
  on_load _ := LoadEvent_;
  on_loaded := startServer o_ListenAddr;
  on_exit := mret tt }.

Definition Run := Jobs.Run (O := Options) (X := state).

(** ** The route of a domain *)

(** What the domain is redirected to, or itself. *)
Definition redirected (opts : Options) (domain : gostring) : gostring :=
  match default [] (o_Redirects opts !! domain) with [] => domain | v => v end.

Fixpoint first_allowing (i : nat) (routes : list route) (dn : gostring) : option nat :=
  match routes with
  | [] => None
  | r :: routes => if dns_Allow (al_list (rt_AllowList r)) dn then Some i else first_allowing (S i) routes dn
  end.

(** The worker's route, from the cache or found and cached. *)
Definition find_route (opts : Options) (cs : list (gmap gostring (option nat))) (domain : gostring)
    : option (nat * nat) * list (gmap gostring (option nat)) :=
  match o_routeCache opts with
  | None => (None, cs)
  | Some p =>
      match (cs !!! p) !! domain with
      | Some r => (pair p <$> r, cs)
      | None =>
          let r := first_allowing 0 (o_routes opts) (redirected opts domain) in
          (pair p <$> r, <[p := <[domain := r]> (cs !!! p)]> cs)
      end
  end.

(** ** The laws *)

Lemma dt_or_exit_quiet {A} (m : AllowList.result A) : quiet (or_exit m).
Proof. destruct m; eauto with jobs. Qed.

Lemma load_rest_quiet new old : quiet (load_rest new old).
Proof.
  unfold load_rest, new_route_cache, new_dns_cache. apply quiet_bind; [apply dt_or_exit_quiet|]. intros n.
  apply quiet_bind.
  - destruct (routesEqual _ _); [eauto with jobs|]. apply quiet_bind; [apply dt_or_exit_quiet|].
    intros [routes m]. destruct routes; eauto 10 with jobs.
  - intros [[routes cache] m]. cbv zeta. destruct (o_Cache n && _); eauto 10 with jobs.
Qed.

Lemma check_options_addr new n : check_options new = Ok n → o_ListenAddr n = o_ListenAddr new.
Proof.
  unfold check_options. intros (servers & _ & H)%bind_Ok. apply bind_Ok in H as (Routes & _ & H).
  destruct (_ && _); [done|]. by injection H as <-.
Qed.

Lemma load_rest_addr new old s n s' :
  load_rest new old s = (Val n, s') → o_ListenAddr n = o_ListenAddr new.
Proof.
  unfold load_rest. intros E. apply bind_inv in E as [(n1 & s1 & E1 & E)|[[=] _]].
  unfold or_exit in E1. destruct (check_options new) as [n2| |] eqn:Ec; [|done..]. injection E1 as <- <-.
  apply bind_inv in E as [([[routes cache] m] & s2 & _ & E)|[[=] _]].
  apply bind_inv in E as [(dns & s3 & _ & E)|[[=] _]]. injection E as <- _. simpl.
  by apply check_options_addr.
Qed.

#[export] Instance dnstun_laws : ServiceLaws Options state.
Proof.
  refine (service_laws (λ _ _, mret tt) (λ new old _, load_rest new old) _ _ _ _ _ _); job_obligations.
  - apply load_rest_quiet.
  - by eapply load_rest_addr.
Qed.

#[export] Instance dnstun_keeps : KeepsServer Options state.
Proof.
  refine (service_keeps (λ _ _, mret tt) (λ new old _, load_rest new old) _ _ _ _ _ _); job_obligations.
  - apply load_rest_quiet.
  - by eapply load_rest_addr.
Qed.
End dnstun.
