(* ===== verification/DnstunWork.v ===== *)
(** * dnstun: the worker and its exchanges (service/tcptun/dnstun/dnstun.go).

    The worker hands a query to the exchange of its route, and makes one when
    there is none; an exchange asks a server of the route, over one connection
    that it keeps, until a message comes.  The choices of a select, and what a
    server answers, are inputs. *)

From S2P Require Import Prelude GoStrings Addr Url Proxy Dial Defaults Jobs AllowList DnsList Dns DnsAnswers Dnstun.

Open Scope go_scope.
#[local] Arguments bs : simpl never.

(** ** The exchanges of the worker *)

Record dnsExchange := MkExchange { ex_id : nat; ex_Route : option (nat * nat) }.

(** Which case of a select is taken: the exchange is done, the query was
    canceled, or the exchange has received it. *)
Inductive choice := ExDone | Canceled | Sent.

(** [sex[i] = sex[j]; sex = sex[:j]] *)
Definition swap_delete (i : nat) (sex : list dnsExchange) : list dnsExchange :=
  match last sex with
  | Some x => take (length sex - 1) (<[i := x]> sex)
  | None => sex
  end.

Section dispatch.
Context (done : nat → bool) (fresh_id : nat) (route1 : option (nat * nat)).

Definition live (sex : list dnsExchange) : list dnsExchange := List.filter (λ ex, negb (done (ex_id ex))) sex.

(** A new exchange, after the inactive ones were removed. *)
Definition new_exchange (c : choice) (sex : list dnsExchange) : list dnsExchange * option nat :=
  (live sex ++ [MkExchange fresh_id route1],
   match c with Sent => Some fresh_id | _ => None end).

(** The exchanges after a query, and which one has received it. *)
Definition dispatch (c1 c2 : choice) (sex : list dnsExchange) : list dnsExchange * option nat :=
  match list_find (λ ex, ex_Route ex = route1) sex with
  | Some (i, ex) =>
      match c1 with
      | Canceled => (sex, None)
      | Sent => (sex, Some (ex_id ex))
      | ExDone => new_exchange c2 (swap_delete i sex)
      end
  | None => new_exchange c2 sex
  end.

(** Each route has one exchange at most. *)
Definition one_each (sex : list dnsExchange) : Prop := NoDup (ex_Route <$> sex).

Lemma swap_delete_perm i ex sex :
  sex !! i = Some ex → ex :: swap_delete i sex ≡ₚ sex.
Proof.
  intros Hi. unfold swap_delete. destruct (last sex) as [x|] eqn:El.
  2:{ apply last_None in El. by subst. }
  apply last_Some in El as [l ->]. rewrite length_app. simpl.
  replace (length l + 1 - 1)%nat with (length l) by lia.
  destruct (decide (i < length l)%nat) as [Hlt|Hge].
  - rewrite insert_app_l by done. rewrite <- (length_insert l i x), take_app_length.
    rewrite lookup_app_l in Hi by done.
    pose proof (delete_Permutation l i ex Hi) as Hd. rewrite delete_take_drop in Hd.
    transitivity (ex :: x :: (take i l ++ drop (S i) l)).
    + by rewrite insert_take_drop, <- Permutation_middle by done.
    + rewrite perm_swap, <- Hd. apply Permutation_cons_append.
  - assert (i = length l) as ->.
    { apply lookup_lt_Some in Hi. rewrite length_app in Hi. simpl in Hi. lia. }
    rewrite list_lookup_middle in Hi by done. injection Hi as <-.
    rewrite insert_app_r_alt, Nat.sub_diag by lia. simpl. rewrite take_app_length.
    apply Permutation_cons_append.
Qed.

Lemma live_in ex sex : ex ∈ live sex ↔ ex ∈ sex ∧ done (ex_id ex) = false.
Proof. unfold live. rewrite !list_elem_of_In, filter_In, negb_true_iff. done. Qed.

Lemma live_NoDup sex : one_each sex → one_each (live sex).
Proof.
  unfold one_each. induction sex as [|ex sex IH]; [done|]. rewrite fmap_cons. intros [H1 H2]%NoDup_cons. simpl.
  destruct (done (ex_id ex)); simpl; [by apply IH|]. apply NoDup_cons. split; [|by apply IH].
  intros Hin. apply H1. apply list_elem_of_fmap in Hin as (y & -> & [Hy _]%live_in).
  by apply list_elem_of_fmap_2.
Qed.

Lemma new_exchange_ok c sex :
  one_each sex → route1 ∉ ex_Route <$> sex →
  one_each (new_exchange c sex).1 ∧
  (∀ id, (new_exchange c sex).2 = Some id → MkExchange id route1 ∈ (new_exchange c sex).1).
Proof.
  intros H Hno. split.
  - unfold one_each. simpl. rewrite fmap_app. apply NoDup_app. split_and!.
    + by apply live_NoDup.
    + intros r Hr Hin. apply list_elem_of_singleton in Hin. simpl in Hin. subst r. apply Hno.
      apply list_elem_of_fmap in Hr as (y & -> & [Hy _]%live_in). by apply list_elem_of_fmap_2.
    + apply NoDup_singleton.
  - simpl. intros id. destruct c; try done. intros [= <-]. apply elem_of_app. right. by left.
Qed.

(** A query goes to an exchange of its route, and after it each route still
    has one exchange; of those that were there none is forgotten unless it was
    done. *)
Lemma dispatch_ok c1 c2 sex :
  one_each sex → (c1 = ExDone → ∀ ex, ex ∈ sex → ex_Route ex = route1 → done (ex_id ex) = true) →
  let '(sex', to) := dispatch c1 c2 sex in
  one_each sex' ∧
  (∀ id, to = Some id → MkExchange id route1 ∈ sex') ∧
  (∀ ex, ex ∈ sex → done (ex_id ex) = false → ex ∈ sex').
Proof.
  intros H Hc. unfold dispatch. destruct (list_find _ sex) as [[i ex]|] eqn:E.
  - apply list_find_Some in E as (Hi & Hroute & _). pose proof (list_elem_of_lookup_2 _ _ _ Hi) as Hex.
    destruct c1; [|done|split_and!; [done| |done]; intros id [= <-]; rewrite <- Hroute; by destruct ex].
    pose proof (swap_delete_perm _ _ _ Hi) as Hp.
    assert (one_each (ex :: swap_delete i sex)) as Hs by (unfold one_each; by rewrite Hp).
    unfold one_each in Hs. rewrite fmap_cons in Hs. apply NoDup_cons in Hs as [Hno Hs].
    rewrite Hroute in Hno. destruct (new_exchange c2 (swap_delete i sex)) as [sex' to] eqn:En.
    destruct (new_exchange_ok c2 (swap_delete i sex) Hs Hno) as [H1 H2]. rewrite En in *.
    split_and!; [done|done|]. intros e He Hd. unfold new_exchange in En. injection En as <- _.
    apply elem_of_app. left. apply live_in. split; [|done].
    rewrite <- Hp in He. apply elem_of_cons in He as [->|He]; [|done].
    rewrite (Hc eq_refl ex) in Hd; done.
  - apply list_find_None in E. rewrite Forall_forall in E.
    destruct (new_exchange c2 sex) as [sex' to] eqn:En.
    destruct (new_exchange_ok c2 sex H) as [H1 H2].
    { intros (ex & -> & Hex)%list_elem_of_fmap. by apply (E ex). }
    rewrite En in *. split_and!; [done|done|]. intros e He Hd. unfold new_exchange in En. injection En as <- _.
    apply elem_of_app. left. by apply live_in.
Qed.
End dispatch.

(** One query after another. *)
Definition pool_step (sex sex' : list dnsExchange) : Prop :=
  ∃ done fresh_id route c1 c2,
    (c1 = ExDone → ∀ ex, ex ∈ sex → ex_Route ex = route → done (ex_id ex) = true) ∧
    sex' = (dispatch done fresh_id route c1 c2 sex).1.

Lemma pool_one_each sex : rtc pool_step [] sex → one_each sex.
Proof.
  intros Hr. assert (one_each []) as H0 by apply NoDup_nil_2. revert H0.
  induction Hr as [|s1 s2 s3 Hs _ IH]; [done|]. intros H0. apply IH.
  destruct Hs as (done & id & route & c1 & c2 & Hc & ->).
  pose proof (dispatch_ok done id route c1 c2 s1 H0 Hc) as H. destruct (dispatch _ _ _ _ _ _). apply H.
Qed.

(** Whatever queries came before, a query goes to an exchange of its route,
    each route has one exchange at most, and no exchange is forgotten while it
    is not done. *)
Theorem pool_fits sex done fresh_id route1 c1 c2 :
  rtc pool_step [] sex →
  (c1 = ExDone → ∀ ex, ex ∈ sex → ex_Route ex = route1 → done (ex_id ex) = true) →
  let '(sex', to) := dispatch done fresh_id route1 c1 c2 sex in
  NoDup (ex_Route <$> sex') ∧
  (∀ id, to = Some id → MkExchange id route1 ∈ sex') ∧
  (∀ ex, ex ∈ sex → done (ex_id ex) = false → ex ∈ sex').
Proof. intros Hr%pool_one_each. by apply dispatch_ok. Qed.

(** Queries of two routes, then one more of the first while the exchange of
    the second is done: it stays until a new exchange is made. *)
Definition two_exchanges : list dnsExchange := [MkExchange 0 None; MkExchange 1 (Some (0, 0)%nat)].

Lemma two_exchanges_reach : rtc pool_step [] two_exchanges.
Proof.
  apply (rtc_l _ _ [MkExchange 0 None]); [by exists (λ _, false), 0%nat, None, Sent, Sent|].
  apply rtc_once. by exists (λ _, false), 1%nat, (Some (0, 0)%nat), Sent, Sent.
Qed.

Lemma pool_fits_witness :
  dispatch (Nat.eqb 1) 2 None Sent Sent two_exchanges = (two_exchanges, Some 0%nat) ∧
  (let '(sex', to) := dispatch (Nat.eqb 1) 2 None Sent Sent two_exchanges in
   NoDup (ex_Route <$> sex') ∧
   (∀ id, to = Some id → MkExchange id None ∈ sex') ∧
   (∀ ex, ex ∈ two_exchanges → Nat.eqb 1 (ex_id ex) = false → ex ∈ sex')).
Proof.
  split; [reflexivity|].
  apply (pool_fits two_exchanges (Nat.eqb 1) 2 None Sent Sent two_exchanges_reach). discriminate.
Defined.

Section work.
Context {C : Type} (Fqdn : gostring → gostring).

Abbreviation Options := (@Options C) (only parsing).

Record query := MkQuery { q_Fqdn : gostring; q_Qtype : Z; q_Question : list (gostring * Z) }.

Definition domain_of (q : query) : gostring := TrimSuffix (q_Fqdn q) (bs ".").

(** ** The cache of answers *)

Definition Load (ds : list (gmap (gostring * Z) result)) (p : option nat) (key : gostring * Z) : option result :=
  match p with Some p => (ds !!! p) !! key | None => None end.

Definition Store (ds : list (gmap (gostring * Z) result)) (p : option nat) (key : gostring * Z) (r : result)
    : list (gmap (gostring * Z) result) :=
  match p with
  | Some p => match Deadline r with Some _ => <[p := <[key := r]> (ds !!! p)]> ds | None => ds end
  | None => ds
  end.

Definition cached (opts : Options) (ds : list (gmap (gostring * Z) result)) (q : query) (now : Z) : option result :=
  r ← Load ds (o_dnsCache opts) (q_Fqdn q, q_Qtype q);
  if fresh r now then Some r else None.

(** The worker on a query, when its caller waits: a result of the cache, or
    the exchange that has received it. *)
Definition work (done : nat → bool) (fresh_id : nat) (c1 c2 : choice) (opts : Options) (x : state)
    (sex : list dnsExchange) (q : query) (now : Z) : result + state * (list dnsExchange * option nat) :=
  match cached opts (dns_caches x) q now with
  | Some r => inl r
  | None =>
      let '(route1, cs) := find_route opts (route_caches x) (domain_of q) in
      inr (MkState cs (dns_caches x), dispatch done fresh_id route1 c1 c2 sex)
  end.

(** ** An exchange *)

Definition settings_of (o : Options) : settings := MkSettings (o_IPv4Only o) (o_TTLMin o) (o_TTLMax o).

(** The servers that are asked. *)
Definition servers_of (route1 : option (@route C)) (opts : Options) : list DNServer :=
  match route1 with Some r => rt_Servers r | None => o_Servers opts end.

Definition exchange_proxy (route1 : option (@route C)) (opts : Options) : Proxy.Proxy C :=
  match route1 with Some r => rt_Proxy r | None => o_Proxy opts end.

(** A round of [for result == nil]: whether the job ends or the query is
    canceled, the options if they are read again ([None]: closed), the random
    choice of a server, and what comes of asking it. *)
Record turn := MkTurn {
  t_down : bool;
  t_canceled : bool;
  t_options : option Options;
  t_pick : nat;
  t_answer : option (Msg * Z) }.

(** [Left]: the exchange ends and the query's channel is not closed. *)
Inductive resolution :=
  | Answered (opts : Options) (conn : option DNServer) (r : result)
  | Gave (conn : option DNServer)
  | Left
  | Asking.

Definition answer_of (opts : Options) (q : query) (m : Msg) (now : Z) : result :=
  build_result (settings_of opts) (asked Fqdn (o_Redirects opts) (q_Fqdn q)) (q_Fqdn q) (q_Question q) m now.

(** The options and the server of a round, opening a connection when there is
    none; [None]: the exchange ends. *)
Definition connect (route1 : option (@route C)) (opts : Options) (conn : option DNServer) (t : turn)
    : option (Options * DNServer) :=
  match conn with
  | Some s => Some (opts, s)
  | None =>
      opts ← t_options t;
      match servers_of route1 opts with
      | [] => None
      | s :: l => s ← (s :: l) !! (t_pick t mod length (s :: l))%nat; Some (opts, s)
      end
  end.

(** How a connection to a server is opened, the [k]-th of its addresses being
    drawn: the proxy, the address, the name for TLS and the timeouts. *)
Record opening := MkOpening {
  op_Proxy : Proxy.Proxy C; op_hostport : gostring; op_tls : option gostring; op_timeouts : Z * Z * Z }.

Definition open_ (route1 : option (@route C)) (opts : Options) (s : DNServer) (k : nat) : option opening :=
  hp ← dt_hostport s k;
  Some (MkOpening (exchange_proxy route1 opts) hp (dt_tls_name s)
    (dt_timeouts (o_Idle opts) (o_Read opts) (o_Write opts))).

(** The request over HTTP, [None]: a message on the stream. *)
Definition http_request (s : DNServer) : option (gostring * gostring * option gostring) :=
  if (s_Over s == bs "HTTPS") || (s_Over s == bs "HTTP")
  then Some (dt_method s, dt_url s, match s_Path s with [] => None | p => Some (path_Join (bs "/") p) end)
  else None.

Fixpoint resolve (route1 : option (@route C)) (opts : Options) (conn : option DNServer) (q : query)
    (ts : list turn) : resolution :=
  match ts with
  | [] => Asking
  | t :: ts =>
      if t_down t then Left
      else if t_canceled t then Gave conn
      else
        match connect route1 opts conn t with
        | None => Left
        | Some (opts, s) =>
            match t_answer t with
            | Some (m, now) => Answered opts (Some s) (answer_of opts q m now)
            | None => resolve route1 opts None q ts
            end
        end
  end.

(** A query at an exchange: the result that its caller gets and the caches
    after it; [None]: the channel of the query is never closed. *)
Definition exchange_query (route1 : option (@route C)) (opts : Options) (conn : option DNServer)
    (ds : list (gmap (gostring * Z) result)) (q : query) (now : Z) (ts : list turn)
    : option (option DNServer * option result * list (gmap (gostring * Z) result)) :=
  match cached opts ds q now with
  | Some r => Some (conn, Some r, ds)
  | None =>
      match resolve route1 opts conn q ts with
      | Answered opts conn r => Some (conn, Some r, Store ds (o_dnsCache opts) (q_Fqdn q, q_Qtype q) r)
      | Gave conn => Some (conn, None, ds)
      | Left | Asking => None
      end
  end.

(** A query at a connection of a client: what is written, with what comes from
    the worker when neither IPv4.Only nor the cache answers it ([None]: the
    connection ends).  The clock is read twice: [now], when a cached answer is
    checked, and [later], when what is written is aged.  Packing is of the
    library and does not fail. *)
Definition serve (SetReply : Msg → Msg) (Pack : Msg → list Z) (zero_time : Z) (opts : Options)
    (ds : list (gmap (gostring * Z) result)) (dnsMsg : Msg) (q : query) (now : Z)
    (from_worker : option result) (later : Z) : option (list Z) :=
  match ready SetReply (o_IPv4Only opts) ((λ p, ds !!! p) <$> o_dnsCache opts) dnsMsg (q_Fqdn q) (q_Qtype q) zero_time now with
  | Some r => Some (dt_writeMsgData (Pack (reply (m_ID dnsMsg) later r)))
  | None => r ← from_worker; Some (dt_writeMsgData (Pack (reply (m_ID dnsMsg) later r)))
  end.

(** An answer is built with options that were read: the first, or those of a
    round. *)
Lemma resolve_answered route1 opts conn q ts opts' conn' r :
  resolve route1 opts conn q ts = Answered opts' conn' r →
  (opts' = opts ∨ ∃ t, t ∈ ts ∧ t_options t = Some opts') ∧
  ∃ t m now, t ∈ ts ∧ t_answer t = Some (m, now) ∧ r = answer_of opts' q m now.
Proof.
  revert opts conn. induction ts as [|t ts IH]; intros opts conn; [done|]. cbn [resolve].
  destruct (t_down t); [done|]. destruct (t_canceled t); [done|].
  destruct (connect route1 opts conn t) as [[opts1 s]|] eqn:Ec; [|done].
  assert (opts1 = opts ∨ t_options t = Some opts1) as Ho.
  { unfold connect in Ec. destruct conn; [injection Ec as <- <-; by left|].
    apply bind_Some in Ec as (o & Ho & Ec). destruct (servers_of route1 o) as [|s0 l]; [done|].
    apply bind_Some in Ec as (? & _ & [= <- <-]). by right. }
  destruct (t_answer t) as [[m now]|] eqn:Ea.
  - intros [= <- <- <-]. split.
    + destruct Ho as [->|Ho]; [by left|right]. exists t. split; [by left|done].
    + exists t, m, now. split_and!; [by left|done..].
  - intros H. destruct (IH _ _ H) as [[->|(t' & Ht & Ht')] (t1 & m & now & Hin & ?)].
    + split; [|exists t1, m, now; split; [by right|done]].
      destruct Ho as [->|Ho]; [by left|right]. exists t. split; [by left|done].
    + split; [right; exists t'; split; [by right|done]|]. exists t1, m, now. split; [by right|done].
Qed.

(** The server of a round is one of those of the options that were read. *)
Lemma connect_server route1 opts conn t opts' s :
  connect route1 opts conn t = Some (opts', s) →
  conn = Some s ∨ conn = None ∧ t_options t = Some opts' ∧ s ∈ servers_of route1 opts'.
Proof.
  unfold connect. destruct conn; [intros [= <- <-]; by left|]. intros (o & Ho & Ec)%bind_Some. right.
  destruct (servers_of route1 o) as [|s0 l] eqn:Es; [done|].
  apply bind_Some in Ec as (s1 & Hs & [= <- <-]). rewrite Es. split_and!; [done..|].
  by eapply list_elem_of_lookup_2.
Qed.

(** A query with no route while there are no servers but those of the routes
    has no answer: its exchange ends and leaves the channel open. *)
Lemma unrouted_unanswered opts conn q ds now t ts :
  cached opts ds q now = None → conn = None → t_canceled t = false → 
  (∀ o, t_options t = Some o → o_Servers o = []) →
  exchange_query None opts conn ds q now (t :: ts) = None.
Proof.
  intros Hc -> Ht Ho. unfold exchange_query. rewrite Hc. cbn [resolve].
  destruct (t_down t); [done|]. rewrite Ht. unfold connect, servers_of.
  destruct (t_options t) as [o|]; [|done]. simpl. by rewrite (Ho o eq_refl).
Qed.
End work.
