(* ===== verification/DnstunSpec.v ===== *)
(** * dnstun: servers, routes and the cache of routes.

    What holds of the options while the job runs, and what the worker's route
    of a domain is after any reloads over changing files and any queries. *)

From S2P Require Import Prelude GoStrings Url Proxy Dial Defaults Jobs AllowList AllowSpec MatchSet DnsList Dns DnsAnswers Dnstun DnstunWork.

Open Scope go_scope.
#[local] Arguments bs : simpl never.

Section dnstun.
Context {C : Type} (sha1 : gostring → gostring) (hex : gostring → gostring) (fuel : nat).
#[local] Set Default Proof Using "Type*".

Abbreviation dnstun fs := (Dnstun.dnstun fs sha1 hex fuel) (only parsing).
Abbreviation job := (Jobs.job (@Options C) state) (only parsing).

(** A step of the job, with the files of that moment. *)
Definition job_step (s s' : job) : Prop :=
  ∃ fs listen e, @handle _ _ (dnstun fs) listen e s = (Val tt, s').

Definition job_start : job := MkJob zero None (MkState [] []) [].
Definition job_reach : job → Prop := rtc job_step job_start.

(** ** Servers *)

(** Every server passed the checks, every route has one, and there is one
    somewhere. *)
Record servers_ok (o : @Options C) : Prop := {
  so_servers : Forall server_ok (o_Servers o);
  so_routes : Forall (λ r, ro_Servers r ≠ [] ∧ Forall server_ok (ro_Servers r)) (o_Routes o);
  so_built : Forall (λ r, rt_Servers r ≠ [] ∧ Forall server_ok (rt_Servers r)) (o_routes o);
  so_some : o_Servers o ≠ [] ∨ o_Routes o ≠ [] }.

Lemma name_routes_servers fs i l l' :
  @name_routes C fs sha1 hex fuel i l = Ok l' →
  Forall (λ r, ro_Servers r ≠ [] ∧ Forall server_ok (ro_Servers r)) l'.
Proof.
  revert i l'. induction l as [|r l IH]; intros i l'; cbn [name_routes]; [by intros [= <-]|].
  intros (r' & Hr & H)%bind_Ok. apply bind_Ok in H as (l2 & Hl & [= <-]).
  constructor; [|by eapply IH]. unfold name_route in Hr. cbv zeta in Hr.
  apply bind_Ok in Hr as (sum & _ & Hr). case_bool_decide as Hs; [done|].
  apply bind_Ok in Hr as (sv & Hc & [= <-]). simpl. unfold or_err in Hc.
  destruct (dt_checkServers (ro_Servers r)) as [sv'|] eqn:Hc'; [|done]. injection Hc as ->. rename Hc' into Hc. destruct (check_servers_ok _ _ Hc) as [Hok Hlen].
  split; [|exact Hok]. intros Hn. subst sv. by destruct (ro_Servers r).
Qed.

Lemma build_routes_servers fs old l routes m routes' m' :
  @build_routes C fs fuel old l routes m = Ok (routes', m') →
  Forall (λ r, ro_Servers r ≠ [] ∧ Forall server_ok (ro_Servers r)) l →
  Forall (λ r, rt_Servers r ≠ [] ∧ Forall server_ok (rt_Servers r)) routes →
  Forall (λ r, rt_Servers r ≠ [] ∧ Forall server_ok (rt_Servers r)) routes'.
Proof.
  revert routes m. induction l as [|r l IH]; intros routes m; cbn [build_routes]; [by intros [= <- <-]|].
  intros (al & _ & H)%bind_Ok [Hr Hl]%Forall_cons Hs. apply (IH _ _ H Hl).
  apply Forall_app. split; [done|]. by apply Forall_singleton.
Qed.

Lemma check_options_ok fs new n :
  @check_options C fs sha1 hex fuel new = Ok n →
  Forall server_ok (o_Servers n) ∧
  Forall (λ r, ro_Servers r ≠ [] ∧ Forall server_ok (ro_Servers r)) (o_Routes n) ∧
  (o_Servers n ≠ [] ∨ o_Routes n ≠ []).
Proof.
  unfold check_options. intros (servers & Hs & H)%bind_Ok. apply bind_Ok in H as (Routes & HR & H).
  unfold or_err in Hs. destruct (dt_checkServers _) as [sv|] eqn:Hc in Hs; [|done]. injection Hs as ->. rename Hc into Hs.
  destruct ((servers == []) && _) eqn:E; [done|]. injection H as <-. split_and!; simpl.
  - by destruct (check_servers_ok _ _ Hs).
  - by eapply name_routes_servers.
  - apply andb_false_iff in E as [E|E]; [left; by apply bool_decide_eq_false in E|right].
    intros ->. done.
Qed.

(** What a LoadEvent does: the new options, checked, with their routes and
    caches kept or made. *)
Lemma load_inv fs listen new s s' :
  @handle _ _ (dnstun fs) listen (LoadEvent new) s = (Val tt, s') →
  ∃ n s1 s2, check_options fs sha1 hex fuel new = Ok n ∧ extra s1 = extra s ∧
    @load_rest C fs sha1 hex fuel new (opts s) s1 = (Val (opts s'), s2) ∧ extra s' = extra s2.
Proof.
  simpl. unfold LoadEvent_. intros E.
  apply bind_inv in E as [(old & s0 & [= <- <-] & E)|[_ [=]]].
  apply bind_inv in E as [([] & s1 & E1 & E)|[[=] _]].
  apply bind_inv in E as [([] & s2 & E2 & E)|[[=] _]].
  apply bind_inv in E as [(n & s3 & E3 & E)|[[=] _]]. injection E as <-. cbn [opts extra].
  pose proof E3 as E4. unfold load_rest in E4. apply bind_inv in E4 as [(n1 & s4 & E5 & _)|[[=] _]].
  unfold or_exit in E5. destruct (check_options _ _ _ _ new) as [n2| |]; [|done..].
  exists n2, s2, s3. split_and!; [done| |done|done].
  transitivity (extra s1).
  - revert E2. case_match; [by intros [= <-]|]. unfold stopServer. case_match; by intros [= <-].
  - revert E1. unfold check_addr. destruct (SplitHostPort _); [by intros [= <-]|done].
Qed.

Lemma load_rest_inv fs new old s n s' :
  @load_rest C fs sha1 hex fuel new old s = (Val n, s') →
  ∃ n0, check_options fs sha1 hex fuel new = Ok n0 ∧ o_Servers n = o_Servers n0 ∧
    o_Routes n = o_Routes n0 ∧ o_Redirects n = o_Redirects n0 ∧
    (routesEqual (o_Routes n0) (o_Routes old) = true ∧ o_routes n = o_routes old ∧
       o_routeCache n = o_routeCache old ∧ route_caches (extra s') = route_caches (extra s) ∨
     o_routeCache n = None ∧ o_routes n = [] ∧ route_caches (extra s') = route_caches (extra s) ∨
     o_routeCache n = Some (length (route_caches (extra s))) ∧
       route_caches (extra s') = route_caches (extra s) ++ [∅] ∧
       ∃ m, build_routes fs fuel (o_allowListMap old) (o_Routes n0) [] ∅ = Ok (o_routes n, m)).
Proof.
  unfold load_rest. intros E. apply bind_inv in E as [(n0 & s1 & E1 & E)|[[=] _]].
  unfold or_exit in E1. destruct (check_options _ _ _ _ new) as [n1| |]; [|done..]. injection E1 as <- <-.
  apply bind_inv in E as [([[routes cache] m] & s2 & E2 & E)|[[=] _]].
  apply bind_inv in E as [(dns & s3 & E3 & E)|[[=] _]]. injection E as <- <-.
  assert (route_caches (extra s3) = route_caches (extra s2)) as ->.
  { revert E3. destruct (o_Cache n1 && _); [|by intros [= <- <-]]. by intros [= <- <-]. }
  exists n1. simpl. split_and!; [done..|]. revert E2. destruct (routesEqual _ _) eqn:Er.
  { intros [= <- <- <- <-]. by left. }
  intros E2. apply bind_inv in E2 as [([routes' m'] & s4 & E4 & E2)|[[=] _]]. unfold or_exit in E4.
  destruct (build_routes _ _ _ _ _ _) as [[r2 m2]| |] eqn:Eb; [|done..]. injection E4 as -> -> <-.
  apply bind_inv in E2 as [(cache' & s5 & E5 & E2)|[[=] _]]. injection E2 as <- <- <- <-.
  destruct routes'; [injection E5 as <- <-; right; by left|].
  injection E5 as <- <-. right; right. split_and!; [done..|]. by exists m'.
Qed.

Lemma job_step_cases s s' :
  job_step s s' →
  opts s' = opts s ∧ extra s' = extra s ∨
  ∃ fs listen new, @handle _ _ (dnstun fs) listen (LoadEvent new) s = (Val tt, s').
Proof.
  intros (fs & listen & e & E). destruct e as [new| |]; [right; eauto|left..].
  - simpl in E. unfold startServer in E. destruct (server s); [by injection E as <-|].
    destruct (listen _); [by injection E as <-|done].
  - by injection E as <-.
Qed.

(** Once a LoadEvent was handled the options have servers to ask, all of them
    checked. *)
Lemma servers_fit s :
  job_reach s → opts s = zero ∨ servers_ok (opts s).
Proof.
  intros Hr. unfold job_reach in Hr. assert (opts job_start = zero ∨ servers_ok (opts job_start)) as H0 by by left.
  revert H0. induction Hr as [s|s1 s2 s3 Hs _ IH]; [done|]. intros H1. apply IH.
  destruct (job_step_cases _ _ Hs) as [[-> _]|(fs & listen & new & E)]; [done|right].
  apply load_inv in E as (n & t1 & t2 & Hc & _ & El & _).
  destruct (load_rest_inv _ _ _ _ _ _ El) as (n0 & Hc' & E1 & E2 & _ & Hr).
  destruct (check_options_ok _ _ _ Hc') as (H2 & H3 & H4). split; rewrite ?E1, ?E2; try done.
  destruct Hr as [(_ & -> & _)|[(_ & -> & _)|(_ & _ & m & Hb)]]; [|done|].
  - destruct H1 as [->|H1]; [done|apply H1].
  - by eapply build_routes_servers.
Qed.

(** The connection that an exchange opens while the job runs: the draw of a
    server never fails, the server passed the checks, so that there is a host
    to dial and a name where TLS needs one, and the timeouts are positive. *)
Theorem dial_fits s route1 opts0 t k :
  job_reach s → t_options t = Some (opts s) → (∀ r, route1 = Some r → r ∈ o_routes (opts s)) →
  (connect route1 opts0 None t = None ↔ servers_of route1 (opts s) = []) ∧
  ∀ o srv, connect route1 opts0 None t = Some (o, srv) →
    server_ok srv ∧ srv ∈ servers_of route1 (opts s) ∧
    ((k < length (s_IP srv) ∨ s_IP srv = [])%nat →
      ∃ op, open_ route1 o srv k = Some op ∧ (∀ name, op_tls op = Some name → name ≠ []) ∧
        let '(idle, read, write) := op_timeouts op in 0 < idle ∧ 0 < read ∧ 0 < write).
Proof.
  intros Hs%servers_fit Ht Hr. split.
  - unfold connect. rewrite Ht. simpl. destruct (servers_of route1 (opts s)) as [|s0 l] eqn:Es; [done|].
    split; [|done]. intros Hn. apply bind_None in Hn as [Hn|(s1 & _ & [=])].
    apply lookup_ge_None in Hn. pose proof (Nat.mod_upper_bound (t_pick t) (length (s0 :: l))). simpl in *. lia.
  - intros o srv Hc. destruct (connect_server _ _ _ _ _ _ Hc) as [|(_ & Ho & Hin)]; [done|].
    rewrite Ht in Ho. injection Ho as <-.
    assert (server_ok srv) as Hok.
    { destruct Hs as [Hz|[H1 _ H3 _]], route1 as [r|].
      - specialize (Hr r eq_refl). rewrite Hz in Hr. by apply elem_of_nil in Hr.
      - rewrite Hz in Hin. by apply elem_of_nil in Hin.
      - destruct (proj1 (Forall_forall _ _) H3 r (Hr r eq_refl)) as [_ H]. exact (proj1 (Forall_forall _ _) H srv Hin).
      - exact (proj1 (Forall_forall _ _) H1 srv Hin). }
    split_and!; [done..|]. intros Hk. destruct (server_dial _ _ Hok Hk) as [(host & Hh & _) Htls].
    unfold open_, dt_hostport, hostport. rewrite Hh. simpl. eexists. split_and!; [done|done|]. apply timeouts_pos.
Qed.

(** ** Routes *)

Context (Fqdn : gostring → gostring).

Record sys := MkSys { s_job : job; s_seen : list (@Options C) }.

Definition set_caches (s : job) (cs : list (gmap gostring (option nat))) : job :=
  MkJob (opts s) (server s) (MkState cs (dns_caches (extra s))) (log s).

Definition set_answers (s : job) (ds : list (gmap (gostring * Z) result)) : job :=
  MkJob (opts s) (server s) (MkState (route_caches (extra s)) ds) (log s).

(** TTLs are of 32 bits. *)
Definition msg_ok (m : Msg) : Prop :=
  Forall (λ rr, ∀ h, rr_header rr = Some h → 0 <= h_TTL h < 2 ^ 32) (RRs m).

Definition turn_ok (seen : list (@Options C)) (t : @turn C) : Prop :=
  (∀ o, t_options t = Some o → o ∈ seen) ∧ (∀ m now, t_answer t = Some (m, now) → msg_ok m).

(** Events; queries that the worker gives a route, and answers that an
    exchange caches, with options read at any time before. *)
Inductive sys_step : sys → sys → Prop :=
  | sys_event s s' seen : job_step s s' → sys_step (MkSys s seen) (MkSys s' (opts s' :: seen))
  | sys_query s seen o domain r cs :
      o ∈ seen → find_route o (route_caches (extra s)) domain = (r, cs) →
      sys_step (MkSys s seen) (MkSys (set_caches s cs) seen)
  | sys_answer s seen o route1 conn q now ts conn' r ds :
      o ∈ seen → Forall (turn_ok seen) ts →
      exchange_query Fqdn route1 o conn (dns_caches (extra s)) q now ts = Some (conn', r, ds) →
      sys_step (MkSys s seen) (MkSys (set_answers s ds) seen).

Definition sys_start : sys := MkSys job_start [zero].
Definition sys_reach : sys → Prop := rtc sys_step sys_start.

(** The route of a domain without the cache. *)
Definition route_of (o : @Options C) (domain : gostring) : option nat :=
  first_allowing 0 (o_routes o) (redirected o domain).

Definition cache_ok (seen : list (@Options C)) (cs : list (gmap gostring (option nat))) (o : @Options C) : Prop :=
  match o_routeCache o with
  | None => o_routes o = []
  | Some p => (p < length cs)%nat ∧
      ∀ domain r, (cs !!! p) !! domain = Some r →
        ∃ o', o' ∈ seen ∧ o_routeCache o' = Some p ∧ r = route_of o' domain
  end.

Record sys_ok (s : sys) : Prop := {
  sk_opts : opts (s_job s) ∈ s_seen s;
  sk_cache : ∀ o, o ∈ s_seen s → cache_ok (s_seen s) (route_caches (extra (s_job s))) o;
  sk_same : ∀ o1 o2 p, o1 ∈ s_seen s → o2 ∈ s_seen s →
    o_routeCache o1 = Some p → o_routeCache o2 = Some p → o_routes o1 = o_routes o2 }.

Lemma cache_ok_seen o1 seen cs o : cache_ok seen cs o → cache_ok (o1 :: seen) cs o.
Proof.
  unfold cache_ok. destruct (o_routeCache o) as [p|]; [|done]. intros [Hp H]. split; [done|].
  intros d r Hr. destruct (H d r Hr) as (o' & Ho & ?). exists o'. split; [by right|done].
Qed.

Lemma dt_cache_ok_grow seen cs c o : cache_ok seen cs o → cache_ok seen (cs ++ [c]) o.
Proof.
  unfold cache_ok. destruct (o_routeCache o) as [p|]; [|done]. intros [Hp H].
  rewrite length_app. split; [lia|]. intros d r. rewrite lookup_total_app_l by done. apply H.
Qed.

(** New options that keep the routes and the cache. *)
Lemma keep_ok s seen o :
  sys_ok (MkSys s seen) → o_routeCache o = o_routeCache (opts s) → o_routes o = o_routes (opts s) →
  (∀ o', o' ∈ o :: seen → cache_ok (o :: seen) (route_caches (extra s)) o') ∧
  (∀ o1 o2 p, o1 ∈ o :: seen → o2 ∈ o :: seen →
    o_routeCache o1 = Some p → o_routeCache o2 = Some p → o_routes o1 = o_routes o2).
Proof.
  intros [H1 H2 H3] C1 C2. simpl in *. split.
  - intros o' [->|Ho]%elem_of_cons; [|by apply cache_ok_seen, H2].
    specialize (H2 _ H1). apply (cache_ok_seen o) in H2. unfold cache_ok in *. by rewrite C1, C2.
  - assert (∀ o1 p, o1 ∈ o :: seen → o_routeCache o1 = Some p →
      ∃ o', o' ∈ seen ∧ o_routeCache o' = Some p ∧ o_routes o1 = o_routes o') as Hd.
    { intros o1 p [->|Ho]%elem_of_cons Hp; [exists (opts s); split_and!; [done|congruence|done]|eauto]. }
    intros o1 o2 p I1 I2 P1 P2. destruct (Hd _ _ I1 P1) as (q1 & Q1 & Q2 & ->).
    destruct (Hd _ _ I2 P2) as (q2 & Q3 & Q4 & ->). by eapply H3.
Qed.

Lemma dt_event_ok s s' seen :
  sys_ok (MkSys s seen) → job_step s s' → sys_ok (MkSys s' (opts s' :: seen)).
Proof.
  intros H Hs. pose proof H as [H1 H2 H3]. simpl in *.
  destruct (job_step_cases _ _ Hs) as [[E1 E2]|(fs & listen & new & E)].
  { destruct (keep_ok s seen (opts s') H) as [K1 K2]; [by rewrite E1..|].
    split; simpl; [left|by rewrite E2|done]. }
  apply load_inv in E as (n & t1 & t2 & _ & X1 & El & X2).
  destruct (load_rest_inv _ _ _ _ _ _ El) as (n0 & _ & _ & _ & _ & Hc). rewrite X1, <- X2 in Hc.
  destruct Hc as [(_ & C2 & C1 & C3)|[(C1 & C2 & C3)|(C1 & C3 & _)]].
  - destruct (keep_ok s seen (opts s') H C1 C2) as [K1 K2]. split; simpl; [left|by rewrite C3|done].
  - split; simpl; [left| |].
    + rewrite C3. intros o [->|Ho]%elem_of_cons; [|by apply cache_ok_seen, H2]. unfold cache_ok. by rewrite C1.
    + intros o1 o2 p [->|I1]%elem_of_cons [->|I2]%elem_of_cons P1 P2; try congruence. by eapply H3.
  - assert (∀ o, o ∈ seen → o_routeCache o ≠ Some (length (route_caches (extra s)))) as Hn.
    { intros o Ho Hp. specialize (H2 o Ho). unfold cache_ok in H2. rewrite Hp in H2. lia. }
    split; simpl; [left| |].
    + rewrite C3. intros o [->|Ho]%elem_of_cons; [|by apply dt_cache_ok_grow, cache_ok_seen, H2].
      unfold cache_ok. rewrite C1, length_app. simpl. split; [lia|]. intros d r.
      rewrite lookup_total_app_r, Nat.sub_diag by lia. simpl. by rewrite lookup_empty.
    + intros o1 o2 p [->|I1]%elem_of_cons [->|I2]%elem_of_cons P1 P2; try done.
      * rewrite C1 in P1. injection P1 as <-. by destruct (Hn _ I2).
      * rewrite C1 in P2. injection P2 as <-. by destruct (Hn _ I1).
      * by eapply H3.
Qed.

Lemma find_route_spec seen o cs domain r cs' :
  o ∈ seen → cache_ok seen cs o → find_route o cs domain = (r, cs') →
  (∃ o', o' ∈ seen ∧ o_routeCache o' = o_routeCache o ∧ snd <$> r = route_of o' domain) ∧
  (cs' = cs ∨ ∃ p, o_routeCache o = Some p ∧ (p < length cs)%nat ∧
     cs' = <[p := <[domain := route_of o domain]> (cs !!! p)]> cs).
Proof.
  intros Ho Hc. unfold find_route. destruct (o_routeCache o) as [p|] eqn:Ep; unfold cache_ok in Hc; rewrite Ep in Hc.
  - destruct Hc as [Hp Hc]. destruct ((cs !!! p) !! domain) as [r0|] eqn:Er.
    + intros [= <- <-]. split; [|by left]. destruct (Hc _ _ Er) as (o' & Ho' & Ep' & ->).
      exists o'. split_and!; [done..|]. by destruct (route_of o' domain).
    + intros [= <- <-]. split; [exists o; split_and!; [done..|]|right; eauto].
      fold (route_of o domain). by destruct (route_of o domain).
  - intros [= <- <-]. split; [|by left]. exists o. split_and!; [done..|]. unfold route_of. by rewrite Hc.
Qed.

Lemma query_ok s seen o domain r cs :
  sys_ok (MkSys s seen) → o ∈ seen → find_route o (route_caches (extra s)) domain = (r, cs) →
  sys_ok (MkSys (set_caches s cs) seen).
Proof.
  intros [H1 H2 H3] Ho Hg. simpl in *. split; simpl; [done| |done].
  destruct (find_route_spec _ _ _ _ _ _ Ho (H2 _ Ho) Hg) as [_ [->|(p & Ep & Hp & ->)]]; [done|].
  intros o' Ho'. specialize (H2 o' Ho'). unfold cache_ok in *.
  destruct (o_routeCache o') as [q|] eqn:Eq; [|done]. destruct H2 as [Hl Hc].
  rewrite length_insert. split; [done|]. intros d r'. destruct (decide (q = p)) as [->|Hne].
  - rewrite list_lookup_total_insert_eq by done. destruct (decide (domain = d)) as [<-|Hd].
    + rewrite lookup_insert_eq. intros [= <-]. eauto.
    + rewrite lookup_insert_ne by done. apply Hc.
  - rewrite list_lookup_total_insert_ne by done. apply Hc.
Qed.

Lemma dt_sys_ok s : sys_reach s → sys_ok s.
Proof.
  intros Hr. assert (sys_ok sys_start) as H0.
  { split; simpl; [left| |].
    - by intros o [->|?%elem_of_nil]%elem_of_cons.
    - by intros o1 o2 p [->|?%elem_of_nil]%elem_of_cons. }
  induction Hr as [|s1 s2 s3 Hs _ IH]; [done|]. apply IH. destruct Hs; [by eapply dt_event_ok|by eapply query_ok|].
  by destruct H0.
Qed.

(** In every state reachable by reloads and queries the route of a domain is
    the first that allows what the domain is redirected to, as long as no
    reload has redirected it elsewhere while the routes stayed. *)
Lemma find_route_first s o domain r cs :
  sys_reach s → o ∈ s_seen s →
  find_route o (route_caches (extra (s_job s))) domain = (r, cs) →
  (∀ o', o' ∈ s_seen s → o_routeCache o' = o_routeCache o → redirected o' domain = redirected o domain) →
  snd <$> r = first_allowing 0 (o_routes o) (redirected o domain).
Proof.
  intros Hr%dt_sys_ok Ho Hf Hsame.
  destruct (find_route_spec _ _ _ _ _ _ Ho (sk_cache _ Hr _ Ho) Hf) as [(o' & Ho' & Ec & ->) _].
  unfold route_of. rewrite (Hsame o' Ho' Ec). f_equal. destruct (o_routeCache o) as [p|] eqn:Ep.
  - by eapply (sk_same _ Hr).
  - pose proof (sk_cache _ Hr _ Ho) as H1. pose proof (sk_cache _ Hr _ Ho') as H2.
    unfold cache_ok in *. rewrite Ep in H1. rewrite Ec in H2. by rewrite H1, H2.
Qed.
End dnstun.

(** ** A run *)

Definition ex_server : DNServer := MkServer [] [bs "9.9.9.9"] (bs "tls") 0 [] [].
Definition ex_named : DNServer := MkServer (bs "dns.example") [bs "9.9.9.9"] (bs "tls") 0 [] [].
(** The server as it was checked. *)
Definition ex_upper : DNServer := MkServer (bs "dns.example") [bs "9.9.9.9"] (bs "TLS") 0 [] [].
Definition no_proxy : Proxy.Proxy unit := MkProxy None [].
Definition no_files : gostring → option gostring := λ _, None.

(** One route, for a.com, and what x.com is redirected to. *)
Definition ex_options (redirects : gmap gostring gostring) : @Options unit :=
  MkOptions (bs "127.0.0.1:53") no_proxy ex_named []
    [MkRouteOptions [] (bs "a.com") [] no_proxy [ex_named]] redirects true false zero_conn zero_relay
    0 0 0 0 0 [] None ∅ None.

Definition ex_step (o : @Options unit) (s : Jobs.job (@Options unit) state) :=
  snd (@handle _ _ (dnstun no_files id id 0) (λ _, true) (LoadEvent o) s).

Definition ex_job1 := ex_step (ex_options ∅) job_start.

Lemma ex_job1_step : @job_step unit id id 0 job_start ex_job1.
Proof. exists no_files, (λ _, true), (LoadEvent (ex_options ∅)). vm_compute. reflexivity. Qed.

Definition ex_open : @turn unit := MkTurn false false (Some (opts ex_job1)) 5 None.

Definition ex_route1 : option (@route unit) := o_routes (opts ex_job1) !! 0%nat.

Lemma dial_fits_witness :
  snd <$> connect ex_route1 (opts ex_job1) None ex_open = Some ex_upper ∧
  ((connect ex_route1 (opts ex_job1) None ex_open = None ↔ servers_of ex_route1 (opts ex_job1) = []) ∧
   ∀ o srv, connect ex_route1 (opts ex_job1) None ex_open = Some (o, srv) →
    server_ok srv ∧ srv ∈ servers_of ex_route1 (opts ex_job1) ∧
    ((0 < length (s_IP srv) ∨ s_IP srv = [])%nat →
      ∃ op, open_ ex_route1 o srv 0 = Some op ∧ (∀ name, op_tls op = Some name → name ≠ []) ∧
        let '(idle, read, write) := op_timeouts op in 0 < idle ∧ 0 < read ∧ 0 < write)).
Proof.
  split; [vm_compute; reflexivity|].
  apply (dial_fits id id 0 ex_job1 ex_route1 (opts ex_job1) ex_open 0); [apply rtc_once, ex_job1_step|reflexivity|].
  intros r Hr. by eapply list_elem_of_lookup_2.
Defined.

(** A server for TLS needs a name. *)
Example nameless : check_server ex_server = None.
Proof. reflexivity. Qed.

(** Before x.com is redirected a query has cached that it has no route. *)
Definition ex_query (domain : gostring) (s : Jobs.job (@Options unit) state) :=
  find_route (opts s) (route_caches (extra s)) domain.
Definition ex_job2 := set_caches ex_job1 (snd (ex_query (bs "x.com") ex_job1)).
Definition ex_redirects : gmap gostring gostring := {[bs "x.com" := bs "a.com"]}.
Definition ex_job3 := ex_step (ex_options ex_redirects) ex_job2.

Lemma ex_job3_step : @job_step unit id id 0 ex_job2 ex_job3.
Proof. exists no_files, (λ _, true), (LoadEvent (ex_options ex_redirects)). vm_compute. reflexivity. Qed.

Definition ex_sys2 : @sys unit := MkSys ex_job2 [opts ex_job1; zero].
Definition ex_sys3 : @sys unit := MkSys ex_job3 [opts ex_job3; opts ex_job1; zero].

Lemma ex_sys2_reach : @sys_reach unit id id 0 id ex_sys2.
Proof.
  eapply rtc_l; [by apply sys_event, ex_job1_step|]. apply rtc_once.
  apply (sys_query _ _ _ _ ex_job1 _ (opts ex_job1) (bs "x.com") (ex_query (bs "x.com") ex_job1).1
    (ex_query (bs "x.com") ex_job1).2); [by left|]. apply surjective_pairing.
Qed.

Lemma ex_sys3_reach : @sys_reach unit id id 0 id ex_sys3.
Proof. eapply rtc_r; [apply ex_sys2_reach|]. apply sys_event, ex_job3_step. Qed.

(** The cache outlives the redirects that it was filled with: routes that
    stay the same keep it, and x.com, now redirected to a.com, has no route. *)
Lemma redirect_stale :
  ∃ s, @sys_reach unit id id 0 id s ∧
    let o := opts (s_job s) in
    snd <$> (find_route o (route_caches (extra (s_job s))) (bs "x.com")).1 = None ∧
    first_allowing 0 (o_routes o) (redirected o (bs "x.com")) = Some 0%nat.
Proof. exists ex_sys3. split; [apply ex_sys3_reach|]. split; vm_compute; reflexivity. Qed.
