(* ===== verification/DnstunRoutes.v ===== *)
(** * dnstun: the route of a domain.

    The routes that the job keeps or makes anew are those of the options of
    the last LoadEvent, over the files of that moment; the worker's route of a
    domain, with its cache, is the first of them whose lines allow what the
    domain is redirected to. *)

From S2P Require Import Prelude GoStrings Url Proxy Dial Defaults Jobs AllowList AllowSpec Glob MatchSet DnsList Dns DnsAnswers Dnstun DnstunWork DnstunSpec.

Open Scope go_scope.
#[local] Arguments bs : simpl never.

(** The first index of a list with a property. *)
Definition first_with {A} (P : A → Prop) (l : list A) (i : option nat) : Prop :=
  match i with
  | Some i => (∃ a, l !! i = Some a ∧ P a) ∧ ∀ j a, (j < i)%nat → l !! j = Some a → ¬ P a
  | None => ∀ a, a ∈ l → ¬ P a
  end.

Lemma first_allowing_with {C} (routes : list (@route C)) dn :
  first_with (λ r, dns_Allow (al_list (rt_AllowList r)) dn = true) routes (first_allowing 0 routes dn).
Proof.
  assert (∀ k, match first_allowing k routes dn with
    | Some i => ∃ n, i = (k + n)%nat ∧ first_with (λ r, dns_Allow (al_list (rt_AllowList r)) dn = true) routes (Some n)
    | None => first_with (λ r, dns_Allow (al_list (rt_AllowList r)) dn = true) routes None
    end) as H.
  { induction routes as [|r routes IH]; intros k; simpl; [by intros a ?%elem_of_nil|].
    destruct (dns_Allow _ _) eqn:E.
    - exists 0%nat. split; [lia|]. split; [by exists r|lia].
    - specialize (IH (S k)). destruct (first_allowing (S k) routes dn) as [i|].
      + destruct IH as (n & -> & (a & Ha & Hp) & Hn). exists (S n). split; [lia|]. split; [by exists a|].
        intros [|j] b Hj; simpl; [intros [= <-]; by rewrite E|]. apply Hn. lia.
      + intros a [->|Ha]%elem_of_cons; [by rewrite E|]. by apply IH. }
  specialize (H 0%nat). destruct (first_allowing 0 routes dn) as [i|]; [|done]. by destruct H as (n & -> & H).
Qed.

(** The same through a relation between two lists. *)
Lemma first_with_Forall2 {A B} (R : A → B → Prop) (P : A → Prop) (Q : B → Prop) l k i :
  Forall2 R l k → (∀ a b, a ∈ l → R a b → P a ↔ Q b) → first_with P l i → first_with Q k i.
Proof.
  intros H HPQ. destruct i as [i|]; simpl.
  - intros [(a & Ha & Hp) Hn]. split.
    + destruct (Forall2_lookup_l _ _ _ _ _ H Ha) as (b & Hb & Hr). exists b. split; [done|].
      eapply HPQ; [by eapply list_elem_of_lookup_2|done..].
    + intros j b Hj Hb Hq. destruct (Forall2_lookup_r _ _ _ _ _ H Hb) as (a' & Ha' & Hr).
      apply (Hn j a' Hj Ha'). eapply HPQ; [by eapply list_elem_of_lookup_2|done..].
  - intros Hn b [j Hb]%list_elem_of_lookup Hq. destruct (Forall2_lookup_r _ _ _ _ _ H Hb) as (a' & Ha' & Hr).
    assert (a' ∈ l) as Hin by by eapply list_elem_of_lookup_2. apply (Hn a' Hin). by eapply HPQ.
Qed.

Section dnstun.
Context {C : Type} (sha1 : gostring → gostring) (hex : gostring → gostring) (fuel : nat).
Context (Fqdn : gostring → gostring).
#[local] Set Default Proof Using "Type*".

Abbreviation dnstun fs := (Dnstun.dnstun fs sha1 hex fuel) (only parsing).
Abbreviation job := (Jobs.job (@Options C) state) (only parsing).
Abbreviation job_step := (@job_step C sha1 hex fuel) (only parsing).
Abbreviation sys_step := (@sys_step C sha1 hex fuel Fqdn) (only parsing).
Abbreviation sys_reach := (@sys_reach C sha1 hex fuel Fqdn) (only parsing).

(** ** Lists *)

(** A list was made from its [What], with the files as they were. *)
Definition dt_made (l : listed) : Prop :=
  ∃ fs sum, dns_checksum fs sha1 fuel (al_What l) = Ok sum ∧ hex sum = al_Checksum l ∧
    Dnstun.init_list fs fuel (al_What l) (al_Checksum l) = Ok l.

Definition dt_route_for (r : @route C) (ro : @RouteOptions C) : Prop :=
  rt_Name r = ro_Name ro ∧ al_Checksum (rt_AllowList r) = ro_Checksum ro ∧
  Equal (rt_Proxy r) (ro_Proxy ro) = true ∧ rt_Servers r = ro_Servers ro ∧ dt_made (rt_AllowList r).

Record lists_ok (o : @Options C) : Prop := {
  lk_routes : Forall2 dt_route_for (o_routes o) (o_Routes o);
  lk_map : map_Forall (λ _ l, dt_made l) (o_allowListMap o) }.

(** What the first loop makes of a route. *)
Definition dt_named (fs : gostring → option gostring) (ro' ro : @RouteOptions C) : Prop :=
  ro_What ro' = ro_What ro ∧ ro_Proxy ro' = ro_Proxy ro ∧
  dt_checkServers (ro_Servers ro) = Some (ro_Servers ro') ∧
  ∃ sum, dns_checksum fs sha1 fuel (ro_What ro) = Ok sum ∧ hex sum = ro_Checksum ro'.

Lemma dt_name_routes fs i l l' :
  @Dnstun.name_routes C fs sha1 hex fuel i l = Ok l' → Forall2 (dt_named fs) l' l.
Proof.
  revert i l'. induction l as [|r l IH]; intros i l'; cbn [Dnstun.name_routes]; [intros [= <-]; constructor|].
  intros (r' & Hr & H)%bind_Ok. apply bind_Ok in H as (l2 & Hl & [= <-]).
  constructor; [|by eapply IH]. unfold Dnstun.name_route in Hr. cbv zeta in Hr.
  apply bind_Ok in Hr as (sum & Hs & Hr). case_bool_decide; [done|].
  apply bind_Ok in Hr as (sv & Hc & [= <-]). unfold or_err in Hc.
  destruct (dt_checkServers (ro_Servers r)) as [sv'|] eqn:E; [|done]. injection Hc as ->.
  split_and!; [done|done|exact E|by exists sum].
Qed.

Lemma dt_init_fields fs What c l : Dnstun.init_list fs fuel What c = Ok l → al_What l = What ∧ al_Checksum l = c.
Proof.
  unfold Dnstun.init_list. intros (p & _ & H)%bind_Ok. by apply bind_Ok in H as (l' & _ & [= <-]).
Qed.

Lemma dt_build_routes fs old l routes m routes' m' ros :
  map_Forall (λ _ l, dt_made l) old →
  Forall (λ ro, ∃ sum, dns_checksum fs sha1 fuel (ro_What ro) = Ok sum ∧ hex sum = ro_Checksum ro) l →
  Forall2 dt_route_for routes ros → map_Forall (λ _ l, dt_made l) m →
  @Dnstun.build_routes C fs fuel old l routes m = Ok (routes', m') →
  Forall2 dt_route_for routes' (ros ++ l) ∧ map_Forall (λ _ l, dt_made l) m'.
Proof.
  intros Hold. revert routes m ros. induction l as [|r l IH]; intros routes m ros Hl Hr Hm; cbn [Dnstun.build_routes].
  { intros [= <- <-]. by rewrite app_nil_r. }
  apply Forall_cons in Hl as [(sum & Hsum & Hhex) Hl]. intros (al & Hal & H)%bind_Ok.
  assert (dt_made al ∧ al_Checksum al = ro_Checksum r) as [Ha Hc].
  { assert (∀ al, Dnstun.init_list fs fuel (ro_What r) (ro_Checksum r) = Ok al →
      dt_made al ∧ al_Checksum al = ro_Checksum r) as Hnew.
    { intros l0 E. destruct (dt_init_fields _ _ _ _ E) as [E1 E2]. split; [|done].
      exists fs, sum. by rewrite E1, E2. }
    destruct (old !! ro_Name r) as [al0|] eqn:Eo; [|by apply Hnew].
    case_bool_decide; [|by apply Hnew]. injection Hal as <-. split; [by eapply Hold|done]. }
  apply (IH _ _ (ros ++ [r])) in H.
  - by rewrite <- app_assoc in H.
  - done.
  - apply Forall2_app; [done|]. repeat constructor; try done. by apply bool_decide_eq_true.
  - by apply map_Forall_insert_2.
Qed.

Lemma dt_routesEqual a b routes :
  Dnstun.routesEqual a b = true → Forall2 dt_route_for routes b → Forall2 dt_route_for routes a.
Proof.
  revert b routes. induction a as [|r a IH]; intros [|s b] routes; simpl; try done.
  intros [Hrs Hab]%andb_true_iff Hf. apply Forall2_cons_inv_r in Hf as (rt & rts & Hrt & Hf & ->).
  constructor; [|by eapply IH]. unfold Dnstun.route_equal in Hrs.
  rewrite !andb_true_iff, !bool_decide_eq_true in Hrs. destruct Hrs as [[[Hn Hc] He] Hv].
  destruct Hrt as (H1 & H2 & H3 & H4 & H5). unfold dt_route_for. split_and!; [congruence..| |congruence|done].
  unfold Equal in *. rewrite bool_decide_eq_true in *. congruence.
Qed.

Lemma load_rest_lists fs new old s n s' :
  lists_ok old → @load_rest C fs sha1 hex fuel new old s = (Val n, s') →
  lists_ok n ∧ Forall2 (dt_named fs) (o_Routes n) (o_Routes new) ∧ o_Redirects n = o_Redirects new.
Proof.
  intros [H1 H2]. unfold load_rest. intros E. apply bind_inv in E as [(n0 & s1 & E1 & E)|[[=] _]].
  unfold or_exit in E1. destruct (check_options _ _ _ _ new) as [n1| |] eqn:Ec; [|done..]. injection E1 as <- <-.
  apply bind_inv in E as [([[routes cache] m] & s2 & E2 & E)|[[=] _]].
  apply bind_inv in E as [(dns & s3 & E3 & E)|[[=] _]]. injection E as <- <-.
  unfold check_options in Ec. apply bind_Ok in Ec as (servers & _ & Ec). apply bind_Ok in Ec as (Routes & HR & Ec).
  destruct (_ && _) in Ec; [done|]. injection Ec as <-. apply dt_name_routes in HR.
  assert (Forall (λ ro, ∃ sum, dns_checksum fs sha1 fuel (ro_What ro) = Ok sum ∧ hex sum = ro_Checksum ro) Routes) as Hs.
  { apply Forall_forall. intros ro [j Hj]%list_elem_of_lookup.
    destruct (Forall2_lookup_l _ _ _ _ _ HR Hj) as (ro0 & _ & W & _ & _ & Hsum). by rewrite W. }
  cbn [o_Routes with_servers] in E2. split; [|done]. revert E2. destruct (Dnstun.routesEqual _ _) eqn:Er.
  { intros [= <- <- <- <-]. split; simpl; [by eapply dt_routesEqual|done]. }
  intros E2. apply bind_inv in E2 as [([routes' m'] & s4 & E4 & E2)|[[=] _]]. unfold or_exit in E4.
  destruct (Dnstun.build_routes _ _ _ _ _ _) as [[r2 m2]| |] eqn:Eb; [|done..]. injection E4 as -> -> <-.
  apply bind_inv in E2 as [(cache' & s5 & E5 & E2)|[[=] _]]. injection E2 as <- <- <- <-.
  destruct (dt_build_routes _ _ _ _ _ _ _ [] H2 Hs (Forall2_nil_2 _ _ _) (map_Forall_empty _) Eb) as [R1 R2].
  by split.
Qed.

Lemma load_lists fs listen new s s' :
  lists_ok (opts s) → @handle _ _ (dnstun fs) listen (LoadEvent new) s = (Val tt, s') →
  lists_ok (opts s') ∧ Forall2 (dt_named fs) (o_Routes (opts s')) (o_Routes new) ∧
  o_Redirects (opts s') = o_Redirects new.
Proof.
  intros Ho E. apply load_inv in E as (n & t1 & t2 & _ & _ & El & _). by eapply load_rest_lists.
Qed.

Lemma sys_lists s : sys_reach s → lists_ok (opts (s_job s)).
Proof.
  intros Hr. assert (lists_ok (opts (s_job (sys_start (C := C))))) as H0 by (split; [constructor|apply map_Forall_empty]).
  unfold sys_reach in Hr. revert H0. induction Hr as [|s1 s2 s3 Hs _ IH]; [done|]. intros H1. apply IH. clear IH.
  destruct Hs as [s s' seen Hs|s seen o d r cs Ho Hf|s seen o route1 conn q now ts conn' r ds Ho Ht He]; [|done..].
  simpl in *. destruct (job_step_cases _ _ _ _ _ Hs) as [[-> _]|(fs & listen & new & E)]; [done|].
  by apply (load_lists fs listen new s).
Qed.

(** ** The route of a domain *)

(** A line of the list of a route, or of the files it includes, allows the
    domain, and no line marked with "!" does. *)
Definition allows (fs : gostring → option gostring) (domain : gostring) (ro : @RouteOptions C) : Prop :=
  ∃ lines, expand fs fuel (bs ".") (AllowList.scan (ro_What ro)) [] = Ok lines ∧
    (∃ pat, pat ∈ line_domains false lines ∧ pattern_spec (tokens pat) domain = true) ∧
    ¬ ∃ pat, pat ∈ line_domains true lines ∧ pattern_spec (tokens pat) domain = true.

(** The patterns of a route are plain, not too long and clear of the domain. *)
Definition fit_for (fs : gostring → option gostring) (domain : gostring) (ro : @RouteOptions C) : Prop :=
  ∀ p, dns_parse fs fuel (ro_What ro) = Ok p →
    domains_usable (elements (includes p)) domain ∧ domains_usable (elements (excludes p)) domain.

Definition collision : Prop := ∃ x y, x ≠ y ∧ sha1 x = sha1 y.

Lemma made_allows fs ro rt ro' domain :
  (∀ a b, hex a = hex b → a = b) →
  dt_named fs ro' ro → dt_route_for rt ro' → fit_for fs domain ro →
  (dns_Allow (al_list (rt_AllowList rt)) domain = true ↔ allows fs domain ro) ∨ collision.
Proof.
  intros Hhex (W & _ & _ & sum & S1 & S2) (_ & Hc & _ & _ & fs0 & sum' & M1 & M2 & M3) Hfit.
  assert (sum' = sum) as -> by (apply Hhex; congruence).
  destruct (dns_checksum_parse fs fs0 sha1 fuel fuel _ _ _ S1 M1) as [P|P]; [left|by right].
  unfold Dnstun.init_list in M3. rewrite <- P in M3. apply bind_Ok in M3 as (p & Hp & M3).
  apply bind_Ok in M3 as (l & Hl & M3). unfold or_stuck in Hl. destruct (dns_Init _ _) as [l'|] eqn:Ei; [|done].
  injection Hl as ->. injection M3 as M3. rewrite <- M3. cbn [al_list]. destruct (Hfit p Hp) as [U1 U2].
  destruct (dns_Allow_correct fs fuel (ro_What ro) p _ _ l domain Hp (reflexivity _) (reflexivity _) Ei U1 U2)
    as (lines & El & H). rewrite H. unfold allows. split; [intros ?; by exists lines|].
  intros (lines' & El' & H'). rewrite El in El'. by injection El' as <-.
Qed.

(** C28: after any reloads and queries, and any further reloads and queries
    after a LoadEvent, the route of a domain for the options of that LoadEvent
    is the first of its Routes for whose lines, in the files of that moment, a
    pattern not marked with "!" matches what the domain is redirected to and
    none that is marked does, or none when there is no such route; the routes
    have the proxies and the checked servers of their entries. This is up to a
    collision of the hash, as long as no options that share the cache redirect
    the domain elsewhere, and for patterns that are plain, at most 55040 bytes
    together and clear of the corner cases of dots (`domains_usable`); hex is
    assumed to be injective. *)
Theorem route_current s seen fs listen new s' t domain r cs :
  (∀ a b, hex a = hex b → a = b) → sys_reach (MkSys s seen) →
  @handle _ _ (dnstun fs) listen (LoadEvent new) s = (Val tt, s') →
  rtc sys_step (MkSys s' (opts s' :: seen)) t →
  (∀ o', o' ∈ s_seen t → o_routeCache o' = o_routeCache (opts s') → redirected o' domain = redirected new domain) →
  Forall (fit_for fs (redirected new domain)) (o_Routes new) →
  find_route (opts s') (route_caches (extra (s_job t))) domain = (r, cs) →
  first_with (allows fs (redirected new domain)) (o_Routes new) (snd <$> r) ∧
    Forall2 (λ rt ro, Equal (rt_Proxy rt) (ro_Proxy ro) = true ∧
      dt_checkServers (ro_Servers ro) = Some (rt_Servers rt)) (o_routes (opts s')) (o_Routes new) ∨
  collision.
Proof.
  intros Hhex Hr E Ht Hsame Hfit Hf.
  assert (sys_step (MkSys s seen) (MkSys s' (opts s' :: seen))) as Hstep.
  { apply sys_event. exists fs, listen, (LoadEvent new). exact E. }
  assert (sys_reach t) as Hrt by (unfold DnstunSpec.sys_reach in *; transitivity (MkSys s' (opts s' :: seen)); [by eapply rtc_r|done]).
  destruct (load_lists _ _ _ _ _ (sys_lists _ Hr) E) as ([L1 _] & L2 & L3).
  assert (redirected (opts s') domain = redirected new domain) as Hred by (unfold redirected; by rewrite L3).
  assert (opts s' ∈ s_seen t) as Hin.
  { clear -Ht. assert (opts s' ∈ s_seen (MkSys s' (opts s' :: seen))) as H0 by left. revert H0.
    induction Ht as [|t1 t2 t3 Hs _ IH]; [done|]. intros H0. apply IH. destruct Hs; simpl in *; [by right|done..]. }
  rewrite <- Hred in Hsame. pose proof (find_route_first _ _ _ _ _ _ _ _ _ Hrt Hin Hf Hsame) as Hfirst. rewrite Hred in *.
  assert (Forall2 (λ rt ro, ∃ ro', dt_route_for rt ro' ∧ dt_named fs ro' ro) (o_routes (opts s')) (o_Routes new)) as H2.
  { clear -L1 L2. revert L2. generalize (o_Routes new). induction L1 as [|rt ro' rts ros' H1 _ IH]; intros ros L2.
    - apply Forall2_nil_inv_l in L2 as ->. constructor.
    - apply Forall2_cons_inv_l in L2 as (ro & ros2 & H2 & L2 & ->). constructor; [by exists ro'|by apply IH]. }
  assert (collision ∨ Forall2 (λ rt ro, dns_Allow (al_list (rt_AllowList rt)) (redirected new domain) = true ↔
    allows fs (redirected new domain) ro) (o_routes (opts s')) (o_Routes new)) as [Hc|H3].
  { clear -H2 Hfit Hhex. induction H2 as [|rt ro rts ros (ro' & R1 & R2) _ IH]; [right; constructor|].
    apply Forall_cons in Hfit as [F1 F2]. destruct (made_allows _ _ _ _ _ Hhex R2 R1 F1) as [H|H]; [|by left].
    destruct (IH F2); [by left|right; by constructor]. }
  - by right.
  - left. split.
    + rewrite Hfirst. eapply first_with_Forall2; [exact H3| |apply first_allowing_with]. intros a b _ H. exact H.
    + eapply Forall2_impl; [exact H2|]. intros rt ro (ro' & (_ & _ & P1 & P2 & _) & _ & P3 & P4 & _).
      by rewrite <- P3, P2.
Qed.
End dnstun.

(** ** Witness: a.com has the first route. *)

Lemma route_current_witness :
  let '(r, cs) := ex_query (bs "a.com") ex_job2 in
  r = Some (0, 0)%nat ∧
  (first_with (allows 0 no_files (bs "a.com")) (o_Routes (ex_options ∅)) (snd <$> r)).
Proof.
  destruct (ex_query (bs "a.com") ex_job2) as [r cs] eqn:E. split.
  { change r with (r, cs).1. rewrite <- E. vm_compute. reflexivity. }
  destruct (route_current (C := unit) id id 0 id job_start [zero] no_files (λ _, true) (ex_options ∅) ex_job1 ex_sys2
    (bs "a.com") r cs) as [[H _]|(x & y & Hne & Hx)];
    [by intros|apply rtc_refl|vm_compute; reflexivity| | | |exact E|exact H|by destruct Hne].
  - apply rtc_once.
    apply (sys_query _ _ _ _ ex_job1 _ (opts ex_job1) (bs "x.com") (ex_query (bs "x.com") ex_job1).1
      (ex_query (bs "x.com") ex_job1).2); [by left|]. apply surjective_pairing.
  - intros o' [->|[->|[]%elem_of_nil]%elem_of_cons]%elem_of_cons; [done|]. vm_compute. discriminate.
  - apply Forall_singleton. intros p Hp. vm_compute in Hp. injection Hp as <-. split; by_compute.
Defined.
