(* ===== verification/DnstunCache.v ===== *)
(** * dnstun: the cache of answers.

    What a cached answer is, after any reloads and queries: made with the
    redirects, the TTL bounds and the IPv4.Only of the options that it is used
    with, since a reload that changes one of them makes a new cache. *)

From S2P Require Import Prelude GoStrings Addr Url Proxy Dial Defaults Jobs DnsList Dns DnsAnswers Dnstun DnstunWork DnstunSpec.

Open Scope go_scope.
#[local] Arguments bs : simpl never.

(** [Answers z t m]: [m] is what a server answers to a question for [z] of
    type [t]. *)
Section made.
Context {C : Type} (sha1 : gostring → gostring) (hex : gostring → gostring) (fuel : nat).
Context (Fqdn : gostring → gostring) (Answers : gostring → Z → Msg → Prop).
#[local] Set Default Proof Using "Type*".

Abbreviation Options := (@Options C) (only parsing).

(** The options that an answer depends on. *)
Definition same_answers (o o' : Options) : Prop :=
  settings_of o = settings_of o' ∧ o_Redirects o = o_Redirects o'.

(** What a message of a server becomes with these options. *)
Definition answered (o : Options) (q : query) (m : Msg) : Prop :=
  msg_ok m ∧ Answers (asked Fqdn (o_Redirects o) (q_Fqdn q)) (q_Qtype q) m.

Definition made_by (o : Options) (key : gostring * Z) (r : result) : Prop :=
  ∃ q m t, (q_Fqdn q, q_Qtype q) = key ∧ answered o q m ∧ r = answer_of Fqdn o q m t.

Lemma made_by_same o o' key r : same_answers o o' → made_by o key r → made_by o' key r.
Proof.
  intros [E1 E2] (q & m & t & ? & H & ->). exists q, m, t. unfold answered in *. rewrite <- E2.
  split; [done|]. split; [done|]. unfold answer_of. by rewrite E1, E2.
Qed.

Record answers_ok (s : @sys C) : Prop := {
  an_off : o_Cache (opts (s_job s)) = false → o_dnsCache (opts (s_job s)) = None;
  an_opts : opts (s_job s) ∈ s_seen s;
  an_bound : ∀ o p, o ∈ s_seen s → o_dnsCache o = Some p → (p < length (dns_caches (extra (s_job s))))%nat;
  an_same : ∀ o1 o2 p, o1 ∈ s_seen s → o2 ∈ s_seen s →
    o_dnsCache o1 = Some p → o_dnsCache o2 = Some p → same_answers o1 o2;
  an_made : ∀ o p key r, o ∈ s_seen s → o_dnsCache o = Some p →
    (dns_caches (extra (s_job s)) !!! p) !! key = Some r → made_by o key r }.

(** What a LoadEvent does to the cache: it stays with the options that its
    answers depend on, or is off, or new. *)
Lemma load_rest_dns fs new old s n s' :
  @load_rest C fs sha1 hex fuel new old s = (Val n, s') →
  (o_Cache old = false → o_dnsCache old = None) →
  (o_Cache n = false → o_dnsCache n = None) ∧
  (same_answers n old ∧ o_dnsCache n = o_dnsCache old ∧ dns_caches (extra s') = dns_caches (extra s) ∨
   o_dnsCache n = None ∧ dns_caches (extra s') = dns_caches (extra s) ∨
   o_dnsCache n = Some (length (dns_caches (extra s))) ∧
     dns_caches (extra s') = dns_caches (extra s) ++ [∅]).
Proof.
  intros E Hoff. unfold load_rest in E. apply bind_inv in E as [(n0 & s1 & E1 & E)|[[=] _]].
  unfold or_exit in E1. destruct (check_options _ _ _ _ new) as [n1| |]; [|done..]. injection E1 as <- <-.
  apply bind_inv in E as [([[routes cache] m] & s2 & E2 & E)|[[=] _]].
  apply bind_inv in E as [(dns & s3 & E3 & E)|[[=] _]]. injection E as <- <-.
  assert (dns_caches (extra s2) = dns_caches (extra s)) as H2.
  { revert E2. destruct (routesEqual _ _); [by intros [= <- <- <- <-]|]. intros E2.
    apply bind_inv in E2 as [([routes' m'] & s4 & E4 & E2)|[[=] _]]. unfold or_exit in E4.
    destruct (build_routes _ _ _ _ _ _) as [[r2 m2]| |] ; [|done..]. injection E4 as -> -> <-.
    apply bind_inv in E2 as [(cache' & s5 & E5 & E2)|[[=] _]]. injection E2 as <- <- <- <-.
    destruct routes'; injection E5 as <- <-; done. }
  rewrite <- H2. revert E3. cbn [o_Cache o_dnsCache with_routes].
  set (kept := if eqb (o_Cache n1) (o_Cache old) then o_dnsCache old else None).
  destruct (o_Cache n1 && _) eqn:Eb.
  { apply andb_prop in Eb as [Ec _]. rewrite Ec. intros [= <- <-]. split; [done|]. by right; right. }
  intros [= <- <-]. split.
  { intros Hc. subst kept. rewrite Hc. destruct (o_Cache old) eqn:Eo; [done|]. by apply Hoff. }
  destruct kept as [p|] eqn:Ek; [|by right; left]. left. subst kept.
  destruct (eqb (o_Cache n1) (o_Cache old)) eqn:Eq; [|done]. apply eqb_prop in Eq.
  destruct (o_Cache n1) eqn:Ec; [|by rewrite Hoff in Ek by done].
  simpl in Eb. unfold shouldResetDNSCache in Eb. rewrite !orb_false_iff, !negb_false_iff, !bool_decide_eq_true in Eb.
  destruct Eb as (((((H3 & H4) & H5) & _) & _) & H6). apply eqb_prop in H3.
  split_and!; [|done..]. split; [|done]. unfold settings_of. simpl. congruence.
Qed.

Lemma keep_answers s seen o :
  answers_ok (MkSys s seen) → same_answers o (opts s) → o_dnsCache o = o_dnsCache (opts s) →
  ∀ o1 p, o1 ∈ o :: seen → o_dnsCache o1 = Some p →
    ∃ o', o' ∈ seen ∧ o_dnsCache o' = Some p ∧ same_answers o' o1.
Proof.
  intros [_ H1 _ _ _] [E1 E2] Ec o1 p [->|Ho]%elem_of_cons Hp; [|by exists o1].
  exists (opts s). simpl in H1. split_and!; [done|congruence|]. by split.
Qed.

(** Options that share their caches with options seen before. *)
Lemma share_answers s s' seen :
  answers_ok (MkSys s seen) → (o_Cache (opts s') = false → o_dnsCache (opts s') = None) →
  dns_caches (extra s') = dns_caches (extra s) →
  (∀ o1 p, o1 ∈ opts s' :: seen → o_dnsCache o1 = Some p →
    ∃ o', o' ∈ seen ∧ o_dnsCache o' = Some p ∧ same_answers o' o1) →
  answers_ok (MkSys s' (opts s' :: seen)).
Proof.
  intros [H0 H1 H2 H3 H4] Hoff Hc Hs. simpl in *. split; simpl; [done|by left|..].
  - intros o p Ho Hp. rewrite Hc. destruct (Hs _ _ Ho Hp) as (o' & ? & ? & _). by eapply H2.
  - intros o1 o2 p I1 I2 P1 P2.
    destruct (Hs _ _ I1 P1) as (q1 & Q1 & Q2 & [S1 S2]), (Hs _ _ I2 P2) as (q2 & Q3 & Q4 & [S3 S4]).
    destruct (H3 q1 q2 p Q1 Q3 Q2 Q4). split; congruence.
  - intros o p key r Ho Hp. rewrite Hc. destruct (Hs _ _ Ho Hp) as (o' & ? & ? & ?). intros Hr.
    eapply made_by_same; [done|]. by eapply H4.
Qed.

Lemma event_answers s s' seen :
  answers_ok (MkSys s seen) → @job_step C sha1 hex fuel s s' → answers_ok (MkSys s' (opts s' :: seen)).
Proof.
  intros H Hs. pose proof H as [H0 H1 H2 H3 H4]. simpl in *.
  destruct (job_step_cases _ _ _ _ _ Hs) as [[E1 E2]|(fs & listen & new & E)].
  { apply (share_answers s); [done|by rewrite E1|by rewrite E2|]. apply (keep_answers s); [done|by rewrite E1..]. }
  apply load_inv in E as (n & t1 & t2 & _ & X1 & El & X2).
  destruct (load_rest_dns _ _ _ _ _ _ El H0) as [Hoff Hc]. rewrite X1, <- X2 in Hc.
  destruct Hc as [(C1 & C2 & C3)|[(C1 & C3)|(C1 & C3)]].
  - apply (share_answers s); [done..|]. by apply (keep_answers s).
  - apply (share_answers s); [done..|]. intros o1 p [->|Ho]%elem_of_cons Hp; [congruence|by exists o1].
  - assert (∀ o, o ∈ seen → o_dnsCache o ≠ Some (length (dns_caches (extra s)))) as Hn.
    { intros o Ho Hp. specialize (H2 _ _ Ho Hp). lia. }
    split; simpl; [done|by left|..]; rewrite ?C3.
    + intros o p [->|Ho]%elem_of_cons Hp; rewrite length_app; simpl; [|specialize (H2 _ _ Ho Hp); lia].
      rewrite C1 in Hp. injection Hp as <-. lia.
    + intros o1 o2 p [->|I1]%elem_of_cons [->|I2]%elem_of_cons P1 P2.
      * by split.
      * rewrite C1 in P1. injection P1 as <-. by destruct (Hn _ I2).
      * rewrite C1 in P2. injection P2 as <-. by destruct (Hn _ I1).
      * by eapply H3.
    + intros o p key r [->|Ho]%elem_of_cons Hp.
      * rewrite C1 in Hp. injection Hp as <-. rewrite lookup_total_app_r, Nat.sub_diag by lia. simpl.
        by rewrite lookup_empty.
      * rewrite lookup_total_app_l by by eapply H2. by apply H4.
Qed.

(** A cache with an answer more. *)
Lemma store_answers s seen o q m t r :
  answers_ok (MkSys s seen) → o ∈ seen → answered o q m → r = answer_of Fqdn o q m t →
  answers_ok (MkSys (set_answers s
    (Store (dns_caches (extra s)) (o_dnsCache o) (q_Fqdn q, q_Qtype q) r)) seen).
Proof.
  intros H Ho Hm Er. pose proof H as [H0 H1 H2 H3 H4]. simpl in *.
  assert (answers_ok (MkSys (set_answers s (dns_caches (extra s))) seen)) as Hsame by by split.
  unfold Store. destruct (o_dnsCache o) as [p|] eqn:Ep; [|done]. destruct (Deadline r); [|done].
  pose proof (H2 _ _ Ho Ep) as Hp.
  split; simpl; [done..| |done|]; [intros; rewrite length_insert; by eapply H2|].
  intros o1 p1 key r2 Ho1 Hp1. destruct (decide (p = p1)) as [<-|Hne].
  2:{ rewrite list_lookup_total_insert_ne by done. by apply H4. }
  rewrite list_lookup_total_insert_eq by done.
  destruct (decide ((q_Fqdn q, q_Qtype q) = key)) as [<-|Hk].
  - rewrite lookup_insert_eq. intros [= <-]. eapply made_by_same; [by eapply (H3 o o1)|].
    exists q, m, t. done.
  - rewrite lookup_insert_ne by done. by apply H4.
Qed.

Lemma cached_lookup o ds q now r :
  @cached C o ds q now = Some r →
  fresh r now = true ∧ ∃ p, o_dnsCache o = Some p ∧ (ds !!! p) !! (q_Fqdn q, q_Qtype q) = Some r.
Proof.
  unfold cached. intros (r0 & Hl & H)%bind_Some. destruct (fresh r0 now) eqn:Ef; [|done]. injection H as ->.
  split; [done|]. unfold Load in Hl. destruct (o_dnsCache o) as [p|]; [by exists p|done].
Qed.
End made.

Section cache.
Context {C : Type} (sha1 : gostring → gostring) (hex : gostring → gostring) (fuel : nat).
Context (Fqdn : gostring → gostring).
#[local] Set Default Proof Using "Type*".

Abbreviation sys_reach := (@sys_reach C sha1 hex fuel Fqdn) (only parsing).
Abbreviation answers_ok := (@answers_ok C Fqdn (λ _ _ _, True)) (only parsing).

Lemma answer_answers s seen o route1 conn q now ts conn' r ds :
  answers_ok (MkSys s seen) → o ∈ seen → Forall (turn_ok seen) ts →
  exchange_query Fqdn route1 o conn (dns_caches (extra s)) q now ts = Some (conn', r, ds) →
  answers_ok (MkSys (set_answers s ds) seen).
Proof.
  intros H Ho Hts. unfold exchange_query. rewrite Forall_forall in Hts.
  assert (answers_ok (MkSys (set_answers s (dns_caches (extra s))) seen)) as Hsame by (by destruct H; split).
  destruct (cached _ _ _ _); [by intros [= _ _ <-]|].
  destruct (resolve _ _ _ _ _ _) as [o' conn1 r1|conn1| |] eqn:Er; [|by intros [= _ _ <-]|done..].
  intros [= _ _ <-]. apply resolve_answered in Er as [Hin (t & m & t0 & Ht & Ha & ->)].
  eapply store_answers; [done| | |done]; [|by split; [apply (proj2 (Hts _ Ht) m t0)|]].
  destruct Hin as [->|(t' & Ht' & E)]; [done|]. by apply (proj1 (Hts _ Ht')).
Qed.

Lemma sys_answers s : sys_reach s → answers_ok s.
Proof.
  intros Hr. assert (answers_ok (@sys_start C)) as H0.
  { split; simpl; [done|by left|..].
    - by intros o p [->|?%elem_of_nil]%elem_of_cons.
    - by intros o1 o2 p [->|?%elem_of_nil]%elem_of_cons.
    - by intros o p key r [->|?%elem_of_nil]%elem_of_cons. }
  induction Hr as [|s1 s2 s3 Hs _ IH]; [done|]. apply IH. destruct Hs.
  - by eapply event_answers.
  - destruct H0 as [? ? ? ? ?]. split; done.
  - by eapply answer_answers.
Qed.

(** C29: after any reloads and queries, a cached answer that is used for a
    query was built for its name with the redirects, TTL bounds and IPv4.Only
    of the options at hand; when it was looked up its deadline was not
    reached, which is not after the end of any of its records; and it is
    written, when the clock is read again, with every TTL less the whole
    seconds that have passed since it was made, 0 when they are more, and so
    above 0 as long as the deadline is not reached at that second reading
    either. Side conditions: the clock does not go back, and fewer than 2^32
    seconds have passed. *)
Theorem answer_current s o q now later r ID :
  sys_reach s → o ∈ s_seen s → cached o (dns_caches (extra (s_job s))) q now = Some r →
  Time r <= now <= later → later < Time r + 2 ^ 32 * second →
  (∃ question m,
     r = build_result (settings_of o) (asked Fqdn (o_Redirects o) (q_Fqdn q)) (q_Fqdn q) question m (Time r)) ∧
  (∃ d, Deadline r = Some d ∧ now < d ∧
     ∀ rr h, rr ∈ RRs (Message r) → rr_header rr = Some h → d <= Time r + h_TTL h * second) ∧
  Forall2 (aged (Time r) later) (RRs (Message r)) (RRs (reply ID later r)) ∧
  (∀ d, Deadline r = Some d → later < d →
     ∀ rr h, rr ∈ RRs (reply ID later r) → rr_header rr = Some h → 0 < h_TTL h).
Proof.
  intros Hr%sys_answers Ho (Hf & p & Hp & Hl)%cached_lookup Ht Hlate.
  destruct (an_made _ _ _ Hr _ _ _ _ Ho Hp Hl) as (q' & m & t & Hk & [Hm _] & Er). injection Hk as Hq _.
  unfold answer_of in Er. rewrite Hq in Er. assert (Time r = t) as Etime by (by rewrite Er, build_result_eq).
  assert (∀ d, Deadline r = Some d → ∀ rr h, rr ∈ RRs (Message r) → rr_header rr = Some h →
    d <= Time r + h_TTL h * second) as Hdead.
  { intros d Ed rr h. rewrite Etime. rewrite Er in Ed |- *. by apply build_result_deadline. }
  assert (Forall2 (aged (Time r) later) (RRs (Message r)) (RRs (reply ID later r))) as Haged.
  { apply reply_aged; [lia|]. intros rr h Hin Hh. rewrite Er in Hin. apply build_result_rrs in Hin as (rr0 & Hin & ->).
    unfold rewrite_rr in Hh. destruct (rr_header rr0) as [h0|] eqn:E0; [|congruence]. injection Hh as <-. simpl.
    unfold msg_ok in Hm. rewrite Forall_forall in Hm. by apply clamp_u32, (Hm rr0). }
  split_and!; [exists (q_Question q'), m; by rewrite Etime| |done|].
  - unfold fresh in Hf. destruct (Deadline r) as [d|]; [|done]. exists d. apply Z.ltb_lt in Hf. split_and!; eauto.
  - intros d Ed Hlt rr' h' Hin Hh'. apply list_elem_of_lookup in Hin as [n Hn].
    destruct (Forall2_lookup_r _ _ _ _ _ Haged Hn) as (rr & Hrr & Ha).
    assert (∃ h, rr_header rr = Some h) as [h Hh].
    { destruct Ha as [_ Ha]. destruct (rr_header rr) as [h|]; [by exists h|congruence]. }
    eapply aged_alive; [done..|]. pose proof (Hdead _ Ed rr h). apply list_elem_of_lookup_2 in Hrr. naive_solver lia.
Qed.
End cache.

(** ** A run: a server answers a query for x.com with two records *)

Definition ex_msg : Msg :=
  MkMsg 7 [(bs "x.com.", 1)]
    [MkRR (Some (MkHeader (bs "x.com.") 300)) (RA (Addr4 16909060)); MkRR (Some (MkHeader (bs "x.com.") 60)) ROther] [].
Definition ex_q : query := MkQuery (bs "x.com.") 1 [(bs "x.com.", 1)].
Definition ex_turn : @turn unit := MkTurn false false (Some (opts ex_job1)) 0 (Some (ex_msg, 1000 * second)).

Definition ex_exchange : option (option DNServer * option result * list (gmap (gostring * Z) result)) :=
  exchange_query id ex_route1 (opts ex_job1) None (dns_caches (extra ex_job1)) ex_q (1000 * second) [ex_turn].

Definition ex_answers : list (gmap (gostring * Z) result) :=
  match ex_exchange with Some (_, _, ds) => ds | None => [] end.

Definition ex_cached : result := answer_of id (opts ex_job1) ex_q ex_msg (1000 * second).

Lemma ex_exchange_eq : ex_exchange = Some (Some ex_upper, Some ex_cached, ex_answers).
Proof. vm_compute. reflexivity. Qed.

Definition ex_sys4 : @sys unit := MkSys (set_answers ex_job1 ex_answers) [opts ex_job1; zero].

Lemma ex_sys4_reach : @sys_reach unit id id 0 id ex_sys4.
Proof.
  eapply rtc_l; [by apply sys_event, ex_job1_step|]. apply rtc_once.
  eapply (sys_answer _ _ _ _ ex_job1 _ (opts ex_job1)); [by left| |exact ex_exchange_eq].
  constructor; [|by constructor]. split.
  - intros o Ho. apply (inj Some (opts ex_job1)) in Ho. rewrite <- Ho. by left.
  - intros m now Ha. apply (inj Some (ex_msg, 1000 * second)) in Ha. injection Ha as <- _.
    unfold msg_ok, RRs. simpl. repeat (apply Forall_cons_2; [intros h [= <-]; simpl; lia|]). by apply Forall_nil_2.
Qed.

(** Half a minute later it is used: 270 and 30 seconds are left. *)
Lemma answer_current_witness :
  cached (opts ex_job1) ex_answers ex_q (1030 * second) = Some ex_cached ∧
  Forall2 (aged (Time ex_cached) (1030 * second)) (RRs (Message ex_cached)) (RRs (reply 9 (1030 * second) ex_cached)).
Proof.
  assert (cached (opts ex_job1) ex_answers ex_q (1030 * second) = Some ex_cached) as Hc by (vm_compute; reflexivity).
  split; [exact Hc|].
  apply (answer_current id id 0 id ex_sys4 (opts ex_job1) ex_q (1030 * second) (1030 * second) ex_cached 9 ex_sys4_reach);
    [by left|exact Hc|split; vm_compute; discriminate|vm_compute; reflexivity].
Defined.

Example ex_reply :
  (λ rr, h_TTL <$> rr_header rr) <$> RRs (reply 9 (1030 * second) ex_cached) = [Some 270; Some 30].
Proof. vm_compute. reflexivity. Qed.

(** The clock is read twice: what is found just before its end may be written
    with nothing left. *)
Example ex_ended :
  cached (opts ex_job1) ex_answers ex_q (1060 * second - 1) = Some ex_cached ∧
  (λ rr, h_TTL <$> rr_header rr) <$> RRs (reply 9 (1060 * second) ex_cached) = [Some 240; Some 0].
Proof. vm_compute. done. Qed.
