(* ===== verification/V2socks.v ===== *)
(** * The options of v2socks (service/socks/v2socks/v2socks.go).

    From the URL or the fields of a job to the configuration of an outbound:
    parseOptions but for the template, which is a parameter where the service
    uses it (V2socksRun.v).  The fields that parsing touches are [outbound].
    Nil and empty slices are not told apart; ToUpper and ToLower are of
    ASCII. *)

From S2P Require Import Prelude GoStrings Url Proxy.

Open Scope go_scope.
#[local] Arguments bs : simpl never.

Record HostportOptions := MkHostport { Address : gostring; Port_ : Z }.

Record ShadowsocksOptions := MkSS { ss_hp : HostportOptions; ss_Method : gostring; ss_Password : gostring }.

Record Shadowsocks2022Options := MkSS22 {
  s22_hp : HostportOptions; s22_Method : gostring; s22_PSK : gostring; s22_IPSK : list gostring }.

Record TrojanOptions := MkTrojan { tj_hp : HostportOptions; tj_Password : gostring }.

(** Of VLESS and of VMESS. *)
Record UserOptions := MkUser { us_hp : HostportOptions; us_UUID : gostring }.

Record ProtocolOptions := MkProtocol {
  SHADOWSOCKS : ShadowsocksOptions; SHADOWSOCKS2022 : Shadowsocks2022Options;
  TROJAN : TrojanOptions; VLESS : UserOptions; VMESS : UserOptions }.

Record TransportOptions := MkTransport {
  GRPC_ServiceName : gostring;
  HTTPUPGRADE_Path : gostring; HTTPUPGRADE_Host : gostring;
  WS_Path : gostring; WS_Header : list (gostring * gostring) }.

Record SecurityOptions := MkSecurity {
  TLS_ServerName : gostring; TLS_Certificate : list (gostring * gostring); TLS_CertFile : gostring }.

Record outbound := MkOutbound {
  Type_ : gostring; Protocol : gostring; Transport : gostring; Security : gostring;
  po : ProtocolOptions; to : TransportOptions; so : SecurityOptions }.

#[export] Instance outbound_eq_dec : EqDecision outbound.
Proof.
  assert (EqDecision HostportOptions) by solve_decision.
  assert (EqDecision ShadowsocksOptions) by solve_decision.
  assert (EqDecision Shadowsocks2022Options) by solve_decision.
  assert (EqDecision TrojanOptions) by solve_decision. assert (EqDecision UserOptions) by solve_decision.
  assert (EqDecision ProtocolOptions) by solve_decision. assert (EqDecision TransportOptions) by solve_decision.
  assert (EqDecision SecurityOptions) by solve_decision. solve_decision.
Defined.

#[export] Instance Hostport_eq_dec : EqDecision HostportOptions.
Proof. solve_decision. Defined.

Definition no_hp : HostportOptions := MkHostport [] 0.
Definition no_outbound : outbound :=
  MkOutbound [] [] [] []
    (MkProtocol (MkSS no_hp [] []) (MkSS22 no_hp [] [] []) (MkTrojan no_hp []) (MkUser no_hp []) (MkUser no_hp []))
    (MkTransport [] [] [] [] []) (MkSecurity [] [] []).

(** Assignments to fields. *)
Definition with_types (ob : outbound) (p t s : gostring) : outbound :=
  MkOutbound (Type_ ob) p t s (po ob) (to ob) (so ob).
Definition with_po (ob : outbound) (Type_ : gostring) (po : ProtocolOptions) : outbound :=
  MkOutbound Type_ (Protocol ob) (Transport ob) (Security ob) po (to ob) (so ob).
Definition with_to (ob : outbound) (to : TransportOptions) : outbound :=
  MkOutbound (Type_ ob) (Protocol ob) (Transport ob) (Security ob) (po ob) to (so ob).
Definition with_so (ob : outbound) (so : SecurityOptions) : outbound :=
  MkOutbound (Type_ ob) (Protocol ob) (Transport ob) (Security ob) (po ob) (to ob) so.

Definition normalizeMethod (s : gostring) : gostring := ReplaceByte (ToLower s) 95 45.

Definition decodeBase64String : gostring → option gostring := Proxy.decodeBase64String.

(** ** URLs *)

Section parse.
Context (netip_ParseAddr : gostring → option bool).

Definition isIPAddress (hostname : gostring) : bool :=
  match netip_ParseAddr hostname with Some _ => true | None => false end.

(** The URL with a user: as it is, or in base64 after the scheme. *)
Definition ss_url (rawURL : gostring) : option (URL * (gostring * option gostring)) :=
  u ← Parse netip_ParseAddr rawURL;
  match u_User u with
  | Some user => Some (u, user)
  | None =>
      data ← decodeBase64String (u_Host u);
      u ← Parse netip_ParseAddr (u_Scheme u ++ bs "://" ++ data);
      user ← u_User u;
      Some (u, user)
  end.

Definition ss_credentials (user : gostring * option gostring) : option (gostring * gostring) :=
  match user with
  | (method, Some password) => Some (method, password)
  | (method, None) =>
      data ← decodeBase64String method;
      let '(method, password, ok) := Cut data 58 in
      if ok : bool then Some (method, password) else None
  end.

Definition ss_methods : list gostring :=
  [bs "aes-128-gcm"; bs "aes-256-gcm"; bs "chacha20-poly1305"; bs "chacha20-ietf-poly1305"].
Definition ss2022_methods : list gostring := [bs "2022-blake3-aes-128-gcm"; bs "2022-blake3-aes-256-gcm"].

Definition parseShadowsocksURL (rawURL : gostring) (ob : outbound) : option outbound :=
  '(u, user) ← ss_url rawURL;
  '(method, password) ← ss_credentials user;
  let p := po ob in
  if bool_decide (normalizeMethod method ∈ ss_methods) then
    Some (with_po ob (bs "SHADOWSOCKS")
      (MkProtocol (MkSS (MkHostport (u_Host u) (Port_ (ss_hp (SHADOWSOCKS p)))) method password)
         (SHADOWSOCKS2022 p) (TROJAN p) (VLESS p) (VMESS p)))
  else if bool_decide (normalizeMethod method ∈ ss2022_methods) then
    Some (with_po ob (bs "SHADOWSOCKS2022")
      (MkProtocol (SHADOWSOCKS p)
         (MkSS22 (MkHostport (u_Host u) (Port_ (s22_hp (SHADOWSOCKS2022 p)))) method password (s22_IPSK (SHADOWSOCKS2022 p)))
         (TROJAN p) (VLESS p) (VMESS p)))
  else None.

(** [switch typ := strings.ToUpper(q.Get("type"))]: the transport and its
    options. *)
Definition url_transport (q : list (gostring * gostring)) (hostname : gostring) (t : TransportOptions)
    : option (gostring * TransportOptions) :=
  let typ := ToUpper (Get q (bs "type")) in
  let tls := EqualFold (Get q (bs "security")) (bs "TLS") in
  let host := Get q (bs "host") in
  if typ == bs "GRPC" then
    Some (bs "GRPC+TLS", MkTransport (Get q (bs "serviceName")) (HTTPUPGRADE_Path t) (HTTPUPGRADE_Host t) (WS_Path t) (WS_Header t))
  else if typ == bs "HTTPUPGRADE" then
    let sni := if tls then Get q (bs "sni") else [] in
    let Host := if (host != []) && (host != sni) && (host != hostname) then host else HTTPUPGRADE_Host t in
    Some (if tls then bs "HTTPUPGRADE+TLS" else bs "HTTPUPGRADE",
      MkTransport (GRPC_ServiceName t) (Get q (bs "path")) Host (WS_Path t) (WS_Header t))
  else if (typ == bs "TCP") || (typ == []) then Some (if tls then bs "TCP+TLS" else bs "TCP", t)
  else if typ == bs "WS" then
    let Header := if host != [] then WS_Header t ++ [(bs "Host", host)] else WS_Header t in
    Some (if tls then bs "WS+TLS" else bs "WS",
      MkTransport (GRPC_ServiceName t) (HTTPUPGRADE_Path t) (HTTPUPGRADE_Host t) (Get q (bs "path")) Header)
  else None.

Definition url_security (q : list (gostring * gostring)) (hostname transport : gostring) (s : SecurityOptions)
    : SecurityOptions :=
  if bool_decide (transport ∈ [bs "GRPC+TLS"; bs "HTTPUPGRADE+TLS"; bs "TCP+TLS"; bs "WS+TLS"]) then
    let sni := Get q (bs "sni") in
    let host := Get q (bs "host") in
    if (sni != []) && (sni != hostname) then MkSecurity sni (TLS_Certificate s) (TLS_CertFile s)
    else if (host != []) && isIPAddress hostname then MkSecurity host (TLS_Certificate s) (TLS_CertFile s)
    else s
  else s.

(** [switch prefix]: who is asked, and where. *)
Definition url_protocol (prefix before host transport : gostring) (ob : outbound) : outbound :=
  let p := po ob in
  if prefix == bs "trojan://" then
    with_po ob (bs "TROJAN+" ++ transport)
      (MkProtocol (SHADOWSOCKS p) (SHADOWSOCKS2022 p) (MkTrojan (MkHostport host (Port_ (tj_hp (TROJAN p)))) before) (VLESS p) (VMESS p))
  else if prefix == bs "vless://" then
    with_po ob (bs "VLESS+" ++ transport)
      (MkProtocol (SHADOWSOCKS p) (SHADOWSOCKS2022 p) (TROJAN p) (MkUser (MkHostport host (Port_ (us_hp (VLESS p)))) before) (VMESS p))
  else if prefix == bs "vmess://" then
    with_po ob (bs "VMESS+" ++ transport)
      (MkProtocol (SHADOWSOCKS p) (SHADOWSOCKS2022 p) (TROJAN p) (VLESS p) (MkUser (MkHostport host (Port_ (us_hp (VMESS p)))) before))
  else ob.

Definition parseVLessURL (prefix rawURL : gostring) (ob : outbound) : option outbound :=
  let '(before, after, _) := Cut (TrimPrefix rawURL prefix) 64 in
  if (before == []) || (after == []) then None
  else
    u ← Parse netip_ParseAddr (prefix ++ bs "xxxxx@" ++ after);
    if Port u == [] then None
    else
      let q := Query u in
      if (Get q (bs "encryption") != []) && (Get q (bs "encryption") != bs "none") then None
      else
        '(transport, t) ← url_transport q (Hostname u) (to ob);
        let ob := with_so (with_to ob t) (url_security q (Hostname u) transport (so ob)) in
        Some (url_protocol prefix before (u_Host u) transport ob).

Definition parseURL (rawURL : gostring) (ob : outbound) : option outbound :=
  if rawURL == [] then Some ob
  else if HasPrefix rawURL (bs "ss://") then parseShadowsocksURL rawURL ob
  else if HasPrefix rawURL (bs "trojan://") then parseVLessURL (bs "trojan://") rawURL ob
  else if HasPrefix rawURL (bs "vless://") then parseVLessURL (bs "vless://") rawURL ob
  else if HasPrefix rawURL (bs "vmess://") then parseVLessURL (bs "vmess://") rawURL ob
  else None.

(** ** parseOptions *)

Definition protocols : list gostring :=
  [bs "SHADOWSOCKS"; bs "SHADOWSOCKS2022"; bs "TROJAN"; bs "VLESS"; bs "VMESS"].
Definition transports : list gostring := [bs "GRPC"; bs "HTTPUPGRADE"; bs "TCP"; bs "WS"].

(** The loop over the parts of the type. *)
Fixpoint parse_types (ts : list gostring) (ob : outbound) : option outbound :=
  match ts with
  | [] => Some ob
  | t :: ts =>
      let t := ToUpper t in
      if bool_decide (t ∈ protocols) then parse_types ts (with_types ob t (Transport ob) (Security ob))
      else if bool_decide (t ∈ transports) then parse_types ts (with_types ob (Protocol ob) t (Security ob))
      else if t == bs "TLS" then parse_types ts (with_types ob (Protocol ob) (Transport ob) t)
      else if t == [] then parse_types ts ob
      else None
  end.

Definition split_hostport (hp : HostportOptions) : option HostportOptions :=
  '(host, port) ← SplitHostPort (Address hp);
  p ← Atoi port;
  Some (MkHostport host p).

Definition ss_method (m : gostring) : option gostring :=
  let n := normalizeMethod m in
  if n == bs "aes-128-gcm" then Some (bs "AES_128_GCM")
  else if n == bs "aes-256-gcm" then Some (bs "AES_256_GCM")
  else if (n == bs "chacha20-poly1305") || (n == bs "chacha20-ietf-poly1305") then Some (bs "CHACHA20_POLY1305")
  else None.

Definition ss2022_method (m : gostring) : option gostring :=
  let n := normalizeMethod m in
  if bool_decide (n ∈ ss2022_methods) then Some n else None.

(** The address and the method of the protocol. *)
Definition parse_protocol (ob : outbound) : option outbound :=
  let p := po ob in
  if Protocol ob == bs "SHADOWSOCKS" then
    hp ← split_hostport (ss_hp (SHADOWSOCKS p));
    m ← ss_method (ss_Method (SHADOWSOCKS p));
    Some (with_po ob (Type_ ob) (MkProtocol (MkSS hp m (ss_Password (SHADOWSOCKS p))) (SHADOWSOCKS2022 p) (TROJAN p) (VLESS p) (VMESS p)))
  else if Protocol ob == bs "SHADOWSOCKS2022" then
    hp ← split_hostport (s22_hp (SHADOWSOCKS2022 p));
    m ← ss2022_method (s22_Method (SHADOWSOCKS2022 p));
    Some (with_po ob (Type_ ob) (MkProtocol (SHADOWSOCKS p)
      (MkSS22 hp m (s22_PSK (SHADOWSOCKS2022 p)) (s22_IPSK (SHADOWSOCKS2022 p))) (TROJAN p) (VLESS p) (VMESS p)))
  else if Protocol ob == bs "TROJAN" then
    hp ← split_hostport (tj_hp (TROJAN p));
    Some (with_po ob (Type_ ob) (MkProtocol (SHADOWSOCKS p) (SHADOWSOCKS2022 p) (MkTrojan hp (tj_Password (TROJAN p))) (VLESS p) (VMESS p)))
  else if Protocol ob == bs "VLESS" then
    hp ← split_hostport (us_hp (VLESS p));
    Some (with_po ob (Type_ ob) (MkProtocol (SHADOWSOCKS p) (SHADOWSOCKS2022 p) (TROJAN p) (MkUser hp (us_UUID (VLESS p))) (VMESS p)))
  else if Protocol ob == bs "VMESS" then
    hp ← split_hostport (us_hp (VMESS p));
    Some (with_po ob (Type_ ob) (MkProtocol (SHADOWSOCKS p) (SHADOWSOCKS2022 p) (TROJAN p) (VLESS p) (MkUser hp (us_UUID (VMESS p)))))
  else Some ob.

Definition parse_outbound (rawURL : gostring) (ob : outbound) : option outbound :=
  ob ← parseURL rawURL ob;
  ob ← parse_types (SplitN (Type_ ob) 43 3) (with_types ob (bs "VMESS") (bs "TCP") (Security ob));
  parse_protocol ob.
End parse.

Definition no_ip (_ : gostring) : option bool := None.

Example ws_link :
  option_map (λ ob, (Protocol ob, Transport ob, Security ob, VLESS (po ob), WS_Path (to ob), WS_Header (to ob), TLS_ServerName (so ob)))
    (parse_outbound no_ip (bs "vless://f00@a.example:443?type=ws&security=tls&path=%2Fx&host=b.example&sni=c.example") no_outbound) =
  Some (bs "VLESS", bs "WS", bs "TLS", MkUser (MkHostport (bs "a.example") 443) (bs "f00"), bs "/x",
    [(bs "Host", bs "b.example")], bs "c.example").
Proof. vm_compute. reflexivity. Qed.

Example ss_link :
  option_map (λ ob, (Protocol ob, SHADOWSOCKS (po ob)))
    (parse_outbound no_ip (bs "ss://AES-128-GCM:secret@a.example:8388") no_outbound) =
  Some (bs "SHADOWSOCKS", MkSS (MkHostport (bs "a.example") 8388) (bs "AES_128_GCM") (bs "secret")).
Proof. vm_compute. reflexivity. Qed.

(** Without a scheme that is known, or with a part of the type that is not. *)
Example unknown_link : parse_outbound no_ip (bs "socks5://a:1") no_outbound = None.
Proof. vm_compute. reflexivity. Qed.
