(* ===== verification/V2links.v ===== *)
(** * Share links of v2socks.

    A link of plain parts is read back as what it was made of: the functions
    of V2socks.v over the URL parser, on links as they are shared. *)

From S2P Require Import Prelude GoStrings Url Proxy V2socks.

Open Scope go_scope.
#[local] Arguments bs : simpl never.

(** ** Cutting *)

Lemma Cut_app s c t : c ∉ s → Cut (s ++ c :: t) c = (s, t, true).
Proof.
  intros Hs. unfold Cut. assert (IndexByte (s ++ c :: t) c = Some (length s)) as ->.
  { apply IndexByte_Some. rewrite lookup_app_r, Nat.sub_diag by lia. split; [done|]. intros k Hk.
    rewrite lookup_app_l by done. intros Hin. by apply Hs, (list_elem_of_lookup_2 _ k). }
  rewrite take_app_length' by done. change (s ++ c :: t) with (s ++ [c] ++ t).
  by rewrite app_assoc, drop_app_length' by (rewrite length_app; simpl; lia).
Qed.

Lemma Cut_none s c : c ∉ s → Cut s c = (s, [], false).
Proof. intros Hs. unfold Cut. by rewrite (proj2 (IndexByte_None s c) Hs). Qed.

Lemma SplitN_app s c t n : c ∉ s → SplitN (s ++ c :: t) c (S (S n)) = s :: SplitN t c (S n).
Proof.
  intros Hs. pose proof (Cut_app s c t Hs) as E. unfold Cut in E.
  cbn [SplitN]. destruct (IndexByte (s ++ c :: t) c); [|done]. injection E as -> ->. done.
Qed.

Lemma SplitN_none s c n : c ∉ s → SplitN s c (S n) = [s].
Proof. intros Hs. cbn [SplitN]. rewrite (proj2 (IndexByte_None s c) Hs). by destruct n. Qed.

Lemma Split_app s c t : c ∉ s → Split (s ++ c :: t) c = s :: Split t c.
Proof.
  induction s as [|b s IH]; intros Hs; simpl; [by rewrite Z.eqb_refl|].
  destruct (Z.eqb_spec b c) as [->|]; [set_solver|]. by rewrite IH by set_solver.
Qed.

Lemma Split_none s c : c ∉ s → Split s c = [s].
Proof.
  induction s as [|b s IH]; intros Hs; simpl; [done|].
  destruct (Z.eqb_spec b c) as [->|]; [set_solver|]. by rewrite IH by set_solver.
Qed.

Lemma LastIndexByte_none s c : c ∉ s → LastIndexByte s c = None.
Proof.
  induction s as [|b s IH]; intros Hs; simpl; [done|]. rewrite IH by set_solver.
  destruct (Z.eqb_spec b c); [set_solver|done].
Qed.

(** ** Plain parts *)

(** A character that stands for itself in a host, and in a query. *)
Definition host_char (c : Z) : bool := is_alpha c || is_digit c || one_of c (bs "-.").
Definition plain_char (c : Z) : bool := is_alpha c || is_digit c || one_of c (bs "-._~/").

Definition host_plain (s : gostring) : Prop := s ≠ [] ∧ Forall (λ c, host_char c = true) s.
Definition plain (s : gostring) : Prop := Forall (λ c, plain_char c = true) s.
Definition digits (s : gostring) : Prop := s ≠ [] ∧ Forall (λ c, is_digit c = true) s.

Lemma one_of_in c l : one_of c l = true ↔ c ∈ l.
Proof. apply bool_decide_eq_true. Qed.

(** What a character of a class is not. *)
Lemma not_plain c : plain_char c = true → 45 <= c <= 126 ∧ c ∉ [58; 59; 61; 64; 63; 91; 93; 37; 38; 43; 35].
Proof.
  unfold plain_char, is_alpha, is_lower, is_upper, is_digit.
  rewrite !orb_true_iff, !andb_true_iff, !Z.leb_le, one_of_in.
  change (bs "-._~/") with [45; 46; 95; 126; 47]. rewrite !elem_of_cons, elem_of_nil. lia.
Qed.

Lemma host_char_plain c : host_char c = true → plain_char c = true ∧ c ≠ 47.
Proof.
  unfold plain_char, host_char, is_alpha, is_lower, is_upper, is_digit.
  rewrite !orb_true_iff, !andb_true_iff, !Z.leb_le, !one_of_in.
  change (bs "-._~/") with [45; 46; 95; 126; 47]. change (bs "-.") with [45; 46].
  rewrite !elem_of_cons, !elem_of_nil. lia.
Qed.

Lemma plain_not c s : plain s → c ∈ [58; 59; 61; 64; 63; 91; 93; 37; 38; 43; 35] → c ∉ s.
Proof. intros Hs Hc Hin. unfold plain in Hs; rewrite Forall_forall in Hs. by destruct (not_plain c (Hs c Hin)) as [_ []]. Qed.

Lemma host_not c s : Forall (λ c, host_char c = true) s → c ∈ [58; 59; 61; 64; 63; 91; 93; 37; 38; 43; 35; 47] → c ∉ s.
Proof.
  intros Hs Hc Hin. rewrite Forall_forall in Hs. destruct (host_char_plain c (Hs c Hin)) as [Hp Hn].
  destruct (not_plain c Hp) as [_ []]. rewrite !elem_of_cons in *. naive_solver.
Qed.

Lemma digits_not c s : Forall (λ c, is_digit c = true) s → c < 48 ∨ 57 < c → c ∉ s.
Proof.
  intros Hs Hc Hin. rewrite Forall_forall in Hs. specialize (Hs c Hin). unfold is_digit in Hs.
  rewrite andb_true_iff, !Z.leb_le in Hs. lia.
Qed.

(** Characters that no mode escapes. *)
Lemma unescape_plain m s :
  Forall (λ c, c ≠ 37 ∧ c ≠ 43 ∧ (is_host_mode m = true → bad_in_host c = false)) s → unescape m s = Some s.
Proof.
  unfold unescape. intros Hs. assert (∀ n, (length s < n)%nat → unescape_loop n m s = Some s) as H; [|apply H; lia].
  induction Hs as [|c s (H1 & H2 & H3) Hs IH]; intros [|n] Hn; simpl in *; try lia; [done|].
  assert (∀ (x y : option gostring), match c with 37 => x | _ => y end = y) as Hm.
  { intros x y. destruct c as [|p|p]; [done| |done]. repeat (destruct p as [p|p|]; try done). }
  rewrite Hm, IH by lia.
  destruct (is_host_mode m) eqn:Em; [rewrite (H3 eq_refl), andb_false_r; by destruct m|].
  simpl. destruct m; try done. simpl. by destruct (Z.eqb_spec c 43).
Qed.

Lemma unescape_query s : plain s → unescape MQuery s = Some s.
Proof.
  intros Hs. apply unescape_plain. eapply Forall_impl; [exact Hs|]. simpl. intros c Hc.
  destruct (not_plain c Hc) as [_ Hn]. rewrite !elem_of_cons in Hn. naive_solver.
Qed.

Lemma host_ok c : host_char c = true ∨ is_digit c = true ∨ c = 58 → c ≠ 37 ∧ c ≠ 43 ∧ bad_in_host c = false.
Proof.
  unfold host_char, bad_in_host. intros Hc. assert (is_digit c = true → c ≠ 37 ∧ c ≠ 43) as Hd.
  { unfold is_digit. rewrite andb_true_iff, !Z.leb_le. lia. }
  assert (is_alpha c = true → c ≠ 37 ∧ c ≠ 43) as Ha.
  { unfold is_alpha, is_lower, is_upper. rewrite orb_true_iff, !andb_true_iff, !Z.leb_le. lia. }
  destruct (is_digit c) eqn:Ed.
  { destruct (Hd eq_refl). rewrite orb_true_r. done. }
  destruct (is_alpha c) eqn:Ea; [by destruct (Ha eq_refl)|]. simpl in Hc |- *. rewrite one_of_in in Hc.
  change (bs "-.") with [45; 46] in Hc. rewrite !elem_of_cons, elem_of_nil in Hc.
  destruct Hc as [[->|[->|[]]]|[Hc| ->]]; [done|done|discriminate|done].
Qed.

(** ** The URL of a link *)

Definition url_prefix (scheme : gostring) : gostring := scheme ++ bs "://".

Lemma hp_not c host port :
  host_plain host → digits port → c ∈ [64; 63; 91; 93; 47] → c ∉ host ++ 58 :: port.
Proof.
  intros [_ Hh] [_ Hp] Hc. rewrite !elem_of_cons, elem_of_nil in Hc. rewrite elem_of_app, elem_of_cons.
  intros [H|[H|H]]; revert H.
  - apply host_not; [done|]. rewrite !elem_of_cons. tauto.
  - lia.
  - apply digits_not; [done|lia].
Qed.

Lemma parseHost_plain netip host port :
  host_plain host → digits port → parseHost netip (host ++ 58 :: port) = Some (host ++ 58 :: port).
Proof.
  intros Hh' Hp'. pose proof Hh' as [_ Hh]. pose proof Hp' as [_ Hp]. unfold parseHost.
  assert (91 ∉ host ++ 58 :: port) as Hn by (apply hp_not; [done..|set_solver]).
  rewrite (LastIndexByte_none _ _ Hn). rewrite LastIndexByte_app by (apply digits_not; [done|lia]).
  rewrite drop_app_length. simpl. assert (forallb is_digit port = true) as ->.
  { apply forallb_forall. intros c Hc. rewrite Forall_forall in Hp. by apply Hp, list_elem_of_In. }
  apply unescape_plain. apply Forall_app. split; [|constructor].
  - eapply Forall_impl; [exact Hh|]. intros c Hc. simpl. destruct (host_ok c (or_introl Hc)) as (? & ? & ?). done.
  - done.
  - eapply Forall_impl; [exact Hp|]. intros c Hc. simpl.
    destruct (host_ok c (or_intror (or_introl Hc))) as (? & ? & ?). done.
Qed.

Definition schemes : list gostring := [bs "trojan"; bs "vless"; bs "vmess"].

Lemma getScheme_prefix scheme t :
  scheme ∈ schemes → getScheme (url_prefix scheme ++ t) = Some (scheme, 47 :: 47 :: t) ∧
  ToLower scheme = scheme ∧ scheme ≠ [].
Proof.
  unfold schemes. rewrite !elem_of_cons, elem_of_nil. intros [->|[->|[->|[]]]]; (split; [reflexivity|]); done.
Qed.

Lemma scheme_chars scheme : scheme ∈ schemes → Forall (λ c, 32 <= c ∧ c ≠ 127 ∧ c ≠ 35 ∧ c ≠ 64) (url_prefix scheme).
Proof.
  unfold schemes. rewrite !elem_of_cons, elem_of_nil. intros [->|[->|[->|[]]]];
    (apply (bool_decide_eq_true_1 (Forall _ _)); vm_compute; reflexivity).
Qed.

Lemma parseAuthority_plain netip host port :
  host_plain host → digits port →
  parseAuthority netip (bs "xxxxx" ++ 64 :: host ++ 58 :: port) = Some (Some (bs "xxxxx", None), host ++ 58 :: port).
Proof.
  intros Hh Hp. unfold parseAuthority. rewrite LastIndexByte_app.
  2:{ apply hp_not; [done..|set_solver]. }
  change (drop (S (length (bs "xxxxx"))) (bs "xxxxx" ++ 64 :: host ++ 58 :: port)) with (host ++ 58 :: port).
  rewrite parseHost_plain by done. reflexivity.
Qed.

(** Characters of a URL without a fragment. *)
Definition url_char (c : Z) : Prop := 32 <= c ∧ c ≠ 127 ∧ c ≠ 35.

Lemma url_chars_ok s : Forall url_char s → (35 ∉ s) ∧ has_ctl s = false.
Proof.
  intros Hs. rewrite Forall_forall in Hs. split; [intros Hin; by destruct (Hs _ Hin) as (_ & _ & [])|].
  unfold has_ctl. apply not_true_iff_false. intros (c & Hc & Hb)%existsb_exists.
  rewrite <- list_elem_of_In in Hc. destruct (Hs c Hc) as (? & ? & ?).
  apply orb_true_iff in Hb as [?%Z.ltb_lt|?%Z.eqb_eq]; lia.
Qed.

Lemma plain_url c : plain_char c = true → url_char c.
Proof. intros Hc. destruct (not_plain c Hc) as [? Hn]. rewrite !elem_of_cons in Hn. unfold url_char. lia. Qed.

Lemma digit_url c : is_digit c = true → url_char c.
Proof. unfold is_digit, url_char. rewrite andb_true_iff, !Z.leb_le. lia. Qed.

Lemma hp_url host port : host_plain host → digits port → Forall url_char (host ++ 58 :: port).
Proof.
  intros [_ Hh] [_ Hp]. apply Forall_app. split; [|constructor; [unfold url_char; lia|]].
  - eapply Forall_impl; [exact Hh|]. intros c [Hc _]%host_char_plain. by apply plain_url.
  - eapply Forall_impl; [exact Hp|]. exact digit_url.
Qed.

Lemma Parse_link netip scheme host port raw :
  scheme ∈ schemes → host_plain host → digits port → Forall url_char raw →
  Parse netip (url_prefix scheme ++ bs "xxxxx@" ++ (host ++ 58 :: port) ++ 63 :: raw) =
    Some (MkURL scheme [] (Some (bs "xxxxx", None)) (host ++ 58 :: port) [] raw []).
Proof.
  intros Hs Hh Hp Hr. set (hp := host ++ 58 :: port). set (s := url_prefix scheme ++ _).
  assert (Forall url_char s) as [Hf Hc]%url_chars_ok.
  { unfold s. apply Forall_app. split.
    - eapply Forall_impl; [by apply scheme_chars|]. unfold url_char. simpl. tauto.
    - apply Forall_app. split; [apply (bool_decide_eq_true_1 (Forall (λ c, 32 <= c ∧ c ≠ 127 ∧ c ≠ 35) (bs "xxxxx@"))); vm_compute; reflexivity|].
      apply Forall_app. split; [by apply hp_url|]. constructor; [unfold url_char; lia|done]. }
  unfold Parse. rewrite (Cut_none _ _ Hf). unfold parse. rewrite Hc.
  destruct (getScheme_prefix scheme (bs "xxxxx@" ++ hp ++ 63 :: raw) Hs) as (Eg & El & Hne). fold s in Eg.
  rewrite bool_decide_false by (intros E; rewrite E in Eg; discriminate). rewrite Eg. cbn [mbind option_bind].
  rewrite El. change (47 :: 47 :: bs "xxxxx@" ++ hp ++ 63 :: raw) with ((47 :: 47 :: bs "xxxxx@" ++ hp) ++ 63 :: raw).
  assert (63 ∉ hp) as Hq1 by (apply hp_not; [done..|set_solver]).
  assert (47 ∉ hp) as Hq2 by (apply hp_not; [done..|set_solver]).
  rewrite Cut_app.
  2:{ rewrite !elem_of_cons, elem_of_app. intros [H|[H|[H|H]]]; [done|done| |done].
      revert H. apply (bool_decide_eq_false_1 (63 ∈ bs "xxxxx@")). vm_compute. reflexivity. }
  unfold HasPrefix. rewrite (bool_decide_false (scheme = [])) by done. simpl.
  assert (IndexByte hp 47 = None) as ->.
  { by apply IndexByte_None. }
  cbn -[parseAuthority hp]. pose proof (parseAuthority_plain netip host port Hh Hp) as Ha. fold hp in Ha.
  match type of Ha with _ = ?r => match goal with |- context [parseAuthority netip ?l] =>
    replace (parseAuthority netip l) with r by (symmetry; exact Ha) end end.
  reflexivity.
Qed.

Lemma split_plain host port :
  host_plain host → digits port → split_host_port (host ++ 58 :: port) = (host, port).
Proof.
  intros Hh Hp. pose proof Hp as [_ Hd]. unfold split_host_port.
  rewrite LastIndexByte_app by (apply digits_not; [done|lia]). rewrite drop_app_length. simpl.
  assert (forallb is_digit port = true) as ->.
  { apply forallb_forall. intros c Hc. rewrite Forall_forall in Hd. by apply Hd, list_elem_of_In. }
  rewrite take_app_length. assert (drop (S (length host)) (host ++ 58 :: port) = port) as ->.
  { change (58 :: port) with ([58] ++ port). rewrite app_assoc. apply drop_app_length'. rewrite length_app. simpl. lia. }
  assert (HasPrefix host [91] = false) as ->; [|done].
  apply bool_decide_eq_false. intros E. destruct host as [|c host]; [done|]. simpl in E. injection E as ->.
  destruct Hh as [_ Hh]. apply (host_not 91 _ Hh); [set_solver|by left].
Qed.

(** ** Queries *)

Definition pair_text (kv : gostring * gostring) : gostring := kv.1 ++ 61 :: kv.2.

Fixpoint query_text (l : list (gostring * gostring)) : gostring :=
  match l with
  | [] => []
  | [kv] => pair_text kv
  | kv :: l => pair_text kv ++ 38 :: query_text l
  end.

Definition pair_plain (kv : gostring * gostring) : Prop := plain kv.1 ∧ plain kv.2.

Lemma pair_not c kv : pair_plain kv → c ∈ [59; 38] → c ∉ pair_text kv.
Proof.
  intros [Hk Hv] Hc. unfold pair_text. rewrite elem_of_app, elem_of_cons. rewrite !elem_of_cons, elem_of_nil in Hc.
  intros [H|[H|H]]; revert H; [apply plain_not; [done|]|lia|apply plain_not; [done|]]; rewrite !elem_of_cons; lia.
Qed.

Lemma query_pair_text kv : pair_plain kv → query_pair (pair_text kv) = Some kv.
Proof.
  intros Hkv. pose proof Hkv as [Hk Hv]. unfold query_pair.
  rewrite (proj2 (ContainsByte_false _ _)) by (apply pair_not; [done|set_solver]).
  rewrite bool_decide_false by (unfold pair_text; by destruct kv.1). unfold pair_text.
  rewrite Cut_app by (apply plain_not; [done|set_solver]).
  rewrite !unescape_query by done. by destruct kv.
Qed.

Lemma Query_text l : l ≠ [] → Forall pair_plain l → omap query_pair (Split (query_text l) 38) = l.
Proof.
  intros Hne Hl. induction Hl as [|kv l Hkv Hl IH]; [done|].
  assert (38 ∉ pair_text kv) as Hn by (apply pair_not; [done|set_solver]).
  destruct l as [|kv2 l]; cbn [query_text].
  - rewrite Split_none by done. simpl. by rewrite query_pair_text.
  - rewrite Split_app by done. simpl omap. rewrite query_pair_text by done. cbn -[query_text]. f_equal. by apply IH.
Qed.

Lemma query_url l : Forall pair_plain l → Forall url_char (query_text l).
Proof.
  intros Hl. assert (∀ kv, pair_plain kv → Forall url_char (pair_text kv)) as Hp.
  { intros kv [Hk Hv]. apply Forall_app. split; [|constructor; [unfold url_char; lia|]];
      (eapply Forall_impl; [eassumption|apply plain_url]). }
  induction Hl as [|kv l Hkv Hl IH]; [by constructor|]. destruct l as [|kv2 l]; [by apply Hp|].
  change (query_text (kv :: kv2 :: l)) with (pair_text kv ++ 38 :: query_text (kv2 :: l)).
  apply Forall_app. split; [by apply Hp|]. constructor; [unfold url_char; lia|done].
Qed.

(** ** Links *)

Inductive over := OverTCP | OverWS (path host : gostring) | OverUpgrade (path host : gostring) | OverGRPC (service : gostring).

Record link := MkLink {
  l_scheme : gostring; l_secret : gostring; l_host : gostring; l_port : Z;
  l_over : over; l_tls : bool; l_sni : gostring }.

Definition over_query (o : over) : list (gostring * gostring) :=
  match o with
  | OverTCP => [(bs "type", bs "tcp")]
  | OverWS path host => [(bs "type", bs "ws"); (bs "path", path); (bs "host", host)]
  | OverUpgrade path host => [(bs "type", bs "httpupgrade"); (bs "path", path); (bs "host", host)]
  | OverGRPC service => [(bs "type", bs "grpc"); (bs "serviceName", service)]
  end.

Definition link_query (l : link) : list (gostring * gostring) :=
  over_query (l_over l) ++
  (if l_tls l then [(bs "security", bs "tls"); (bs "sni", l_sni l)] else [(bs "security", bs "none")]).

Definition format_link (l : link) : gostring :=
  url_prefix (l_scheme l) ++ l_secret l ++ 64 :: (l_host l ++ 58 :: Itoa (l_port l)) ++ 63 :: query_text (link_query l).

Record link_ok (l : link) : Prop := {
  lk_scheme : l_scheme l ∈ schemes;
  lk_secret : l_secret l ≠ [] ∧ 64 ∉ l_secret l;
  lk_host : host_plain (l_host l);
  lk_port : 0 <= l_port l < 2 ^ 16;
  lk_over : match l_over l with
            | OverTCP => True
            | OverWS path host | OverUpgrade path host => plain path ∧ plain host
            | OverGRPC service => plain service
            end;
  lk_sni : plain (l_sni l) }.

(** What a link stands for.  gRPC is taken for secured whatever the link says. *)
Definition secured (l : link) : bool := l_tls l || match l_over l with OverGRPC _ => true | _ => false end.

Definition link_Host (l : link) : gostring :=
  match l_over l with OverWS _ host | OverUpgrade _ host => host | _ => [] end.

Definition link_transport (l : link) : TransportOptions :=
  match l_over l with
  | OverTCP => MkTransport [] [] [] [] []
  | OverWS path host => MkTransport [] [] [] path (if host == [] then [] else [(bs "Host", host)])
  | OverUpgrade path host =>
      MkTransport [] path
        (if (host == []) || (host == if l_tls l then l_sni l else []) || (host == l_host l) then [] else host) [] []
  | OverGRPC service => MkTransport service [] [] [] []
  end.

Definition link_server_name (netip : gostring → option bool) (l : link) : gostring :=
  let sni := if l_tls l then l_sni l else [] in
  if negb (secured l) then []
  else if (sni != []) && (sni != l_host l) then sni
  else if isIPAddress netip (l_host l) then link_Host l else [].

Definition over_name (o : over) : gostring :=
  match o with OverTCP => bs "TCP" | OverWS _ _ => bs "WS" | OverUpgrade _ _ => bs "HTTPUPGRADE" | OverGRPC _ => bs "GRPC" end.

(** The secret and the address of the protocol in use. *)
Definition asked_of (ob : outbound) : option (HostportOptions * gostring) :=
  if Protocol ob == bs "TROJAN" then Some (tj_hp (TROJAN (po ob)), tj_Password (TROJAN (po ob)))
  else if Protocol ob == bs "VLESS" then Some (us_hp (VLESS (po ob)), us_UUID (VLESS (po ob)))
  else if Protocol ob == bs "VMESS" then Some (us_hp (VMESS (po ob)), us_UUID (VMESS (po ob)))
  else None.

Lemma Itoa_digits n : 0 <= n < 2 ^ 63 → digits (Itoa n).
Proof.
  intros Hn. split; [intros E; pose proof (ParseInt_Itoa n Hn) as H; by rewrite E in H|].
  eapply Forall_impl; [apply Itoa_bounds; lia|]. unfold is_digit. intros c Hc. simpl in Hc.
  rewrite andb_true_iff, !Z.leb_le. lia.
Qed.

Lemma link_query_plain l : link_ok l → Forall pair_plain (link_query l).
Proof.
  intros [_ _ _ _ Ho Hs].
  assert (∀ k v, plain v → forallb plain_char k = true → pair_plain (k, v)) as Hp.
  { intros k v Hv Hk. split; [|done]. apply Forall_forall. intros c Hc. rewrite forallb_forall in Hk.
    by apply Hk, list_elem_of_In. }
  assert (∀ v, forallb plain_char v = true → plain v) as Hv.
  { intros v Hk. apply Forall_forall. intros c Hc. rewrite forallb_forall in Hk. by apply Hk, list_elem_of_In. }
  unfold link_query. apply Forall_app. split.
  - destruct (l_over l) as [|path host|path host|service]; repeat constructor; apply Hp; try reflexivity;
      first [apply Ho|by apply Hv].
  - destruct (l_tls l); repeat constructor; apply Hp; try reflexivity; first [exact Hs|by apply Hv].
Qed.

Lemma TrimPrefix_app p t : TrimPrefix (p ++ t) p = t.
Proof.
  unfold TrimPrefix, HasPrefix. rewrite take_app_length, bool_decide_true by done. apply drop_app_length.
Qed.

Lemma parseURL_link netip scheme t ob :
  scheme ∈ schemes →
  parseURL netip (url_prefix scheme ++ t) ob = parseVLessURL netip (url_prefix scheme) (url_prefix scheme ++ t) ob.
Proof. unfold schemes. rewrite !elem_of_cons, elem_of_nil. intros [->|[->|[->|[]]]]; reflexivity. Qed.

(** The name of the transport in a link. *)
Definition link_type (l : link) : gostring := over_name (l_over l) ++ (if secured l then bs "+TLS" else []).

Lemma url_transport_upgrade q path host sni tls hostname t :
  Get q (bs "type") = bs "httpupgrade" → Get q (bs "path") = path → Get q (bs "host") = host →
  Get q (bs "sni") = (if tls : bool then sni else []) → Get q (bs "security") = (if tls then bs "tls" else bs "none") →
  url_transport q hostname t =
  Some (if tls then bs "HTTPUPGRADE+TLS" else bs "HTTPUPGRADE",
    MkTransport (GRPC_ServiceName t) path
      (if (host == []) || (host == if tls then sni else []) || (host == hostname) then HTTPUPGRADE_Host t else host)
      (WS_Path t) (WS_Header t)).
Proof.
  intros E1 E2 E3 E4 E5. unfold url_transport. rewrite E1, E2, E3, E4, E5.
  replace (ToUpper (bs "httpupgrade") == bs "GRPC") with false by reflexivity.
  replace (ToUpper (bs "httpupgrade") == bs "HTTPUPGRADE") with true by reflexivity.
  replace (EqualFold (if tls then bs "tls" else bs "none") (bs "TLS")) with tls by (destruct tls; reflexivity).
  cbv zeta. assert ((if tls then if tls then sni else [] else []) = if tls then sni else []) as -> by (by destruct tls).
  do 3 f_equal. destruct (host == []), (host == if tls then sni else []), (host == hostname); reflexivity.
Qed.

Lemma url_transport_link l :
  link_ok l →
  url_transport (link_query l) (l_host l) (to no_outbound) = Some (link_type l, link_transport l).
Proof.
  intros [_ _ _ _ Ho _]. unfold link_type, link_transport.
  destruct l as [scheme secret host port o tls sni]; simpl in *. destruct o as [|path h|path h|service].
  - destruct tls; reflexivity.
  - destruct tls, h; reflexivity.
  - rewrite (url_transport_upgrade _ path h sni tls) by (destruct tls; reflexivity). by destruct tls.
  - by destruct tls.
Qed.

Lemma url_security_link netip l :
  url_security netip (link_query l) (l_host l) (link_type l) (so no_outbound) =
    MkSecurity (link_server_name netip l) [] [].
Proof.
  assert (Get (link_query l) (bs "host") = link_Host l) as E1.
  { destruct l as [? ? ? ? [] [] ?]; reflexivity. }
  assert (Get (link_query l) (bs "sni") = if l_tls l then l_sni l else []) as E2.
  { destruct l as [? ? ? ? [] [] ?]; reflexivity. }
  assert (bool_decide (link_type l ∈ [bs "GRPC+TLS"; bs "HTTPUPGRADE+TLS"; bs "TCP+TLS"; bs "WS+TLS"]) = secured l) as E3.
  { destruct l as [? ? ? ? [] [] ?]; reflexivity. }
  unfold url_security, link_server_name. rewrite E3, E1, E2. destruct (secured l); [|done]. cbn [negb].
  set (sni := if l_tls l then l_sni l else []).
  destruct (sni == []); simpl; [|destruct (sni == l_host l); simpl; [|done]];
    destruct (link_Host l); simpl; by destruct (isIPAddress netip (l_host l)).
Qed.

(** The link of a protocol in use, before its address is split. *)
Definition link_outbound (netip : gostring → option bool) (l : link) : outbound :=
  url_protocol (url_prefix (l_scheme l)) (l_secret l) (l_host l ++ 58 :: Itoa (l_port l)) (link_type l)
    (with_so (with_to no_outbound (link_transport l)) (MkSecurity (link_server_name netip l) [] [])).

Lemma parseURL_format netip l :
  link_ok l → parseURL netip (format_link l) no_outbound = Some (link_outbound netip l).
Proof.
  intros Hl. pose proof Hl as [Hs [Hse Hat] Hh Hp _ _]. pose proof (Itoa_digits (l_port l) ltac:(lia)) as Hd.
  unfold format_link. rewrite parseURL_link by done. unfold parseVLessURL.
  rewrite TrimPrefix_app, Cut_app by done. rewrite bool_decide_false by done.
  rewrite (bool_decide_false (_ = [])) by (by destruct (l_host l)). cbn [orb].
  rewrite Parse_link; [|done..|by apply query_url, link_query_plain]. cbn [mbind option_bind].
  unfold Port, Hostname, Query. cbn [u_Host u_RawQuery]. rewrite split_plain by done. cbn [fst snd].
  rewrite bool_decide_false by (by destruct Hd).
  rewrite Query_text; [|unfold link_query; by destruct (l_over l)|by apply link_query_plain].
  assert (Get (link_query l) (bs "encryption") = []) as ->.
  { destruct l as [? ? ? ? [] [] ?]; reflexivity. }
  cbn [negb bool_decide]. rewrite url_transport_link by done. cbn [mbind option_bind].
  by rewrite url_security_link.
Qed.

(** The type that a link gives is split into what it was joined of. *)
Lemma parse_types_link l ob :
  l_scheme l ∈ schemes → Security ob = [] →
  parse_types (SplitN (ToUpper (l_scheme l) ++ 43 :: link_type l) 43 3) ob =
    Some (with_types ob (ToUpper (l_scheme l)) (over_name (l_over l)) (if secured l then bs "TLS" else [])).
Proof.
  unfold schemes. rewrite !elem_of_cons, elem_of_nil. destruct l as [scheme ? ? ? o tls ?]; simpl.
  intros Hs Hse. destruct ob as [? ? ? sec ? ? ?]; simpl in Hse; subst sec.
  destruct Hs as [->|[->|[->|[]]]], o, tls; reflexivity.
Qed.

Lemma link_outbound_type netip l :
  l_scheme l ∈ schemes →
  Type_ (link_outbound netip l) = ToUpper (l_scheme l) ++ 43 :: link_type l ∧
  Security (link_outbound netip l) = [] ∧ to (link_outbound netip l) = link_transport l ∧
  so (link_outbound netip l) = MkSecurity (link_server_name netip l) [] [].
Proof.
  unfold schemes, link_outbound. rewrite !elem_of_cons, elem_of_nil. intros [->|[->|[->|[]]]]; done.
Qed.

Lemma link_outbound_asked netip l p t s :
  l_scheme l ∈ schemes → p = ToUpper (l_scheme l) →
  asked_of (with_types (link_outbound netip l) p t s) =
    Some (MkHostport (l_host l ++ 58 :: Itoa (l_port l)) 0, l_secret l).
Proof.
  unfold schemes, link_outbound. rewrite !elem_of_cons, elem_of_nil. intros [->|[->|[->|[]]]] ->; reflexivity.
Qed.

Lemma parse_protocol_asked ob hp hp' secret :
  asked_of ob = Some (hp, secret) → split_hostport hp = Some hp' →
  ∃ ob', parse_protocol ob = Some ob' ∧ asked_of ob' = Some (hp', secret) ∧
    Protocol ob' = Protocol ob ∧ Transport ob' = Transport ob ∧ Security ob' = Security ob ∧
    to ob' = to ob ∧ so ob' = so ob.
Proof.
  unfold asked_of, parse_protocol. destruct ob as [ty pr tr se p t s]; simpl. intros Ha Hp.
  destruct (bool_decide_reflect (pr = bs "TROJAN")) as [->|H1].
  { injection Ha as <- <-. rewrite Hp. simpl. eexists. split; [reflexivity|]. by split_and!. }
  destruct (bool_decide_reflect (pr = bs "VLESS")) as [->|H2].
  { injection Ha as <- <-. rewrite Hp. simpl. eexists. split; [reflexivity|]. by split_and!. }
  destruct (bool_decide_reflect (pr = bs "VMESS")) as [->|H3]; [|done].
  injection Ha as <- <-. rewrite Hp. simpl. eexists. split; [reflexivity|]. by split_and!.
Qed.

Lemma split_hostport_link host port n :
  host_plain host → 0 <= port < 2 ^ 16 →
  split_hostport (MkHostport (host ++ 58 :: Itoa port) n) = Some (MkHostport host port).
Proof.
  intros Hh Hp. unfold split_hostport. cbn [Address].
  pose proof (Itoa_digits port ltac:(lia)) as [_ Hd]. pose proof Hh as [_ Hc].
  assert (JoinHostPort host (Itoa port) = host ++ 58 :: Itoa port) as <-.
  { unfold JoinHostPort. by rewrite (proj2 (ContainsByte_false _ _)) by (apply host_not; [done|set_solver]). }
  rewrite SplitHostPort_JoinHostPort by (first [by apply digits_not; [|lia]|apply host_not; [done|set_solver]]).
  simpl. unfold Atoi. by rewrite ParseInt_Itoa by lia.
Qed.

(** C30: a share link of trojan, vless or vmess, with a secret without "@", a
    host of letters, digits, "-" and "." (no IPv6 literal), a port, a
    transport whose path, host or service is of letters, digits and -._~/ (so
    nothing needs escaping), with or without TLS and a server name of such
    characters, is read back as these: protocol, transport, address, secret,
    and transport options; security is TLS when the link has it, and for gRPC
    in any case; the server name is that of the link unless it is empty or the
    host itself, then for a host that is an IP address the Host of the
    transport. The Host of HTTPUPGRADE is dropped when it is the server name
    or the host. *)
Theorem link_roundtrip netip l :
  link_ok l →
  ∃ ob, parse_outbound netip (format_link l) no_outbound = Some ob ∧
    Protocol ob = ToUpper (l_scheme l) ∧ Transport ob = over_name (l_over l) ∧
    Security ob = (if secured l then bs "TLS" else []) ∧
    asked_of ob = Some (MkHostport (l_host l) (l_port l), l_secret l) ∧
    to ob = link_transport l ∧ TLS_ServerName (so ob) = link_server_name netip l.
Proof.
  intros Hl. pose proof (lk_scheme _ Hl) as Hs. unfold parse_outbound. rewrite parseURL_format by done.
  cbn [mbind option_bind]. destruct (link_outbound_type netip l Hs) as (-> & -> & Ht & Hso).
  rewrite parse_types_link by done. cbn [mbind option_bind].
  set (ob := with_types _ (ToUpper (l_scheme l)) _ _).
  destruct (parse_protocol_asked ob (MkHostport (l_host l ++ 58 :: Itoa (l_port l)) 0)
    (MkHostport (l_host l) (l_port l)) (l_secret l)) as (ob' & E & Ha & H1 & H2 & H3 & H4 & H5).
  - by apply (link_outbound_asked netip l).
  - apply split_hostport_link; apply Hl.
  - exists ob'. rewrite H1, H2, H3, H4, H5. unfold ob. simpl. rewrite Hso. by split_and!.
Qed.

Definition a_link : link :=
  MkLink (bs "vless") (bs "f00-1") (bs "a.example") 443 (OverWS (bs "/x") (bs "b.example")) true (bs "c.example").

Lemma a_link_ok : link_ok a_link.
Proof.
  split; try done.
  - right. left.
  - split; [done|]. apply (bool_decide_eq_false_1 (64 ∈ bs "f00-1")). vm_compute. reflexivity.
  - split; [done|]. apply (bool_decide_eq_true_1 (Forall _ _)). vm_compute. reflexivity.
  - split; apply (bool_decide_eq_true_1 (Forall _ _)); vm_compute; reflexivity.
  - apply (bool_decide_eq_true_1 (Forall _ _)). vm_compute. reflexivity.
Qed.

Lemma link_roundtrip_witness :
  format_link a_link = bs "vless://f00-1@a.example:443?type=ws&path=/x&host=b.example&security=tls&sni=c.example" ∧
  ∃ ob, parse_outbound no_ip (format_link a_link) no_outbound = Some ob ∧
    Protocol ob = bs "VLESS" ∧ Transport ob = bs "WS" ∧ Security ob = bs "TLS" ∧
    asked_of ob = Some (MkHostport (bs "a.example") 443, bs "f00-1") ∧
    to ob = MkTransport [] [] [] (bs "/x") [(bs "Host", bs "b.example")] ∧
    TLS_ServerName (so ob) = bs "c.example".
Proof. split; [vm_compute; reflexivity|]. exact (link_roundtrip no_ip a_link a_link_ok). Defined.

(** A link of gRPC without TLS is read as one with TLS. *)
Theorem grpc_secured :
  ∃ l, link_ok l ∧ l_tls l = false ∧
    format_link l = bs "vless://f00@a.example:80?type=grpc&serviceName=x&security=none" ∧
    option_map (λ ob, (Transport ob, Security ob)) (parse_outbound no_ip (format_link l) no_outbound) =
      Some (bs "GRPC", bs "TLS").
Proof.
  exists (MkLink (bs "vless") (bs "f00") (bs "a.example") 80 (OverGRPC (bs "x")) false []).
  split; [|split_and!; vm_compute; reflexivity]. split; simpl; try done.
  - right. left.
  - split; [done|]. apply (bool_decide_eq_false_1 (64 ∈ bs "f00")). vm_compute. reflexivity.
  - split; [done|]. apply (bool_decide_eq_true_1 (Forall _ _)). vm_compute. reflexivity.
  - apply (bool_decide_eq_true_1 (Forall _ _)). vm_compute. reflexivity.
  - constructor.
Qed.
