(* ===== verification/V2socksRun.v ===== *)
(** * The v2socks service (service/socks/v2socks/v2socks.go).

    A job of v2socks keeps an instance of v2ray for its outbound and, when it
    has a proxy, a listener at which the instance reaches it.  An instance is
    the configuration it was started with; the template that makes the
    configuration, and whether an instance starts, are parameters. *)

From S2P Require Import Prelude GoStrings Url Proxy Dial Defaults Jobs V2socks.

Open Scope go_scope.
#[local] Arguments bs : simpl never.

Section v2socks.
Context {C : Type}.
Context (netip_ParseAddr : gostring → option bool).
Context (Execute : HostportOptions → outbound → bool * Z → option gostring).

Record Options := MkOptions {
  o_ListenAddr : gostring;
  o_Proxy : Proxy.Proxy C;
  o_Forward : HostportOptions;
  o_URL : gostring;
  o_out : outbound;
  o_Mux : bool * Z;
  o_Conn : ConnOptions;
  o_Relay : RelayOptions;
  o_ins : option nat }.

Definition zero : Options :=
  MkOptions [] (MkProxy None []) no_hp [] no_outbound (false, 0) zero_conn zero_relay None.

(** The instances that were started, by their configurations, those that were
    closed, the variable ins, and the address of the forward listener. *)
Record state := MkState {
  started : list gostring;
  closed : list nat;
  ins : option nat;
  forward : option gostring }.

Definition parseOptions (opts : Options) : option gostring :=
  ob ← parse_outbound netip_ParseAddr (o_URL opts) (o_out opts);
  Execute (o_Forward opts) ob (o_Mux opts).

(** But for the proxy, the connection and relay options and the instance. *)
Definition compared (o : Options) : gostring * HostportOptions * gostring * outbound * (bool * Z) :=
  (o_ListenAddr o, o_Forward o, o_URL o, o_out o, o_Mux o).

Definition shouldRestart (x y : Options) : bool :=
  if negb (eqb (IsZero (o_Proxy x)) (IsZero (o_Proxy y))) then true
  else negb (bool_decide (compared x = compared y)).

Definition with_ins (o : Options) (i : option nat) : Options :=
  MkOptions (o_ListenAddr o) (o_Proxy o) (o_Forward o) (o_URL o) (o_out o) (o_Mux o) (o_Conn o) (o_Relay o) i.

Definition with_cert (o : Options) (cert : list (gostring * gostring)) : Options :=
  MkOptions (o_ListenAddr o) (o_Proxy o) (o_Forward o) (o_URL o)
    (with_so (o_out o) (MkSecurity (TLS_ServerName (so (o_out o))) cert (TLS_CertFile (so (o_out o)))))
    (o_Mux o) (o_Conn o) (o_Relay o) (o_ins o).

Definition with_forward (o : Options) (hp : HostportOptions) : Options :=
  MkOptions (o_ListenAddr o) (o_Proxy o) hp (o_URL o) (o_out o) (o_Mux o) (o_Conn o) (o_Relay o) (o_ins o).

(** Where a connection goes: through the instance of the moment. *)
Definition getRemote (c : cell) (remoteAddr : gostring) : dial_error + (nat * gostring) :=
  let '(opts, _) := cell_read zero c in
  match o_ins opts with None => inl CloseConn | Some i => inr (i, remoteAddr) end.

(** Where a connection of the instance goes: through the proxy. *)
Definition forwardRemote (c : cell) (remoteAddr : gostring) : dial_error + (Dialer C * gostring) :=
  let '(opts, ok) := cell_read zero c in
  if ok : bool then inr (proxy_Dialer (o_Proxy opts), remoteAddr) else inl CloseConn.

(** [host, port, _ := net.SplitHostPort(forwardListener.Addr().String())] *)
Definition forward_hostport (addr : gostring) : HostportOptions :=
  match SplitHostPort addr with
  | Some (host, port) => MkHostport host (default 0 (Atoi port))
  | None => MkHostport [] 0
  end.

Definition J := Jobs.J Options state.

Definition stopInstance : J unit :=
  x ← get_extra;
  match ins x with
  | Some i => put_extra (MkState (started x) (closed x ++ [i]) None (forward x))
  | None => mret tt
  end.

(** What is around a LoadEvent: the files, which configurations start an
    instance, and the address of a new listener at localhost. *)
Record world := MkWorld {
  w_fs : gostring → option gostring;
  w_start : gostring → bool;
  w_localhost : option gostring }.

Section event.
Context (w : world).

Definition startInstance (opts : Options) : J unit :=
  match parseOptions opts with
  | None => mret tt
  | Some data =>
      x ← get_extra;
      if w_start w data
      then put_extra (MkState (started x ++ [data]) (closed x) (Some (length (started x))) (forward x))
      else put_extra (MkState (started x) (closed x) None (forward x))
  end.

Definition read_cert (new : Options) : J Options :=
  let path := TLS_CertFile (so (o_out new)) in
  if path == [] then mret new
  else
    match w_fs w path with
    | None | Some [] => exit
    | Some certData => mret (with_cert new [(bs "AUTHORITY_VERIFY", certData)])
    end.

Definition start_forward (new : Options) : J Options :=
  if IsZero (o_Proxy new) then mret new
  else
    x ← get_extra;
    match forward x with
    | Some addr => mret (with_forward new (forward_hostport addr))
    | None =>
        match w_localhost w with
        | None => exit
        | Some addr =>
            _ ← put_extra (MkState (started x) (closed x) (ins x) (Some addr));
            mret (with_forward new (forward_hostport addr))
        end
    end.

Definition restart (old new : Options) : J Options :=
  if shouldRestart old new then
    _ ← stopInstance;
    _ ← startInstance new;
    x ← get_extra;
    mret (with_ins new (ins x))
  else mret new.

(** What follows the listener. *)
Definition load_rest (new old : Options) : J Options :=
  new ← read_cert (with_ins new (o_ins old));
  new ← start_forward new;
  restart old new.

Definition LoadEvent_ (new : Options) : J unit :=
  old ← optsOut;
  _ ← check_addr (o_ListenAddr new);
  _ ← (if o_ListenAddr new == o_ListenAddr old then mret tt else stopServer);
  new ← load_rest new old;
  optsIn new.

(** The handler up to the restart: the old options, and the new ones with
    their certificate and forward address.  Connections run beside it: the
    parts of the handler that they can tell apart are the steps of
    V2socksLive.v. *)
Definition begin_load (new : Options) : J (Options * Options) :=
  old ← optsOut;
  _ ← check_addr (o_ListenAddr new);
  _ ← (if o_ListenAddr new == o_ListenAddr old then mret tt else stopServer);
  new ← read_cert (with_ins new (o_ins old));
  new ← start_forward new;
  mret (old, new).

(** The deferred calls, but for stopServer. *)
Definition leave : J unit :=
  x ← get_extra;
  _ ← put_extra (MkState (started x) (closed x) (ins x) None);
  stopInstance.

#[export] Instance v2socks : Service Options state := {
  zero_opts := zero;
  init_extra := MkState [] [] None None;
  ListenAddr := o_ListenAddr;
  watch_down := false;
  on_load _ := LoadEvent_;
  on_loaded := startServer o_ListenAddr;
  on_exit := leave }.

Definition Run := Jobs.Run (O := Options) (X := state).

(** ** The laws *)

Lemma stop_quiet : quiet stopInstance.
Proof. unfold stopInstance. apply quiet_bind; [eauto with jobs|]. intros x. destruct (ins x); eauto with jobs. Qed.

Lemma start_quiet opts : quiet (startInstance opts).
Proof.
  unfold startInstance. destruct (parseOptions opts); [|eauto with jobs].
  apply quiet_bind; [eauto with jobs|]. intros x. destruct (w_start w _); eauto with jobs.
Qed.

Lemma v2_load_rest_quiet new old : quiet (load_rest new old).
Proof.
  unfold load_rest. apply quiet_bind; [|intros n; apply quiet_bind; [|intros n'; unfold restart]].
  - unfold read_cert. cbv zeta. destruct (_ == _); [eauto with jobs|]. destruct (w_fs w _) as [[]|]; eauto with jobs.
  - unfold start_forward. destruct (IsZero _); [eauto with jobs|]. apply quiet_bind; [eauto with jobs|].
    intros x. destruct (forward x); [eauto with jobs|]. destruct (w_localhost w); eauto with jobs.
  - destruct (shouldRestart _ _); [|eauto with jobs]. apply quiet_bind; [apply stop_quiet|]. intros _.
    apply quiet_bind; [apply start_quiet|]. intros _. eauto with jobs.
Qed.

Lemma leave_quiet : quiet leave.
Proof.
  unfold leave. apply quiet_bind; [eauto with jobs|]. intros x. apply quiet_bind; [eauto with jobs|].
  intros _. apply stop_quiet.
Qed.

(** ** What a LoadEvent does *)

Definition stopped (x : state) : state :=
  match ins x with Some i => MkState (started x) (closed x ++ [i]) None (forward x) | None => x end.

Lemma stopInstance_spec s : stopInstance s = (Val tt, MkJob (opts s) (server s) (stopped (extra s)) (log s)).
Proof. unfold stopInstance, stopped, mbind, J_bind. simpl. destruct s as [o sv x l], x as [st cl [i|] fw]; done. Qed.

(** The instance after a start, from none. *)
Definition starts (opts : Options) (x x' : state) : Prop :=
  closed x' = closed x ∧ forward x' = forward x ∧
  (started x' = started x ∧ ins x' = None ∨
   ∃ data, parseOptions opts = Some data ∧ started x' = started x ++ [data] ∧ ins x' = Some (length (started x))).

Lemma startInstance_spec opts s :
  ins (extra s) = None →
  ∃ s', startInstance opts s = (Val tt, s') ∧ starts opts (extra s) (extra s').
Proof.
  intros Hi. unfold startInstance, starts, mbind, J_bind. destruct (parseOptions opts) as [data|] eqn:Ep.
  - simpl. destruct (w_start w data); eexists; (split; [reflexivity|]); simpl; (split_and!; [done..|]); [right; eauto|by left].
  - eexists. split; [reflexivity|]. split_and!; [done..|]. by left.
Qed.

Lemma restart_spec old new s :
  ∃ n s', restart old new s = (Val n, s') ∧ o_ListenAddr n = o_ListenAddr new ∧ o_Forward n = o_Forward new ∧
    o_Proxy n = o_Proxy new ∧ parseOptions n = parseOptions new ∧
    (if shouldRestart old new
     then starts new (stopped (extra s)) (extra s') ∧ o_ins n = ins (extra s')
     else n = new ∧ extra s' = extra s).
Proof.
  unfold restart. destruct (shouldRestart old new); [|by exists new, s].
  unfold mbind, J_bind. rewrite stopInstance_spec.
  destruct (startInstance_spec new (MkJob (opts s) (server s) (stopped (extra s)) (log s))) as (s1 & E & Hst).
  { unfold stopped. simpl. by destruct (ins (extra s)) eqn:Ei. }
  rewrite E. simpl. eexists _, s1. split; [reflexivity|]. by split_and!.
Qed.

(** The options before the restart. *)
Definition prepared (new n0 : Options) (x x0 : state) : Prop :=
  o_ListenAddr n0 = o_ListenAddr new ∧ o_Proxy n0 = o_Proxy new ∧ o_ins n0 = o_ins new ∧
  started x0 = started x ∧ closed x0 = closed x ∧ ins x0 = ins x ∧
  if IsZero (o_Proxy new) then o_Forward n0 = o_Forward new ∧ forward x0 = forward x
  else ∃ addr, forward x0 = Some addr ∧ o_Forward n0 = forward_hostport addr ∧
         (forward x = Some addr ∨ forward x = None).

Lemma prepare_spec new s :
  (∃ n0 s0, (n ← read_cert new; start_forward n) s = (Val n0, s0) ∧ prepared new n0 (extra s) (extra s0)) ∨
  (∃ s0, (n ← read_cert new; start_forward n) s = (Halt Return, s0) ∧ extra s0 = extra s).
Proof.
  assert (read_cert new s = (Halt Return, s) ∨ ∃ n, read_cert new s = (Val n, s) ∧ o_ListenAddr n = o_ListenAddr new ∧
    o_Proxy n = o_Proxy new ∧ o_Forward n = o_Forward new ∧ o_ins n = o_ins new) as [Hc|(n & Hc & H1 & H2 & H3 & H4)].
  { unfold read_cert. cbv zeta. destruct (_ == _); [right; by exists new|].
    destruct (w_fs w _) as [[|c d]|]; [by left| |by left]. right. eexists. by split_and!. }
  { right. exists s. split; [|done]. unfold mbind, J_bind. by rewrite Hc. }
  unfold mbind, J_bind. rewrite Hc. unfold start_forward, prepared. rewrite H2, <- H1, <- H2, <- H4.
  destruct (IsZero (o_Proxy n)); [left; exists n, s; by split_and!|].
  unfold mbind, J_bind. simpl. destruct (forward (extra s)) as [addr|] eqn:Ef.
  - left. eexists _, s. split; [reflexivity|]. split_and!; [done..|]. exists addr. split_and!; [done..|by left].
  - destruct (w_localhost w) as [addr|]; [left|right; by exists s].
    eexists _, _. split; [reflexivity|]. split_and!; [done..|]. exists addr. split_and!; [done..|by right].
Qed.

Lemma load_rest_spec new old s :
  (∃ n s' n0 x0, load_rest new old s = (Val n, s') ∧ o_ListenAddr n = o_ListenAddr new ∧
     prepared (with_ins new (o_ins old)) n0 (extra s) x0 ∧ o_Forward n = o_Forward n0 ∧ o_Proxy n = o_Proxy new ∧
     parseOptions n = parseOptions n0 ∧
     (if shouldRestart old n0 then starts n0 (stopped x0) (extra s') ∧ o_ins n = ins (extra s')
      else n = n0 ∧ extra s' = x0)) ∨
  (∃ s', load_rest new old s = (Halt Return, s') ∧ extra s' = extra s).
Proof.
  assert (load_rest new old s = ((n ← read_cert (with_ins new (o_ins old)); start_forward n) ≫= restart old) s) as ->.
  { unfold load_rest, mbind, J_bind. by destruct (read_cert _ s) as [[]]. }
  destruct (prepare_spec (with_ins new (o_ins old)) s) as [(n0 & s0 & E & Hp)|(s0 & E & Hx)].
  - left. destruct (restart_spec old n0 s0) as (n & s' & Er & R1 & R2 & R3 & R4 & R5).
    exists n, s', n0, (extra s0). split_and!; [|by destruct Hp as (H & _); rewrite R1, H|done|done| |done|done].
    + unfold mbind at 1, J_bind at 1. by rewrite E.
    + destruct Hp as (_ & H & _). by rewrite R3, H.
  - right. exists s0. split; [|done]. unfold mbind at 1, J_bind at 1. by rewrite E.
Qed.

(** *** The parts of a LoadEvent *)

Lemma LoadEvent_parts new s :
  LoadEvent_ new s = (p ← begin_load new; n ← restart p.1 p.2; optsIn n) s.
Proof.
  unfold LoadEvent_, begin_load, load_rest, mbind, J_bind. cbn.
  destruct (check_addr _ s) as [[[]|h] s1]; [|done].
  destruct (bool_decide (o_ListenAddr new = o_ListenAddr (opts s))); cbn;
    [|destruct (stopServer s1) as [[[]|h] s2]; [|done]];
    (destruct (read_cert _ _) as [[n|h] s3]; [|done]); by destruct (start_forward n s3) as [[n'|h] s4].
Qed.

Lemma prepare_quiet new : quiet (n ← read_cert new; start_forward n).
Proof.
  apply quiet_bind; [|intros n].
  - unfold read_cert. cbv zeta. destruct (_ == _); [eauto with jobs|]. destruct (w_fs w _) as [[]|]; eauto with jobs.
  - unfold start_forward. destruct (IsZero _); [eauto with jobs|]. apply quiet_bind; [eauto with jobs|].
    intros x. destruct (forward x); [eauto with jobs|]. destruct (w_localhost w); eauto with jobs.
Qed.

(** What is before the restart touches no instance, and no options. *)
Lemma begin_load_spec new s :
  (∃ n0 s0, begin_load new s = (Val (opts s, n0), s0) ∧ opts s0 = opts s ∧
     prepared (with_ins new (o_ins (opts s))) n0 (extra s) (extra s0)) ∨
  (∃ s0, begin_load new s = (Halt Return, s0) ∧ opts s0 = opts s ∧ extra s0 = extra s).
Proof.
  unfold begin_load, mbind, J_bind, optsOut. unfold check_addr.
  destruct (SplitHostPort _); [cbn|right; by exists s].
  assert (∃ s1, (if o_ListenAddr new == o_ListenAddr (opts s) then (mret tt : J unit) else stopServer) s = (Val tt, s1) ∧
    opts s1 = opts s ∧ extra s1 = extra s) as (s1 & -> & Eo & Ex).
  { case_bool_decide; [by exists s|]. unfold stopServer. destruct (server s); by eexists. }
  destruct (prepare_spec (with_ins new (o_ins (opts s))) s1) as [(n0 & s0 & E & Hp)|(s0 & E & Hx)];
    destruct (prepare_quiet _ _ _ _ E) as (Hq & _ & _); unfold mbind, J_bind in E.
  - left. exists n0, s0. destruct (read_cert _ s1) as [[n|h] s2]; [|done].
    rewrite E. split_and!; [done|congruence|by rewrite <- Ex].
  - right. exists s0. split; [|split; congruence].
    destruct (read_cert _ s1) as [[n|h] s2]; [by rewrite E|by injection E as -> ->].
Qed.

#[export] Instance v2socks_laws : ServiceLaws Options state.
Proof.
  refine (service_laws (λ _ _, mret tt) (λ new old _, load_rest new old) _ _ _ _ _ _); job_obligations.
  - left. destruct (leave_quiet _ _ _ H) as (_ & ? & ?). done.
  - apply v2_load_rest_quiet.
  - destruct (load_rest_spec new old s) as [(n & s1 & _ & _ & E & Ha & _)|(s1 & E & _)]; rewrite E in H; [|done].
    by injection H as <- <-.
Qed.

#[export] Instance v2socks_keeps : KeepsServer Options state.
Proof.
  refine (service_keeps (λ _ _, mret tt) (λ new old _, load_rest new old) _ _ _ _ _ _); job_obligations.
  - left. destruct (leave_quiet _ _ _ H) as (_ & ? & ?). done.
  - apply v2_load_rest_quiet.
  - destruct (load_rest_spec new old s) as [(n & s1 & _ & _ & E & Ha & _)|(s1 & E & _)]; rewrite E in H; [|done].
    by injection H as <- <-.
Qed.
End event.
End v2socks.
