(* ===== verification/V2socksSpec.v ===== *)
(** * v2socks: the instance of a job.

    Between two handlers the options name an instance that was started with
    them and is open, every other instance is closed, and with a proxy the
    instance is told where to reach it; when Run returns nothing is left.  What
    connections see while a handler runs is in V2socksLive.v. *)

From S2P Require Import Prelude GoStrings Url Proxy Dial Defaults Jobs V2socks V2socksRun.

Open Scope go_scope.
#[local] Arguments bs : simpl never.

Section v2socks.
Context {C : Type}.
Context (netip_ParseAddr : gostring → option bool).
Context (Execute : HostportOptions → outbound → bool * Z → option gostring).
#[local] Set Default Proof Using "Type*".

Abbreviation Options := (@Options C) (only parsing).
Abbreviation job := (Jobs.job Options state) (only parsing).
Abbreviation v2socks w := (@V2socksRun.v2socks C netip_ParseAddr Execute w) (only parsing).

(** A handler that returns, in the world of that moment. *)
Definition job_step (s s' : job) : Prop :=
  ∃ w listen e, @handle _ _ (v2socks w) listen e s = (Val tt, s').

Definition job_start : job := MkJob zero None (MkState [] [] None None) [].
Definition job_reach : job → Prop := rtc job_step job_start.

(** Each instance that was started is closed, unless it is ins; none is closed
    twice. *)
Record owned (x : state) : Prop := {
  ow_rest : ∀ i, (i < length (started x))%nat → ins x = Some i ∨ i ∈ closed x;
  ow_ins : ∀ i, ins x = Some i → (i < length (started x))%nat ∧ i ∉ closed x;
  ow_closed : NoDup (closed x) ∧ ∀ i, i ∈ closed x → (i < length (started x))%nat }.

Record job_ok (s : job) : Prop := {
  ok_owned : owned (extra s);
  ok_ins : o_ins (opts s) = ins (extra s);
  ok_current : ∀ i, o_ins (opts s) = Some i →
    ∃ data, started (extra s) !! i = Some data ∧ parseOptions netip_ParseAddr Execute (opts s) = Some data;
  ok_forward : IsZero (o_Proxy (opts s)) = false →
    ∃ addr, forward (extra s) = Some addr ∧ o_Forward (opts s) = forward_hostport addr }.

Lemma owned_stopped x : owned x → owned (stopped x).
Proof.
  intros H. unfold stopped. destruct (ins x) as [i|] eqn:Ei; [|done]. destruct H as [H1 H2 [H3 H4]].
  destruct (H2 i Ei) as [Hi Hn]. split; simpl.
  - intros j Hj. right. apply elem_of_app. destruct (H1 j Hj) as [E|]; [right|by left].
    rewrite Ei in E. injection E as <-. by left.
  - done.
  - split; [apply NoDup_app; split_and!; [done| |apply NoDup_singleton]; intros j Hj Hin; apply list_elem_of_singleton in Hin; congruence|].
    intros j [Hj|Hj]%elem_of_app; [by apply H4|]. apply list_elem_of_singleton in Hj. by subst.
Qed.

Lemma owned_starts (n : Options) x x' : ins x = None → starts netip_ParseAddr Execute n x x' → owned x → owned x'.
Proof.
  intros Hi (Ec & _ & Hs) [H1 H2 [H3 H4]].
  destruct Hs as [[Es Ei]|(data & _ & Es & Ei)].
  - split; rewrite ?Es, ?Ec, ?Ei; [|done|done]. intros i Hl. destruct (H1 i Hl); [congruence|by right].
  - split; rewrite ?Es, ?Ec, ?Ei, ?length_app; simpl.
    + intros i Hl. destruct (decide (i = length (started x))) as [->|]; [by left|right].
      destruct (H1 i ltac:(lia)); [congruence|done].
    + intros i [= <-]. split; [lia|]. intros Hin. specialize (H4 _ Hin). lia.
    + split; [done|]. intros i Hin. specialize (H4 i Hin). lia.
Qed.

Lemma stopped_none x : ins (stopped x) = None.
Proof. unfold stopped. by destruct (ins x) eqn:E. Qed.

Lemma stopped_forward x : forward (stopped x) = forward x.
Proof. unfold stopped. by destruct (ins x). Qed.

(** Options that are not restarted make the same configuration. *)
Lemma same_data x y :
  shouldRestart (C := C) x y = false →
  parseOptions netip_ParseAddr Execute y = parseOptions netip_ParseAddr Execute x ∧ o_Forward y = o_Forward x ∧
  IsZero (o_Proxy y) = IsZero (o_Proxy x).
Proof.
  unfold shouldRestart. destruct (negb (eqb _ _)) eqn:E; [done|].
  rewrite negb_false_iff, bool_decide_eq_true. unfold compared. intros [= E1 E2 E3 E4 E5].
  apply negb_false_iff, eqb_prop in E. unfold parseOptions. by rewrite E2, E3, E4, E5.
Qed.

(** The options after a restart, or the old instance with them. *)
Lemma restarted_ok s n n0 x0 (s1 : job) :
  job_ok s → o_ins n0 = o_ins (opts s) → ins x0 = ins (extra s) → started x0 = started (extra s) →
  closed x0 = closed (extra s) → o_Proxy n = o_Proxy n0 → o_Forward n = o_Forward n0 →
  parseOptions netip_ParseAddr Execute n = parseOptions netip_ParseAddr Execute n0 →
  (IsZero (o_Proxy n0) = false → ∃ addr, forward x0 = Some addr ∧ o_Forward n0 = forward_hostport addr) →
  (if shouldRestart (opts s) n0
   then starts netip_ParseAddr Execute n0 (stopped x0) (extra s1) ∧ o_ins n = ins (extra s1)
   else n = n0 ∧ extra s1 = x0) →
  job_ok (MkJob n (server s1) (extra s1) (log s1)).
Proof.
  intros [Ho Hi Hc _] P3 P6 P4 P5 Np Nf Nd Hfw N3.
  assert (owned x0) as Ho0. { destruct Ho. split; rewrite ?P4, ?P5, ?P6; done. }
  destruct (shouldRestart (opts s) n0) eqn:Er.
  - destruct N3 as [Hst Hin]. split; simpl; [|done|..].
    + eapply owned_starts; [apply stopped_none|exact Hst|by apply owned_stopped].
    + rewrite Hin, Nd. destruct Hst as (_ & _ & [[_ ->]|(data & Hd & -> & ->)]); [done|].
      intros i [= <-]. exists data. by rewrite lookup_app_r, Nat.sub_diag by lia.
    + rewrite Np, Nf. destruct Hst as (_ & -> & _). by rewrite stopped_forward.
  - destruct N3 as [-> ->]. destruct (same_data _ _ Er) as (E1 & _ & _). split; simpl; [done| | |done].
    + by rewrite P3, P6.
    + rewrite P3, P4, E1. apply Hc.
Qed.

Lemma load_ok w listen new s s' :
  job_ok s → @handle _ _ (v2socks w) listen (LoadEvent new) s = (Val tt, s') → job_ok s'.
Proof.
  intros Hs. simpl. unfold LoadEvent_. intros E.
  apply bind_inv in E as [(old & s0 & [= <- <-] & E)|[_ [=]]].
  apply bind_inv in E as [([] & s1 & E1 & E)|[[=] _]].
  apply bind_inv in E as [([] & s2 & E2 & E)|[[=] _]].
  apply bind_inv in E as [(n & s3 & E3 & E)|[[=] _]]. injection E as <-.
  assert (extra s2 = extra s) as Ex.
  { transitivity (extra s1).
    - revert E2. case_match; [by intros [= <-]|]. unfold stopServer. case_match; by intros [= <-].
    - revert E1. unfold check_addr. destruct (SplitHostPort _); [by intros [= <-]|done]. }
  destruct (load_rest_spec netip_ParseAddr Execute w new (opts s) s2)
    as [(n' & s4 & n0 & x0 & E4 & _ & Hp & Nf & Np & Nd & N3)|(s4 & E4 & _)]; rewrite E4 in E3; [|done].
  injection E3 as -> ->. destruct Hp as (_ & P2 & P3 & P4 & P5 & P6 & P7). rewrite Ex in *. simpl in *.
  eapply (restarted_ok s n n0 x0 s3); try done; [by rewrite Np, P2|].
  rewrite P2. intros Hz. rewrite Hz in P7. destruct P7 as (addr & ? & ? & _). by exists addr.
Qed.

Lemma v2_step_ok s s' : job_ok s → job_step s s' → job_ok s'.
Proof.
  intros Hs (w & listen & e & E). destruct e as [new| |]; [by eapply load_ok| |by injection E as <-].
  simpl in E. unfold startServer in E. destruct (server s); [by injection E as <-|].
  destruct (listen _); [|done]. injection E as <-. by destruct Hs.
Qed.

Lemma v2_reach_ok s : job_reach s → job_ok s.
Proof.
  intros Hr. assert (job_ok job_start) as H0.
  { split; simpl; [|done|done|done]. split; simpl; [lia|done|]. split; [by apply NoDup_nil_2|].
    by intros i ?%elem_of_nil. }
  induction Hr; [done|]. eauto using v2_step_ok.
Qed.

(** A handler that ends Run leaves the instances as they were. *)
Lemma exit_extra w listen e s s1 :
  @handle _ _ (v2socks w) listen e s = (Halt Return, s1) → extra s1 = extra s.
Proof.
  intros E. destruct e as [new| |]; [|simpl in E; unfold startServer in E; destruct (server s); [done|];
    destruct (listen _); [done|by injection E as <-]|done].
  simpl in E. unfold LoadEvent_ in E.
  apply bind_inv in E as [(old & s0 & [= <- <-] & E)|[_ [=]]].
  apply bind_inv in E as [([] & s2 & E1 & E)|[_ E1]].
  2:{ revert E1. unfold check_addr. destruct (SplitHostPort _); by intros [= <-]. }
  assert (extra s2 = extra s) as <-.
  { revert E1. unfold check_addr. destruct (SplitHostPort _); [by intros [= <-]|done]. }
  apply bind_inv in E as [([] & s3 & E2 & E)|[_ E2]].
  2:{ revert E2. case_match; [done|]. unfold stopServer. by case_match. }
  assert (extra s3 = extra s2) as <-.
  { revert E2. case_match; [by intros [= <-]|]. unfold stopServer. case_match; by intros [= <-]. }
  apply bind_inv in E as [(n & s4 & E3 & E)|[_ E3]]; [done|].
  destruct (load_rest_spec netip_ParseAddr Execute w new (opts s) s3)
    as [(n' & s4 & n0 & x0 & E4 & _)|(s4 & E4 & Ex)]; rewrite E4 in E3; [done|]. by injection E3 as <-.
Qed.

(** When Run returns, because its context is done or a handler failed, every
    instance is closed, once, and both listeners are. *)
Theorem instances_released s w listen e s1 :
  job_reach s → @handle _ _ (v2socks w) listen e s = (Halt Return, s1) ∨ s1 = s →
  let s' := @deferred _ _ (v2socks w) s1 in
  ins (extra s') = None ∧ forward (extra s') = None ∧ server s' = None ∧ NoDup (closed (extra s')) ∧
  ∀ i, (i < length (started (extra s')))%nat ↔ i ∈ closed (extra s').
Proof.
  intros Hr%v2_reach_ok He. assert (extra s1 = extra s) as Ex.
  { destruct He as [He| ->]; [by eapply exit_extra|done]. }
  cbv zeta. set (x := MkState (started (extra s1)) (closed (extra s1)) (ins (extra s1)) None).
  assert (extra (@deferred _ _ (v2socks w) s1) = stopped x) as ->.
  { unfold deferred. cbn [on_exit V2socksRun.v2socks]. unfold leave, mbind, J_bind. simpl. rewrite stopInstance_spec.
    unfold stopServer. by case_match. }
  assert (owned x) as Ho by (destruct Hr as [[H1 H2 H3] _ _ _]; split; simpl; rewrite Ex; done).
  apply owned_stopped in Ho as [H1 H2 [H3 H4]]. rewrite stopped_none in H1.
  split_and!; [apply stopped_none|by rewrite stopped_forward|apply stopServer_none|done|].
  intros i. split; [|apply H4]. intros Hi. by destruct (H1 i Hi).
Qed.
End v2socks.

(** ** A run: a link, a reload with another one, and the end *)

Definition render (hp : HostportOptions) (ob : outbound) (mux : bool * Z) : option gostring :=
  Some (Protocol ob ++ bs " " ++ Address (us_hp (VLESS (po ob)))).

Definition link_options (url : gostring) : @Options unit :=
  MkOptions (bs "127.0.0.1:1080") (MkProxy None []) no_hp url no_outbound (false, 0) zero_conn zero_relay None.

Definition a_world : world := MkWorld (λ _, None) (λ _, true) None.

Definition loads_link (url : gostring) (s : Jobs.job (@Options unit) state) : Jobs.job (@Options unit) state :=
  snd (@handle _ _ (v2socks no_ip render a_world) (λ _, true) (LoadEvent (link_options url)) s).

Definition job_a := loads_link (bs "vless://u@a.example:443") job_start.
Definition job_b := loads_link (bs "vless://u@b.example:443") job_a.

Lemma job_b_reach : @job_reach unit no_ip render job_b.
Proof.
  eapply rtc_l; [|apply rtc_once].
  - exists a_world, (λ _, true), (LoadEvent (link_options (bs "vless://u@a.example:443"))). vm_compute. reflexivity.
  - exists a_world, (λ _, true), (LoadEvent (link_options (bs "vless://u@b.example:443"))). vm_compute. reflexivity.
Qed.

Example job_b_instances : started (extra job_b) = [bs "VLESS a.example"; bs "VLESS b.example"] ∧ closed (extra job_b) = [0%nat].
Proof. vm_compute. done. Qed.

Lemma instances_released_witness :
  let s' := @deferred _ _ (v2socks no_ip render a_world) job_b in
  closed (extra s') = [0; 1]%nat ∧
  (ins (extra s') = None ∧ forward (extra s') = None ∧ server s' = None ∧ NoDup (closed (extra s')) ∧
   ∀ i, (i < length (started (extra s')))%nat ↔ i ∈ closed (extra s')).
Proof.
  split; [vm_compute; reflexivity|].
  exact (instances_released no_ip render job_b a_world (λ _, true) NilEvent job_b job_b_reach (or_intror eq_refl)).
Defined.
