(* ===== verification/V2socksLive.v ===== *)
(** * v2socks, beside its connections.

    A LoadEvent that restarts the instance closes the old one, starts another
    and publishes it in three steps; connections read the options and dial at
    any moment between them.  The parts of the handler are those of
    V2socksRun.v; what holds between handlers is V2socksSpec.v. *)

From S2P Require Import Prelude GoStrings Url Proxy Dial Defaults Jobs V2socks V2socksRun V2socksSpec.

Open Scope go_scope.
#[local] Arguments bs : simpl never.

Section live.
Context {C : Type}.
Context (netip_ParseAddr : gostring → option bool).
Context (Execute : HostportOptions → outbound → bool * Z → option gostring).
#[local] Set Default Proof Using "Type*".

Abbreviation Options := (@Options C) (only parsing).
Abbreviation job := (Jobs.job Options state) (only parsing).
Abbreviation v2socks w := (@V2socksRun.v2socks C netip_ParseAddr Execute w) (only parsing).
Abbreviation parseOptions := (@V2socksRun.parseOptions C netip_ParseAddr Execute) (only parsing).
Abbreviation job_ok := (@job_ok C netip_ParseAddr Execute) (only parsing).
Abbreviation starts := (@starts C netip_ParseAddr Execute) (only parsing).

(** ** State *)

(** Where Run is: at its select; in a LoadEvent, before the restart, after
    stopInstance, or with the options that are to be published; in the deferred
    calls, before and after stopInstance; at the end, with the options gone. *)
Inductive phase :=
  | Ready
  | Loading (old new : Options)
  | Stopped (new : Options)
  | Started (new : Options)
  | Leaving
  | Left
  | Over.

(** An attempt of a connection: the options that getRemote has read, where it
    goes, how many instances were closed by then and whether Run was at its
    select; its dial, with how many were closed by then, and whether the
    instance was open. *)
Record connection := MkConn {
  c_cell : cell (O := Options);
  c_addr : gostring;
  c_at : nat;
  c_calm : bool;
  c_dial : option (nat * bool) }.

Record machine := MkMachine { m_job : job; m_phase : phase; m_conns : list connection }.

(** ** Operations *)

Definition at_ (s : job) (p : phase) (m : machine) : machine := MkMachine s p (m_conns m).

Definition is_ready (p : phase) : bool := match p with Ready => true | _ => false end.

(** [opts := <-optsOut] *)
Definition cell_of (m : machine) : cell (O := Options) :=
  match m_phase m with Over => None | _ => Some (opts (m_job m)) end.

Definition read_options (remoteAddr : gostring) (m : machine) : machine :=
  MkMachine (m_job m) (m_phase m)
    (m_conns m ++ [MkConn (cell_of m) remoteAddr (length (closed (extra (m_job m)))) (is_ready (m_phase m)) None]).

(** [proxy.Dial(ctx, opts.ins, "tcp", remoteAddr)] *)
Definition dial (k : nat) (c : connection) (i : nat) (m : machine) : machine :=
  let gone := closed (extra (m_job m)) in
  MkMachine (m_job m) (m_phase m)
    (<[k := MkConn (c_cell c) (c_addr c) (c_at c) (c_calm c) (Some (length gone, bool_decide (i ∉ gone)))]> (m_conns m)).

(** ** Steps *)

Inductive live_step : machine → machine → Prop :=
  | l_begin m w new p s : m_phase m = Ready → begin_load w new (m_job m) = (Val p, s) →
      live_step m (at_ s (Loading p.1 p.2) m)
  | l_begin_fails m w new s : m_phase m = Ready → begin_load w new (m_job m) = (Halt Return, s) →
      live_step m (at_ s Leaving m)
  | l_keep m old new : m_phase m = Loading old new → shouldRestart old new = false →
      live_step m (at_ (m_job m) (Started new) m)
  | l_stop m old new s : m_phase m = Loading old new → shouldRestart old new = true →
      stopInstance (m_job m) = (Val tt, s) → live_step m (at_ s (Stopped new) m)
  | l_start m w new s : m_phase m = Stopped new →
      startInstance netip_ParseAddr Execute w new (m_job m) = (Val tt, s) →
      live_step m (at_ s (Started (with_ins new (ins (extra s)))) m)
  | l_publish m new s : m_phase m = Started new → optsIn new (m_job m) = (Val tt, s) →
      live_step m (at_ s Ready m)
  | l_loaded m listen s : m_phase m = Ready → startServer o_ListenAddr listen (m_job m) = (Val tt, s) →
      live_step m (at_ s Ready m)
  | l_loaded_fails m listen s : m_phase m = Ready → startServer o_ListenAddr listen (m_job m) = (Halt Return, s) →
      live_step m (at_ s Leaving m)
  | l_done m : m_phase m = Ready → live_step m (at_ (m_job m) Leaving m)
  | l_leave m s : m_phase m = Leaving → leave (m_job m) = (Val tt, s) → live_step m (at_ s Left m)
  | l_over m s : m_phase m = Left → stopServer (m_job m) = (Val tt, s) → live_step m (at_ s Over m)
  | l_read m remoteAddr : live_step m (read_options remoteAddr m)
  | l_dial m k c i : m_conns m !! k = Some c → c_dial c = None →
      getRemote (c_cell c) (c_addr c) = inr (i, c_addr c) → live_step m (dial k c i m).

Definition live_start : machine := MkMachine job_start Ready [].
Definition live_reach : machine → Prop := rtc live_step live_start.

(** A LoadEvent that nobody disturbs is the handler of V2socksRun.v. *)
Lemma handled_live w listen new s s' l :
  @handle _ _ (v2socks w) listen (LoadEvent new) s = (Val tt, s') →
  rtc live_step (MkMachine s Ready l) (MkMachine s' Ready l).
Proof.
  cbn [handle on_load V2socksRun.v2socks]. rewrite LoadEvent_parts. intros E.
  apply bind_inv in E as [([old n0] & s1 & E1 & E)|[[=] _]].
  apply bind_inv in E as [(n & s2 & E2 & E)|[[=] _]]. cbn [fst snd] in E2.
  eapply rtc_l; [by eapply (l_begin (MkMachine s Ready l))|]. unfold at_ at 1. cbn [fst snd m_conns].
  unfold restart in E2. destruct (shouldRestart old n0) eqn:Er.
  - apply bind_inv in E2 as [([] & s3 & E3 & E2)|[[=] _]]. apply bind_inv in E2 as [([] & s4 & E4 & E2)|[[=] _]].
    injection E2 as <- <-.
    eapply rtc_l; [by eapply (l_stop (MkMachine s1 (Loading old n0) l))|].
    eapply rtc_l; [by eapply (l_start (MkMachine s3 (Stopped n0) l))|].
    apply rtc_once. by apply (l_publish (MkMachine s4 (Started (with_ins n0 (ins (extra s4)))) l) (with_ins n0 (ins (extra s4))) s').
  - injection E2 as <- <-. eapply rtc_l; [by eapply (l_keep (MkMachine s1 (Loading old n0) l))|].
    apply rtc_once. by apply (l_publish (MkMachine s1 (Started n0) l) n0 s').
Qed.

(** ** The invariant *)

(** The options name an instance that was started with them. *)
Definition current (o : Options) (x : state) : Prop :=
  ∀ i, o_ins o = Some i → ∃ data, started x !! i = Some data ∧ parseOptions o = Some data.

(** A LoadEvent whose handler began in [s0], with [new] and [x0] before the
    restart. *)
Record loading (s0 : job) (new : Options) (x0 : state) : Prop := {
  ld_ok : job_ok s0;
  ld_ins : o_ins new = o_ins (opts s0);
  ld_started : started x0 = started (extra s0);
  ld_closed : closed x0 = closed (extra s0);
  ld_var : ins x0 = ins (extra s0);
  ld_forward : IsZero (o_Proxy new) = false →
    ∃ addr, forward x0 = Some addr ∧ o_Forward new = forward_hostport addr }.

(** Where the instances are in each phase. *)
Definition phase_ok (p : phase) (s : job) : Prop :=
  match p with
  | Ready | Leaving => job_ok s
  | Loading old new => ∃ s0, old = opts s0 ∧ opts s = opts s0 ∧ loading s0 new (extra s)
  | Stopped new => ∃ s0 x0, opts s = opts s0 ∧ loading s0 new x0 ∧ shouldRestart (opts s0) new = true ∧
      extra s = stopped x0
  | Started n => ∃ s0 n0 x0, opts s = opts s0 ∧ loading s0 n0 x0 ∧ o_Proxy n = o_Proxy n0 ∧
      o_Forward n = o_Forward n0 ∧ parseOptions n = parseOptions n0 ∧
      if shouldRestart (opts s0) n0 then starts n0 (stopped x0) (extra s) ∧ o_ins n = ins (extra s)
      else n = n0 ∧ extra s = x0
  | Left => ins (extra s) = None
  | Over => ins (extra s) = None
  end.

Record connection_ok (x : state) (c : connection) : Prop := {
  co_current o : c_cell c = Some o → current o x;
  co_at : (c_at c ≤ length (closed x))%nat;
  co_open o i : c_cell c = Some o → o_ins o = Some i → c_calm c = true → c_at c = length (closed x) → i ∉ closed x;
  co_dial n b : c_dial c = Some (n, b) → c_calm c = true → n = c_at c → b = true }.

Record machine_ok (m : machine) : Prop := {
  mo_owned : owned (extra (m_job m));
  mo_current : m_phase m ≠ Over → current (opts (m_job m)) (extra (m_job m));
  mo_phase : phase_ok (m_phase m) (m_job m);
  mo_conns : Forall (connection_ok (extra (m_job m))) (m_conns m) }.

(** Instances are only added, and only closed more. *)
Definition grows (x x' : state) : Prop := started x `prefix_of` started x' ∧ closed x `prefix_of` closed x'.

Lemma grows_refl x : grows x x.
Proof. by split. Qed.

Lemma grows_eq x x' : started x' = started x → closed x' = closed x → grows x x'.
Proof. intros E1 E2. unfold grows. by rewrite E1, E2. Qed.

Lemma grows_stopped x : grows x (stopped x).
Proof. unfold stopped. destruct (ins x); split; simpl; try done. by apply prefix_app_r. Qed.

Lemma grows_starts n x x' : starts n x x' → grows x x'.
Proof.
  intros (E & _ & [[E1 _]|(data & _ & E1 & _)]); split; rewrite ?E, ?E1; try done. by apply prefix_app_r.
Qed.

Lemma current_grows o x x' : grows x x' → current o x → current o x'.
Proof.
  intros [H _] Hc i Hi. destruct (Hc i Hi) as (data & Hd & Hp). exists data. split; [|done].
  by eapply prefix_lookup_Some.
Qed.

Lemma connection_grows x x' c : grows x x' → connection_ok x c → connection_ok x' c.
Proof.
  intros Hg [H1 H2 H3 H4]. pose proof Hg as [_ [l Hl]]. split; [|..|done].
  - intros o Ho. eapply current_grows; [done|by apply H1].
  - rewrite Hl, length_app. lia.
  - intros o i Ho Hi Hc Hn. rewrite Hl, length_app in Hn. assert (l = []) as ->.
    { apply nil_length_inv. lia. }
    rewrite Hl, app_nil_r. eapply H3; [done..|]. simpl in Hn. lia.
Qed.

(** ** The steps keep it *)

Lemma owned_eq x x' : started x' = started x → closed x' = closed x → ins x' = ins x → owned x → owned x'.
Proof. intros E1 E2 E3 [H1 H2 H3]. split; rewrite ?E1, ?E2, ?E3; done. Qed.

Lemma job_ok_eq (s s' : job) : opts s' = opts s → extra s' = extra s → job_ok s → job_ok s'.
Proof. intros E1 E2 [H1 H2 H3 H4]. split; rewrite ?E1, ?E2; done. Qed.

Lemma v2_move_ok m s p :
  machine_ok m → grows (extra (m_job m)) (extra s) → owned (extra s) →
  (p ≠ Over → current (opts s) (extra s)) → phase_ok p s → machine_ok (at_ s p m).
Proof.
  intros [H1 H2 H3 H4] Hg Ho Hc Hp. split; simpl; try done.
  eapply Forall_impl; [exact H4|]. intros c. by apply connection_grows.
Qed.

(** Nothing that matters here has changed. *)
Lemma v2_same_ok m s p :
  machine_ok m → m_phase m ≠ Over → opts s = opts (m_job m) → extra s = extra (m_job m) → phase_ok p s →
  machine_ok (at_ s p m).
Proof.
  intros H Hn Eo Ex Hp. apply v2_move_ok; [done|rewrite Ex; apply grows_refl|rewrite Ex; apply H| |done].
  intros _. rewrite Eo, Ex. by apply H.
Qed.

Lemma v2_begin_ok m w new (q : Options * Options) s :
  machine_ok m → m_phase m = Ready → begin_load w new (m_job m) = (Val q, s) →
  machine_ok (at_ s (Loading q.1 q.2) m).
Proof.
  intros H Hph E. pose proof (mo_phase _ H) as Hok. rewrite Hph in Hok. simpl in Hok.
  destruct (begin_load_spec w new (m_job m)) as [(n0 & s0 & E' & Eo & Hp)|(s0 & E' & _)]; rewrite E' in E; [|done].
  injection E as <- <-. destruct Hp as (_ & P2 & P3 & P4 & P5 & P6 & P7).
  apply v2_move_ok; [done|by apply grows_eq|by eapply owned_eq, H| |].
  - intros _. rewrite Eo. eapply current_grows; [by apply grows_eq|]. apply H. by rewrite Hph.
  - exists (m_job m). split_and!; [done..|]. split; [done..|]. cbn [fst snd]. simpl in P2. rewrite P2. intros Hz. simpl in P7.
    rewrite Hz in P7. destruct P7 as (addr & ? & ? & _). by exists addr.
Qed.

Lemma v2_begin_fails_ok m w new s :
  machine_ok m → m_phase m = Ready → begin_load w new (m_job m) = (Halt Return, s) → machine_ok (at_ s Leaving m).
Proof.
  intros H Hph E. pose proof (mo_phase _ H) as Hok. rewrite Hph in Hok. simpl in Hok.
  destruct (begin_load_spec w new (m_job m)) as [(n0 & s0 & E' & _)|(s0 & E' & Eo & Ex)]; rewrite E' in E; [done|].
  injection E as <-. apply v2_same_ok; [done|by rewrite Hph|done|done|]. by eapply job_ok_eq.
Qed.

Lemma v2_stop_ok m old new s :
  machine_ok m → m_phase m = Loading old new → shouldRestart old new = true →
  stopInstance (m_job m) = (Val tt, s) → machine_ok (at_ s (Stopped new) m).
Proof.
  intros H Hph Hr E. rewrite stopInstance_spec in E. injection E as <-.
  pose proof (mo_phase _ H) as Hp. rewrite Hph in Hp. destruct Hp as (s0 & -> & Eo & Hl).
  apply v2_move_ok; simpl; [done|apply grows_stopped|apply owned_stopped, H| |].
  - intros _. eapply current_grows; [apply grows_stopped|]. apply H. by rewrite Hph.
  - by exists s0, (extra (m_job m)).
Qed.

Lemma v2_start_ok m w new s :
  machine_ok m → m_phase m = Stopped new → startInstance netip_ParseAddr Execute w new (m_job m) = (Val tt, s) →
  machine_ok (at_ s (Started (with_ins new (ins (extra s)))) m).
Proof.
  intros H Hph E. pose proof (mo_phase _ H) as Hp. rewrite Hph in Hp. destruct Hp as (s0 & x0 & Eo & Hl & Hr & Ex).
  assert (ins (extra (m_job m)) = None) as Hi by (rewrite Ex; apply stopped_none).
  destruct (startInstance_spec netip_ParseAddr Execute w new (m_job m) Hi) as (s' & E' & Hst).
  rewrite E' in E. injection E as ->.
  destruct (start_quiet netip_ParseAddr Execute w new _ _ _ E') as (Eo' & _).
  pose proof (grows_starts _ _ _ Hst) as Hg.
  apply v2_move_ok; [done|done|by eapply owned_starts, H| |].
  - intros _. rewrite Eo'. eapply current_grows; [done|]. apply H. by rewrite Hph.
  - exists s0, new, x0. split_and!; [congruence|done..|]. rewrite Hr, <- Ex. done.
Qed.

Lemma v2_publish_ok m n s :
  machine_ok m → m_phase m = Started n → optsIn n (m_job m) = (Val tt, s) → machine_ok (at_ s Ready m).
Proof.
  intros H Hph E. injection E as <-. pose proof (mo_phase _ H) as Hp. rewrite Hph in Hp.
  destruct Hp as (s0 & n0 & x0 & Eo & [L1 L2 L3 L4 L5 L6] & Np & Nf & Nd & N3).
  pose proof (restarted_ok netip_ParseAddr Execute s0 n n0 x0 (m_job m) L1 L2 L5 L3 L4 Np Nf Nd L6 N3) as Hok.
  apply v2_move_ok; simpl; [done|apply grows_refl|apply H| |exact Hok].
  intros _. exact (ok_current _ _ _ Hok).
Qed.

Lemma v2_leave_ok m s :
  machine_ok m → m_phase m = Leaving → leave (m_job m) = (Val tt, s) → machine_ok (at_ s Left m).
Proof.
  intros H Hph E. unfold leave, mbind, J_bind, get_extra, put_extra in E. rewrite stopInstance_spec in E.
  injection E as <-. cbn [extra opts server log]. set (x := MkState _ _ _ _).
  assert (owned x) as Ho by (by eapply owned_eq, H).
  assert (grows (extra (m_job m)) (stopped x)) as Hg.
  { destruct (grows_stopped x) as [G1 G2]. by split. }
  apply v2_move_ok; simpl; [done|done|by apply owned_stopped| |apply stopped_none].
  intros _. eapply current_grows; [done|]. apply H. by rewrite Hph.
Qed.

Lemma startServer_same listen (s s' : job) r :
  startServer o_ListenAddr listen s = (r, s') → opts s' = opts s ∧ extra s' = extra s.
Proof. unfold startServer. destruct (server s); [by intros [= _ <-]|]. by destruct (listen _); intros [= _ <-]. Qed.

Lemma v2_read_ok m remoteAddr : machine_ok m → machine_ok (read_options remoteAddr m).
Proof.
  intros [H1 H2 H3 H4]. split; simpl; try done. apply Forall_app. split; [done|]. apply Forall_singleton.
  unfold cell_of. split; simpl; [| |intros o i Ho Hi Hc _|done].
  - intros o Ho. destruct (m_phase m); try (injection Ho as <-; by apply H2). done.
  - lia.
  - destruct (m_phase m); try done. injection Ho as <-. simpl in H3. destruct H3 as [[_ W _] E _ _].
    rewrite E in Hi. by apply W.
Qed.

Lemma v2_dial_ok m k c i :
  machine_ok m → m_conns m !! k = Some c → getRemote (c_cell c) (c_addr c) = inr (i, c_addr c) →
  machine_ok (dial k c i m).
Proof.
  intros [H1 H2 H3 H4] Hk Hg. split; simpl; try done. rewrite Forall_lookup in H4.
  apply Forall_insert; [by apply Forall_lookup|]. destruct (H4 _ _ Hk) as [C1 C2 C3 C4]. split; simpl; try done.
  intros n b [= <- <-] Hc Hn. apply bool_decide_eq_true. unfold getRemote, cell_read in Hg.
  destruct (c_cell c) as [o|] eqn:Ec; [|done]. destruct (o_ins o) as [j|] eqn:Ej; [|done]. injection Hg as ->.
  by eapply C3.
Qed.

Lemma live_step_ok m m' : machine_ok m → live_step m m' → machine_ok m'.
Proof.
  intros H Hs. destruct Hs as [m w new p s Hph E|m w new s Hph E|m old new Hph Hr|m old new s Hph Hr E|m w new s Hph E
    |m new s Hph E|m listen s Hph E|m listen s Hph E|m Hph|m s Hph E|m s Hph E|m a|m k c i Hk Hd Hg];
    try (apply startServer_same in E as [Eo Ex]);
    try (pose proof (mo_phase _ H) as Hp; rewrite Hph in Hp; simpl in Hp).
  - by eapply v2_begin_ok.
  - by eapply v2_begin_fails_ok.
  - destruct Hp as (s0 & -> & Eo & Hl). apply v2_same_ok; [done|by rewrite Hph|done..|].
    exists s0, new, (extra (m_job m)). rewrite Hr. by split_and!.
  - by eapply v2_stop_ok.
  - by eapply v2_start_ok.
  - by eapply v2_publish_ok.
  - apply v2_same_ok; [done|by rewrite Hph|done..|]. by eapply job_ok_eq.
  - apply v2_same_ok; [done|by rewrite Hph|done..|]. by eapply job_ok_eq.
  - apply v2_same_ok; [done|by rewrite Hph|done..].
  - by eapply v2_leave_ok.
  - assert (opts s = opts (m_job m) ∧ extra s = extra (m_job m)) as [Eo Ex].
    { unfold stopServer in E. by destruct (server (m_job m)); injection E as <-. }
    apply v2_same_ok; [done|by rewrite Hph|done..|]. simpl. by rewrite Ex.
  - by apply v2_read_ok.
  - by eapply v2_dial_ok.
Qed.

Lemma live_reach_ok m : live_reach m → machine_ok m.
Proof.
  intros Hr. assert (machine_ok live_start) as H0.
  { pose proof (v2_reach_ok (C := C) netip_ParseAddr Execute job_start (rtc_refl _ _)) as Hok.
    split; simpl; [apply Hok|intros _; exact (ok_current _ _ _ Hok)|done|done]. }
  induction Hr as [|m1 m2 m3 Hs _ IH]; [done|]. apply IH. by eapply live_step_ok.
Qed.

(** C31: whatever reloads and connections run beside each other, with the
    steps of a LoadEvent apart (the old instance is closed, a new one is
    started, the options are published): at any moment every instance that was
    started is closed, once, unless it is the current one, which is open, so
    that at most one is; the options at hand name the current instance
    whenever Run is at its select, and with a proxy the listener that forwards
    to it; an attempt of a connection goes through an instance that was
    started with the very options it read, and when it read them at such a
    moment and nothing was closed since, it dials through an open one; when
    Run is over every instance is closed. *)
Theorem instance_current m :
  live_reach m →
  let x := extra (m_job m) in
  NoDup (closed x) ∧
  (∀ i, (i < length (started x))%nat → (ins x = Some i ∧ i ∉ closed x) ∨ (ins x ≠ Some i ∧ i ∈ closed x)) ∧
  (m_phase m = Ready →
     o_ins (opts (m_job m)) = ins x ∧
     (IsZero (o_Proxy (opts (m_job m))) = false →
      ∃ addr, forward x = Some addr ∧ o_Forward (opts (m_job m)) = forward_hostport addr)) ∧
  (m_phase m = Over → ins x = None) ∧
  (∀ c i addr, c ∈ m_conns m → getRemote (c_cell c) (c_addr c) = inr (i, addr) →
     addr = c_addr c ∧
     (∃ o data, c_cell c = Some o ∧ started x !! i = Some data ∧ parseOptions o = Some data) ∧
     ∀ n open, c_dial c = Some (n, open) → c_calm c = true → n = c_at c → open = true).
Proof.
  intros H%live_reach_ok x. destruct (mo_owned _ H) as [H1 H2 [H3 H4]]. fold x in H1, H2, H3, H4.
  split_and!; [done|..].
  - intros i Hi. destruct (decide (ins x = Some i)) as [E|E]; [left|right]; (split; [done|]); [by apply H2|].
    by destruct (H1 i Hi).
  - intros Hph. pose proof (mo_phase _ H) as Hp. rewrite Hph in Hp. by destruct Hp.
  - intros Hph. pose proof (mo_phase _ H) as Hp. by rewrite Hph in Hp.
  - intros c i addr Hc Hg. pose proof (mo_conns _ H) as Hcs. rewrite Forall_forall in Hcs.
    destruct (Hcs _ Hc) as [C1 _ _ C4]. unfold getRemote, cell_read in Hg.
    destruct (c_cell c) as [o|] eqn:Ec; [|done]. destruct (o_ins o) as [j|] eqn:Ej; [|done]. injection Hg as -> <-.
    split_and!; [done| |exact C4]. destruct (C1 o eq_refl i Ej) as (data & Hd & Hp). by exists o, data.
Qed.
End live.

(** ** A reload, with a connection beside it *)

Abbreviation live := (@live_step unit no_ip render) (only parsing).

Definition link_a : @Options unit := link_options (bs "vless://u@a.example:443").
Definition link_b : @Options unit := link_options (bs "vless://u@b.example:443").

(** What a handler or a part of it leaves. *)
Definition after {A} (m : Jobs.J (@Options unit) state A) (s : Jobs.job (@Options unit) state) : Jobs.job (@Options unit) state :=
  (m s).2.

(** The new options have the instance of the old ones until it is replaced. *)
Definition new_b : @Options unit := with_ins link_b (o_ins (opts job_a)).

Definition running_a : machine := MkMachine job_a Ready [].
Definition loading_b : machine :=
  at_ (after (begin_load a_world link_b) job_a) (Loading (opts job_a) new_b) running_a.
Definition stopped_a : machine := at_ (after stopInstance (m_job loading_b)) (Stopped new_b) loading_b.
Definition read_a : machine := read_options (bs "x:80") stopped_a.
Definition conn_a : @connection unit := MkConn (Some (opts job_a)) (bs "x:80") 1 false None.
Definition dialed_a : machine := dial 0 conn_a 0 read_a.
Definition started_b : machine :=
  let s := after (startInstance no_ip render a_world new_b) (m_job dialed_a) in
  at_ s (Started (with_ins new_b (ins (extra s)))) dialed_a.
Definition running_b : machine :=
  at_ (after (optsIn (with_ins new_b (ins (extra (m_job started_b))))) (m_job started_b)) Ready started_b.

Lemma running_a_reach : @live_reach unit no_ip render running_a.
Proof.
  apply (handled_live no_ip render a_world (λ _, true) link_a job_start job_a []). vm_compute. reflexivity.
Qed.

Lemma running_b_reach : @live_reach unit no_ip render running_b.
Proof.
  unfold live_reach. etrans; [exact running_a_reach|].
  apply (rtc_l _ _ loading_b).
  { apply (l_begin _ _ running_a a_world link_b (opts job_a, new_b) (after (begin_load a_world link_b) job_a));
      vm_compute; reflexivity. }
  apply (rtc_l _ _ stopped_a).
  { apply (l_stop _ _ loading_b (opts job_a) new_b (after stopInstance (m_job loading_b))); vm_compute; reflexivity. }
  apply (rtc_l _ _ read_a); [apply l_read|].
  apply (rtc_l _ _ dialed_a); [apply (l_dial _ _ read_a 0 conn_a 0); vm_compute; reflexivity|].
  apply (rtc_l _ _ started_b).
  { apply (l_start _ _ dialed_a a_world new_b (after (startInstance no_ip render a_world new_b) (m_job dialed_a)));
      vm_compute; reflexivity. }
  apply rtc_once.
  apply (l_publish _ _ started_b (with_ins new_b (ins (extra (m_job started_b))))
    (after (optsIn (with_ins new_b (ins (extra (m_job started_b))))) (m_job started_b))); vm_compute; reflexivity.
Qed.

(** The options are published after the old instance is closed: a connection
    that reads them in between dials through a closed instance. *)
Theorem stale_dial :
  ∃ m c i, @live_reach unit no_ip render m ∧ m_phase m = Ready ∧ c ∈ m_conns m ∧
    getRemote (c_cell c) (c_addr c) = inr (i, c_addr c) ∧ c_dial c = Some (1%nat, false) ∧
    i ∈ closed (extra (m_job m)) ∧ ins (extra (m_job m)) ≠ None.
Proof.
  exists running_b, (MkConn (Some (opts job_a)) (bs "x:80") 1 false (Some (1%nat, false))), 0%nat.
  split; [exact running_b_reach|]. split_and!; try (vm_compute; reflexivity).
  - vm_compute. left.
  - vm_compute. left.
  - vm_compute. discriminate.
Qed.

Lemma instance_current_witness :
  m_phase running_b = Ready ∧ ins (extra (m_job running_b)) = Some 1%nat ∧
  o_ins (opts (m_job running_b)) = ins (extra (m_job running_b)) ∧ NoDup (closed (extra (m_job running_b))).
Proof.
  destruct (instance_current no_ip render running_b running_b_reach) as (H1 & _ & H2 & _).
  split; [reflexivity|]. split; [vm_compute; reflexivity|]. split; [exact (proj1 (H2 eq_refl))|exact H1].
Defined.
