(* ===== verification/V2ray.v ===== *)
(** * The v2ray service (service/v2ray/v2ray.go).

    A job of v2ray is an instance of v2ray that listens itself: [server] is the
    address of the instance while there is one (ins is not nil), and the
    instance is the last that was started.  The template and whether an
    instance starts are parameters, as in V2socksRun.v. *)

From S2P Require Import Prelude GoStrings Url Proxy Dial Defaults Jobs V2socks V2socksRun.

Open Scope go_scope.
#[local] Arguments bs : simpl never.

Record InboundTLS := MkInboundTLS {
  it_ServerName : gostring; it_Certificate : list (gostring * gostring); it_CertFile : gostring; it_KeyFile : gostring }.

(** The options that parsing touches, and those of the protocols. *)
Record inbound := MkInbound {
  ib_Type : gostring; ib_Protocol : gostring; ib_Transport : gostring; ib_Security : gostring;
  ib_Method : gostring; ib_Password : gostring;          (* SHADOWSOCKS *)
  ib_Users : list gostring * list gostring * list gostring;   (* TROJAN, VLESS, VMESS *)
  ib_to : TransportOptions; ib_TLS : InboundTLS }.

#[export] Instance inbound_eq_dec : EqDecision inbound.
Proof.
  assert (EqDecision TransportOptions) by solve_decision. assert (EqDecision InboundTLS) by solve_decision.
  solve_decision.
Defined.

Definition no_inbound : inbound :=
  MkInbound [] [] [] [] [] [] ([], [], []) (MkTransport [] [] [] [] []) (MkInboundTLS [] [] [] []).

Definition set_types (ib : inbound) (p t s : gostring) : inbound :=
  MkInbound (ib_Type ib) p t s (ib_Method ib) (ib_Password ib) (ib_Users ib) (ib_to ib) (ib_TLS ib).
Definition set_method (ib : inbound) (m : gostring) : inbound :=
  MkInbound (ib_Type ib) (ib_Protocol ib) (ib_Transport ib) (ib_Security ib) m (ib_Password ib) (ib_Users ib) (ib_to ib) (ib_TLS ib).
Definition set_cert (ib : inbound) (cert : list (gostring * gostring)) : inbound :=
  MkInbound (ib_Type ib) (ib_Protocol ib) (ib_Transport ib) (ib_Security ib) (ib_Method ib) (ib_Password ib) (ib_Users ib) (ib_to ib)
    (MkInboundTLS (it_ServerName (ib_TLS ib)) cert (it_CertFile (ib_TLS ib)) (it_KeyFile (ib_TLS ib))).

Definition inbound_protocols : list gostring := [bs "SHADOWSOCKS"; bs "TROJAN"; bs "VLESS"; bs "VMESS"].
Definition inbound_transports : list gostring := [bs "GRPC"; bs "HTTPUPGRADE"; bs "TCP"; bs "WS"].

Fixpoint inbound_types (ts : list gostring) (ib : inbound) : option inbound :=
  match ts with
  | [] => Some ib
  | t :: ts =>
      let t := ToUpper t in
      if bool_decide (t ∈ inbound_protocols) then inbound_types ts (set_types ib t (ib_Transport ib) (ib_Security ib))
      else if bool_decide (t ∈ inbound_transports) then inbound_types ts (set_types ib (ib_Protocol ib) t (ib_Security ib))
      else if t == bs "TLS" then inbound_types ts (set_types ib (ib_Protocol ib) (ib_Transport ib) t)
      else if t == [] then inbound_types ts ib
      else None
  end.

Definition inbound_normalizeMethod (s : gostring) : gostring := ReplaceByte (ToLower s) 95 45.

Definition inbound_method (m : gostring) : option gostring :=
  let n := inbound_normalizeMethod m in
  if n == bs "aes-128-gcm" then Some (bs "AES_128_GCM")
  else if n == bs "aes-256-gcm" then Some (bs "AES_256_GCM")
  else if (n == bs "chacha20-poly1305") || (n == bs "chacha20-ietf-poly1305") then Some (bs "CHACHA20_POLY1305")
  else None.

Definition parse_inbound (ib : inbound) : option inbound :=
  ib ← inbound_types (SplitN (ib_Type ib) 43 3) (set_types ib (bs "VMESS") (bs "TCP") (ib_Security ib));
  if ib_Protocol ib == bs "SHADOWSOCKS"
  then m ← inbound_method (ib_Method ib); Some (set_method ib m)
  else Some ib.

Section v2ray.
Context {C : Type}.
(** The template, on the host and port to listen at, the server to forward to
    and the inbound. *)
Context (Execute : gostring * gostring → HostportOptions → inbound → option gostring).

Record Options := MkOptions {
  o_ListenAddr : gostring;
  o_ListenHost : gostring;
  o_ListenPort : gostring;
  o_Proxy : Proxy.Proxy C;
  o_Forward : HostportOptions;
  o_in : inbound;
  o_Conn : ConnOptions;
  o_Relay : RelayOptions;
  o_ins : option nat }.

Definition zero : Options :=
  MkOptions [] [] [] (MkProxy None []) no_hp no_inbound zero_conn zero_relay None.

(** The instances that were started, by their configurations, and the forward
    listener. *)
Record state := MkState { started : list gostring; forward : option gostring }.

Definition parseOptions (opts : Options) : option gostring :=
  ib ← parse_inbound (o_in opts);
  Execute (o_ListenHost opts, o_ListenPort opts) (o_Forward opts) ib.

Definition compared (o : Options) : gostring * gostring * gostring * HostportOptions * inbound :=
  (o_ListenAddr o, o_ListenHost o, o_ListenPort o, o_Forward o, o_in o).

Definition shouldRestart (x y : Options) : bool :=
  if negb (eqb (IsZero (o_Proxy x)) (IsZero (o_Proxy y))) then true
  else negb (bool_decide (compared x = compared y)).

Definition with_ins (o : Options) (i : option nat) : Options :=
  MkOptions (o_ListenAddr o) (o_ListenHost o) (o_ListenPort o) (o_Proxy o) (o_Forward o) (o_in o) (o_Conn o) (o_Relay o) i.
Definition with_addr (o : Options) (host port : gostring) : Options :=
  MkOptions (o_ListenAddr o) host port (o_Proxy o) (o_Forward o) (o_in o) (o_Conn o) (o_Relay o) (o_ins o).
Definition with_cert (o : Options) (cert : list (gostring * gostring)) : Options :=
  MkOptions (o_ListenAddr o) (o_ListenHost o) (o_ListenPort o) (o_Proxy o) (o_Forward o) (set_cert (o_in o) cert)
    (o_Conn o) (o_Relay o) (o_ins o).
Definition with_forward (o : Options) (hp : HostportOptions) : Options :=
  MkOptions (o_ListenAddr o) (o_ListenHost o) (o_ListenPort o) (o_Proxy o) hp (o_in o) (o_Conn o) (o_Relay o) (o_ins o).

(** Where a connection of the instance goes: through the proxy. *)
Definition forwardRemote (c : cell) (remoteAddr : gostring) : dial_error + (Dialer C * gostring) :=
  let '(opts, ok) := cell_read zero c in
  if ok : bool then inr (proxy_Dialer (o_Proxy opts), remoteAddr) else inl CloseConn.

Definition J := Jobs.J Options state.

(** The instance is closed, if there is one. *)
Definition stopInstance : J unit := stopServer.

Section event.
Context (w : world).

Definition listen_hostport (new : Options) : J Options :=
  match SplitHostPort (o_ListenAddr new) with
  | None => exit
  | Some (host, port) => mret (with_addr new host port)
  end.

Definition read_file (path : gostring) : J gostring :=
  match w_fs w path with None | Some [] => exit | Some data => mret data end.

Definition read_cert (new : Options) : J Options :=
  let tls := ib_TLS (o_in new) in
  if (it_CertFile tls != []) && (it_KeyFile tls != []) then
    certData ← read_file (it_CertFile tls);
    keyData ← read_file (it_KeyFile tls);
    mret (with_cert new [(certData, keyData)])
  else mret new.

Definition start_forward (new : Options) : J Options :=
  if IsZero (o_Proxy new) then mret new
  else
    x ← get_extra;
    match forward x with
    | Some addr => mret (with_forward new (forward_hostport addr))
    | None =>
        match w_localhost w with
        | None => exit
        | Some addr =>
            _ ← put_extra (MkState (started x) (Some addr));
            mret (with_forward new (forward_hostport addr))
        end
    end.

Definition LoadEvent_ (new : Options) : J unit :=
  old ← optsOut;
  new ← listen_hostport (with_ins new (o_ins old));
  new ← (if o_ListenAddr new == o_ListenAddr old then mret new else _ ← stopInstance; mret (with_ins new None));
  new ← read_cert new;
  new ← start_forward new;
  new ← (if shouldRestart old new then _ ← stopInstance; mret (with_ins new None) else mret new);
  optsIn new.

(** [ins] after a start; the address is tried before v2ray listens at it. *)
Definition startInstance (listen : gostring → bool) (opts : Options) : J unit := λ s,
  if negb (listen (o_ListenAddr opts)) then (Val tt, s)
  else
    match parseOptions opts with
    | None => (Val tt, s)
    | Some data =>
        if w_start w data
        then (Val tt, MkJob (Jobs.opts s) (Some (o_ListenAddr opts)) (MkState (started (extra s) ++ [data]) (forward (extra s)))
               (log s ++ [Listening (o_ListenAddr opts)]))
        else (Val tt, s)
    end.

Definition LoadedEvent_ (listen : gostring → bool) : J unit := λ s,
  match server s with
  | Some _ => (Val tt, s)
  | None =>
      let opts := Jobs.opts s in
      let s := (startInstance listen opts s).2 in
      match server s with
      | None => (Halt Return, s)
      | Some _ => optsIn (with_ins opts (Some (length (started (extra s)) - 1)%nat)) s
      end
  end.

Definition leave : J unit :=
  x ← get_extra;
  put_extra (MkState (started x) None).

#[export] Instance v2ray : Service Options state := {
  zero_opts := zero;
  init_extra := MkState [] None;
  ListenAddr := o_ListenAddr;
  watch_down := false;
  on_load _ := LoadEvent_;
  on_loaded := LoadedEvent_;
  on_exit := leave }.

Definition Run := Jobs.Run (O := Options) (X := state).

(** ** What the handlers do *)

Lemma stop_released (s : job Options state) : released s (stopInstance s).2.
Proof. apply stopServer_released. Qed.

Lemma read_cert_facts new s r s' :
  read_cert new s = (r, s') → s' = s ∧ ∀ n, r = Val n →
    o_ListenAddr n = o_ListenAddr new ∧ o_ListenHost n = o_ListenHost new ∧ o_ListenPort n = o_ListenPort new ∧
    o_Proxy n = o_Proxy new ∧ o_ins n = o_ins new.
Proof.
  unfold read_cert. cbv zeta. destruct (_ && _); [|by intros [= <- <-]; split; [done|intros n [= <-]]].
  unfold read_file, mbind, J_bind. destruct (w_fs w (it_CertFile _)) as [[|c1 d1]|]; [by intros [= <- <-]| |by intros [= <- <-]].
  simpl. destruct (w_fs w (it_KeyFile _)) as [[|c2 d2]|]; intros [= <- <-]; (split; [done|]); intros n [= <-]. by split_and!.
Qed.

Lemma start_forward_facts new s r s' :
  start_forward new s = (r, s') →
  opts s' = opts s ∧ server s' = server s ∧ log s' = log s ∧ started (extra s') = started (extra s) ∧
  ∀ n, r = Val n →
    o_ListenAddr n = o_ListenAddr new ∧ o_ListenHost n = o_ListenHost new ∧ o_ListenPort n = o_ListenPort new ∧
    o_Proxy n = o_Proxy new ∧ o_ins n = o_ins new ∧
    (IsZero (o_Proxy new) = false → ∃ addr, forward (extra s') = Some addr ∧ o_Forward n = forward_hostport addr).
Proof.
  unfold start_forward. destruct (IsZero (o_Proxy new)); [intros [= <- <-]; split_and!; [done..|]; intros n [= <-]; by split_and!|].
  unfold mbind, J_bind. simpl. destruct (forward (extra s)) as [addr|] eqn:Ef.
  - intros [= <- <-]. split_and!; [done..|]. intros n [= <-]. split_and!; [done..|]. intros _. by exists addr.
  - destruct (w_localhost w) as [addr|]; intros [= <- <-]; (split_and!; [done..|]); intros n [= <-].
    split_and!; [done..|]. intros _. by exists addr.
Qed.

Lemma stopInstance_eq (s : job Options state) :
  ∃ l, stopInstance s = (Val tt, MkJob (opts s) None (extra s) l) ∧ released s (MkJob (opts s) None (extra s) l).
Proof.
  unfold stopInstance, stopServer, released. destruct s as [o [a|] x l]; simpl; eexists; (split; [reflexivity|]); eauto 10.
Qed.

(** The instance after a reload: gone, or left alone with options that make
    the same configuration. *)
Definition kept_or_stopped (new : Options) (s s' : job Options state) : Prop :=
  server s' = None ∧ o_ins (opts s') = None ∨
  server s' = server s ∧ log s' = log s ∧ o_ListenAddr new = o_ListenAddr (opts s) ∧
    o_ins (opts s') = o_ins (opts s) ∧ shouldRestart (opts s) (opts s') = false.

Lemma v2ray_finish_inv new n s s1 s' :
  opts s1 = opts s → o_ListenAddr n = o_ListenAddr new →
  server s1 = None ∧ o_ins n = None ∧ released s s1 ∨
    server s1 = server s ∧ log s1 = log s ∧ o_ListenAddr new = o_ListenAddr (opts s) ∧ o_ins n = o_ins (opts s) →
  (new ← (if shouldRestart (opts s) n then _ ← stopInstance; mret (with_ins n None) else mret n); optsIn new) s1 = (Val tt, s') →
  released s s' ∧ kept_or_stopped new s s' ∧ extra s' = extra s1 ∧
  o_ListenAddr (opts s') = o_ListenAddr n ∧ o_ListenHost (opts s') = o_ListenHost n ∧ o_ListenPort (opts s') = o_ListenPort n ∧
  o_Proxy (opts s') = o_Proxy n ∧ o_Forward (opts s') = o_Forward n.
Proof.
  intros Ho Ha Hc. unfold mbind, J_bind. destruct (stopInstance_eq s1) as (l & Es & Hrel).
  assert (released s (MkJob (opts s1) None (extra s1) l)) as Hr1.
  { destruct Hc as [(H1 & _ & H2)|(H1 & H2 & _)].
    - unfold released in Hrel, H2 |- *. rewrite H1 in Hrel. simpl in Hrel. destruct Hrel as [[_ ->]|(a & [=] & _)]. by rewrite H1 in H2.
    - unfold released in Hrel |- *. by rewrite H1, H2 in Hrel. }
  destruct (shouldRestart (opts s) n) eqn:Er.
  - rewrite Es. intros [= <-]. simpl. split_and!; [|left|..]; done.
  - intros [= <-]. simpl. split_and!; try done.
    + destruct Hc as [(H1 & _ & H2)|(H1 & H2 & _)]; [done|]. left. done.
    + destruct Hc as [(H1 & H2 & _)|(H1 & H2 & H3 & H4)]; [by left|]. right. by split_and!.
Qed.

Lemma LoadEvent_inv new s r s' :
  LoadEvent_ new s = (r, s') →
  released s s' ∧ started (extra s') = started (extra s) ∧
  (∀ h, r = Halt h → opts s' = opts s) ∧
  (r = Val tt → kept_or_stopped new s s' ∧ o_ListenAddr (opts s') = o_ListenAddr new ∧
     o_Proxy (opts s') = o_Proxy new ∧
     SplitHostPort (o_ListenAddr new) = Some (o_ListenHost (opts s'), o_ListenPort (opts s')) ∧
     (IsZero (o_Proxy new) = false →
        ∃ addr, forward (extra s') = Some addr ∧ o_Forward (opts s') = forward_hostport addr)).
Proof.
  intros E. unfold LoadEvent_ in E. apply bind_inv in E as [(old & s0 & [= <- <-] & E)|[_ [=]]].
  apply bind_inv in E as [(n1 & s1 & E1 & E)|[-> E1]]; revert E1; unfold listen_hostport; cbn [o_ListenAddr with_ins];
    destruct (SplitHostPort (o_ListenAddr new)) as [[host port]|] eqn:Ep; try done.
  2:{ intros [= <-]. split_and!; [by left|done..]. }
  intros [= <- <-]. cbn [o_ListenAddr with_addr with_ins] in E.
  apply bind_inv in E as [(n2 & s2 & E2 & E)|[-> E2]].
  2:{ revert E2. destruct (_ == _); [done|]. destruct (stopInstance_eq s) as (l & Es & _). unfold mbind, J_bind. by rewrite Es. }
  assert (released s s2 ∧ opts s2 = opts s ∧ extra s2 = extra s ∧ o_ListenAddr n2 = o_ListenAddr new ∧ o_ListenHost n2 = host ∧
    o_ListenPort n2 = port ∧ o_Proxy n2 = o_Proxy new ∧
    (server s2 = None ∧ o_ins n2 = None ∧ released s s2 ∨
     server s2 = server s ∧ log s2 = log s ∧ o_ListenAddr new = o_ListenAddr (opts s) ∧ o_ins n2 = o_ins (opts s)))
    as (R2 & O2 & X2 & A2 & H2 & P2 & Pr2 & C2).
  { revert E2. case_bool_decide as Ha.
    - intros [= <- <-]. split_and!; try done; [by left|]. right. by split_and!.
    - destruct (stopInstance_eq s) as (l & Es & Hr). unfold mbind, J_bind. rewrite Es. intros [= <- <-].
      split_and!; try done. left. by split_and!. }
  clear E2. apply bind_inv in E as [(n3 & s3 & E3 & E)|[-> E3]]; apply read_cert_facts in E3 as [-> F3].
  2:{ split_and!; [done|by rewrite X2|done|done]. }
  destruct (F3 n3 eq_refl) as (A3 & H3 & P3 & Pr3 & I3). clear F3.
  apply bind_inv in E as [(n4 & s4 & E4 & E)|[-> E4]]; apply start_forward_facts in E4 as (O4 & S4 & L4 & X4 & F4).
  2:{ split_and!; [unfold released; by rewrite S4, L4|by rewrite X4, X2|by rewrite O4|done]. }
  destruct (F4 n4 eq_refl) as (A4 & H4 & P4 & Pr4 & I4 & W4). clear F4.
  destruct r as [[]|].
  2:{ exfalso. revert E. unfold mbind, J_bind. destruct (shouldRestart _ _); [|done].
      destruct (stopInstance_eq s4) as (l & Es & _). by rewrite Es. }
  apply (v2ray_finish_inv new n4 s s4) in E as (R5 & K5 & X5 & A5 & H5 & P5 & Pr5 & F5); [|congruence..|].
  2:{ unfold released. rewrite S4, L4, I4, I3. exact C2. }
  split_and!; [done|congruence|done|]. intros _. rewrite A5, Pr5, F5, H5, P5. split_and!; [done|congruence|congruence| |].
  - rewrite H4, H3, H2, P4, P3, P2. done.
  - intros Hz. rewrite X5. apply W4. by rewrite Pr3, Pr2.
Qed.

Lemma LoadedEvent_inv listen s r s' :
  LoadedEvent_ listen s = (r, s') →
  server s ≠ None ∧ r = Val tt ∧ s' = s ∨
  server s = None ∧ r = Halt Return ∧ s' = s ∨
  server s = None ∧ r = Val tt ∧ ∃ data, parseOptions (opts s) = Some data ∧
    s' = MkJob (with_ins (opts s) (Some (length (started (extra s))))) (Some (o_ListenAddr (opts s)))
           (MkState (started (extra s) ++ [data]) (forward (extra s))) (log s ++ [Listening (o_ListenAddr (opts s))]).
Proof.
  unfold LoadedEvent_. destruct (server s) as [a|] eqn:Es; [intros [= <- <-]; by left|]. cbv zeta. right.
  revert H. unfold startInstance. destruct (listen _); simpl; [|rewrite Es; intros [= <- <-]; by left].
  destruct (parseOptions (opts s)) as [data|]; simpl; [|rewrite Es; intros [= <- <-]; by left].
  destruct (w_start w data); simpl; [|rewrite Es; intros [= <- <-]; by left]. intros [= <- <-]. right.
  split_and!; [done..|]. exists data. split; [done|]. rewrite length_app. simpl. by rewrite Nat.add_sub.
Qed.

#[export] Instance v2ray_laws : ServiceLaws Options state.
Proof.
  split.
  - intros ? o s r s' E. by apply LoadEvent_inv in E as (? & _).
  - intros ? o s s' E. apply LoadEvent_inv in E as (_ & _ & _ & E). destruct (E eq_refl) as (K & A & _ & Sp & _).
    split_and!; [done|simpl; by rewrite Sp|]. intros Hne. destruct K as [[K _]|(_ & _ & K & _)]; [done|]. by destruct Hne.
  - intros ? o s Hn. simpl in *. unfold LoadEvent_, listen_hostport. cbn [o_ListenAddr with_ins]. by rewrite Hn.
  - intros listen s r s' E. apply LoadedEvent_inv in E as [(? & ? & ->)|[(? & ? & ->)|(Es & _ & data & _ & ->)]]; simpl;
      [split; [by left|done]..|]. split; [right|]; done.
  - intros listen s s' E. apply LoadedEvent_inv in E as [(? & ? & ->)|[(? & [=] & ->)|(Es & _ & data & _ & ->)]]; simpl; [|done].
    destruct (server s); [done|congruence].
  - intros s r s' E. unfold on_exit in E. simpl in E. injection E as <- <-. by left.
Qed.
End event.

(** ** The instance of a job *)

#[local] Set Default Proof Using "Type*".

Definition job_step (s s' : job Options state) : Prop :=
  ∃ w listen e, @handle _ _ (v2ray w) listen e s = (Val tt, s').

Definition job_start : job Options state := MkJob zero None (MkState [] None) [].
Definition job_reach : job Options state → Prop := rtc job_step job_start.

Record job_ok (s : job Options state) : Prop := {
  ok_ins : o_ins (opts s) =
    match server s with Some _ => Some (length (started (extra s)) - 1)%nat | None => None end;
  ok_current : ∀ a, server s = Some a → a = o_ListenAddr (opts s) ∧
    ∃ data, last (started (extra s)) = Some data ∧ parseOptions (opts s) = Some data;
  ok_addr : o_ListenAddr (opts s) ≠ [] → SplitHostPort (o_ListenAddr (opts s)) = Some (o_ListenHost (opts s), o_ListenPort (opts s));
  ok_forward : IsZero (o_Proxy (opts s)) = false →
    ∃ addr, forward (extra s) = Some addr ∧ o_Forward (opts s) = forward_hostport addr }.

(** Options that do not restart the instance make the same configuration. *)
Lemma same_config x y :
  shouldRestart x y = false → parseOptions y = parseOptions x ∧ o_ListenAddr y = o_ListenAddr x.
Proof using Type.
  unfold shouldRestart. destruct (negb (eqb _ _)); [done|]. rewrite negb_false_iff, bool_decide_eq_true.
  unfold compared. intros [= E1 E2 E3 E4 E5]. unfold parseOptions. by rewrite E2, E3, E4, E5.
Qed.

Lemma v2ray_step_ok s s' : job_ok s → job_step s s' → job_ok s'.
Proof.
  intros [H1 H2 H3 H4] (w & listen & e & E). destruct e as [new| |]; [..|by injection E as <-].
  - simpl in E. apply LoadEvent_inv in E as (_ & Est & _ & E). destruct (E eq_refl) as (K & A & P & Sp & W).
    split; [..|intros _; by rewrite A|by rewrite P].
    + destruct K as [[-> ->]|(Es & _ & _ & Ei & _)]; [done|]. by rewrite Es, Ei, Est.
    + destruct K as [[-> _]|(Es & _ & _ & Ei & Er)]; [done|]. rewrite Es, Est. intros a Ha.
      destruct (H2 a Ha) as [-> Hd]. apply same_config in Er as [-> ->]. done.
  - simpl in E. apply LoadedEvent_inv in E as [(? & _ & ->)|[(_ & [=] & _)|(Es & _ & data & Hd & ->)]]; [by split|].
    split; simpl; [..|done|done].
    + by rewrite length_app, Nat.add_sub.
    + intros a [= <-]. split; [done|]. exists data. by rewrite last_snoc.
Qed.

(** The instance of a v2ray job is at the address of its options, which is
    well formed, and was started with their configuration; connections that it
    sends out find the listener that forwards them to the proxy of the
    options, if they have one. *)
Theorem v2ray_current s :
  job_reach s →
  match server s with
  | None => o_ins (opts s) = None
  | Some a =>
      o_ins (opts s) = Some (length (started (extra s)) - 1)%nat ∧ a = o_ListenAddr (opts s) ∧
      ∃ data, last (started (extra s)) = Some data ∧ parseOptions (opts s) = Some data
  end ∧
  (o_ListenAddr (opts s) ≠ [] →
     SplitHostPort (o_ListenAddr (opts s)) = Some (o_ListenHost (opts s), o_ListenPort (opts s))) ∧
  (IsZero (o_Proxy (opts s)) = false →
     ∃ addr, forward (extra s) = Some addr ∧ o_Forward (opts s) = forward_hostport addr).
Proof.
  intros Hr. assert (job_ok job_start) as H0 by by split.
  assert (job_ok s) as [H1 H2 H3 H4].
  { revert H0. induction Hr; [done|]. eauto using v2ray_step_ok. }
  split_and!; [|done..]. destruct (server s) as [a|]; [|done]. by destruct (H2 a eq_refl).
Qed.
End v2ray.

(** ** A run: an instance is started, a reload changes its users, and the
    instance is started again. *)

Definition render_in (addr : gostring * gostring) (hp : HostportOptions) (ib : inbound) : option gostring :=
  Some (ib_Protocol ib ++ bs " " ++ addr.2).

Definition trojan_options (user : gostring) : @Options unit :=
  MkOptions (bs "127.0.0.1:8443") [] [] (MkProxy None []) no_hp
    (MkInbound (bs "trojan+tls") [] [] [] [] [] ([user], [], []) (MkTransport [] [] [] [] []) (MkInboundTLS [] [] [] []))
    zero_conn zero_relay None.

Definition the_world : world := MkWorld (λ _, None) (λ _, true) None.

Definition turn_of (e : event (@Options unit)) (s : job (@Options unit) state) : job (@Options unit) state :=
  snd (@handle _ _ (v2ray render_in the_world) (λ _, true) e s).

Definition job_1 := turn_of LoadedEvent (turn_of (LoadEvent (trojan_options (bs "a"))) job_start).
Definition job_2 := turn_of LoadedEvent (turn_of (LoadEvent (trojan_options (bs "b"))) job_1).

Lemma job_2_reach : @job_reach unit render_in job_2.
Proof.
  assert (∀ e s s', @handle _ _ (v2ray render_in the_world) (λ _, true) e s = (Val tt, s') → @job_step unit render_in s s') as H.
  { intros e s s' E. by exists the_world, (λ _, true), e. }
  eapply rtc_l; [apply (H (LoadEvent (trojan_options (bs "a")))); vm_compute; reflexivity|].
  eapply rtc_l; [apply (H LoadedEvent); vm_compute; reflexivity|].
  eapply rtc_l; [apply (H (LoadEvent (trojan_options (bs "b")))); vm_compute; reflexivity|].
  apply rtc_once, (H LoadedEvent). vm_compute. reflexivity.
Qed.

Lemma v2ray_current_witness :
  server job_2 = Some (bs "127.0.0.1:8443") ∧
  match server job_2 with
  | None => o_ins (opts job_2) = None
  | Some a =>
      o_ins (opts job_2) = Some (length (started (extra job_2)) - 1)%nat ∧ a = o_ListenAddr (opts job_2) ∧
      ∃ data, last (started (extra job_2)) = Some data ∧ parseOptions render_in (opts job_2) = Some data
  end ∧
  (o_ListenAddr (opts job_2) ≠ [] →
     SplitHostPort (o_ListenAddr (opts job_2)) = Some (o_ListenHost (opts job_2), o_ListenPort (opts job_2))) ∧
  (IsZero (o_Proxy (opts job_2)) = false →
     ∃ addr, forward (extra job_2) = Some addr ∧ o_Forward (opts job_2) = forward_hostport addr).
Proof. split; [vm_compute; reflexivity|]. exact (v2ray_current render_in job_2 job_2_reach). Defined.

Example job_2_log :
  log job_2 = [Listening (bs "127.0.0.1:8443"); Closed (bs "127.0.0.1:8443"); Listening (bs "127.0.0.1:8443")].
Proof. vm_compute. reflexivity. Qed.
