(* ===== verification/ConnChecker.v ===== *)
(** * A connection that is checked while it is used (internal/netutil/connchecker.go).

    A goroutine peeks at the connection every half a second, through a
    buffered reader that grows; Read, the deadline calls and the goroutine take
    turns by tokens in channels of one place.  The steps are those of the
    goroutine, of one reader and of one caller of SetDeadline; what the
    connection gives, and the time, are choices.  The connection gives bytes
    or an error, not both; durations are nanoseconds. *)

From S2P Require Import Prelude Defaults.

Open Scope go_scope.

Definition checkInterval : Z := 500 * millisecond.
Definition checkDuration : Z := 1 * millisecond.
Definition checkBufferInitialSize : Z := 2 * 1024.
Definition checkBufferMaximumSize : Z := 32 * 1024.
Definition checkBufferGrowThreshold : Z := 10 * checkInterval.

(** bufio.Reader: its size, what it has buffered, and what its source gives
    before the connection. *)
Record reader := MkReader { size : Z; buf : list Z; inner : list Z }.

Definition Buffered (r : reader) : Z := Z.of_nat (length (buf r)).
Definition room (r : reader) : Z := size r - Buffered r.

(** One read of the source into the buffer, where the connection gives
    [chunk]; what was taken from the connection. *)
Definition fill (chunk : list Z) (r : reader) : reader * list Z :=
  match inner r with
  | [] => (MkReader (size r) (buf r ++ chunk) [], chunk)
  | l => let k := Z.to_nat (room r) in (MkReader (size r) (buf r ++ take k l) (drop k l), [])
  end.

(** [br.Read(p)], for [p] of length [n]: what is read, and what was taken. *)
Definition br_read (n : nat) (chunk : list Z) (r : reader) : list Z * reader * list Z :=
  match n, buf r with
  | O, _ => ([], r, [])
  | _, [] =>
      if size r <=? Z.of_nat n then
        match inner r with
        | [] => (chunk, r, chunk)
        | l => (take n l, MkReader (size r) [] (drop n l), [])
        end
      else
        let '(r, c) := fill chunk r in
        (take n (buf r), MkReader (size r) (drop n (buf r)) (inner r), c)
  | _, b => (take n b, MkReader (size r) (drop n b) (inner r), [])
  end.

(** How much the connection may give to a read. *)
Definition br_room (n : nat) (r : reader) : Z := if size r <=? Z.of_nat n then Z.of_nat n else size r.

Inductive error := ErrDeadlineExceeded | ErrFullBuffer | ErrClosed | ErrOther.

#[export] Instance error_eq_dec : EqDecision error.
Proof. solve_decision. Defined.

(** What follows a check: the reader grows, or the buffer is full for good. *)
Definition grow (now : Z) (r : reader) (growtime : option Z) : reader * option Z * option error :=
  if Buffered r == size r then
    if size r <? checkBufferMaximumSize then
      match growtime with
      | None => (r, Some (now + checkBufferGrowThreshold), None)
      | Some g =>
          if g <? now
          then (MkReader (size r * 2) [] (take (Z.to_nat (size r)) (buf r ++ inner r)), None, None)
          else (r, growtime, None)
      end
    else (r, growtime, Some ErrFullBuffer)
  else (r, growtime, None).

(** ** The goroutine and its callers *)

(** The goroutine: between checks, with the reader, with the deadline too, and
    over. *)
Inductive checker := Waiting | Holding | Peeking | Over.
Inductive caller := Idle | Reading (n : nat).
Inductive setter := Free | Setting (t : option Z).

Record state := MkState {
  br : reader;
  growtime : option Z;
  user_deadline : option Z;          (* in the channel deadline, or taken from it *)
  conn_deadline : option Z;          (* of the connection; [None]: none *)
  stop : bool;
  cause : option error;              (* of the context *)
  ck : checker; rd : caller; st : setter;
  taken : list Z; delivered : list Z }.

Definition NewConnChecker : state :=
  MkState (MkReader checkBufferInitialSize [] []) None None None false None Waiting Idle Free [] [].

(** The token of the reader, and that of the deadline. *)
Definition cbr_free (s : state) : bool :=
  match ck s, rd s with (Waiting | Over), Idle => true | _, _ => false end.
Definition deadline_free (s : state) : bool :=
  match ck s, st s with Peeking, _ => false | _, Setting _ => false | _, Free => true end.

Definition cancel (e : error) (s : state) : option error :=
  match cause s with Some c => Some c | None => Some e end.

Definition with_ck (c : checker) (s : state) : state :=
  MkState (br s) (growtime s) (user_deadline s) (conn_deadline s) (stop s) (cause s) c (rd s) (st s) (taken s) (delivered s).

(** The end of a check: the reader grows, and an error ends the goroutine. *)
Definition checked (now : Z) (err : option error) (s : state) : state :=
  let '(r, g, e) := grow now (br s) (growtime s) in
  let err := match e with Some e => Some e | None => err end in
  match err with
  | None | Some ErrDeadlineExceeded =>
      MkState r g (user_deadline s) (conn_deadline s) (stop s) (cause s) Waiting (rd s) (st s) (taken s) (delivered s)
  | Some e =>
      MkState r g (user_deadline s) (conn_deadline s) (stop s) (cancel e s) Over (rd s) (st s) (taken s) (delivered s)
  end.

Definition peeked (now : Z) (err : option error) (s : state) : state :=
  checked now err
    (MkState (br s) None (user_deadline s) (user_deadline s) (stop s) (cause s) Waiting (rd s) (st s) (taken s) (delivered s)).

Inductive step (s : state) : state → Prop :=
  | step_over :
      ck s = Waiting → cause s ≠ None ∨ stop s = true → step s (with_ck Over s)
  | step_tick :
      ck s = Waiting → cbr_free s = true → stop s = false → Buffered (br s) < size (br s) → step s (with_ck Holding s)
  | step_tick_full now :
      ck s = Waiting → cbr_free s = true → stop s = false → size (br s) <= Buffered (br s) → step s (checked now None s)
  | step_deadline now :
      ck s = Holding → deadline_free s = true →
      step s (MkState (br s) (growtime s) (user_deadline s) (Some (now + checkDuration)) (stop s) (cause s) Peeking
        (rd s) (st s) (taken s) (delivered s))
  | step_peek chunk :
      ck s = Peeking → Buffered (br s) < size (br s) → chunk ≠ [] → Z.of_nat (length chunk) <= room (br s) →
      step s (MkState (fill chunk (br s)).1 (growtime s) (user_deadline s) (conn_deadline s) (stop s) (cause s) Peeking
        (rd s) (st s) (taken s ++ (fill chunk (br s)).2) (delivered s))
  | step_peeked now :
      ck s = Peeking → size (br s) <= Buffered (br s) → step s (peeked now None s)
  | step_peek_error now e :
      ck s = Peeking → Buffered (br s) < size (br s) → inner (br s) = [] → step s (peeked now (Some e) s)
  | step_stop :
      step s (MkState (br s) (growtime s) (user_deadline s) (conn_deadline s) true (cause s) (ck s) (rd s) (st s) (taken s) (delivered s))
  | step_Read n :
      rd s = Idle → cbr_free s = true →
      step s (MkState (br s) (growtime s) (user_deadline s) (conn_deadline s) (stop s) (cause s) (ck s) (Reading n) (st s) (taken s) (delivered s))
  | step_read n chunk out r c :
      rd s = Reading n → chunk ≠ [] → Z.of_nat (length chunk) <= br_room n (br s) →
      br_read n chunk (br s) = (out, r, c) →
      step s (MkState r (growtime s) (user_deadline s) (conn_deadline s) (stop s) (cause s) (ck s) Idle (st s)
        (taken s ++ c) (delivered s ++ out))
  | step_read_error n e :
      rd s = Reading n → buf (br s) = [] → inner (br s) = [] →
      step s (MkState (br s) (growtime s) (user_deadline s) (conn_deadline s) (stop s)
        (if e == ErrDeadlineExceeded then cause s else cancel e s) (ck s) Idle (st s) (taken s) (delivered s))
  | step_Close :
      step s (MkState (br s) (growtime s) (user_deadline s) (conn_deadline s) (stop s) (cancel ErrClosed s) (ck s) (rd s) (st s) (taken s) (delivered s))
  | step_SetDeadline t :
      st s = Free → deadline_free s = true →
      step s (MkState (br s) (growtime s) (user_deadline s) (conn_deadline s) (stop s) (cause s) (ck s) (rd s) (Setting t) (taken s) (delivered s))
  | step_set t :
      st s = Setting t → conn_deadline s ≠ t →
      step s (MkState (br s) (growtime s) (user_deadline s) t (stop s) (cause s) (ck s) (rd s) (st s) (taken s) (delivered s))
  | step_put t :
      st s = Setting t → conn_deadline s = t →
      step s (MkState (br s) (growtime s) t (conn_deadline s) (stop s) (cause s) (ck s) (rd s) Free (taken s) (delivered s)).

Definition reach : state → Prop := rtc step NewConnChecker.

(** ** What holds of every state *)

(** The size of a buffer, and why what is left in an old one is not lost: it
    would not fit when the new one is full. *)
Record reader_ok (r : reader) : Prop := {
  ro_size : size r ∈ [2048; 4096; 8192; 16384; 32768];
  ro_buf : Buffered r <= size r;
  ro_inner : inner r ≠ [] → 2 * Z.of_nat (length (buf r ++ inner r)) <= size r }.

Definition left (r : reader) : list Z := buf r ++ inner r.

Lemma size_range z : z ∈ [2048; 4096; 8192; 16384; 32768] → 2048 <= z <= 32768.
Proof. rewrite !elem_of_cons, elem_of_nil. lia. Qed.

Lemma fill_ok chunk r :
  reader_ok r → Z.of_nat (length chunk) <= room r →
  reader_ok (fill chunk r).1 ∧ left (fill chunk r).1 = left r ++ (fill chunk r).2.
Proof.
  intros [H1 H2 H3] Hc. unfold fill, left, room, Buffered in *. destruct (inner r) as [|b l] eqn:Ei.
  - split; [|by rewrite app_nil_r, app_nil_r]. split; simpl; [done| |done]. unfold Buffered. simpl.
    rewrite length_app. lia.
  - set (k := Z.to_nat _). cbn [fst snd buf inner]. rewrite <- app_assoc, take_drop, app_nil_r. split; [|done].
    specialize (H3 ltac:(done)). split; simpl; [done| |].
    + unfold Buffered. simpl. rewrite length_app, length_take. lia.
    + rewrite <- app_assoc, take_drop. done.
Qed.

Lemma br_read_ok n chunk r out r' c :
  reader_ok r → Z.of_nat (length chunk) <= br_room n r → br_read n chunk r = (out, r', c) →
  reader_ok r' ∧ out ++ left r' = left r ++ c.
Proof.
  intros Hr Hc. pose proof Hr as [H1 H2 H3]. unfold br_read, br_room in *.
  destruct n as [|n]; [intros [= <- <- <-]; by rewrite app_nil_r|].
  destruct (buf r) as [|b l] eqn:Eb; cbv zeta in *.
  - destruct (size r <=? Z.of_nat (S n)) eqn:Es.
    + destruct (inner r) as [|x m] eqn:Ei; intros [= <- <- <-].
      * split; [done|]. unfold left. by rewrite Eb, Ei, app_nil_r.
      * specialize (H3 ltac:(done)). rewrite app_nil_l in H3. unfold left. rewrite Eb, Ei.
        split; [|simpl; by rewrite take_drop, app_nil_r]. split; cbn [size buf inner]; [done| |].
        -- unfold Buffered. simpl. apply size_range in H1. lia.
        -- intros _. simpl in *. rewrite length_drop. lia.
    + destruct (fill_ok chunk r Hr) as [Hf Hl]; [unfold room, Buffered; rewrite Eb; simpl in *; lia|].
      destruct (fill chunk r) as [r1 c1]. simpl in Hf, Hl. intros [= <- <- <-].
      unfold left in *. cbn [buf inner]. rewrite app_assoc, take_drop. split; [|done].
      destruct Hf as [F1 F2 F3]. split; cbn [size buf inner]; [done| |].
      * unfold Buffered in *. cbn [buf]. rewrite length_drop. lia.
      * intros Hi. specialize (F3 Hi). rewrite length_app in F3. rewrite length_app, length_drop. lia.
  - intros [= <- <- <-]. unfold left. rewrite Eb.
    split; [|simpl; by rewrite app_assoc, take_drop, app_nil_r]. split; cbn [size buf inner]; [done| |].
    + unfold Buffered in *. rewrite Eb in H2. cbn [buf]. rewrite length_drop. simpl in H2. lia.
    + intros Hi. specialize (H3 Hi). rewrite length_app in H3. rewrite length_app, length_drop. simpl in H3. lia.
Qed.

Lemma grow_ok now r g r' g' e :
  reader_ok r → grow now r g = (r', g', e) → reader_ok r' ∧ left r' = left r.
Proof.
  intros Hr. pose proof Hr as [H1 H2 H3]. pose proof (size_range _ H1) as Hs. unfold grow.
  case_bool_decide as Hb; [|by intros [= <- _ _]].
  destruct (Z.ltb_spec (size r) checkBufferMaximumSize) as [Hl|Hl]; [|by intros [= <- _ _]].
  destruct g as [g0|]; [|by intros [= <- _ _]]. destruct (g0 <? now); intros [= <- _ _]; [|done].
  (* the buffer is full, so that nothing is left in the old one *)
  assert (inner r = []) as Hi.
  { destruct (inner r) as [|b l] eqn:Ei; [done|]. specialize (H3 ltac:(done)). rewrite length_app in H3.
    unfold Buffered in Hb. simpl in H3. lia. }
  unfold left. rewrite Hi, app_nil_r. cbn [buf inner]. rewrite app_nil_l.
  assert (take (Z.to_nat (size r)) (buf r) = buf r) as -> by (apply take_ge; unfold Buffered in Hb; lia).
  split; [|done]. split; simpl.
  - rewrite !elem_of_cons, elem_of_nil in *. unfold checkBufferMaximumSize in Hl. lia.
  - unfold Buffered. simpl. lia.
  - unfold Buffered in Hb. intros _. lia.
Qed.

(** The tokens: the goroutine and the reader are never at the connection at
    once, and its deadline is that of the callers unless one of them sets it
    or the goroutine peeks. *)
Record state_ok (s : state) : Prop := {
  so_reader : reader_ok (br s);
  so_stream : delivered s ++ left (br s) = taken s;
  so_turns : (ck s = Holding ∨ ck s = Peeking) → rd s = Idle;
  so_deadline : ck s ≠ Peeking → st s = Free → conn_deadline s = user_deadline s;
  so_setting : ck s = Peeking → st s = Free }.

Lemma checked_ok now err s :
  state_ok s → ck s ≠ Peeking → state_ok (checked now err s) ∧ ck (checked now err s) ≠ Peeking.
Proof.
  intros [H1 H2 H3 H4 H5] Hc. unfold checked. destruct (grow now (br s) (growtime s)) as [[r g] e] eqn:Eg.
  destruct (grow_ok _ _ _ _ _ _ H1 Eg) as [Hr Hl].
  set (err' := match e with Some e => Some e | None => err end).
  assert (∀ c ca, c = Waiting ∨ c = Over → state_ok (MkState r g (user_deadline s) (conn_deadline s) (stop s) ca c
    (rd s) (st s) (taken s) (delivered s))) as Hs.
  { intros c ca Hca. split; simpl; [done|by rewrite Hl| | |]; [by intros [->| ->]; destruct Hca|by auto|by intros ->; destruct Hca]. }
  destruct err' as [[]|]; (split; [apply Hs; auto|done]).
Qed.

Lemma checker_step_ok s s' : state_ok s → step s s' → state_ok s'.
Proof.
  intros H Hs. pose proof H as [H1 H2 H3 H4 H5]. destruct Hs.
  - split; simpl; try done; [by intros [?|?]|]. intros _. apply H4. congruence.
  - split; simpl; try done; [|intros _; apply H4; congruence].
    intros _. unfold cbr_free in *. destruct (ck s), (rd s); done.
  - apply checked_ok; [done|congruence].
  - split; simpl; try done; [intros _; apply H3; auto|]. intros _. unfold deadline_free in *.
    destruct (ck s), (st s); done.
  - destruct (fill_ok chunk (br s) H1) as [Hf Hl]; [done|]. split; simpl; try done; [by rewrite Hl, app_assoc, H2|auto|auto].
  - apply checked_ok; [split; simpl; try done; by intros [?|?]|done].
  - apply checked_ok; [split; simpl; try done; by intros [?|?]|done].
  - by split.
  - split; simpl; try done. intros [E|E]; unfold cbr_free in *; rewrite E in *; done.
  - destruct (br_read_ok n chunk (br s) out r c H1) as [Hr Hl]; [done..|]. split; simpl; try done.
    by rewrite <- app_assoc, Hl, app_assoc, H2.
  - by split.
  - by split.
  - split; simpl; try done. intros E. unfold deadline_free in *. by rewrite E in *.
  - split; simpl; try done; congruence.
  - split; simpl; try done.
Qed.

Lemma checker_reach_ok s : reach s → state_ok s.
Proof.
  intros Hr. assert (state_ok NewConnChecker) as H0.
  { split; simpl; try done. split; simpl; [by left|by vm_compute|done]. }
  induction Hr; [done|]. eauto using checker_step_ok.
Qed.

(** Whatever the checks, the reads, the calls that set deadlines and the times
    they come: what was read and what is still buffered is what the connection
    gave, in order and complete; the buffer holds 32 KB at most; and while a
    read is at the connection no check is, and the deadline is the one set by
    the caller, but for a call that is setting it. *)
(** C32: whatever the checks, the reads, the calls that set deadlines and
    their times: what was read and what is buffered is what the connection
    gave, in order and complete; the buffer holds 32 KB at most; and while a
    read is at the connection no check is, and its deadline is the one the
    caller set, but for a call that is setting it. *)
Theorem checker_safe s :
  reach s →
  taken s = delivered s ++ buf (br s) ++ inner (br s) ∧
  Buffered (br s) <= size (br s) <= checkBufferMaximumSize ∧
  ∀ n, rd s = Reading n →
    (ck s = Waiting ∨ ck s = Over) ∧ (st s = Free → conn_deadline s = user_deadline s).
Proof.
  intros [H1 H2 H3 H4 H5]%checker_reach_ok. split_and!; [done|apply H1| |].
  - destruct (size_range _ (ro_size _ H1)). unfold checkBufferMaximumSize. lia.
  - intros n Hn. assert (ck s ≠ Holding ∧ ck s ≠ Peeking) as [? ?].
    { split; intros E; rewrite H3 in Hn; auto; done. }
    split; [destruct (ck s); auto; done|auto].
Qed.

(** A check takes three bytes, and a read gives two of them. *)
Definition three_peeked : state :=
  MkState (MkReader checkBufferInitialSize [7; 8; 9] []) None None None false None Waiting (Reading 2) Free [7; 8; 9] [].

Lemma three_peeked_reach : reach three_peeked.
Proof.
  eapply rtc_l; [by apply step_tick|].
  eapply rtc_l; [by apply (step_deadline _ 0)|].
  eapply rtc_l; [by apply (step_peek _ [7; 8; 9])|].
  eapply rtc_l; [by apply (step_peek_error _ 1 ErrDeadlineExceeded)|].
  apply rtc_once.
  exact (step_Read (MkState (MkReader checkBufferInitialSize [7; 8; 9] []) None None None false None Waiting Idle Free
    [7; 8; 9] []) 2 eq_refl eq_refl).
Qed.

Lemma checker_safe_witness :
  taken three_peeked = delivered three_peeked ++ buf (br three_peeked) ++ inner (br three_peeked) ∧
  Buffered (br three_peeked) <= size (br three_peeked) <= checkBufferMaximumSize ∧
  ∀ n, rd three_peeked = Reading n →
    (ck three_peeked = Waiting ∨ ck three_peeked = Over) ∧
    (st three_peeked = Free → conn_deadline three_peeked = user_deadline three_peeked).
Proof. exact (checker_safe three_peeked three_peeked_reach). Defined.
