(* ===== verification/Serving.v ===== *)
(** * Serving and logging (serving.go, logging.go).

    The loop that accepts connections, with its delays and the set of open
    connections, as a step relation, and the log file of the manager. *)

From S2P Require Import Prelude Defaults.

Open Scope go_scope.

(** ** Serve *)

(** [tempDelay] after a failure that is temporary. *)
Definition next_delay (tempDelay : Z) : Z :=
  let d := if tempDelay == 0 then 5 * millisecond else tempDelay * 2 in
  if second <? d then second else d.

(** A connection that was accepted: before it is stored, while [fn] runs,
    between Close and Delete, and after both. *)
Inductive phase := Accepted | Running | Closing | Done.
Record served := MkServed { ph : phase; closed : bool }.

Definition stored (c : served) : bool := match ph c with Running | Closing => true | _ => false end.

Record serving := MkServing { tempDelay : Z; conns : list served; over : bool }.

Definition no_conns : serving := MkServing 0 [] false.

(** Whether the loop may accept: the connection before is in its goroutine. *)
Definition accepting (s : serving) : Prop := over s = false ∧ Forall (λ c, ph c ≠ Accepted) (conns s).

Inductive serve_step (s : serving) : serving → Prop :=
  | serve_accept : accepting s → serve_step s (MkServing 0 (conns s ++ [MkServed Accepted false]) false)
  | serve_temporary : accepting s → serve_step s (MkServing (next_delay (tempDelay s)) (conns s) false)
  | serve_return : accepting s → serve_step s (MkServing (tempDelay s) (conns s) true)
  | serve_store i c : conns s !! i = Some c → ph c = Accepted →
      serve_step s (MkServing (tempDelay s) (<[i := MkServed Running (closed c)]> (conns s)) (over s))
  | serve_close i c : conns s !! i = Some c → ph c = Running →
      serve_step s (MkServing (tempDelay s) (<[i := MkServed Closing true]> (conns s)) (over s))
  | serve_delete i c : conns s !! i = Some c → ph c = Closing →
      serve_step s (MkServing (tempDelay s) (<[i := MkServed Done (closed c)]> (conns s)) (over s))
  | CloseConnections_one i c : conns s !! i = Some c → stored c = true →
      serve_step s (MkServing (tempDelay s) (<[i := MkServed (ph c) true]> (conns s)) (over s)).

Definition serve_reach : serving → Prop := rtc serve_step no_conns.

(** After [k] failures in a row: 5 milliseconds, doubled each time, a second
    at most. *)
Lemma next_delay_iter k :
  Nat.iter (S k) next_delay 0 = Z.min (5 * millisecond * 2 ^ Z.of_nat k) second.
Proof.
  induction k as [|k IH]; [reflexivity|].
  change (Nat.iter (S (S k)) next_delay 0) with (next_delay (Nat.iter (S k) next_delay 0)). rewrite IH.
  rewrite Nat2Z.inj_succ, Z.pow_succ_r by lia. pose proof (Z.pow_pos_nonneg 2 (Z.of_nat k) ltac:(lia) ltac:(lia)).
  unfold next_delay, second, millisecond in *. rewrite bool_decide_false by lia. case_match; lia.
Qed.

Definition served_ok (c : served) : Prop :=
  match ph c with Accepted => closed c = false | Running => True | Closing | Done => closed c = true end.

Lemma serve_ok s :
  serve_reach s → 0 <= tempDelay s <= second ∧ Forall served_ok (conns s).
Proof.
  intros Hr. unfold serve_reach in Hr. assert (0 <= tempDelay no_conns <= second ∧ Forall served_ok (conns no_conns)) as H0.
  { split; [unfold second, millisecond; simpl; lia|by constructor]. }
  revert H0. induction Hr as [|s1 s2 s3 Hs _ IH]; [done|]. intros [Hd Hc]. apply IH. clear IH.
  assert (∀ i c, served_ok c → Forall served_ok (<[i := c]> (conns s1))) as Hi by (intros; by apply Forall_insert).
  destruct Hs as [Ha|Ha|Ha|i c Hl Hp|i c Hl Hp|i c Hl Hp|i c Hl Hp]; simpl; (split; [try done|]).
  - apply Forall_app. split; [done|]. by apply Forall_singleton.
  - unfold next_delay. case_bool_decide; case_match; unfold second, millisecond in *; lia.
  - done.
  - done.
  - by apply Hi.
  - by apply Hi.
  - apply Hi. rewrite Forall_lookup in Hc. specialize (Hc _ _ Hl). unfold served_ok in *. by rewrite Hp in Hc.
  - apply Hi. rewrite Forall_lookup in Hc. specialize (Hc _ _ Hl). unfold served_ok, stored in *. simpl. by destruct (ph c).
Qed.

(** ** The log *)

(** The flags of os.OpenFile, as on Linux; the two lowest bits say how the
    file is opened, and 0 is for reading only. *)
Definition O_RDONLY : Z := 0.
Definition O_WRONLY : Z := 1.
Definition O_RDWR : Z := 2.
Definition O_CREATE : Z := 64.
Definition O_APPEND : Z := 1024.

Definition writable (flags : Z) : bool := Z.land flags 3 != 0.

(** A file that was opened, with what was written to it. *)
Record os_file := MkFile { f_flags : Z; f_closed : bool; f_data : list Z }.

Definition close_file (f : os_file) : os_file := MkFile (f_flags f) true (f_data f).

(** [file] is an index into the files opened, [output] whether there is a
    writer. *)
Record logging := MkLogging { files : list os_file; file : option nat; output : bool }.

(** [m.file.Close(); m.file = nil] *)
Definition drop_file (m : logging) : logging :=
  match file m with
  | Some i => MkLogging (alter close_file i (files m)) None (output m)
  | None => m
  end.

(** [opens]: whether the file can be opened. *)
Definition SetLogFile (named opens : bool) (m : logging) : logging * bool :=
  let m := drop_file m in
  if named then
    if opens
    then (MkLogging (files m ++ [MkFile (Z.lor O_APPEND O_CREATE) false []]) (Some (length (files m))) (output m), true)
    else (m, false)
  else (m, true).

Definition SetLogOutput (w : bool) (m : logging) : logging := MkLogging (files m) (file m) w.

(** [disk], [out]: whether the file, if it is writable, and the writer take
    the bytes. *)
Definition Write (disk out : bool) (p : list Z) (m : logging) : logging :=
  let m :=
    match file m with
    | Some i =>
        match files m !! i with
        | Some f =>
            if writable (f_flags f) && disk
            then MkLogging (<[i := MkFile (f_flags f) (f_closed f) (f_data f ++ p)]> (files m)) (file m) (output m)
            else drop_file m
        | None => m
        end
    | None => m
    end in
  MkLogging (files m) (file m) (output m && out).

Inductive log_call := CallFile (named opens : bool) | CallOutput (w : bool) | CallWrite (disk out : bool) (p : list Z).

Definition log_do (c : log_call) (m : logging) : logging :=
  match c with
  | CallFile named opens => (SetLogFile named opens m).1
  | CallOutput w => SetLogOutput w m
  | CallWrite disk out p => Write disk out p m
  end.

Definition log_run (cs : list log_call) : logging := foldl (λ m c, log_do c m) (MkLogging [] None false) cs.

Record log_ok (m : logging) : Prop := {
  lo_file : ∀ i, file m = Some i → ∃ f, files m !! i = Some f ∧ f_closed f = false;
  lo_open : ∀ i f, files m !! i = Some f → f_closed f = false → file m = Some i;
  lo_data : ∀ i f, files m !! i = Some f → f_flags f = Z.lor O_APPEND O_CREATE ∧ f_data f = [] }.

Lemma drop_ok m : log_ok m → log_ok (drop_file m) ∧ file (drop_file m) = None ∧ length (files (drop_file m)) = length (files m).
Proof.
  intros H. unfold drop_file. destruct (file m) as [i|] eqn:Ei; [|by split_and!]. simpl. rewrite length_alter.
  split; [|done]. destruct H as [H1 H2 H3]. split; simpl; [done| |]; intros j f; destruct (decide (i = j)) as [<-|Hne].
  - rewrite list_lookup_alter_eq. intros (g & Hg & ->)%fmap_Some. done.
  - rewrite list_lookup_alter_ne by done. intros Hf Hc. rewrite (H2 _ _ Hf Hc) in Ei. congruence.
  - rewrite list_lookup_alter_eq. intros (g & Hg & ->)%fmap_Some. exact (H3 i g Hg).
  - rewrite list_lookup_alter_ne by done. apply H3.
Qed.

Lemma log_do_ok c m : log_ok m → log_ok (log_do c m).
Proof.
  intros H. destruct (drop_ok m H) as (Hd & Hn & Hlen). destruct c as [named opens|w|disk out p]; simpl.
  - unfold SetLogFile. destruct named; [|done]. destruct opens; [|done]. simpl. destruct Hd as [D1 D2 D3].
    split; simpl.
    + intros i [= <-]. eexists. by rewrite lookup_app_r, Nat.sub_diag by lia.
    + intros i f. rewrite lookup_app. destruct (files (drop_file m) !! i) as [g|] eqn:Eg.
      * intros [= <-] Hc. rewrite Hn in D2. by specialize (D2 _ _ Eg Hc).
      * intros Hf _. apply list_lookup_singleton_Some in Hf as [Hi _]. apply lookup_ge_None in Eg. f_equal. lia.
    + intros i f. rewrite lookup_app. destruct (files (drop_file m) !! i) as [g|] eqn:Eg; [intros [= <-]; by eapply D3|].
      intros [_ <-]%list_lookup_singleton_Some. done.
  - by destruct H.
  - unfold Write. destruct (file m) as [i|] eqn:Ei; [|destruct H as [H1 H2 H3]; split; simpl; rewrite ?Ei; [done| |done]; intros j f Hf Hc; rewrite <- Ei; by eapply H2].
    destruct (files m !! i) as [f|] eqn:Ef; [|destruct H as [H1 _ _]; destruct (H1 _ Ei) as (g & Hg & _); congruence].
    destruct (lo_data _ H _ _ Ef) as [-> _]. simpl. by destruct Hd.
Qed.

(** The log file is opened for reading only: nothing that is logged is ever
    written to it, and the first message closes it. *)
Lemma log_file_empty cs i f : files (log_run cs) !! i = Some f → f_data f = [].
Proof.
  assert (∀ m, log_ok m → log_ok (foldl (λ m c, log_do c m) m cs)) as H.
  { induction cs as [|c cs IH]; intros m Hm; simpl; [done|]. by apply IH, log_do_ok. }
  intros Hf. apply (lo_data _ (H (MkLogging [] None false) ltac:(by split)) i f Hf).
Qed.

(** One log file is open at most, the one that is logged to. *)
Lemma log_file_open cs i f :
  files (log_run cs) !! i = Some f → f_closed f = false → file (log_run cs) = Some i.
Proof.
  assert (∀ m, log_ok m → log_ok (foldl (λ m c, log_do c m) m cs)) as H.
  { induction cs as [|c cs IH]; intros m Hm; simpl; [done|]. by apply IH, log_do_ok. }
  apply (lo_open _ (H (MkLogging [] None false) ltac:(by split))).
Qed.
