(* ===== verification/Httputil.v ===== *)
(** * Hop-by-hop headers (internal/httputil/httputil.go).

    A header is a map from canonical names to values, as net/http keeps it. *)

From S2P Require Import Prelude GoStrings Url.

Open Scope go_scope.
#[local] Arguments bs : simpl never.

Abbreviation Header := (gmap gostring (list gostring)).

(** textproto: characters of names, canonical names, and TrimString. *)
Definition validHeaderFieldByte (c : Z) : bool := is_alpha c || is_digit c || one_of c (bs "!#$%&'*+-.^_`|~").

Fixpoint canonical_loop (upper : bool) (s : gostring) : gostring :=
  match s with
  | [] => []
  | c :: s => (if upper then upper_byte c else lower_byte c) :: canonical_loop (c =? 45) s
  end.

Definition CanonicalMIMEHeaderKey (s : gostring) : gostring :=
  if forallb validHeaderFieldByte s then canonical_loop true s else s.

Definition is_ascii_space (c : Z) : bool := one_of c [32; 9; 10; 13].
Definition TrimString (s : gostring) : gostring := TrimRightFunc is_ascii_space (TrimLeftFunc is_ascii_space s).

Definition Del (h : Header) (key : gostring) : Header := delete (CanonicalMIMEHeaderKey key) h.

Definition hopHeaders : list gostring :=
  [bs "Connection"; bs "Proxy-Connection"; bs "Keep-Alive"; bs "Proxy-Authenticate"; bs "Proxy-Authorization";
   bs "Te"; bs "Trailer"; bs "Transfer-Encoding"; bs "Upgrade"].

(** The loop over the values of Connection. *)
Definition del_fields (h : Header) (f : gostring) : Header :=
  foldl (λ h sf, let sf := TrimString sf in if sf != [] then Del h sf else h) h (Split f 44).

Definition RemoveHopbyhopHeaders (h : Header) : Header :=
  let h := foldl del_fields h (default [] (h !! bs "Connection")) in
  foldl Del h hopHeaders.

(** The names that Connection lists. *)
Definition listed_names (h : Header) : list gostring :=
  f ← default [] (h !! bs "Connection");
  sf ← Split f 44;
  if TrimString sf != [] then [CanonicalMIMEHeaderKey (TrimString sf)] else [].

Lemma foldl_Del (l : list gostring) (h : Header) k :
  foldl Del h l !! k = if bool_decide (k ∈ CanonicalMIMEHeaderKey <$> l) then None else h !! k.
Proof.
  revert h. induction l as [|x l IH]; intros h; simpl; [done|]. rewrite IH. unfold Del.
  destruct (decide (k = CanonicalMIMEHeaderKey x)) as [->|Hne].
  - rewrite lookup_delete_eq. rewrite (bool_decide_true (_ ∈ _ :: _)) by by left. by case_bool_decide.
  - rewrite lookup_delete_ne by done. repeat case_bool_decide; set_solver.
Qed.

Lemma del_fields_Del h f :
  del_fields h f = foldl Del h (Split f 44 ≫= λ sf, if TrimString sf != [] then [TrimString sf] else []).
Proof.
  unfold del_fields. revert h. induction (Split f 44) as [|sf l IH]; intros h; simpl; [done|]. rewrite IH.
  by destruct (TrimString sf != []).
Qed.

(** The headers that are of one hop, or that Connection lists, are gone, and
    the others are as they were. *)
Lemma hop_headers_removed h k :
  RemoveHopbyhopHeaders h !! k = if bool_decide (k ∈ hopHeaders ∨ k ∈ listed_names h) then None else h !! k.
Proof.
  unfold RemoveHopbyhopHeaders. rewrite foldl_Del.
  assert (CanonicalMIMEHeaderKey <$> hopHeaders = hopHeaders) as -> by reflexivity.
  assert (∀ l h, foldl del_fields h l !! k = if bool_decide (k ∈ (l ≫= λ f, Split f 44 ≫= λ sf,
    if TrimString sf != [] then [CanonicalMIMEHeaderKey (TrimString sf)] else [])) then None else h !! k) as Hl.
  { induction l as [|f l IH]; intros h0; [done|]. cbn [foldl mbind list_bind]. rewrite IH, del_fields_Del, foldl_Del.
    assert (k ∈ CanonicalMIMEHeaderKey <$> (Split f 44 ≫= λ sf, if TrimString sf != [] then [TrimString sf] else []) ↔
      k ∈ (Split f 44 ≫= λ sf, if TrimString sf != [] then [CanonicalMIMEHeaderKey (TrimString sf)] else [])) as Hk.
    { rewrite list_elem_of_fmap. setoid_rewrite list_elem_of_bind. split.
      - intros (x & -> & sf & Hx & Hin). exists sf. split; [|done]. destruct (TrimString sf != []); [|by apply elem_of_nil in Hx].
        apply list_elem_of_singleton in Hx as ->. by left.
      - intros (sf & Hx & Hin). destruct (TrimString sf != []) eqn:E; [|by apply elem_of_nil in Hx].
        apply list_elem_of_singleton in Hx as ->. eexists. split; [done|]. exists sf. rewrite E. split; [by left|done]. }
    repeat case_bool_decide; try done; exfalso; rewrite elem_of_app in *; naive_solver. }
  rewrite Hl. unfold listed_names. repeat case_bool_decide; naive_solver.
Qed.

(** A header that is neither of one hop nor listed by Connection. *)
Definition end_to_end (h : Header) (k : gostring) : Prop := (k ∉ hopHeaders) ∧ (k ∉ listed_names h).

#[export] Instance end_to_end_dec h k : Decision (end_to_end h k).
Proof. unfold end_to_end. apply _. Defined.

Lemma end_to_end_kept h k : end_to_end h k → RemoveHopbyhopHeaders h !! k = h !! k.
Proof. intros [H1 H2]. rewrite hop_headers_removed. case_bool_decide; naive_solver. Qed.

Lemma hop_dropped h k : ¬ end_to_end h k → RemoveHopbyhopHeaders h !! k = None.
Proof.
  intros H. rewrite hop_headers_removed. case_bool_decide as E; [done|]. exfalso. apply H.
  split; intros Hk; apply E; auto.
Qed.

Example canonical_1 : CanonicalMIMEHeaderKey (bs "x-FORWARDED-for") = bs "X-Forwarded-For".
Proof. reflexivity. Qed.
