(* ===== verification/HttpServe.v ===== *)
(** * The requests of the http service (service/http/http.go).

    ServeHTTP, CONNECT and upgrades: the request that goes upstream, the
    response that comes back, and the tunnels.  What the transport and the
    client do, and [HeaderValuesContainsToken] of golang.org/x/net, are
    parameters; a header is a map, as in Httputil.v. *)

From S2P Require Import Prelude GoStrings Url Proxy Httputil Http.

Open Scope go_scope.
#[local] Arguments bs : simpl never.

(** ** net/http.Header *)

Definition header_Get (h : Header) (key : gostring) : gostring :=
  default [] (head (default [] (h !! CanonicalMIMEHeaderKey key))).

Definition header_Set (h : Header) (key value : gostring) : Header :=
  <[CanonicalMIMEHeaderKey key := [value]]> h.

Lemma canonical_names :
  CanonicalMIMEHeaderKey (bs "User-Agent") = bs "User-Agent" ∧
  CanonicalMIMEHeaderKey (bs "Connection") = bs "Connection" ∧
  CanonicalMIMEHeaderKey (bs "Upgrade") = bs "Upgrade" ∧
  CanonicalMIMEHeaderKey (bs "Content-Length") = bs "Content-Length".
Proof. by split_and!. Qed.

(** ** Requests and responses *)

Record request := MkRequest {
  Method : gostring; RequestURI : gostring; Host : gostring; URL_Path : gostring; r_Header : Header }.

Record response := MkResponse {
  StatusCode : Z; resp_Header : Header; ContentLength : Z; Body : list Z }.

(** What the handler does, in order. *)
Inductive event :=
  | Hijacked                                   (* the connection of the client is the handler's *)
  | Wrote (b : list Z)                         (* to the client *)
  | NewConn (addr : gostring)
  | Relayed (first : list Z)                   (* what goes upstream before the bytes of the client *)
  | ClosedRemote
  | ClosedLocal
  | Redirected (location : gostring)           (* with StatusFound *)
  | InternalServerError
  | RoundTrip (req : request)
  | Responded (code : Z) (header : Header) (body : list Z)
  | Aborted.                                   (* panic(http.ErrAbortHandler) *)

Section serve.
Context {C : Type}.
Context (HeaderValuesContainsToken : list gostring → gostring → bool).
Context (netip : gostring → option bool) (u_String : URL → gostring).
Context (request_Write : request → option (list Z)).
(** The client lets its connection be hijacked; it takes what is written; the
    job still has options; what the transport answers. *)
Context (hijackable writable opts_ok : bool).
Context (transport : request → option response).

Definition response_200 : gostring := bs "HTTP/1.1 200 OK" ++ [13; 10; 13; 10].

(** [hijack] panics when it fails. *)
Definition hijack (k : list event) : list event := if hijackable then Hijacked :: k else [Aborted].

Definition handleConnect (x : Http.state (C := C)) (req : request) : list event :=
  hijack
    (if negb opts_ok then [ClosedLocal]
     else if negb writable then [ClosedLocal]
     else
       let remoteAddr := rewriteHost x (RequestURI req) in
       [Wrote response_200; NewConn remoteAddr; Relayed []; ClosedRemote; ClosedLocal]).

Definition handleUpgrade (x : Http.state (C := C)) (req : request) : list event :=
  match request_Write req with
  | None => [InternalServerError]
  | Some b =>
      hijack
        (if negb opts_ok then [ClosedLocal]
         else
           let remoteAddr := rewriteHost x (Host req) in
           [NewConn remoteAddr; Relayed b; ClosedRemote; ClosedLocal])
  end.

Definition upgrade_type (req : request) : gostring :=
  if HeaderValuesContainsToken (default [] (r_Header req !! bs "Connection")) (bs "Upgrade")
  then header_Get (r_Header req) (bs "Upgrade") else [].

(** The clone that goes upstream. *)
Definition outreq (req : request) : request :=
  let h := RemoveHopbyhopHeaders (r_Header req) in
  let h := match h !! bs "User-Agent" with None => header_Set h (bs "User-Agent") [] | Some _ => h end in
  let upgradeType := upgrade_type req in
  let h := if upgradeType != []
           then header_Set (header_Set h (bs "Connection") (bs "Upgrade")) (bs "Upgrade") upgradeType
           else h in
  MkRequest (Method req) [] (Host req) (URL_Path req) h.

(** [maps.Copy(header, resp.Header)] and the length. *)
Definition respond (header : Header) (resp : response) : event :=
  let h := RemoveHopbyhopHeaders (resp_Header resp) in
  let header := h ∪ header in
  let header := match header !! bs "Content-Length" with
                | None => if 0 <=? ContentLength resp
                          then header_Set header (bs "Content-Length") (Itoa (ContentLength resp)) else header
                | Some _ => header
                end in
  Responded (StatusCode resp) header (Body resp).

Definition ServeHTTP (x : Http.state (C := C)) (req : request) : list event :=
  if Method req == bs "CONNECT" then handleConnect x req
  else
    let out := outreq req in
    if upgrade_type req != [] then handleUpgrade x out
    else
      match handleRedirect netip u_String x (Host out) (URL_Path out) with
      | Some location => [Redirected location]
      | None =>
          match transport out with
          | None => [RoundTrip out; Aborted]
          | Some resp => [RoundTrip out; respond ∅ resp]
          end
      end.

(** ** What is forwarded *)

#[local] Set Default Proof Using "Type*".

Lemma outreq_header req k :
  r_Header (outreq req) !! k =
    if bool_decide (upgrade_type req ≠ []) && bool_decide (k = bs "Upgrade") then Some [upgrade_type req]
    else if bool_decide (upgrade_type req ≠ []) && bool_decide (k = bs "Connection") then Some [bs "Upgrade"]
    else match RemoveHopbyhopHeaders (r_Header req) !! k with
         | None => if bool_decide (k = bs "User-Agent") then Some [[]] else None
         | v => v
         end.
Proof.
  unfold outreq. cbn [r_Header]. set (h := RemoveHopbyhopHeaders (r_Header req)). clearbody h.
  destruct canonical_names as (Eu & Ec & Eg & _). unfold header_Set. rewrite Eu, Ec, Eg.
  assert (∀ k, match h !! bs "User-Agent" with None => <[bs "User-Agent" := [[]]]> h | Some _ => h end !! k =
    match h !! k with None => if bool_decide (k = bs "User-Agent") then Some [[]] else None | v => v end) as Hh.
  { intros j. destruct (h !! bs "User-Agent") eqn:E.
    - destruct (h !! j) eqn:Ej; [done|]. case_bool_decide; congruence.
    - destruct (decide (j = bs "User-Agent")) as [->|Hj].
      + rewrite lookup_insert_eq, E. by rewrite bool_decide_true.
      + rewrite lookup_insert_ne by done. rewrite bool_decide_false by done. by destruct (h !! j). }
  case_bool_decide as Ht; cbn [andb negb].
  - rewrite bool_decide_false by (by intros H). apply Hh.
  - rewrite (bool_decide_true (upgrade_type req ≠ [])) by done. cbn [andb].
    destruct (decide (k = bs "Upgrade")) as [->|Hu]; [by rewrite lookup_insert_eq, bool_decide_true|].
    rewrite lookup_insert_ne, (bool_decide_false (k = bs "Upgrade")) by done.
    destruct (decide (k = bs "Connection")) as [->|Hc]; [by rewrite lookup_insert_eq, bool_decide_true|].
    rewrite lookup_insert_ne, (bool_decide_false (k = bs "Connection")) by done. apply Hh.
Qed.

(** The value of a header that a hop passes on. *)
Definition passed (h : Header) (k : gostring) : option (list gostring) :=
  if decide (end_to_end h k) then h !! k else None.

Lemma passed_eq h k : RemoveHopbyhopHeaders h !! k = passed h k.
Proof. unfold passed. case_decide; [by rewrite end_to_end_kept|by rewrite hop_dropped]. Qed.

Lemma passed_hop h k : k ∈ hopHeaders → passed h k = None.
Proof. intros Hk. unfold passed. rewrite decide_False; [done|]. by intros [H _]. Qed.

(** What the client is sent. *)
Lemma respond_spec resp : ∃ header,
  respond ∅ resp = Responded (StatusCode resp) header (Body resp) ∧
  (∀ k, k ≠ bs "Content-Length" → header !! k = passed (resp_Header resp) k) ∧
  header !! bs "Content-Length" =
    match passed (resp_Header resp) (bs "Content-Length") with
    | Some v => Some v
    | None => if 0 <=? ContentLength resp then Some [Itoa (ContentLength resp)] else None
    end.
Proof.
  unfold respond. rewrite map_union_empty. eexists. split; [done|]. unfold header_Set.
  destruct canonical_names as (_ & _ & _ & ->). rewrite <- passed_eq. split.
  - intros k Hk. rewrite <- passed_eq.
    destruct (_ !! bs "Content-Length"); [done|]. destruct (0 <=? _); [|done]. by rewrite lookup_insert_ne.
  - destruct (RemoveHopbyhopHeaders (resp_Header resp) !! bs "Content-Length") eqn:E; [done|].
    destruct (0 <=? _); [by rewrite lookup_insert_eq|by rewrite E].
Qed.

(** C35: a request that is not a CONNECT goes upstream with its method, host
    and path, the end-to-end headers of the client with their values and none
    of one hop; the User-Agent is that of the client, or an empty one so that
    the transport adds none, and Connection and Upgrade are there exactly when
    the client asked for an upgrade, with the protocol it asked for. An
    upgrade that can be written, on a connection that can be hijacked while
    the job has options, is relayed to the host as rewritten, the request
    first. A request without an upgrade that is not redirected is sent once;
    when the transport has no answer the handler aborts, and an answer is sent
    to the client with its status, its body, its end-to-end headers, and its
    length when the headers do not have it. *)
Theorem forwards_end_to_end x req :
  Method req ≠ bs "CONNECT" →
  let up := upgrade_type req in
  let out := outreq req in
  Method out = Method req ∧ Host out = Host req ∧ URL_Path out = URL_Path req ∧
  (∀ k, k ≠ bs "User-Agent" → k ≠ bs "Connection" → k ≠ bs "Upgrade" →
   r_Header out !! k = passed (r_Header req) k) ∧
  r_Header out !! bs "User-Agent" = Some (default [[]] (passed (r_Header req) (bs "User-Agent"))) ∧
  r_Header out !! bs "Connection" = (if up == [] then None else Some [bs "Upgrade"]) ∧
  r_Header out !! bs "Upgrade" = (if up == [] then None else Some [up]) ∧
  (up ≠ [] → ∀ b, request_Write out = Some b → hijackable = true → opts_ok = true →
   ServeHTTP x req = [Hijacked; NewConn (rewriteHost x (Host req)); Relayed b; ClosedRemote; ClosedLocal]) ∧
  (up = [] → handleRedirect netip u_String x (Host req) (URL_Path req) = None →
   match transport out with
   | None => ServeHTTP x req = [RoundTrip out; Aborted]
   | Some resp => ∃ header,
       ServeHTTP x req = [RoundTrip out; Responded (StatusCode resp) header (Body resp)] ∧
       (∀ k, k ≠ bs "Content-Length" → header !! k = passed (resp_Header resp) k) ∧
       header !! bs "Content-Length" =
         match passed (resp_Header resp) (bs "Content-Length") with
         | Some v => Some v
         | None => if 0 <=? ContentLength resp then Some [Itoa (ContentLength resp)] else None
         end
   end).
Proof.
  intros Hm up out. subst up out. pose proof (outreq_header req) as Ho.
  setoid_rewrite passed_eq in Ho. split_and!; [done..| | | | | |].
  - intros k Hua Hc Hu. rewrite Ho, !(bool_decide_false (k = _)), !andb_false_r by done. by destruct (passed _ k).
  - rewrite Ho, (bool_decide_false (bs "User-Agent" = bs "Upgrade")),
      (bool_decide_false (bs "User-Agent" = bs "Connection")), !andb_false_r by done.
    rewrite bool_decide_true by done. by destruct (passed _ _).
  - rewrite Ho, passed_hop by (apply (bool_decide_unpack _); vm_compute; exact I).
    rewrite !bool_decide_not. by destruct (bool_decide (upgrade_type req = [])).
  - rewrite Ho, passed_hop by (apply (bool_decide_unpack _); vm_compute; exact I).
    rewrite !bool_decide_not. by destruct (bool_decide (upgrade_type req = [])).
  - intros Hup b Hb Hj Hopts. unfold ServeHTTP, handleUpgrade, hijack.
    by rewrite (bool_decide_false (Method req = _)), bool_decide_false, Hb, Hj, Hopts by done.
  - intros Hup Hre. unfold ServeHTTP. rewrite (bool_decide_false (Method req = _)), (bool_decide_true _ Hup) by done.
    cbn [negb]. change (Host (outreq req)) with (Host req). change (URL_Path (outreq req)) with (URL_Path req).
    rewrite Hre. destruct (transport (outreq req)) as [resp|]; [|done].
    destruct (respond_spec resp) as (header & -> & H). by exists header.
Qed.
End serve.

(** ** Witness *)

Definition ex_req : request :=
  MkRequest (bs "GET") [] (bs "a.b") (bs "/")
    (<[bs "Connection" := [bs "close, x-hop"]]> (<[bs "X-Hop" := [bs "1"]]> (<[bs "Accept" := [bs "*"]]> ∅))).

(** A token that is the whole of a value *)
Definition plain_token (vs : list gostring) (t : gostring) : bool := bool_decide (t ∈ vs).

Example ex_hop : end_to_end (r_Header ex_req) (bs "Accept") ∧ ¬ end_to_end (r_Header ex_req) (bs "X-Hop").
Proof. by_compute. Qed.

(** The server answers. *)
Definition ex_resp : response := MkResponse 200 (<[bs "Keep-Alive" := [bs "5"]]> (<[bs "Etag" := [bs "e"]]> ∅)) 2 [104; 105].

Lemma forwards_end_to_end_witness :
  let out := outreq plain_token ex_req in
  r_Header out !! bs "Accept" = passed (r_Header ex_req) (bs "Accept") ∧
  ∃ header,
    ServeHTTP (C := gostring) plain_token (λ _, None) (λ _, []) (λ _, None) true true true (λ _, Some ex_resp)
      (Http.MkState [] ∅ ∅) ex_req = [RoundTrip out; Responded 200 header [104; 105]] ∧
    header !! bs "Etag" = passed (resp_Header ex_resp) (bs "Etag").
Proof.
  destruct (forwards_end_to_end (C := gostring) plain_token (λ _, None) (λ _, []) (λ _, None) true true true
    (λ _, Some ex_resp) (Http.MkState [] ∅ ∅) ex_req ltac:(discriminate)) as (_ & _ & _ & H & _ & _ & _ & _ & Hr).
  split; [by apply H|].
  destruct (Hr ltac:(vm_compute; reflexivity) ltac:(vm_compute; reflexivity)) as (header & E & Hh & _).
  exists header. split; [exact E|]. by apply Hh.
Defined.

Example ex_passed :
  passed (r_Header ex_req) (bs "Accept") = Some [bs "*"] ∧ passed (r_Header ex_req) (bs "X-Hop") = None ∧
  passed (resp_Header ex_resp) (bs "Etag") = Some [bs "e"] ∧ passed (resp_Header ex_resp) (bs "Keep-Alive") = None.
Proof. by_compute. Qed.

(** An upgrade goes to the Host of the request as it is, without the port 80
    that it may leave out: a connection to it cannot be made. *)
Example upgrade_no_port :
  let req := MkRequest (bs "GET") [] (bs "a.b") (bs "/")
    (<[bs "Connection" := [bs "Upgrade"]]> (<[bs "Upgrade" := [bs "websocket"]]> ∅)) in
  ServeHTTP (C := gostring) plain_token (λ _, None) (λ _, []) (λ _, Some []) true true true (λ _, None)
    (Http.MkState [] ∅ ∅) req =
    [Hijacked; NewConn (bs "a.b"); Relayed []; ClosedRemote; ClosedLocal] ∧
  SplitHostPort (bs "a.b") = None.
Proof. split; vm_compute; reflexivity. Qed.
