(* ===== verification/Handshake.v ===== *)
(** * The SOCKS handshake of a client (proxy/x_net_socks.go).

    [connect] as a program over what the server sends, in order, and what the
    client writes; and a server that reads RFC 1928 and RFC 1929, written from
    the RFCs.  A read that the server does not answer fails; a write that fails
    ends the client in the same way.  Deadlines and cancellation show as such
    failures. *)

From S2P Require Import Prelude GoStrings Url Proxy Dial.

Open Scope go_scope.
#[local] Arguments bs : simpl never.

(** ** Wire protocol constants *)

Definition socks_Version5 : Z := 5.
Definition socks_AddrTypeIPv4 : Z := 1.
Definition socks_AddrTypeFQDN : Z := 3.
Definition socks_AddrTypeIPv6 : Z := 4.
Definition socks_CmdConnect : Z := 1.
Definition socks_AuthMethodNotRequired : Z := 0.
Definition socks_AuthMethodUsernamePassword : Z := 2.
Definition socks_AuthMethodNoAcceptableMethods : Z := 255.
Definition socks_StatusSucceeded : Z := 0.
Definition socks_authUsernamePasswordVersion : Z := 1.
Definition socks_authStatusSucceeded : Z := 0.

(** Either a name or the bytes of an IP address, and a port. *)
Inductive host_addr := IPv4 (b : list Z) | IPv6 (b : list Z) | Name (n : gostring).
Record socks_Addr := MkAddr { a_host : host_addr; a_Port : Z }.

(** ** The client *)

Record wire := MkWire { from_server : list Z; written : list (list Z) }.

(** [None]: an error; the connection is closed. *)
Definition IO (A : Type) : Type := wire → option A * wire.

#[export] Instance IO_ret : MRet IO := λ A a w, (Some a, w).
#[export] Instance IO_bind : MBind IO := λ A B f m w,
  match m w with (Some a, w) => f a w | (None, w) => (None, w) end.

Definition fail {A} : IO A := λ w, (None, w).
Definition write (b : list Z) : IO unit := λ w, (Some tt, MkWire (from_server w) (written w ++ [b])).
Definition ReadFull (n : nat) : IO (list Z) := λ w,
  if (n <=? length (from_server w))%nat
  then (Some (take n (from_server w)), MkWire (drop n (from_server w)) (written w))
  else (None, w).

Definition len_byte (s : gostring) : Z := Z.of_nat (length s).
Definition byte_at (b : list Z) (i : nat) : Z := default 0 (b !! i).

(** [socks_UsernamePassword.Authenticate] *)
Definition Authenticate (up : gostring * gostring) (auth : Z) : IO unit :=
  let '(Username, Password) := up in
  if auth == socks_AuthMethodNotRequired then mret tt
  else if auth == socks_AuthMethodUsernamePassword then
    if (len_byte Username == 0) || (255 <? len_byte Username) || (255 <? len_byte Password) then fail
    else
      _ ← write ([socks_authUsernamePasswordVersion; len_byte Username] ++ Username ++ [len_byte Password] ++ Password);
      b ← ReadFull 2;
      if byte_at b 0 != socks_authUsernamePasswordVersion then fail
      else if byte_at b 1 != socks_authStatusSucceeded then fail
      else mret tt
  else fail.

(** What is offered: as [proxy_SOCKS5] sets it. *)
Definition AuthMethods (auth : option (gostring * gostring)) : list Z :=
  match auth with
  | None => []
  | Some _ => [socks_AuthMethodNotRequired; socks_AuthMethodUsernamePassword]
  end.

Definition greeting (auth : option (gostring * gostring)) : list Z :=
  socks_Version5 ::
  (match AuthMethods auth with
   | [] => [1; socks_AuthMethodNotRequired]
   | ams => Z.of_nat (length ams) :: ams
   end).

Section connect.
Context (net_ParseIP : gostring → option (list Z + list Z)).   (* four bytes, or sixteen *)

(** [None]: the name is too long. *)
Definition request_addr (host : gostring) : option (list Z) :=
  match net_ParseIP host with
  | Some (inl ip4) => Some (socks_AddrTypeIPv4 :: ip4)
  | Some (inr ip6) => Some (socks_AddrTypeIPv6 :: ip6)
  | None => if 255 <? len_byte host then None else Some ([socks_AddrTypeFQDN; len_byte host] ++ host)
  end.

(** The reply to the request: the address the server is bound to. *)
Definition read_reply : IO socks_Addr :=
  b ← ReadFull 4;
  if byte_at b 0 != socks_Version5 then fail
  else if byte_at b 1 != socks_StatusSucceeded then fail
  else if byte_at b 2 != 0 then fail
  else
    let finish (mk : list Z → host_addr) (l : nat) : IO socks_Addr :=
      b ← ReadFull (2 + l);
      mret (MkAddr (mk (take l b)) (byte_at b l * 256 + byte_at b (S l))) in
    if byte_at b 3 == socks_AddrTypeIPv4 then finish IPv4 4%nat
    else if byte_at b 3 == socks_AddrTypeIPv6 then finish IPv6 16%nat
    else if byte_at b 3 == socks_AddrTypeFQDN then
      n ← ReadFull 1;
      finish Name (Z.to_nat (byte_at n 0))
    else fail.

Definition connect (auth : option (gostring * gostring)) (address : gostring) : IO socks_Addr :=
  match socks_splitHostPort address with
  | None => fail
  | Some (host, port) =>
      _ ← write (greeting auth);
      b ← ReadFull 2;
      if byte_at b 0 != socks_Version5 then fail
      else
        let am := byte_at b 1 in
        if am == socks_AuthMethodNoAcceptableMethods then fail
        else
          _ ← match auth with Some up => Authenticate up am | None => mret tt end;
          match request_addr host with
          | None => fail
          | Some addr =>
              _ ← write ([socks_Version5; socks_CmdConnect; 0] ++ addr ++ [port / 256; port mod 256]);
              read_reply
          end
  end.
End connect.

(** ** A server, from RFC 1928 and RFC 1929 *)

(** The methods of a version identifier/method selection message. *)
Definition read_methods (m : list Z) : option (list Z) :=
  match m with
  | 5 :: n :: methods => if n =? Z.of_nat (length methods) then Some methods else None
  | _ => None
  end.

(** A Username/Password request. *)
Definition read_userpass (m : list Z) : option (gostring * gostring) :=
  match m with
  | 1 :: ulen :: rest =>
      let u := take (Z.to_nat ulen) rest in
      match drop (Z.to_nat ulen) rest with
      | plen :: p =>
          if (ulen =? Z.of_nat (length u)) && (plen =? Z.of_nat (length p)) then Some (u, p) else None
      | [] => None
      end
  | _ => None
  end.

Definition read_port (b : list Z) : option Z := match b with [hi; lo] => Some (hi * 256 + lo) | _ => None end.

(** A CONNECT request: its destination. *)
Definition read_connect (m : list Z) : option socks_Addr :=
  match m with
  | 5 :: 1 :: 0 :: 1 :: rest => port ← read_port (drop 4 rest); Some (MkAddr (IPv4 (take 4 rest)) port)
  | 5 :: 1 :: 0 :: 4 :: rest => port ← read_port (drop 16 rest); Some (MkAddr (IPv6 (take 16 rest)) port)
  | 5 :: 1 :: 0 :: 3 :: len :: rest =>
      port ← read_port (drop (Z.to_nat len) rest); Some (MkAddr (Name (take (Z.to_nat len) rest)) port)
  | _ => None
  end.

Definition select_method (m : Z) : list Z := [5; m].
Definition status (s : Z) : list Z := [1; s].

Definition reply_to (rep : Z) (bound : socks_Addr) : list Z :=
  [5; rep; 0] ++
  match a_host bound with
  | IPv4 b => 1 :: b
  | IPv6 b => 4 :: b
  | Name n => [3; Z.of_nat (length n)] ++ n
  end ++ [a_Port bound / 256; a_Port bound mod 256].

(** What fits in the fields. *)
Definition addr_fits (a : socks_Addr) : Prop :=
  0 <= a_Port a < 65536 ∧
  match a_host a with
  | IPv4 b => length b = 4%nat
  | IPv6 b => length b = 16%nat
  | Name n => (length n <= 255)%nat
  end.

(** ** The client against the server *)

Lemma ReadFull_app b rest n w :
  length b = n → ReadFull n (MkWire (b ++ rest) w) = (Some b, MkWire rest w).
Proof.
  intros <-. unfold ReadFull. cbn [from_server written]. rewrite length_app.
  destruct (Nat.leb_spec (length b) (length b + length rest)); [|lia]. by rewrite take_app_length, drop_app_length.
Qed.

Lemma ReadFull_1 a rest w : ReadFull 1 (MkWire (a :: rest) w) = (Some [a], MkWire rest w).
Proof. exact (ReadFull_app [a] rest 1 w eq_refl). Qed.

Lemma ReadFull_2 a b rest w : ReadFull 2 (MkWire (a :: b :: rest) w) = (Some [a; b], MkWire rest w).
Proof. exact (ReadFull_app [a; b] rest 2 w eq_refl). Qed.

Lemma ReadFull_4 a b c d rest w : ReadFull 4 (MkWire (a :: b :: c :: d :: rest) w) = (Some [a; b; c; d], MkWire rest w).
Proof. exact (ReadFull_app [a; b; c; d] rest 4 w eq_refl). Qed.

Lemma port_bytes p : p / 256 * 256 + p mod 256 = p.
Proof. pose proof (Z.div_mod p 256 ltac:(lia)). lia. Qed.

(** The reply of a server is read, and not a byte more. *)
Lemma read_reply_spec bound rest w :
  addr_fits bound →
  read_reply (MkWire (reply_to 0 bound ++ rest) w) = (Some bound, MkWire rest w).
Proof.
  intros [Hp Hh]. destruct bound as [h port]. unfold read_reply, reply_to. cbn [a_host a_Port] in *.
  assert (∀ mk (b : list Z) l, length b = l →
    (b0 ← ReadFull (2 + l); mret (MkAddr (mk (take l b0)) (byte_at b0 l * 256 + byte_at b0 (S l))))
      (MkWire (b ++ [port / 256; port mod 256] ++ rest) w) = (Some (MkAddr (mk b) port), MkWire rest w)) as Hf.
  { intros mk b l Hl. unfold mbind, IO_bind. rewrite app_assoc, ReadFull_app by (rewrite length_app; simpl; lia).
    unfold mret, IO_ret. rewrite take_app_length' by done. unfold byte_at.
    rewrite lookup_app_r, lookup_app_r by lia. replace (l - length b)%nat with 0%nat by lia.
    replace (S l - length b)%nat with 1%nat by lia. cbn [lookup list_lookup from_option id]. by rewrite port_bytes. }
  destruct h as [b|b|n]; rewrite <- !app_assoc; cbn [app]; unfold mbind at 1, IO_bind at 1.
  - rewrite ReadFull_4. exact (Hf IPv4 b 4%nat Hh).
  - rewrite ReadFull_4. exact (Hf IPv6 b 16%nat Hh).
  - rewrite ReadFull_4.
    change ((n0 ← ReadFull 1;
        (b0 ← ReadFull (2 + Z.to_nat (byte_at n0 0));
         mret (MkAddr (Name (take (Z.to_nat (byte_at n0 0)) b0))
           (byte_at b0 (Z.to_nat (byte_at n0 0)) * 256 + byte_at b0 (S (Z.to_nat (byte_at n0 0)))))))
      (MkWire (Z.of_nat (length n) :: n ++ [port / 256; port mod 256] ++ rest) w) =
      (Some (MkAddr (Name n) port), MkWire rest w)).
    unfold mbind at 1, IO_bind at 1. rewrite ReadFull_1. change (byte_at [Z.of_nat (length n)] 0) with (Z.of_nat (length n)).
    rewrite Nat2Z.id. exact (Hf Name n (length n) eq_refl).
Qed.

(** The client's messages, as the server reads them. *)
Lemma greeting_read auth :
  read_methods (greeting auth) =
    Some (socks_AuthMethodNotRequired :: match auth with Some _ => [socks_AuthMethodUsernamePassword] | None => [] end).
Proof. by destruct auth. Qed.

Definition userpass (u p : gostring) : list Z := [1; len_byte u] ++ u ++ [len_byte p] ++ p.

Lemma userpass_read u p : read_userpass (userpass u p) = Some (u, p).
Proof.
  unfold read_userpass, userpass, len_byte. cbn [app]. rewrite Nat2Z.id, take_app_length, drop_app_length.
  cbn [app]. by rewrite !Z.eqb_refl.
Qed.

Lemma read_port_bytes port : read_port [port / 256; port mod 256] = Some port.
Proof. unfold read_port. by rewrite port_bytes. Qed.

Section handshake.
Context (net_ParseIP : gostring → option (list Z + list Z)).
Context (ParseIP_4 : ∀ h b, net_ParseIP h = Some (inl b) → length b = 4%nat).
Context (ParseIP_16 : ∀ h b, net_ParseIP h = Some (inr b) → length b = 16%nat).
#[local] Set Default Proof Using "Type*".

(** Where the client wants to go. *)
Definition destination (host : gostring) : host_addr :=
  match net_ParseIP host with
  | Some (inl b) => IPv4 b
  | Some (inr b) => IPv6 b
  | None => Name host
  end.

Definition connect_request (addr : list Z) (port : Z) : list Z :=
  [socks_Version5; socks_CmdConnect; 0] ++ addr ++ [port / 256; port mod 256].

Lemma request_read host port :
  (net_ParseIP host = None → (length host <= 255)%nat) →
  ∃ addr, request_addr net_ParseIP host = Some addr ∧
    read_connect (connect_request addr port) = Some (MkAddr (destination host) port).
Proof.
  intros Hl. unfold request_addr, destination. destruct (net_ParseIP host) as [[b|b]|] eqn:E.
  - exists (1 :: b). split; [done|]. cbn -[take drop read_port].
    rewrite take_app_length', drop_app_length' by (symmetry; by eapply ParseIP_4). by rewrite read_port_bytes.
  - exists (4 :: b). split; [done|]. cbn -[take drop read_port].
    rewrite take_app_length', drop_app_length' by (symmetry; by eapply ParseIP_16). by rewrite read_port_bytes.
  - unfold len_byte. specialize (Hl eq_refl). destruct (Z.ltb_spec 255 (Z.of_nat (length host))); [lia|].
    eexists. split; [reflexivity|]. cbn -[take drop read_port Z.of_nat]. rewrite Nat2Z.id.
    rewrite take_app_length, drop_app_length. by rewrite read_port_bytes.
Qed.

(** What the server sends: the method, a status if it asks for a password, and
    the reply, with what the other side sends after it. *)
Definition session (method : Z) (bound : socks_Addr) (rest : list Z) : list Z :=
  select_method method ++ (if method =? 2 then status 0 else []) ++ reply_to 0 bound ++ rest.

(** A client that is served by a server of the RFCs, which chooses one of the
    methods that were offered: the server reads the credentials if it asks for
    them and the destination the client was given; the client returns the
    address the server is bound to and leaves what comes after its reply. *)
(** C33: a client served by a server of RFC 1928 and RFC 1929 that chooses one
    of the offered methods: the server reads the credentials if it asks for
    them, and the destination the client was given; the client returns the
    address the server is bound to and leaves what comes after its reply. *)
Theorem connect_served auth address host port method bound rest :
  socks_splitHostPort address = Some (host, port) →
  (net_ParseIP host = None → (length host <= 255)%nat) →
  (∀ u p, auth = Some (u, p) → (0 < length u <= 255)%nat ∧ (length p <= 255)%nat) →
  method = 0 ∨ method = 2 ∧ auth ≠ None →
  addr_fits bound →
  ∃ greet pass request,
    connect net_ParseIP auth address (MkWire (session method bound rest) []) =
      (Some bound, MkWire rest ([greet] ++ pass ++ [request])) ∧
    (∃ methods, read_methods greet = Some methods ∧ method ∈ methods) ∧
    (if method =? 2 then ∃ m, pass = [m] ∧ read_userpass m = auth else pass = []) ∧
    read_connect request = Some (MkAddr (destination host) port).
Proof.
  intros Ha Hn Hup Hm Hb. destruct (request_read host port Hn) as (addr & Er & Hr).
  assert (∀ w, (_ ← write (connect_request addr port); read_reply) (MkWire (reply_to 0 bound ++ rest) w) =
    (Some bound, MkWire rest (w ++ [connect_request addr port]))) as Hend.
  { intros w. unfold mbind, IO_bind, write. cbn [from_server written]. by apply read_reply_spec. }
  unfold connect. rewrite Ha, Er. unfold session, select_method, status.
  destruct Hm as [->|[-> Hne]].
  - exists (greeting auth), [], (connect_request addr port). split_and!; [|rewrite greeting_read; eexists; split; [done|by left]|done|done].
    destruct auth as [[u p]|]; exact (Hend [greeting _]).
  - destruct auth as [[u p]|]; [|done]. destruct (Hup u p eq_refl) as [[Hu1 Hu2] Hp].
    exists (greeting (Some (u, p))), [userpass u p], (connect_request addr port).
    split_and!; [|by eexists; split; [apply greeting_read|right; left]|eexists; split; [done|apply userpass_read]|done].
    assert ((_ ← Authenticate (u, p) 2; (_ ← write (connect_request addr port); read_reply))
      (MkWire ([1; 0] ++ reply_to 0 bound ++ rest) [greeting (Some (u, p))]) =
      (Some bound, MkWire rest ([greeting (Some (u, p))] ++ [userpass u p] ++ [connect_request addr port]))) as H2; [|exact H2].
    unfold Authenticate. rewrite (bool_decide_false (2 = socks_AuthMethodNotRequired)) by done.
    rewrite (bool_decide_true (2 = socks_AuthMethodUsernamePassword)) by done.
    rewrite (bool_decide_false (len_byte u = 0)) by (unfold len_byte; lia).
    rewrite (proj2 (Z.ltb_ge 255 (len_byte u))), (proj2 (Z.ltb_ge 255 (len_byte p))) by (unfold len_byte; lia).
    exact (Hend [greeting (Some (u, p)); userpass u p]).
Qed.
End handshake.

Definition no_literal (_ : gostring) : option (list Z + list Z) := None.

Definition relay_bound : socks_Addr := MkAddr (IPv4 [10; 0; 0; 1]) 1080.

Lemma connect_served_witness :
  connect no_literal (Some (bs "u", bs "pw")) (bs "example.org:443") (MkWire (session 2 relay_bound [9; 9]) []) =
    (Some relay_bound, MkWire [9; 9]
      [[5; 2; 0; 2]; [1; 1; 117; 2; 112; 119];
       [5; 1; 0; 3; 11] ++ bs "example.org" ++ [1; 187]]) ∧
  ∃ greet pass request,
    connect no_literal (Some (bs "u", bs "pw")) (bs "example.org:443") (MkWire (session 2 relay_bound [9; 9]) []) =
      (Some relay_bound, MkWire [9; 9] ([greet] ++ pass ++ [request])) ∧
    (∃ methods, read_methods greet = Some methods ∧ 2 ∈ methods) ∧
    (∃ m, pass = [m] ∧ read_userpass m = Some (bs "u", bs "pw")) ∧
    read_connect request = Some (MkAddr (Name (bs "example.org")) 443).
Proof.
  split; [vm_compute; reflexivity|].
  apply (connect_served no_literal ltac:(done) ltac:(done) (Some (bs "u", bs "pw")) (bs "example.org:443")
    (bs "example.org") 443 2 relay_bound [9; 9]).
  - vm_compute. reflexivity.
  - intros _. apply (Nat.leb_le 11 255). reflexivity.
  - intros u p [= <- <-]. split; [split|]; apply Nat.leb_le; reflexivity.
  - right. done.
  - split; [unfold relay_bound; simpl; lia|done].
Defined.

(** A client without credentials goes on with whatever method the server
    chooses, offered or not. *)
Example unoffered_method :
  (connect no_literal None (bs "example.org:443") (MkWire (select_method 2 ++ reply_to 0 relay_bound) [])).1 = Some relay_bound.
Proof. vm_compute. reflexivity. Qed.

(** A reply that is not a success is an error. *)
Example refused :
  (connect no_literal None (bs "example.org:443") (MkWire (select_method 0 ++ reply_to 5 relay_bound) [])).1 = None.
Proof. vm_compute. reflexivity. Qed.
