(* ===== verification/PerHost.v ===== *)
(** * The proxy of the environment.

    proxy/x_net_proxy.go: the dialer that ALL_PROXY and NO_PROXY ask for.
    [PerHost] sends a connection through the proxy or around it, after the
    lists that [AddFromString] makes of NO_PROXY.  The parser of addresses of
    net/netip is a parameter; net.IP, an IP being its 4 or 16 bytes, net.IPNet
    and net.ParseCIDR are modelled. *)

From S2P Require Import Prelude GoStrings Addr Prefix Url Proxy Dial.

Local Open Scope go_scope.

(** ** net.IP and net.IPNet *)

Abbreviation IP := (list Z) (only parsing).

Record IPNet := MkIPNet { n_IP : IP; n_Mask : list Z }.

Definition AsSlice (a : Addr) : IP :=
  match a with
  | AddrInvalid => []
  | Addr4 v => be_bytes 4 v
  | Addr6 v _ => be_bytes 16 v
  end.

(** An address as a number of 128 bits, ::ffff:0:0/96 holding those of IPv4. *)
Definition val16 (a : Addr) : Z :=
  match a with AddrInvalid => 0 | Addr4 v => 65535 * 2 ^ 32 + v | Addr6 v _ => v end.

Definition As16 (a : Addr) : IP := be_bytes 16 (val16 a).

Definition v4InV6Prefix : list Z := be_bytes 12 65535.

Definition To4 (ip : IP) : option IP :=
  if (length ip =? 4)%nat then Some ip
  else if (length ip =? 16)%nat && (take 12 ip == v4InV6Prefix) then Some (drop 12 ip)
  else None.

Definition IP_Equal (ip x : IP) : bool :=
  if (length ip =? length x)%nat then ip == x
  else if (length ip =? 4)%nat && (length x =? 16)%nat then
    (take 12 x == v4InV6Prefix) && (ip == drop 12 x)
  else if (length ip =? 16)%nat && (length x =? 4)%nat then
    (take 12 ip == v4InV6Prefix) && (drop 12 ip == x)
  else false.

(** [net.CIDRMask ones (8 * l)] *)
Fixpoint CIDRMask (ones : Z) (l : nat) : list Z :=
  match l with
  | O => []
  | S l =>
      if 8 <=? ones then 255 :: CIDRMask (ones - 8) l
      else (255 - Z.shiftr 255 ones) :: CIDRMask 0 l
  end.

Definition Mask (ip : IP) (mask : list Z) : IP :=
  let mask := if (length mask =? 16)%nat && (length ip =? 4)%nat &&
                 (take 12 mask == replicate 12 255) then drop 12 mask else mask in
  let ip := if (length mask =? 4)%nat && (length ip =? 16)%nat &&
               (take 12 ip == v4InV6Prefix) then drop 12 ip else ip in
  if (length ip =? length mask)%nat then zip_with Z.land ip mask else [].

Definition networkNumberAndMask (n : IPNet) : IP * list Z :=
  match match To4 (n_IP n) with
        | Some ip => Some ip
        | None => if (length (n_IP n) =? 16)%nat then Some (n_IP n) else None
        end with
  | None => ([], [])
  | Some ip =>
      let m := n_Mask n in
      if (length m =? 4)%nat then if (length ip =? 4)%nat then (ip, m) else ([], [])
      else if (length m =? 16)%nat then (ip, if (length ip =? 4)%nat then drop 12 m else m)
      else ([], [])
  end.

Fixpoint masked_eq (nn m ip : list Z) : bool :=
  match nn, m, ip with
  | b :: nn, k :: m, c :: ip => (Z.land b k == Z.land c k) && masked_eq nn m ip
  | _, _, _ => true
  end.

Definition Contains (n : IPNet) (ip : IP) : bool :=
  let '(nn, m) := networkNumberAndMask n in
  let ip := default ip (To4 ip) in
  (length ip =? length nn)%nat && masked_eq nn m ip.

(** [dtoi]: the whole string is a number below 0xFFFFFF. *)
Fixpoint dtoi_loop (n : Z) (s : gostring) : option Z :=
  match s with
  | [] => Some n
  | c :: s' =>
      if (48 <=? c) && (c <=? 57) then
        let n := n * 10 + (c - 48) in
        if 16777215 <=? n then None else dtoi_loop n s'
      else None
  end.

Definition dtoi (s : gostring) : option Z :=
  match s with [] => None | _ => dtoi_loop 0 s end.

(** ** PerHost *)

Section per_host.
Context (ParseAddr : gostring → option Addr).

(** The address and the number of bits of a CIDR. *)
Definition parse_cidr (s : gostring) : option (Addr * Z) :=
  let '(addr, mask, found) := Cut s 47 in
  if negb found then None else
  ipAddr ← ParseAddr addr;
  if zone_of ipAddr != [] then None else
  n ← dtoi mask;
  if (n <? 0) || (BitLen ipAddr <? n) then None else Some (ipAddr, n).

Definition net_of (ipAddr : Addr) (n : Z) : IPNet :=
  let m := CIDRMask n (Z.to_nat (BitLen ipAddr / 8)) in
  MkIPNet (Mask (As16 ipAddr) m) m.

Definition ParseCIDR (s : gostring) : option IPNet :=
  '(ipAddr, n) ← parse_cidr s; Some (net_of ipAddr n).

Context {D : Type}.

Record proxy_PerHost := MkPerHost {
  def : D; bypass : D;
  bypassNetworks : list IPNet;
  bypassIPs : list IP;
  bypassZones : list gostring;
  bypassHosts : list gostring }.

Definition proxy_NewPerHost (defaultDialer bypass : D) : proxy_PerHost :=
  MkPerHost defaultDialer bypass [] [] [] [].

Definition AddIP (p : proxy_PerHost) (ip : IP) : proxy_PerHost :=
  MkPerHost (def p) (bypass p) (bypassNetworks p) (bypassIPs p ++ [ip]) (bypassZones p)
    (bypassHosts p).

Definition AddNetwork (p : proxy_PerHost) (net : IPNet) : proxy_PerHost :=
  MkPerHost (def p) (bypass p) (bypassNetworks p ++ [net]) (bypassIPs p) (bypassZones p)
    (bypassHosts p).

Definition AddZone (p : proxy_PerHost) (zone : gostring) : proxy_PerHost :=
  let zone := TrimSuffix zone [46] in
  let zone := if negb (HasPrefix zone [46]) then [46] ++ zone else zone in
  MkPerHost (def p) (bypass p) (bypassNetworks p) (bypassIPs p) (bypassZones p ++ [zone])
    (bypassHosts p).

Definition AddHost (p : proxy_PerHost) (host : gostring) : proxy_PerHost :=
  MkPerHost (def p) (bypass p) (bypassNetworks p) (bypassIPs p) (bypassZones p)
    (bypassHosts p ++ [TrimSuffix host [46]]).

(** One value of the string. *)
Definition add_value (p : proxy_PerHost) (host : gostring) : proxy_PerHost :=
  let host := TrimSpace host in
  if (length host =? 0)%nat then p
  else if ContainsByte host 47 then
    match ParseCIDR host with Some net => AddNetwork p net | None => p end
  else
    match ParseAddr host with
    | Some nip => AddIP p (AsSlice nip)
    | None => if HasPrefix host (bs "*.") then AddZone p (drop 1 host) else AddHost p host
    end.

Definition AddFromString (p : proxy_PerHost) (s : gostring) : proxy_PerHost :=
  foldl add_value p (Split s 44).

Definition dialerForRequest (p : proxy_PerHost) (host : gostring) : D :=
  match ParseAddr host with
  | Some nip =>
      let ip := AsSlice nip in
      if existsb (λ net, Contains net ip) (bypassNetworks p) then bypass p
      else if existsb (λ bypassIP, IP_Equal bypassIP ip) (bypassIPs p) then bypass p
      else def p
  | None =>
      if existsb (λ zone, HasSuffix host zone || (host == drop 1 zone)) (bypassZones p) then bypass p
      else if existsb (λ bypassHost, bypassHost == host) (bypassHosts p) then bypass p
      else def p
  end.
End per_host.
Arguments proxy_PerHost : clear implicits.

(** ** The environment *)

Record proxy_envOnce := MkEnvOnce { names : list gostring; once : bool; val : gostring }.

Definition proxy_allProxyEnv : proxy_envOnce := MkEnvOnce [bs "ALL_PROXY"; bs "all_proxy"] false [].
Definition proxy_noProxyEnv : proxy_envOnce := MkEnvOnce [bs "NO_PROXY"; bs "no_proxy"] false [].

Section environment.
Context (Getenv : gostring → gostring).

Fixpoint env_init (val : gostring) (names : list gostring) : gostring :=
  match names with
  | [] => val
  | n :: names => let val := Getenv n in if val != [] then val else env_init val names
  end.

Definition env_Get (e : proxy_envOnce) : proxy_envOnce * gostring :=
  let e := if once e then e else MkEnvOnce (names e) true (env_init (val e) (names e)) in
  (e, val e).

Context {Cipher : Type}.
Context (netip_ParseAddr : gostring → option Addr).
Context (PickCipher : gostring → gostring → option Cipher).

(** A dialer of the package, or the one that asks for the host first. *)
Inductive env_dialer :=
  | plain (d : Dialer Cipher)
  | perHost (p : proxy_PerHost (Dialer Cipher)).

Definition is_4 (s : gostring) : option bool :=
  a ← netip_ParseAddr s; Some (match a with Addr4 _ => true | _ => false end).

(** The two variables are package state. *)
Definition proxy_FromEnvironmentUsing (s : proxy_envOnce * proxy_envOnce) (forward : Dialer Cipher)
    : (proxy_envOnce * proxy_envOnce) * env_dialer :=
  let '(all, allProxy) := env_Get s.1 in
  if (length allProxy =? 0)%nat then ((all, s.2), plain forward) else
  match Parse is_4 allProxy with
  | None => ((all, s.2), plain forward)
  | Some proxyURL =>
      match proxy_FromURL is_4 PickCipher proxyURL forward with
      | None => ((all, s.2), plain forward)
      | Some proxy =>
          let '(no, noProxy) := env_Get s.2 in
          if (length noProxy =? 0)%nat then ((all, no), plain proxy)
          else ((all, no), perHost (AddFromString netip_ParseAddr (proxy_NewPerHost proxy forward) noProxy))
      end
  end.

Definition FromEnvironment (s : proxy_envOnce * proxy_envOnce) :
    (proxy_envOnce * proxy_envOnce) * env_dialer := proxy_FromEnvironmentUsing s Direct.

Context (answer : conn → layer → bool).
Context (socks_ParseAddr : gostring → option (list Z)).
Context (websocket_Dial : URL → outcome → outcome).

Definition PerHost_DialContext (p : proxy_PerHost (Dialer Cipher)) : forward := λ network addr,
  match SplitHostPort addr with
  | None => ([], inl ErrTarget)
  | Some (host, _) =>
      DialContext answer socks_ParseAddr websocket_Dial (dialerForRequest netip_ParseAddr p host)
        network addr
  end.

Definition env_DialContext (d : env_dialer) : forward :=
  match d with
  | plain d => DialContext answer socks_ParseAddr websocket_Dial d
  | perHost p => PerHost_DialContext p
  end.
End environment.

(** ** Masks *)

Lemma be_bytes_mod_le k l v :
  (k ≤ l)%nat → be_bytes k (v mod 256 ^ Z.of_nat l) = be_bytes k v.
Proof.
  induction k as [|k IH]; [done|]. intros Hk. simpl. rewrite IH by lia. f_equal.
  set (p := 256 ^ Z.of_nat k). set (N := 256 ^ Z.of_nat (l - S k)).
  assert (256 ^ Z.of_nat l = p * (256 * N)) as ->.
  { unfold p, N. rewrite <- (Z.pow_succ_r 256), <- Z.pow_add_r by lia. f_equal. lia. }
  assert (0 < p ∧ 0 < N) as [Hp HN] by (split; apply Z.pow_pos_nonneg; lia). clearbody p N.
  rewrite (Z.rem_mul_r v), (Z.mul_comm p), Z.div_add by lia.
  rewrite (Z.div_small (v mod p)) by (by apply Z.mod_pos_bound).
  rewrite Z.add_0_l, (Z.rem_mul_r (v / p)), (Z.mul_comm 256) by lia. rewrite Z.mod_add by lia. by rewrite Z.mod_mod.
Qed.

Lemma be_bytes_mod l v : be_bytes l (v mod 256 ^ Z.of_nat l) = be_bytes l v.
Proof. by apply be_bytes_mod_le. Qed.

Lemma be_bytes_inj l v w :
  0 <= v → 0 <= w →
  be_bytes l v = be_bytes l w ↔ v mod 256 ^ Z.of_nat l = w mod 256 ^ Z.of_nat l.
Proof.
  intros Hv Hw. split; intros E.
  - by rewrite <- !be_value_bytes, E by done.
  - by rewrite <- (be_bytes_mod l v), E, be_bytes_mod.
Qed.

Lemma land_mask b k :
  0 <= b < 256 → 0 <= k <= 8 →
  Z.land b (255 - Z.shiftr 255 k) = b / 2 ^ (8 - k) * 2 ^ (8 - k).
Proof.
  intros Hb Hk.
  assert (Forall (λ b, Forall (λ k, Z.land b (255 - Z.shiftr 255 k) = b / 2 ^ (8 - k) * 2 ^ (8 - k))
    (seqZ 0 9)) (seqZ 0 256)) as H by by_compute.
  rewrite Forall_forall in H. specialize (H b). rewrite Forall_forall in H.
  apply H; apply elem_of_seqZ; lia.
Qed.

Lemma pow256 l : 256 ^ Z.of_nat l = 2 ^ (8 * Z.of_nat l).
Proof. by rewrite Z.pow_mul_r by lia. Qed.

(** The bits of a number above the last [e] *)
Definition high (e v : Z) : Z := v / 2 ^ e * 2 ^ e.

Lemma high_bounds e v : 0 <= e → 0 <= v → 0 <= high e v <= v.
Proof.
  intros He Hv. unfold high. pose proof (Z.pow_pos_nonneg 2 e ltac:(lia) He).
  pose proof (Z.mul_div_le v (2 ^ e)). pose proof (Z.div_pos v (2 ^ e)). nia.
Qed.

Lemma mask_be_bytes l k v :
  0 <= v → 0 <= k <= 8 * Z.of_nat l →
  zip_with Z.land (be_bytes l v) (CIDRMask k l) =
  be_bytes l (high (8 * Z.of_nat l - k) (v mod 256 ^ Z.of_nat l)).
Proof.
  revert k. induction l as [|l IH]; intros k Hv Hk; [done|]. simpl be_bytes.
  set (b := (v / 256 ^ Z.of_nat l) mod 256).
  assert (0 <= b < 256) as Hb by (apply Z.mod_pos_bound; lia).
  assert (v mod 256 ^ Z.of_nat (S l) = b * 256 ^ Z.of_nat l + v mod 256 ^ Z.of_nat l) as ->.
  { rewrite Nat2Z.inj_succ, Z.pow_succ_r, (Z.mul_comm 256), Z.rem_mul_r by lia. unfold b. lia. }
  pose proof (Z.mod_pos_bound v (256 ^ Z.of_nat l) ltac:(lia)) as Hr.
  set (r := v mod 256 ^ Z.of_nat l) in *. simpl CIDRMask.
  destruct (Z.leb_spec 8 k) as [H8|H8]; simpl.
  - rewrite IH by lia. fold r. change 255 with (255 - Z.shiftr 255 8). rewrite land_mask by lia.
    rewrite Z.div_1_r, Z.mul_1_r.
    replace (8 * Z.of_nat (S l) - k) with (8 * Z.of_nat l - (k - 8)) by lia.
    set (e := 8 * Z.of_nat l - (k - 8)).
    assert (high e (b * 256 ^ Z.of_nat l + r) = b * 256 ^ Z.of_nat l + high e r) as ->.
    { unfold high. assert (256 ^ Z.of_nat l = 2 ^ (k - 8) * 2 ^ e) as ->.
      { rewrite <- Z.pow_add_r, pow256 by lia. f_equal. lia. }
      rewrite Z.mul_assoc, Z.div_add_l by (apply Z.pow_nonzero; lia). lia. }
    assert (0 <= high e r < 256 ^ Z.of_nat l) as Hh.
    { pose proof (high_bounds e r). lia. }
    rewrite div_plus_small by done. rewrite Z.mod_small by done. f_equal.
    rewrite <- (be_bytes_mod l (_ + _)). rewrite mod_plus_small by done. done.
  - rewrite IH by lia. rewrite land_mask by lia.
    assert (high (8 * Z.of_nat (S l) - k) (b * 256 ^ Z.of_nat l + r) =
            b / 2 ^ (8 - k) * 2 ^ (8 - k) * 256 ^ Z.of_nat l + 0) as ->.
    { unfold high. replace (8 * Z.of_nat (S l) - k) with (8 * Z.of_nat l + (8 - k)) by lia.
      rewrite Z.pow_add_r, <- pow256 by lia. rewrite <- Z.div_div by lia.
      rewrite div_plus_small by done. lia. }
    rewrite div_plus_small by lia.
    rewrite Z.mod_small.
    2:{ pose proof (high_bounds (8 - k) b). unfold high in *. lia. }
    f_equal. rewrite <- (be_bytes_mod l (_ + _)), mod_plus_small by lia. f_equal.
    unfold high. rewrite Z.sub_0_r, <- pow256, Z.div_small by done. done.
Qed.

Lemma length_CIDRMask k l : length (CIDRMask k l) = l.
Proof. revert k. induction l as [|l IH]; intros k; [done|]. simpl. case_match; simpl; by rewrite IH. Qed.

Lemma drop_CIDRMask j k l :
  8 * Z.of_nat j <= k → drop j (CIDRMask k (j + l)) = CIDRMask (k - 8 * Z.of_nat j) l.
Proof.
  revert k. induction j as [|j IH]; intros k Hk; [change (CIDRMask k l = CIDRMask (k - 0) l); by rewrite Z.sub_0_r|]. cbn [Nat.add CIDRMask].
  zif. simpl drop. rewrite IH by lia. f_equal. lia.
Qed.

Lemma masked_eq_zip l m k :
  length l = length m → length k = length m →
  masked_eq l m k = true ↔ zip_with Z.land l m = zip_with Z.land k m.
Proof.
  revert l k. induction m as [|c m IH]; intros [|b l] [|d k] [=] [=]; simpl; [done|].
  rewrite andb_true_iff, bool_decide_eq_true, IH by done. split; [intros [-> ->]; done|].
  by intros [= -> ->].
Qed.

Lemma zip_land_idem l m : zip_with Z.land (zip_with Z.land l m) m = zip_with Z.land l m.
Proof.
  revert m. induction l as [|b l IH]; intros [|c m]; simpl; [done..|].
  by rewrite IH, <- Z.land_assoc, Z.land_diag.
Qed.

(** ** What a network contains *)

Definition addr_ok (a : Addr) : Prop :=
  match a with
  | AddrInvalid => False
  | Addr4 v => 0 <= v < 2 ^ 32
  | Addr6 v _ => 0 <= v < 2 ^ 128
  end.

Definition is4 (v : Z) : bool := v / 2 ^ 32 =? 65535.

(** The number of leading bits, as an address of 128 bits *)
Definition bits16 (a : Addr) (n : Z) : Z := match a with Addr4 _ => n + 96 | _ => n end.

(** [h] is in the network of the first [n] bits of [a]: these agree, and a
    network wider than ::ffff:0:0/96 has no IPv4 addresses. *)
Definition in_net (a : Addr) (n : Z) (h : Addr) : Prop :=
  val16 a / 2 ^ (128 - bits16 a n) = val16 h / 2 ^ (128 - bits16 a n) ∧
  (96 <= bits16 a n ∨ is4 (val16 h) = false).

Lemma val16_range a : addr_ok a → 0 <= val16 a < 2 ^ 128.
Proof. destruct a; simpl; lia. Qed.

Lemma As16_split v :
  be_bytes 16 v = be_bytes 12 (v / 2 ^ 32) ++ be_bytes 4 v.
Proof. change 16%nat with (12 + 4)%nat. by rewrite be_bytes_app. Qed.

Lemma v4_prefix v :
  0 <= v < 2 ^ 128 → bool_decide (be_bytes 12 (v / 2 ^ 32) = v4InV6Prefix) = is4 v.
Proof.
  intros Hv. zdiv v (2 ^ 32). unfold is4, v4InV6Prefix.
  destruct (Z.eqb_spec (v / 2 ^ 32) 65535) as [->|Hn]; [by apply bool_decide_eq_true|].
  apply bool_decide_eq_false. intros E%be_bytes_inj; [|lia..].
  change (256 ^ Z.of_nat 12) with (2 ^ 96) in E. rewrite !Z.mod_small in E by lia. done.
Qed.

(** The bytes of a number of 128 bits, without the prefix of IPv4 *)
Definition short (v : Z) : IP := if is4 v then be_bytes 4 v else be_bytes 16 v.

Lemma To4_16 v :
  0 <= v < 2 ^ 128 → To4 (be_bytes 16 v) = if is4 v then Some (be_bytes 4 v) else None.
Proof.
  intros Hv. unfold To4. rewrite length_be_bytes. cbn [Nat.eqb andb].
  rewrite As16_split, take_app_length', drop_app_length' by (by rewrite length_be_bytes).
  by rewrite v4_prefix.
Qed.

Lemma To4_4 v : To4 (be_bytes 4 v) = Some (be_bytes 4 v).
Proof. done. Qed.

Lemma be_bytes_4 v : 0 <= v < 2 ^ 32 → be_bytes 4 (65535 * 2 ^ 32 + v) = be_bytes 4 v.
Proof.
  intros Hv. rewrite <- (be_bytes_mod 4). change (256 ^ Z.of_nat 4) with (2 ^ 32).
  by rewrite mod_plus_small.
Qed.

Lemma is4_mapped v : 0 <= v < 2 ^ 32 → is4 (65535 * 2 ^ 32 + v) = true.
Proof. intros. unfold is4. by rewrite div_plus_small. Qed.

Lemma host_short h : addr_ok h → default (AsSlice h) (To4 (AsSlice h)) = short (val16 h).
Proof.
  unfold short. destruct h as [|v|v z]; cbn [addr_ok val16 AsSlice]; [done|intros Hv|intros Hv].
  - by rewrite is4_mapped, be_bytes_4, To4_4.
  - rewrite To4_16 by done. by destruct (is4 v).
Qed.

(** Equal addresses, those of IPv4 also when they are written as of IPv6 *)
Lemma IP_Equal_val16 a h :
  addr_ok a → addr_ok h → IP_Equal (AsSlice a) (AsSlice h) = true ↔ val16 a = val16 h.
Proof.
  intros Ha Hh. destruct a as [|a|a za], h as [|h|h zh]; try done; simpl in Ha, Hh; unfold IP_Equal;
    cbn [AsSlice val16]; rewrite ?length_be_bytes; cbn [Nat.eqb andb].
  - rewrite bool_decide_eq_true, be_bytes_inj by lia. change (256 ^ Z.of_nat 4) with (2 ^ 32).
    rewrite !Z.mod_small by done. lia.
  - rewrite As16_split, take_app_length', drop_app_length' by (by rewrite length_be_bytes).
    rewrite v4_prefix, andb_true_iff, bool_decide_eq_true, be_bytes_inj by lia.
    change (256 ^ Z.of_nat 4) with (2 ^ 32). rewrite (Z.mod_small a) by done.
    unfold is4. zdiv h (2 ^ 32). lia.
  - rewrite As16_split, take_app_length', drop_app_length' by (by rewrite length_be_bytes).
    rewrite v4_prefix, andb_true_iff, bool_decide_eq_true, be_bytes_inj by lia.
    change (256 ^ Z.of_nat 4) with (2 ^ 32). rewrite (Z.mod_small h) by done.
    unfold is4. zdiv a (2 ^ 32). lia.
  - rewrite bool_decide_eq_true, be_bytes_inj by lia. change (256 ^ Z.of_nat 16) with (2 ^ 128).
    by rewrite !Z.mod_small by done.
Qed.

Lemma high_div e e' v : 0 <= e <= e' → 0 <= v → high e v / 2 ^ e' = v / 2 ^ e'.
Proof.
  intros He Hv. unfold high. replace e' with (e + (e' - e)) by lia. rewrite Z.pow_add_r by lia.
  rewrite <- !Z.div_div by lia. by rewrite Z.div_mul by lia.
Qed.

Lemma high_eq e v w : 0 <= e → high e v = high e w ↔ v / 2 ^ e = w / 2 ^ e.
Proof. intros He. unfold high. pose proof (Z.pow_pos_nonneg 2 e ltac:(lia) He). nia. Qed.

(** Zeroed bits below the prefix of IPv4 make another address of it. *)
Lemma high_is4 e v : 32 < e → is4 (high e v) = false.
Proof.
  intros He. unfold is4, high. replace e with ((e - 33) + 1 + 32) by lia.
  rewrite (Z.pow_add_r 2 (e - 33 + 1) 32), (Z.pow_add_r 2 (e - 33) 1) by lia.
  rewrite !Z.mul_assoc, Z.div_mul by lia. lia.
Qed.

Lemma be_bytes_high4 n v :
  0 <= n <= 32 → 0 <= v < 2 ^ 32 →
  be_bytes 4 (high (32 - n) (65535 * 2 ^ 32 + v)) = be_bytes 4 (high (32 - n) v).
Proof.
  intros Hn Hv. pose proof (high_bounds (32 - n) v ltac:(lia) ltac:(lia)).
  assert (high (32 - n) (65535 * 2 ^ 32 + v) = 65535 * 2 ^ 32 + high (32 - n) v) as ->.
  { unfold high. assert (2 ^ 32 = 2 ^ n * 2 ^ (32 - n)) as ->.
    { rewrite <- Z.pow_add_r by lia. f_equal. lia. }
    rewrite Z.mul_assoc, Z.div_add_l by (apply Z.pow_nonzero; lia). lia. }
  apply be_bytes_4. lia.
Qed.

Lemma nn_spec a n :
  addr_ok a → 0 <= n <= BitLen a →
  let v := val16 a in let b := bits16 a n in
  networkNumberAndMask (net_of a n) =
    if (96 <=? b) && is4 v
    then (be_bytes 4 (high (128 - b) v), CIDRMask (b - 96) 4)
    else (be_bytes 16 (high (128 - b) v), CIDRMask b 16).
Proof.
  intros Ha Hn v b. subst v b. destruct a as [|v|v z]; [done|simpl in Ha, Hn..].
  - cbn [val16 bits16]. rewrite is4_mapped by done. replace (96 <=? n + 96) with true by lia.
    replace (n + 96 - 96) with n by lia. replace (128 - (n + 96)) with (32 - n) by lia. simpl andb. cbv iota.
    unfold net_of. simpl BitLen. change (Z.to_nat (32 / 8)) with 4%nat. unfold Mask, As16.
    cbn [val16]. rewrite length_CIDRMask, length_be_bytes. cbn [Nat.eqb andb].
    rewrite As16_split, take_app_length', drop_app_length' by (by rewrite length_be_bytes).
    rewrite v4_prefix, is4_mapped, be_bytes_4 by lia.
    rewrite length_CIDRMask. cbn [Nat.eqb andb]. rewrite length_be_bytes. cbn [Nat.eqb].
    rewrite mask_be_bytes by lia. unfold networkNumberAndMask. cbn [n_IP]. rewrite To4_4. cbn [n_Mask].
    rewrite length_CIDRMask, length_be_bytes. cbn [Nat.eqb]. f_equal.
    change (256 ^ Z.of_nat 4) with (2 ^ 32). change (8 * Z.of_nat 4) with 32.
    rewrite Z.mod_small by done. symmetry. by apply be_bytes_high4.
  - cbn [val16 bits16]. unfold net_of. simpl BitLen. change (Z.to_nat (128 / 8)) with 16%nat.
    unfold Mask, As16. cbn [val16]. rewrite length_be_bytes, !length_CIDRMask. cbn [Nat.eqb andb].
    rewrite !length_CIDRMask. cbn [Nat.eqb andb].
    rewrite length_be_bytes. cbn [Nat.eqb]. rewrite mask_be_bytes by lia.
    change (256 ^ Z.of_nat 16) with (2 ^ 128). change (8 * Z.of_nat 16) with 128.
    rewrite Z.mod_small by done. pose proof (high_bounds (128 - n) v ltac:(lia) ltac:(lia)).
    unfold networkNumberAndMask. cbn [n_IP]. rewrite To4_16 by lia. cbn [n_Mask].
    rewrite length_CIDRMask, length_be_bytes. cbn [Nat.eqb].
    destruct (Z.leb_spec 96 n) as [H96|H96]; simpl andb.
    + assert (is4 (high (128 - n) v) = is4 v) as ->.
      { unfold is4. by rewrite high_div by lia. }
      destruct (is4 v); rewrite length_be_bytes; [|done]. cbn [Nat.eqb].
      f_equal. apply (drop_CIDRMask 12 n 4). lia.
    + rewrite high_is4 by lia. by rewrite length_be_bytes.
Qed.

Lemma mod_shift v e k : 0 <= e → 0 <= k → (v mod 2 ^ (k + e)) / 2 ^ e = (v / 2 ^ e) mod 2 ^ k.
Proof.
  intros He Hk. pose proof (Z.pow_pos_nonneg 2 e ltac:(lia) He).
  pose proof (Z.pow_pos_nonneg 2 k ltac:(lia) Hk).
  rewrite Z.pow_add_r, (Z.mul_comm (2 ^ k)), Z.rem_mul_r, (Z.mul_comm (2 ^ e)) by lia.
  rewrite Z.div_add, Z.div_small by (try lia; by apply Z.mod_pos_bound). lia.
Qed.

Lemma masked_high l k v w :
  0 <= v → 0 <= w → 0 <= k <= 8 * Z.of_nat l →
  v / 256 ^ Z.of_nat l = w / 256 ^ Z.of_nat l →
  let e := 8 * Z.of_nat l - k in
  masked_eq (be_bytes l (high e v)) (CIDRMask k l) (be_bytes l w) = true ↔ v / 2 ^ e = w / 2 ^ e.
Proof.
  intros Hv Hw Hk Hd e. pose proof (high_bounds e v ltac:(lia) Hv).
  rewrite masked_eq_zip by (by rewrite !length_be_bytes, length_CIDRMask).
  rewrite !mask_be_bytes by lia. fold e. rewrite pow256 in *.
  assert (8 * Z.of_nat l = k + e) as E by lia. rewrite E in *.
  assert (∀ x, 0 <= x → 0 <= high e (x mod 2 ^ (k + e)) < 2 ^ (k + e)) as Hh.
  { intros x Hx. pose proof (Z.mod_pos_bound x (2 ^ (k + e)) ltac:(lia)).
    pose proof (high_bounds e (x mod 2 ^ (k + e))). lia. }
  pose proof (Hh w Hw). pose proof (Hh (high e v) ltac:(lia)).
  rewrite be_bytes_inj, pow256, E by lia. rewrite !(Z.mod_small (high _ (_ mod _))) by lia.
  rewrite high_eq, !mod_shift, (high_div e e) by lia.
  rewrite !Z.pow_add_r, !(Z.mul_comm (2 ^ k)), <- !Z.div_div in Hd by lia.
  pose proof (Z.div_mod (v / 2 ^ e) (2 ^ k) ltac:(lia)).
  pose proof (Z.div_mod (w / 2 ^ e) (2 ^ k) ltac:(lia)). rewrite Hd in *. lia.
Qed.

(** A lookup in a network is by the leading bits. *)
Lemma Contains_in_net a n h :
  addr_ok a → addr_ok h → 0 <= n <= BitLen a →
  Contains (net_of a n) (AsSlice h) = true ↔ in_net a n h.
Proof.
  intros Ha Hh Hn. pose proof (val16_range a Ha) as Hv. pose proof (val16_range h Hh) as Hw.
  assert (0 <= bits16 a n <= 128) as Hb by (destruct a; simpl in *; lia).
  unfold Contains. rewrite nn_spec, host_short by done. unfold in_net.
  set (v := val16 a) in *. set (w := val16 h) in *. set (b := bits16 a n) in *. clearbody v w b.
  assert (96 <= b → v / 2 ^ (128 - b) = w / 2 ^ (128 - b) → v / 2 ^ 32 = w / 2 ^ 32) as H32.
  { intros H96 E. replace 32 with (128 - b + (b - 96)) by lia.
    rewrite Z.pow_add_r, <- !Z.div_div, E by lia. done. }
  pose proof (masked_high 4 (b - 96) v w) as H4. pose proof (masked_high 16 b v w) as H16.
  cbv zeta in H4, H16. change (8 * Z.of_nat 16) with 128 in H16. change (8 * Z.of_nat 4) with 32 in H4.
  change (256 ^ Z.of_nat 16) with (2 ^ 128) in H16. change (256 ^ Z.of_nat 4) with (2 ^ 32) in H4.
  replace (32 - (b - 96)) with (128 - b) in H4 by lia.
  specialize (H16 ltac:(lia) ltac:(lia) ltac:(lia)).
  rewrite !Z.div_small in H16 by lia. specialize (H16 eq_refl).
  destruct (Z.leb_spec 96 b) as [H96|H96], (is4 v) eqn:Ev; simpl andb; cbv iota; rewrite andb_true_iff;
    unfold short; unfold is4 in *; destruct (w / 2 ^ 32 =? 65535) eqn:Ew; rewrite !length_be_bytes;
    cbn [Nat.eqb]; try (split; [by intros [? ?]|intros [? [?|?]]; lia]).
  - rewrite H4 by lia. split; [intros [_ ?]; auto|intros [? _]; auto].
  - rewrite H16. split; [intros [_ ?]; auto|intros [? _]; auto].
  - rewrite H16. split; [intros [_ ?]; auto|intros [? _]; auto].
  - rewrite H16. split; [intros [_ ?]; auto|intros [? _]; auto].
Qed.

(** ** What NO_PROXY covers *)

(** Strings *)

Lemma ContainsByte_elem (s : gostring) c : ContainsByte s c = bool_decide (c ∈ s).
Proof.
  unfold ContainsByte. induction s as [|b s IH]; [done|]. simpl.
  destruct (Z.eqb_spec b c) as [->|Hn].
  - symmetry. apply bool_decide_eq_true. by left.
  - destruct (IndexByte s c); simpl in *; rewrite IH; apply bool_decide_ext; set_solver.
Qed.

Lemma HasSuffix_app (s t : gostring) : HasSuffix s t = true ↔ ∃ l, s = l ++ t.
Proof.
  unfold HasSuffix. rewrite andb_true_iff, bool_decide_eq_true, Nat.leb_le. split.
  - intros [Hl E]. exists (take (length s - length t) s). by rewrite <- E at 2; rewrite take_drop.
  - intros [l ->]. rewrite length_app. split; [lia|]. apply drop_app_length'. lia.
Qed.

Lemma TrimSuffix_cons c d (s : gostring) :
  s ≠ [] → TrimSuffix (c :: s) [d] = c :: TrimSuffix s [d].
Proof.
  intros Hs. unfold TrimSuffix. assert (HasSuffix (c :: s) [d] = HasSuffix s [d]) as ->.
  - apply eq_true_iff_eq. rewrite !HasSuffix_app. split.
    + intros [[|e l] E]; [by injection E as -> ->|]. injection E as -> ->. by exists l.
    + intros [l ->]. by exists (c :: l).
  - case_match; [|done]. destruct s; [done|]. simpl. by rewrite !Nat.sub_0_r.
Qed.

Lemma zone_of_value (d : gostring) :
  let z := TrimSuffix (46 :: d) [46] in
  (if negb (HasPrefix z [46]) then [46] ++ z else z) = [46] ++ TrimSuffix d [46].
Proof.
  destruct d as [|c d]; [done|]. simpl. rewrite TrimSuffix_cons by done.
  unfold HasPrefix. simpl. done.
Qed.

Section covered.
Context (ParseAddr : gostring → option Addr).
Context (ParseAddr_ok : ∀ s a, ParseAddr s = Some a → addr_ok a).

(** [host] is the domain or below it. *)
Definition in_domain (dom host : gostring) : Prop := host = dom ∨ ∃ l, host = l ++ [46] ++ dom.

(** What a value of the list covers: a CIDR its network, an address itself,
    "*.domain" the domain, and a host itself. *)
Definition covers (host value : gostring) : Prop :=
  let e := TrimSpace value in
  e ≠ [] ∧
  if bool_decide (47 ∈ e) then
    ∃ a n h, parse_cidr ParseAddr e = Some (a, n) ∧ ParseAddr host = Some h ∧ in_net a n h
  else
    match ParseAddr e with
    | Some a => ∃ h, ParseAddr host = Some h ∧ val16 a = val16 h
    | None =>
        ParseAddr host = None ∧
        if HasPrefix e (bs "*.") then in_domain (TrimSuffix (drop 2 e) [46]) host
        else host = TrimSuffix e [46]
    end.

Lemma parse_cidr_ok s a n :
  parse_cidr ParseAddr s = Some (a, n) → addr_ok a ∧ 0 <= n <= BitLen a.
Proof using ParseAddr ParseAddr_ok.
  unfold parse_cidr. destruct (Cut s 47) as [[addr mask] []]; [|done]. simpl.
  destruct (ParseAddr addr) as [x|] eqn:E; [|done]. simpl. case_match; [done|].
  destruct (dtoi mask) as [m|]; [|done]. simpl.
  destruct ((m <? 0) || (BitLen x <? m)) eqn:Eb; [done|]. intros [= <- <-].
  split; [by eapply ParseAddr_ok|lia].
Qed.

Context {D : Type}.

Definition bypasses (p : proxy_PerHost D) (host : gostring) : Prop :=
  match ParseAddr host with
  | Some nip =>
      existsb (λ net, Contains net (AsSlice nip)) (bypassNetworks p) = true ∨
      existsb (λ bypassIP, IP_Equal bypassIP (AsSlice nip)) (bypassIPs p) = true
  | None =>
      existsb (λ zone, HasSuffix host zone || (host == drop 1 zone)) (bypassZones p) = true ∨
      existsb (λ bypassHost, bypassHost == host) (bypassHosts p) = true
  end.

Lemma dialerForRequest_spec (p : proxy_PerHost D) host :
  (bypasses p host → dialerForRequest ParseAddr p host = bypass p) ∧
  (¬ bypasses p host → dialerForRequest ParseAddr p host = def p).
Proof using Type.
  unfold bypasses, dialerForRequest.
  destruct (ParseAddr host); repeat case_match; naive_solver.
Qed.

Lemma existsb_snoc {A} (f : A → bool) l x : existsb f (l ++ [x]) = true ↔ existsb f l = true ∨ f x = true.
Proof using Type. rewrite existsb_app, orb_true_iff. simpl. by rewrite orb_false_r. Qed.

Lemma add_value_bypasses (p : proxy_PerHost D) value host :
  bypasses (add_value ParseAddr p value) host ↔ bypasses p host ∨ covers host value.
Proof using ParseAddr ParseAddr_ok.
  unfold add_value, covers. set (e := TrimSpace value). clearbody e. clear value.
  destruct e as [|c e']; [simpl; naive_solver|].
  set (e := c :: e') in *. change (length e =? 0)%nat with false. cbv iota.
  assert (e ≠ []) as He by done. clearbody e. clear c e'. rewrite ContainsByte_elem. unfold ParseCIDR.
  case_bool_decide as Hs.
  - destruct (parse_cidr ParseAddr e) as [[a n]|] eqn:Ec; simpl; [|naive_solver].
    apply parse_cidr_ok in Ec as [Ha Hn]. unfold bypasses at 1. simpl. unfold bypasses.
    destruct (ParseAddr host) as [h|] eqn:Eh; [|naive_solver].
    rewrite existsb_snoc, Contains_in_net by eauto. naive_solver.
  - destruct (ParseAddr e) as [a|] eqn:Ea.
    + unfold bypasses at 1. simpl. unfold bypasses. destruct (ParseAddr host) as [h|] eqn:Eh; [|naive_solver].
      rewrite existsb_snoc, IP_Equal_val16 by eauto. naive_solver.
    + destruct (HasPrefix e (bs "*.")) eqn:Ep; unfold bypasses at 1; simpl; unfold bypasses;
        (destruct (ParseAddr host) eqn:Eh; [naive_solver|]).
      * unfold HasPrefix in Ep. apply bool_decide_eq_true in Ep.
        assert (e = 42 :: 46 :: drop 2 e) as E by (rewrite <- (take_drop 2 e) at 1; simpl length in Ep; by rewrite Ep).
        rewrite E. cbn [drop]. rewrite zone_of_value, existsb_snoc, orb_true_iff, HasSuffix_app,
          bool_decide_eq_true. unfold in_domain. cbn [app drop]. rewrite drop_0. intuition congruence.
      * rewrite existsb_snoc, bool_decide_eq_true, (symmetry_iff (=) (TrimSuffix e [46])). intuition congruence.
Qed.

Lemma AddFromString_bypasses (p : proxy_PerHost D) s host :
  bypasses (AddFromString ParseAddr p s) host ↔
  bypasses p host ∨ Exists (covers host) (Split s 44).
Proof using ParseAddr ParseAddr_ok.
  unfold AddFromString. generalize (Split s 44). intros l. revert p.
  induction l as [|v l IH]; intros p; simpl; [rewrite Exists_nil; naive_solver|].
  rewrite IH, add_value_bypasses, Exists_cons. naive_solver.
Qed.

Lemma add_value_dialers (p : proxy_PerHost D) v :
  def (add_value ParseAddr p v) = def p ∧ bypass (add_value ParseAddr p v) = bypass p.
Proof using Type. unfold add_value. repeat case_match; done. Qed.

Lemma AddFromString_dialers (p : proxy_PerHost D) s :
  def (AddFromString ParseAddr p s) = def p ∧ bypass (AddFromString ParseAddr p s) = bypass p.
Proof using Type.
  unfold AddFromString. generalize (Split s 44). intros l. revert p.
  induction l as [|v l IH]; intros p; simpl; [done|].
  destruct (IH (add_value ParseAddr p v)) as [-> ->]. apply add_value_dialers.
Qed.
End covered.

(** The value of an environment variable is read once. *)
Lemma env_Get_once G G' e : (env_Get G' (env_Get G e).1).2 = (env_Get G e).2.
Proof. unfold env_Get. by destruct (once e) eqn:E; simpl; rewrite ?E. Qed.

(** The first of the names that is set *)
Definition first_set (G : gostring → gostring) (names : list gostring) : gostring :=
  default [] (head (filter (λ v, v ≠ []) (G <$> names))).

Lemma env_init_first G names : env_init G [] names = first_set G names.
Proof.
  unfold first_set. induction names as [|n names IH]; [done|]. simpl.
  destruct (G n) as [|c v] eqn:E; simpl; [|done]. done.
Qed.

(** ** The proxy that is asked for *)

Section environment_routed.
Context {Cipher : Type}.
Context (Getenv : gostring → gostring).
Context (ParseAddr : gostring → option Addr) (Pick : gostring → gostring → option Cipher).
Context (answer : conn → layer → bool) (socks_ParseAddr : gostring → option (list Z)).
Context (websocket_Dial : URL → outcome → outcome).

(** The dialer of a proxy URL, unless there is none *)
Definition url_proxy (s : gostring) (forward : Dialer Cipher) : option (Dialer Cipher) :=
  if bool_decide (s = []) then None
  else u ← Parse (is_4 ParseAddr) s; proxy_FromURL (is_4 ParseAddr) Pick u forward.

(** C34: a dial through the environment goes through the proxy of the first of
    ALL_PROXY and all_proxy that is set, unless it is no proxy URL or a value
    of NO_PROXY covers the host: a network the address is in, the address in
    any form, "*." a domain the host is in, or the host. *)
Theorem environment_routed forward network addr host port :
  (∀ s a, ParseAddr s = Some a → addr_ok a) →
  SplitHostPort addr = Some (host, port) →
  let all := first_set Getenv [bs "ALL_PROXY"; bs "all_proxy"] in
  let no := first_set Getenv [bs "NO_PROXY"; bs "no_proxy"] in
  let bypassed := Exists (covers ParseAddr host) (Split no 44) in
  let d := (proxy_FromEnvironmentUsing Getenv ParseAddr Pick (proxy_allProxyEnv, proxy_noProxyEnv)
              forward).2 in
  ∃ via,
    env_DialContext ParseAddr answer socks_ParseAddr websocket_Dial d network addr =
      DialContext answer socks_ParseAddr websocket_Dial via network addr ∧
    match url_proxy all forward with
    | None => via = forward
    | Some proxy => (bypassed → via = forward) ∧ (¬ bypassed → via = proxy)
    end.
Proof.
  intros Hok Hsplit all no bypassed d. subst d bypassed. unfold proxy_FromEnvironmentUsing, env_Get.
  cbn [proxy_allProxyEnv proxy_noProxyEnv once names val fst snd].
  rewrite !env_init_first. fold all no. clearbody all no. unfold url_proxy.
  destruct all as [|c all']; [by exists forward|]. simpl.
  destruct (Parse _ _) as [u|]; [|by exists forward]. simpl.
  destruct (proxy_FromURL _ _ _ _) as [proxy|]; [|by exists forward].
  destruct no as [|c' no'].
  - exists proxy. split; [done|]. split; [|done].
    intros H. exfalso. simpl in H. apply Exists_cons in H as [[H _]|H%Exists_nil]; done.
  - simpl. unfold PerHost_DialContext. rewrite Hsplit. eexists. split; [done|].
    set (p := AddFromString _ _ _).
    pose proof (AddFromString_bypasses ParseAddr Hok (proxy_NewPerHost proxy forward) (c' :: no') host) as Hb.
    pose proof (AddFromString_dialers ParseAddr (proxy_NewPerHost proxy forward) (c' :: no')) as [Hd1 Hd2].
    pose proof (dialerForRequest_spec ParseAddr p host) as [H1 H2]. fold p in Hb, Hd1, Hd2.
    rewrite Hd2 in H1. rewrite Hd1 in H2.
    assert (¬ bypasses ParseAddr (proxy_NewPerHost proxy forward) host) as Hn.
    { unfold bypasses. simpl. case_match; naive_solver. }
    split; intros H; [apply H1|apply H2]; rewrite Hb; naive_solver.
Qed.
End environment_routed.

(** ** Witnesses *)

(** Three addresses *)
Definition toy_ParseAddr (s : gostring) : option Addr :=
  if s == bs "10.0.0.0" then Some (Addr4 (10 * 2 ^ 24))
  else if s == bs "10.1.2.3" then Some (Addr4 (10 * 2 ^ 24 + 1 * 2 ^ 16 + 2 * 2 ^ 8 + 3))
  else if s == bs "::1" then Some (Addr6 1 [])
  else None.

Definition toy_env (n : gostring) : gostring :=
  if n == bs "ALL_PROXY" then bs "socks5://p:1"
  else if n == bs "no_proxy" then bs "10.0.0.0/8, *.lan,::1" else [].

Definition toy_dialer : env_dialer (Cipher := gostring * gostring) :=
  (proxy_FromEnvironmentUsing toy_env toy_ParseAddr any_cipher
     (proxy_allProxyEnv, proxy_noProxyEnv) Direct).2.

Definition toy_dial (addr : gostring) : outcome :=
  env_DialContext toy_ParseAddr yes raw_addr ws_ok toy_dialer (bs "tcp") addr.

Example around_network : toy_dial (bs "10.1.2.3:80") = ([Open], inr [Tcp (bs "tcp") (bs "10.1.2.3:80")]).
Proof. vm_compute; reflexivity. Qed.
Example around_zone : toy_dial (bs "x.lan:80") = ([Open], inr [Tcp (bs "tcp") (bs "x.lan:80")]).
Proof. vm_compute; reflexivity. Qed.
Example through_proxy : toy_dial (bs "xlan:80") =
  ([Open], inr [Tcp (bs "tcp") (bs "p:1"); SocksConnect None (bs "xlan:80")]).
Proof. vm_compute; reflexivity. Qed.

Lemma toy_ParseAddr_ok s a : toy_ParseAddr s = Some a → addr_ok a.
Proof. unfold toy_ParseAddr. repeat case_match; intros [= <-]; simpl; lia. Qed.

Lemma environment_routed_witness :
  toy_dial (bs "10.1.2.3:80") =
    DialContext (Cipher := gostring * gostring) yes raw_addr ws_ok Direct (bs "tcp") (bs "10.1.2.3:80").
Proof.
  destruct (environment_routed toy_env toy_ParseAddr any_cipher yes raw_addr ws_ok Direct (bs "tcp")
    (bs "10.1.2.3:80") (bs "10.1.2.3") (bs "80") toy_ParseAddr_ok ltac:(vm_compute; reflexivity))
    as (via & E & H).
  destruct (url_proxy _ _ _ _) as [proxy|]; [|by subst via]. destruct H as [H _].
  rewrite H in E; [done|].
  apply Exists_cons_hd. split; [done|].
  rewrite bool_decide_eq_true_2 by (apply (bool_decide_unpack _); vm_compute; exact I).
  exists (Addr4 (10 * 2 ^ 24)), 8, (Addr4 (10 * 2 ^ 24 + 1 * 2 ^ 16 + 2 * 2 ^ 8 + 3)).
  split_and!; [vm_compute; reflexivity|vm_compute; reflexivity|]. split; [vm_compute; reflexivity|]. left. simpl. lia.
Defined.
