(* ===== verification/Program.v ===== *)
(** * The program (cmd/chrome/main.go) and loading (service.go).

    Which configuration the program reads, which file of it LoadFS reads and
    the file system the jobs see meanwhile, and the loop that loads the
    configuration again when it changes.  The names in a directory, the
    contents of files and the times of events are inputs; times are
    nanoseconds. *)

From Stdlib Require Import Sorting.Sorted.
From S2P Require Import Prelude GoStrings Defaults Manager.

Open Scope go_scope.
#[local] Arguments bs : simpl never.

(** ** LoadFS *)

(** A file: its contents, whether it can be read at offsets and has a size,
    and what zip.NewReader makes of it: entries by name. *)
Record file := MkFile {
  f_data : list Z; f_ReaderAt : bool; f_Stat : bool; f_zip : option (list (gostring * list Z)) }.

(** A file system that jobs may open files in. *)
Inductive fsys := Disk | Zip (entries : list (gostring * list Z)).

Definition zip_Open (entries : list (gostring * list Z)) (name : gostring) : option (list Z) :=
  snd <$> head (filter (λ e, e.1 = name) entries).

(** [fs.Glob(zr, "*.yaml")]: entries of the top directory *)
Definition glob_yaml (names : list gostring) : list gostring :=
  filter (λ n, HasSuffix n (bs ".yaml") && negb (ContainsByte n 47) = true) names.

(** The file system and the document that [load] gets. *)
Definition LoadFS (Open : gostring → option file) (name : gostring) : option (fsys * list Z) :=
  f ← Open name;
  if negb (f_ReaderAt f) then Some (Disk, f_data f)
  else if negb (f_Stat f) then Some (Disk, f_data f)
  else
    match f_zip f with
    | None => Some (Disk, f_data f)
    | Some zr =>
        match zip_Open zr (bs "chrome.yaml") with
        | Some zf => Some (Zip zr, zf)
        | None =>
            match glob_yaml zr.*1 with
            | [configFile] => zf ← zip_Open zr configFile; Some (Zip zr, zf)
            | _ => None
            end
        end
    end.

(** ** load, with other loads beside it *)

(** A call of load: before it stores its file system, waiting for the lock,
    in loadConfig, after it, and over. *)
Inductive load_phase := Calling | Waiting | Locked | Unlocked | Returned.

#[export] Instance load_phase_eq_dec : EqDecision load_phase.
Proof. solve_decision. Defined.

Record loads := MkLoads { calls : list (fsys * load_phase); m_fsys : option fsys }.

Inductive load_step (s : loads) : loads → Prop :=
  | load_Store i f : calls s !! i = Some (f, Calling) →
      load_step s (MkLoads (<[i := (f, Waiting)]> (calls s)) (Some f))
  | load_Lock i f : calls s !! i = Some (f, Waiting) →
      Forall (λ c, c.2 ≠ Locked) (calls s) → load_step s (MkLoads (<[i := (f, Locked)]> (calls s)) (m_fsys s))
  | load_Unlock i f : calls s !! i = Some (f, Locked) →
      load_step s (MkLoads (<[i := (f, Unlocked)]> (calls s)) (m_fsys s))
  | load_Clear i f : calls s !! i = Some (f, Unlocked) →
      load_step s (MkLoads (<[i := (f, Returned)]> (calls s)) None).

Definition load_reach (fs : list fsys) : loads → Prop :=
  rtc load_step (MkLoads ((λ f, (f, Calling)) <$> fs) None).

(** [Manager.Open] reads from this file system, unless there is none. *)
Definition manager_Open (s : loads) : option fsys := m_fsys s.

(** ** Main *)

(** The name of the configuration: the argument, the name of the program with
    another extension, or the only YAML file there is; [None]: exit 1.
    [exists_]: os.Stat finds the file; [stat_error]: it fails in another way. *)
Definition Base (arg0 : gostring) : gostring :=
  match LastIndexByte arg0 47 with Some i => drop (S i) arg0 | None => arg0 end.
Definition Ext (base : gostring) : gostring :=
  match LastIndexByte base 46 with Some i => drop i base | None => [] end.

Definition config_name (arg arg0 : gostring) (exists_ stat_error : gostring → bool) (dir : list gostring)
    : option gostring :=
  if arg == [] then
    let base := Base arg0 in
    let configFile := take (length base - length (Ext base)) base ++ bs ".yaml" in
    if exists_ configFile then Some configFile
    else if stat_error configFile then None
    else
      match glob_yaml dir with
      | [configFile] => if exists_ configFile then Some configFile else None
      | _ => None
      end
  else Some arg.

Section main.
(** The bits of the operations of fsnotify, and the file that is watched *)
Context (op_Create op_Write op_Rename : Z) (configFile : gostring).

Definition Mask : Z := Z.lor (Z.lor op_Create op_Rename) op_Write.

Inductive main_input :=
  | WatchEvent (op : Z) (name : gostring)
  | WatchError
  | Timer                       (* <-reload *)
  | Interrupt.

(** [reload]: when the channel gets its value; [loaded]: the times of the calls
    of LoadFile, the last one first.  One that returns an error is among them:
    the error is logged, and the load is not tried again before the next
    change. *)
Record main_loop := MkMain { reload : option Z; loaded : list Z; stopped : bool }.

Definition changes (i : main_input) : bool :=
  match i with
  | WatchEvent op name => (Z.land op Mask != 0) && (name == configFile)
  | _ => false
  end.

(** One turn of the select, at [now]; the timer cannot be chosen before its
    time. *)
Definition main_turn (now : Z) (i : main_input) (s : main_loop) : option main_loop :=
  if stopped s then None else
  match i with
  | WatchEvent op name =>
      if changes i then Some (MkMain (Some (now + 1 * second)) (loaded s) false) else Some s
  | WatchError => Some s
  | Timer =>
      match reload s with
      | Some d => if d <=? now then Some (MkMain None (now :: loaded s) false) else None
      | None => None
      end
  | Interrupt => Some (MkMain (reload s) (loaded s) true)
  end.

(** The program has loaded the configuration at [t0]. *)
Fixpoint main_run (inputs : list (Z * main_input)) (s : main_loop) : option main_loop :=
  match inputs with
  | [] => Some s
  | (now, i) :: inputs => s ← main_turn now i s; main_run inputs s
  end.

Definition main_start (t0 : Z) : main_loop := MkMain None [t0] false.
End main.

(** The services that [newManager] registers. *)
Definition service_names : list gostring :=
  [bs "dnstun"; bs "failover"; bs "http"; bs "httpfs"; bs "pprof"; bs "random"; bs "roundrobin";
   bs "shadowsocks"; bs "socks"; bs "tcptun"; bs "v2ray"; bs "v2socks"].

Definition newManager {A} (service : gostring → A) : gmap gostring A :=
  foldl (λ m n, AddService m n (service n)) ∅ service_names.

(** ** A change is loaded, once it is over *)

Section main_proofs.
Context (op_Create op_Write op_Rename : Z) (configFile : gostring).

Abbreviation changes := (changes op_Create op_Write op_Rename configFile) (only parsing).
Abbreviation main_run := (main_run op_Create op_Write op_Rename configFile) (only parsing).

(** A change at [c] is waited for, or was loaded a second later at least. *)
Definition followed (s : main_loop) (c : Z) : Prop :=
  (∃ t, t ∈ loaded s ∧ c + second <= t) ∨ (∃ d, reload s = Some d ∧ c + second <= d).

(** [cs]: the changes so far, none after [now] *)
Record main_ok (now : Z) (cs : list Z) (s : main_loop) : Prop := {
  mo_past : Forall (λ c, c <= now) cs;
  mo_reload : ∀ d, reload s = Some d → Forall (λ c, c + second <= d) cs;
  mo_followed : Forall (followed s) cs }.

Definition change_times (inputs : list (Z * main_input)) : list Z :=
  fst <$> filter (λ e, changes e.2 = true) inputs.

Lemma main_turn_ok now now' i s s' cs :
  main_ok now cs s → now <= now' → main_turn op_Create op_Write op_Rename configFile now' i s = Some s' →
  main_ok now' (cs ++ change_times [(now', i)]) s' ∧ (i = Timer → Forall (λ c, c + second <= now') cs).
Proof.
  intros [H1 H2 H3] Hn. unfold main_turn. destruct (stopped s); [done|].
  assert (Forall (λ c, c <= now') cs) as H1' by (eapply Forall_impl; [exact H1|simpl; intros; lia]).
  unfold change_times. cbn [filter list_filter].
  destruct i as [op name| | |]; cbn [snd].
  - destruct (Program.changes _ _ _ _ _) eqn:Ec; intros [= <-]; (split; [|done]).
    + rewrite decide_True by done. cbn [fmap list_fmap fst].
      assert (Forall (λ c, c + second <= now' + 1 * second) (cs ++ [now'])) as Hall.
      { apply Forall_app. split; [eapply Forall_impl; [exact H1'|simpl; intros; lia]|constructor; [lia|done]]. }
      split; cbn [reload loaded].
      * apply Forall_app. split; [done|]. by constructor.
      * by intros d [= <-].
      * eapply Forall_impl; [exact Hall|]. intros c Hc. right. by eexists.
    + rewrite decide_False by done. rewrite app_nil_r. by split.
  - intros [= <-]. rewrite decide_False, app_nil_r by done. by repeat split.
  - destruct (reload s) as [d|] eqn:Ed; [|done]. destruct (Z.leb_spec d now') as [Hd|]; [|done].
    intros [= <-]. rewrite decide_False, app_nil_r by done.
    assert (Forall (λ c, c + second <= now') cs) as Hl.
    { eapply Forall_impl; [exact (H2 d eq_refl)|simpl; intros; lia]. }
    split; [|done]. split; cbn [reload loaded]; [done..|].
    eapply Forall_impl; [exact Hl|]. intros c Hc. left. exists now'. split; [by left|done].
  - intros [= <-]. rewrite decide_False, app_nil_r by done. by repeat split.
Qed.

Lemma change_times_app l k : change_times (l ++ k) = change_times l ++ change_times k.
Proof. unfold change_times. by rewrite filter_app, fmap_app. Qed.

Lemma main_run_ok inputs now cs s s' :
  main_ok now cs s → StronglySorted Z.le (now :: inputs.*1) → main_run inputs s = Some s' →
  (∃ now', main_ok now' (cs ++ change_times inputs) s') ∧
  ∀ pre post t, inputs = pre ++ (t, Timer) :: post →
    Forall (λ c, c + second <= t) (cs ++ change_times pre).
Proof.
  revert now cs s. induction inputs as [|[t i] inputs IH]; intros now cs s Hok Hs; simpl.
  - intros [= <-]. split; [exists now; by rewrite app_nil_r|]. by intros [].
  - intros Hr. destruct (main_turn _ _ _ _ _ _ _) as [s1|] eqn:Et; [|done]. simpl in Hr.
    apply StronglySorted_inv in Hs as [Hs Hall]. inversion_clear Hall as [|? ? Hle _].
    destruct (main_turn_ok _ _ _ _ _ _ Hok Hle Et) as [Hok1 Ht].
    destruct (IH t _ s1 Hok1 Hs Hr) as [[now' Hok'] Hpre]. split.
    + exists now'. change ((t, i) :: inputs) with ([(t, i)] ++ inputs).
      by rewrite change_times_app, app_assoc.
    + intros [|e pre] post t0 E; [by injection E as -> -> _; rewrite app_nil_r; apply Ht|].
      injection E as <- E. specialize (Hpre _ _ _ E).
      change ((t, i) :: pre) with ([(t, i)] ++ pre). by rewrite change_times_app, app_assoc.
Qed.

(** A change of the file is not forgotten: the configuration was loaded a
    second after it or later, or it will be, unless the program was
    interrupted; and it is loaded only when it has not changed for a second. *)
(** C36: a change of the configuration file is not forgotten: LoadFile was
    called a second after it or later (a call that fails counts: its error is
    logged, and only another change makes another call), or a call is waited
    for that comes no earlier; and it is called only when the file has not
    changed for a second. *)
Theorem main_follows t0 inputs s :
  StronglySorted Z.le (t0 :: inputs.*1) → main_run inputs (main_start t0) = Some s →
  (∀ c i, (c, i) ∈ inputs → changes i = true → followed s c) ∧
  (∀ pre post t c i, inputs = pre ++ (t, Timer) :: post → (c, i) ∈ pre → changes i = true →
   c + second <= t).
Proof.
  intros Hs Hr.
  assert (main_ok t0 [] (main_start t0)) as H0 by (split; [constructor|done|constructor]).
  destruct (main_run_ok _ _ _ _ _ H0 Hs Hr) as [[now [_ _ Hf]] Hpre]. cbn [app] in *.
  assert (∀ l c i, (c, i) ∈ l → changes i = true → c ∈ change_times l) as Hin.
  { intros l c i Hi Hc. unfold change_times. apply list_elem_of_fmap. exists (c, i). split; [done|].
    by apply list_elem_of_filter. }
  split.
  - intros c i Hi Hc. rewrite Forall_forall in Hf. apply Hf. by eapply Hin.
  - intros pre post t c i E Hi Hc. specialize (Hpre _ _ _ E). rewrite Forall_forall in Hpre.
    apply Hpre. by eapply Hin.
Qed.
End main_proofs.

(** Two writes in a row are loaded once. *)
Definition ex_inputs : list (Z * main_input) :=
  [(5 * second, WatchEvent 2 (bs "c.yaml")); (5 * second + 1, WatchEvent 2 (bs "c.yaml"));
   (7 * second, Timer); (8 * second, WatchEvent 2 (bs "other"))].

Lemma main_follows_witness :
  main_run 1 2 8 (bs "c.yaml") ex_inputs (main_start 0) = Some (MkMain None [7 * second; 0] false) ∧
  followed (MkMain None [7 * second; 0] false) (5 * second).
Proof.
  assert (main_run 1 2 8 (bs "c.yaml") ex_inputs (main_start 0) =
    Some (MkMain None [7 * second; 0] false)) as Hr by (vm_compute; reflexivity).
  split; [exact Hr|].
  refine (proj1 (main_follows 1 2 8 (bs "c.yaml") 0 ex_inputs _ _ Hr) _
    (WatchEvent 2 (bs "c.yaml")) _ _); [|by left|reflexivity].
  unfold ex_inputs, second, millisecond. repeat constructor; simpl; lia.
Defined.

(** ** Loading *)

(** One call of load at a time. *)
Definition active (c : fsys * load_phase) : Prop := c.2 ≠ Calling ∧ c.2 ≠ Returned.

#[export] Instance active_dec c : Decision (active c).
Proof. unfold active. apply _. Defined.

Definition one_active (s : loads) : Prop :=
  ∀ i j c d, calls s !! i = Some c → calls s !! j = Some d → active c → active d → i = j.

Definition serial_step (s s' : loads) : Prop := load_step s s' ∧ one_active s'.

Definition serial_ok (s : loads) : Prop :=
  one_active s ∧ ∀ i c, calls s !! i = Some c → active c → m_fsys s = Some c.1.

Lemma serial_step_ok s s' : serial_ok s → serial_step s s' → serial_ok s'.
Proof.
  intros [Hone0 Hs] [Hst Hone]. split; [done|]. intros j c Hj Hc. unfold one_active in *.
  assert (∀ (l : list (fsys * load_phase)) k x y, l !! k = Some x → <[k := y]> l !! k = Some y) as Hins.
  { intros l k x y Hk. apply list_lookup_insert_eq. by eapply lookup_lt_Some. }
  destruct Hst as [i0 f0 Hi|i0 f0 Hi Hl|i0 f0 Hi|i0 f0 Hi]; cbn [calls m_fsys] in *;
    (destruct (decide (i0 = j)) as [<-|Hne];
     [rewrite (Hins _ _ _ _ Hi) in Hj; injection Hj as <-
     |pose proof Hj as Hj'; rewrite list_lookup_insert_ne in Hj' by done]).
  - done.
  - exfalso. apply Hne. exact (Hone i0 j _ c (Hins _ _ _ _ Hi) Hj ltac:(by split) Hc).
  - apply (Hs i0 (f0, Waiting)); [done|by split].
  - by eapply Hs.
  - apply (Hs i0 (f0, Locked)); [done|by split].
  - by eapply Hs.
  - by destruct Hc.
  - exfalso. apply Hne. exact (Hone0 i0 j _ c Hi Hj' ltac:(by split) Hc).
Qed.

(** While one call of load runs at a time, jobs open files of its
    configuration. *)
Lemma load_serial fs s i f p :
  rtc serial_step (MkLoads ((λ f, (f, Calling)) <$> fs) None) s →
  calls s !! i = Some (f, p) → active (f, p) → manager_Open s = Some f.
Proof.
  intros Hr Hi Ha. assert (serial_ok s) as [_ Hs]; [|exact (Hs i _ Hi Ha)].
  assert (serial_ok (MkLoads ((λ f, (f, Calling)) <$> fs) None)) as H0.
  { assert (∀ j c, ((λ f, (f, Calling)) <$> fs) !! j = Some c → ¬ active c) as Hn.
    { intros j c. rewrite list_lookup_fmap. intros (g & _ & ->)%fmap_Some [H _]. by apply H. }
    split; [intros j k c d Hj Hk Hc; by edestruct (Hn j)|]. intros j c Hj Hc. by edestruct (Hn j). }
  revert H0. induction Hr as [|s1 s2 s3 Hst _ IH]; [done|]. intros H0. apply IH; [done..|].
  by eapply serial_step_ok.
Qed.

(** Two calls at once: the file system is stored before the lock is taken, so
    that the jobs of one configuration open files of another, or none. *)
Example loads_interfere f g :
  (∃ s, load_reach [f; g] s ∧ calls s !! 0%nat = Some (f, Locked) ∧ manager_Open s = Some g) ∧
  (∃ s, load_reach [f; g] s ∧ calls s !! 1%nat = Some (g, Locked) ∧ manager_Open s = None).
Proof.
  split; eexists; (split; [|split; [|shelve]]).
  1: { eapply rtc_l; [apply (load_Store _ 0 f); reflexivity|]. cbn.
    eapply rtc_l; [apply (load_Lock _ 0 f); [reflexivity|repeat constructor; done]|]. cbn.
    eapply rtc_l; [apply (load_Store _ 1 g); reflexivity|]. cbn. apply rtc_refl. }
  1: reflexivity.
  1: { eapply rtc_l; [apply (load_Store _ 0 f); reflexivity|]. cbn.
    eapply rtc_l; [apply (load_Lock _ 0 f); [reflexivity|repeat constructor; done]|]. cbn.
    eapply rtc_l; [apply (load_Store _ 1 g); reflexivity|]. cbn.
    eapply rtc_l; [apply (load_Unlock _ 0 f); reflexivity|]. cbn.
    eapply rtc_l; [apply (load_Lock _ 1 g); [reflexivity|repeat constructor; done]|]. cbn.
    eapply rtc_l; [apply (load_Clear _ 0 f); reflexivity|]. cbn. apply rtc_refl. }
  1: reflexivity.
  Unshelve. all: reflexivity.
Qed.

(** ** Services *)

(** A job is of the service that its name begins with, up to a character that
    is no letter, digit or hyphen. *)
Lemma index_other_app (n rest : gostring) c :
  forallb service_char n = true → service_char c = false → index_other (n ++ c :: rest) = Some (length n).
Proof.
  intros Hn Hc. induction n as [|b n IH]; simpl in *; [by rewrite Hc|].
  apply andb_prop in Hn as [-> Hn]. by rewrite IH.
Qed.

Lemma index_other_none (n : gostring) : forallb service_char n = true → index_other n = None.
Proof.
  intros Hn. induction n as [|b n IH]; simpl in *; [done|]. apply andb_prop in Hn as [-> Hn]. by rewrite IH.
Qed.

Lemma newManager_lookup {A} (service : gostring → A) n :
  n ∈ service_names → newManager service !! n = Some (service n).
Proof.
  intros Hn. unfold newManager, AddService.
  assert (∀ l m, foldl (λ m n, <[n := service n]> m) m l !! n =
    if decide (n ∈ l) then Some (service n) else (m : gmap gostring A) !! n) as H.
  { induction l as [|x l IH]; intros m; simpl; [done|]. rewrite IH.
    destruct (decide (n = x)) as [->|Hne].
    - rewrite lookup_insert_eq. repeat case_decide; set_solver.
    - rewrite lookup_insert_ne by done. repeat case_decide; set_solver. }
  rewrite H. by rewrite decide_True.
Qed.

Lemma job_service {A} (service : gostring → A) n rest :
  n ∈ service_names → (∀ c, head rest = Some c → service_char c = false) →
  Manager.Service (newManager service) (n ++ rest) = Found (service n).
Proof.
  intros Hn Hrest.
  assert (Forall (λ n, forallb service_char n = true ∧ n ≠ [] ∧ isDummyService n = false) service_names) as Hall
    by by_compute.
  rewrite Forall_forall in Hall. destruct (Hall n Hn) as (Hc & Hne & Hd).
  assert (findServiceName (n ++ rest) = n) as Hf.
  { unfold findServiceName. destruct rest as [|c rest].
    - by rewrite app_nil_r, index_other_none.
    - rewrite index_other_app by auto. destruct n as [|b n]; [done|]. exact (take_app_length (b :: n) (c :: rest)). }
  unfold Manager.Service. rewrite Hf, Hd. by rewrite newManager_lookup.
Qed.
