(* ===== verification/Main.v ===== *)
(** * The main function (cmd/chrome/main.go).

    Main from its argument to its exit code, with its deferred calls: which
    configuration it loads first, the loop of Program.v after that, and what
    is left open when it returns.  What the operating system, fsnotify and
    loading answer are inputs. *)

From S2P Require Import Prelude GoStrings Defaults Program.

Open Scope go_scope.
#[local] Arguments bs : simpl never.

(** ** Calls *)

(** What Main calls, in order; the message of an error goes to stderr. *)
Inductive call :=
  | PrintError
  | NewWatcher | AddWatch (dir : gostring) | CloseWatcher
  | NewManager | LogToStderr | ShutdownManager
  | LoadStdin | LoadFile (name : gostring)
  | NotifySignals | StopSignals.

#[export] Instance call_eq_dec : EqDecision call.
Proof. solve_decision. Defined.

(** The arguments, the files, whether calls succeed, and the inputs of the
    loop. *)
Record world := MkWorld {
  w_arg : gostring; w_arg0 : gostring;
  w_exists : gostring → bool; w_stat_error : gostring → bool; w_dir : list gostring;
  w_Abs : gostring → option gostring; w_Dir : gostring → gostring;
  w_watcher : bool; w_add : gostring → bool;
  w_stdin : bool; w_load : gostring → bool;
  w_start : Z; w_inputs : list (Z * main_input) }.

Section main.
Context (op_Create op_Write op_Rename : Z) (w : world).

(** A function that returns a code, or [None] while it runs, and its calls. *)
Definition result : Type := option Z * list call.

Definition failed : result := (Some 1, [PrintError]).

(** [c] and then [r]. *)
Definition call_then (c : list call) (r : result) : result := (r.1, c ++ r.2).

(** [defer c]: called when the function returns. *)
Definition deferring (c : call) (r : result) : result :=
  match r.1 with Some code => (Some code, r.2 ++ [c]) | None => r end.

(** The loop: it loads the file each time its timer is chosen, and returns 0
    when it is interrupted. *)
Fixpoint loop_calls (configFile : gostring) (inputs : list (Z * main_input)) (s : main_loop) : result :=
  match inputs with
  | [] => (None, [])
  | (now, i) :: inputs =>
      match main_turn op_Create op_Write op_Rename configFile now i s with
      | None => loop_calls configFile inputs s             (* not chosen *)
      | Some s =>
          if stopped s then (Some 0, [])
          else call_then (match i with Timer => [LoadFile configFile] | _ => [] end)
                 (loop_calls configFile inputs s)
      end
  end.

Definition after_load (configFile : gostring) : result :=
  call_then [NotifySignals]
    (deferring StopSignals (loop_calls configFile (w_inputs w) (main_start (w_start w)))).

Definition with_manager (configFile : gostring) : result :=
  call_then [NewManager]
    (deferring ShutdownManager
      (call_then [LogToStderr; if configFile == bs "-" then LoadStdin else LoadFile configFile]
        (if if configFile == bs "-" then w_stdin w else w_load w configFile
         then after_load configFile else failed))).

Definition with_watcher (configFile : gostring) : result :=
  call_then [NewWatcher]
    (deferring CloseWatcher
      (if configFile == bs "-" then with_manager configFile
       else call_then [AddWatch (w_Dir w configFile)]
              (if w_add w (w_Dir w configFile) then with_manager configFile else failed))).

Definition Main : result :=
  match config_name (w_arg w) (w_arg0 w) (w_exists w) (w_stat_error w) (w_dir w) with
  | None => failed
  | Some name =>
      match (if name == bs "-" then Some name else w_Abs w name) with
      | None => failed
      | Some configFile => if w_watcher w then with_watcher configFile else call_then [NewWatcher] failed
      end
  end.

(** ** What Main leaves *)

(** A function whose calls are those of [body] between an opening and a
    closing call, when it returns. *)
Lemma deferred_last c r code calls : deferring c r = (Some code, calls) →
  ∃ l, r = (Some code, l) ∧ calls = l ++ [c].
Proof. unfold deferring. destruct r as [[x|] l]; intros [= -> <-]. by eexists. Qed.

Lemma call_then_inv c r code calls : call_then c r = (code, calls) → ∃ l, r = (code, l) ∧ calls = c ++ l.
Proof. destruct r as [x l]. intros [= -> <-]. by eexists. Qed.

Definition loads_only (configFile : gostring) (l : list call) : Prop := Forall (λ c, c = LoadFile configFile) l.

Lemma loop_calls_spec configFile inputs s code l :
  loop_calls configFile inputs s = (code, l) → loads_only configFile l ∧ (code = None ∨ code = Some 0).
Proof.
  revert s l. induction inputs as [|[now i] inputs IH]; intros s l; simpl.
  - intros [= <- <-]. split; [constructor|by left].
  - destruct (main_turn _ _ _ _ _ _ _) as [s1|]; [|apply IH].
    destruct (stopped s1); [intros [= <- <-]; split; [constructor|by right]|].
    intros (l' & Hr & ->)%call_then_inv. destruct (IH _ _ Hr) as [Hl Hc]. split; [|done].
    apply Forall_app. split; [|done]. destruct i; repeat constructor.
Qed.

(** The calls of a Main that has returned, after its manager was made. *)
Inductive manager_calls (configFile : gostring) : Z → list call → Prop :=
  | load_failed : manager_calls configFile 1
      [NewManager; LogToStderr; if configFile == bs "-" then LoadStdin else LoadFile configFile; PrintError;
       ShutdownManager]
  | interrupted l : loads_only configFile l →
      manager_calls configFile 0
        ([NewManager; LogToStderr; (if configFile == bs "-" then LoadStdin else LoadFile configFile); NotifySignals] ++
         l ++ [StopSignals; ShutdownManager]).

Lemma with_manager_spec configFile code calls :
  with_manager configFile = (Some code, calls) → manager_calls configFile code calls.
Proof.
  unfold with_manager. intros (l & (l1 & (l2 & H & ->)%call_then_inv & ->)%deferred_last & ->)%call_then_inv.
  destruct (if configFile == bs "-" then w_stdin w else w_load w configFile).
  - unfold after_load in H. apply call_then_inv in H as (l3 & (l4 & H & ->)%deferred_last & ->).
    destruct (loop_calls_spec _ _ _ _ _ H) as [Hl [?|[= ->]]]; [done|].
    pose proof (interrupted configFile l4 Hl) as Hm. simpl in *. by rewrite <- app_assoc.
  - injection H as <- <-. apply load_failed.
Qed.
End main.

(** Whatever happens, when Main returns the watcher was closed if there was
    one, after the Manager was shut down if there was one and nothing was
    loaded after that; the code is 0 only after the configuration was loaded
    and the program was interrupted, and 1 with a message otherwise. *)
Theorem main_returns op_Create op_Write op_Rename w code calls :
  Main op_Create op_Write op_Rename w = (Some code, calls) →
  (code = 1 ∧ (calls = [PrintError] ∨ calls = [NewWatcher; PrintError] ∨
     ∃ dir, calls = [NewWatcher; AddWatch dir; PrintError; CloseWatcher])) ∨
  ∃ configFile l, manager_calls configFile code l ∧
    (calls = [NewWatcher] ++ l ++ [CloseWatcher] ∧ configFile = bs "-" ∨
     calls = [NewWatcher; AddWatch (w_Dir w configFile)] ++ l ++ [CloseWatcher] ∧ configFile ≠ bs "-").
Proof.
  unfold Main. destruct (config_name _ _ _ _ _) as [name|]; [|intros [= <- <-]; left; auto].
  destruct (if name == bs "-" then _ else _) as [configFile|]; [|intros [= <- <-]; left; auto].
  destruct (w_watcher w); [|intros [= <- <-]; left; auto].
  unfold with_watcher. intros (l & (l1 & H & ->)%deferred_last & ->)%call_then_inv.
  destruct (configFile == bs "-") eqn:E.
  - right. exists configFile, l1. split; [by eapply with_manager_spec|]. left. split; [done|]. by apply bool_decide_eq_true in E.
  - apply call_then_inv in H as (l2 & H & ->). destruct (w_add w (w_Dir w configFile)).
    + right. exists configFile, l2. split; [by eapply with_manager_spec|]. right. split; [done|]. by apply bool_decide_eq_false in E.
    + left. injection H as <- <-. split; [done|]. right. right. by eexists.
Qed.

(** A program without an argument loads its YAML file, and again when it was
    written to. *)
Definition ex_world : world :=
  MkWorld [] (bs "/bin/chrome") (λ n, n == bs "chrome.yaml") (λ _, false) []
    (λ n, Some (bs "/" ++ n)) (λ _, bs "/") true (λ _, true) true (λ _, true) 0
    [(5 * second, WatchEvent 2 (bs "/chrome.yaml")); (6 * second, Timer); (7 * second, Interrupt)].

Lemma main_returns_witness :
  Main 1 2 8 ex_world = (Some 0,
    [NewWatcher; AddWatch (bs "/"); NewManager; LogToStderr; LoadFile (bs "/chrome.yaml"); NotifySignals;
     LoadFile (bs "/chrome.yaml"); StopSignals; ShutdownManager; CloseWatcher]) ∧
  ∃ (configFile : gostring) (l : list call), manager_calls configFile 0 l.
Proof.
  assert (Main 1 2 8 ex_world = (Some 0,
    [NewWatcher; AddWatch (bs "/"); NewManager; LogToStderr; LoadFile (bs "/chrome.yaml"); NotifySignals;
     LoadFile (bs "/chrome.yaml"); StopSignals; ShutdownManager; CloseWatcher])) as H by (vm_compute; reflexivity).
  split; [exact H|].
  destruct (main_returns 1 2 8 ex_world _ _ H) as [[E _]|(configFile & l & Hl & _)]; [discriminate E|].
  exists configFile, l. exact Hl.
Defined.
