(* ===== verification/Conns.v ===== *)
(** * Connections that wrap others.

    dialFallback (proxy/dial.go) and its twin in proxy/x_net_proxy.go, for
    dialers that know no context; the connection of a websocket
    (proxy/websocket.go); and what prefix and the counting connection of
    conn.go do to a stream.  When a dial ends, how it ends, and when the
    context is canceled are choices of the steps. *)

From S2P Require Import Prelude.

(** ** dialFallback *)

Inductive fate := NoConn | Open | ClosedConn.
Inductive dialer := Dialing | Sending | AtDone | Over.
Inductive main := Selecting | Returning (got : bool) | Returned (got : bool).

Record fallback := MkFallback {
  fb_conn : fate;
  fb_dialer : dialer;
  fb_result : bool;      (* the buffer of one holds the result *)
  fb_done : bool;
  fb_main : main }.

#[export] Instance fate_eq_dec : EqDecision fate.
Proof. solve_decision. Defined.
#[export] Instance dialer_eq_dec : EqDecision dialer.
Proof. solve_decision. Defined.
#[export] Instance main_eq_dec : EqDecision main.
Proof. solve_decision. Defined.
#[export] Instance fallback_eq_dec : EqDecision fallback.
Proof. solve_decision. Defined.

Definition fallback_init : fallback := MkFallback NoConn Dialing false false Selecting.

Inductive fallback_step (s : fallback) : fallback → Prop :=
  | fb_dial_ok : fb_dialer s = Dialing →
      fallback_step s (MkFallback Open Sending (fb_result s) (fb_done s) (fb_main s))
  | fb_dial_fails : fb_dialer s = Dialing →
      fallback_step s (MkFallback NoConn Sending (fb_result s) (fb_done s) (fb_main s))
  | fb_send : fb_dialer s = Sending →
      fallback_step s (MkFallback (fb_conn s) AtDone true (fb_done s) (fb_main s))
  | fb_wait : fb_dialer s = AtDone → fb_done s = true →
      fallback_step s (MkFallback (match fb_result s, fb_conn s with true, Open => ClosedConn | _, c => c end)
        Over (fb_result s) true (fb_main s))
  | fb_ctx : fb_main s = Selecting →
      fallback_step s (MkFallback (fb_conn s) (fb_dialer s) (fb_result s) (fb_done s) (Returning false))
  | fb_received : fb_main s = Selecting → fb_result s = true →
      fallback_step s (MkFallback (fb_conn s) (fb_dialer s) false (fb_done s) (Returning true))
  | fb_return got : fb_main s = Returning got →
      fallback_step s (MkFallback (fb_conn s) (fb_dialer s) (fb_result s) true (Returned got)).

Definition fallback_moves (s : fallback) : list fallback :=
  match fb_dialer s with
  | Dialing => [MkFallback Open Sending (fb_result s) (fb_done s) (fb_main s);
                MkFallback NoConn Sending (fb_result s) (fb_done s) (fb_main s)]
  | Sending => [MkFallback (fb_conn s) AtDone true (fb_done s) (fb_main s)]
  | AtDone =>
      if fb_done s
      then [MkFallback (match fb_result s, fb_conn s with true, Open => ClosedConn | _, c => c end)
              Over (fb_result s) true (fb_main s)]
      else []
  | Over => []
  end ++
  match fb_main s with
  | Selecting =>
      MkFallback (fb_conn s) (fb_dialer s) (fb_result s) (fb_done s) (Returning false) ::
      (if fb_result s then [MkFallback (fb_conn s) (fb_dialer s) false (fb_done s) (Returning true)] else [])
  | Returning got => [MkFallback (fb_conn s) (fb_dialer s) (fb_result s) true (Returned got)]
  | Returned _ => []
  end.

Lemma fallback_step_moves s s' : fallback_step s s' → s' ∈ fallback_moves s.
Proof.
  unfold fallback_moves. intros Hs. apply elem_of_app.
  destruct Hs as [Hd|Hd|Hd|Hd Hx|Hm|Hm Hr|got Hm];
    [left; rewrite Hd|left; rewrite Hd|left; rewrite Hd|left; rewrite Hd, Hx
    |right; rewrite Hm|right; rewrite Hm, Hr|right; rewrite Hm]; set_solver.
Qed.

Definition fallback_states : list fallback :=
  Eval vm_compute in explore fallback_moves 10 [fallback_init] [fallback_init].

Definition fallback_safe (s : fallback) : bool :=
  match fb_main s with
  | Returned true => bool_decide (fb_conn s ≠ ClosedConn)
  | Returned false => implb (bool_decide (fb_dialer s = Over)) (bool_decide (fb_conn s ≠ Open))
  | _ => bool_decide (fb_conn s ≠ ClosedConn)
  end.

(** The connection of a dial is closed when it is not returned, and only
    then. *)
Theorem fallback_no_leak s :
  rtc fallback_step fallback_init s →
  (fb_main s = Returned true → fb_conn s ≠ ClosedConn) ∧
  (fb_main s = Returned false → fb_dialer s = Over → fb_conn s ≠ Open).
Proof.
  intros Hr.
  assert (fallback_safe s = true) as Hs.
  { apply (check_reachable fallback_step fallback_moves fallback_init fallback_states);
      [apply fallback_step_moves|vm_compute; reflexivity..|done]. }
  unfold fallback_safe in Hs. split; [intros E|intros E Ho]; rewrite E in Hs.
  - by apply bool_decide_eq_true in Hs.
  - rewrite bool_decide_true in Hs by done. by apply bool_decide_eq_true in Hs.
Qed.

(** ** proxy_dialContext

    The result is in variables that both goroutines have: what is returned is
    what is in them at the return. *)
Record shared := MkShared {
  sh_conn : fate;
  sh_dialer : dialer;          (* Sending: before close(done); AtDone: at the test of the context *)
  sh_done : bool;
  sh_canceled : bool;
  sh_main : main }.            (* [got]: a connection was returned *)

#[export] Instance shared_eq_dec : EqDecision shared.
Proof. solve_decision. Defined.

Definition shared_init : shared := MkShared NoConn Dialing false false Selecting.

Definition shared_moves (s : shared) : list shared :=
  match sh_dialer s with
  | Dialing => [MkShared Open Sending (sh_done s) (sh_canceled s) (sh_main s);
                MkShared NoConn Sending (sh_done s) (sh_canceled s) (sh_main s)]
  | Sending => [MkShared (sh_conn s) AtDone true (sh_canceled s) (sh_main s)]
  | AtDone =>
      [MkShared (match sh_conn s with Open => if sh_canceled s then ClosedConn else Open | c => c end)
         Over (sh_done s) (sh_canceled s) (sh_main s)]
  | Over => []
  end ++
  match sh_main s with
  | Selecting =>
      if sh_canceled s || sh_done s
      then [MkShared (sh_conn s) (sh_dialer s) (sh_done s) (sh_canceled s) (Returning false)] else []
  | Returning _ =>
      [MkShared (sh_conn s) (sh_dialer s) (sh_done s) (sh_canceled s)
         (Returned (bool_decide (sh_conn s ≠ NoConn)))]
  | Returned _ => []
  end ++
  (if sh_canceled s then [] else [MkShared (sh_conn s) (sh_dialer s) (sh_done s) true (sh_main s)]).

Definition shared_step (s s' : shared) : Prop := s' ∈ shared_moves s.

Definition shared_states : list shared :=
  Eval vm_compute in explore shared_moves 12 [shared_init] [shared_init].

Lemma shared_check (P : shared → bool) s :
  forallb P shared_states = true → rtc shared_step shared_init s → P s = true.
Proof.
  apply (check_reachable shared_step shared_moves shared_init shared_states); [done|vm_compute; reflexivity].
Qed.

Definition shared_safe (s : shared) : bool :=
  implb (bool_decide (sh_main s = Returned false) && bool_decide (sh_dialer s = Over))
    (bool_decide (sh_conn s ≠ Open)) &&
  implb (negb (sh_canceled s)) (bool_decide (sh_conn s ≠ ClosedConn)).

(** A connection is closed when it is not returned; one that is returned stays
    open unless the context was canceled. *)
Lemma shared_no_leak s :
  rtc shared_step shared_init s →
  (sh_main s = Returned false → sh_dialer s = Over → sh_conn s ≠ Open) ∧
  (sh_canceled s = false → sh_conn s ≠ ClosedConn).
Proof.
  intros Hr.
  pose proof (shared_check shared_safe s ltac:(vm_compute; reflexivity) Hr) as [H1 H2]%andb_prop.
  split.
  - intros Hm Hd. rewrite Hm, Hd in H1. by apply bool_decide_eq_true in H1.
  - intros Hc. rewrite Hc in H2. by apply bool_decide_eq_true in H2.
Qed.

(** ** The connection of a websocket *)

(** [messages] to come, then [last]: io.EOF, or another error; [reader]: what
    is left of a message. *)
Inductive lib_error := EOF | Other.
Inductive ws_error := IsEOF | Wrapped (err : option lib_error).   (* fmt.Errorf("%w", err) is not nil *)

Record wsConnection := MkWs { messages : list (list Z); last_err : lib_error; reader : option (list Z) }.

Definition NextReader_error (e : lib_error) : ws_error :=
  match e with EOF => IsEOF | Other => Wrapped (Some Other) end.

(** The loop of Read, for a buffer of length [n]: a message that is over makes
    place for the next. *)
Fixpoint ws_next (n : nat) (ms : list (list Z)) (last_err : lib_error) : list Z * ws_error * wsConnection :=
  match ms with
  | [] => ([], NextReader_error last_err, MkWs [] last_err None)
  | [] :: ms => ws_next n ms last_err
  | m :: ms => (take n m, Wrapped None, MkWs ms last_err (Some (drop n m)))
  end.

Definition ws_Read (n : nat) (c : wsConnection) : list Z * ws_error * wsConnection :=
  match reader c with
  | None | Some [] => ws_next n (messages c) (last_err c)
  | Some m => (take n m, Wrapped None, MkWs (messages c) (last_err c) (Some (drop n m)))
  end.

Definition ws_left (c : wsConnection) : list Z := default [] (reader c) ++ concat (messages c).

(** What is read is what was sent, in order, and a read of something gives
    something; but every read has an error, also one that read well. *)
Lemma ws_Read_spec n c b e c' :
  (0 < n)%nat → ws_Read n c = (b, e, c') →
  b ++ ws_left c' = ws_left c ∧ (b = [] ↔ ws_left c = []) ∧ (b ≠ [] ↔ e = Wrapped None).
Proof.
  intros Hn. destruct c as [ms le r]. unfold ws_Read, ws_left. cbn [reader messages last_err].
  assert (∀ (x : Z) m, take n (x :: m) ≠ []) as Ht by (intros x m; by destruct n; [lia|]).
  assert (∀ ms, ws_next n ms le = (b, e, c') →
    b ++ default [] (reader c') ++ concat (messages c') = concat ms ∧ (b = [] ↔ concat ms = []) ∧
    (b ≠ [] ↔ e = Wrapped None)) as Hnext.
  { clear ms r. induction ms as [|[|x m] ms IH]; simpl.
    - intros [= <- <- <-]. simpl. by destruct le; naive_solver.
    - apply IH.
    - intros [= <- <- <-]. cbn [reader messages from_option id]. rewrite app_assoc, take_drop. split_and!; [done| |].
      + split; [intros H; by apply Ht in H|done].
      + split; [done|intros _; apply Ht]. }
  destruct r as [[|x m]|]; cbn [from_option id]; [apply Hnext| |apply Hnext].
  intros [= <- <- <-]. cbn [reader messages from_option id]. rewrite app_assoc, take_drop. split_and!; [done| |].
  - split; [intros H; by apply Ht in H|done].
  - split; [done|intros _; apply Ht].
Qed.

(** ** prefix, and the counters of a connection (conn.go) *)

(** A stream: the chunks that reads give. *)
Definition read_chunk (n : nat) (l : list (list Z)) : list Z * list (list Z) :=
  match l with
  | [] => ([], [])
  | b :: l => if (length b <=? n)%nat then (b, l) else (take n b, drop n b :: l)
  end.

(** [io.MultiReader(r, c)]: the first stream until it ends, then the second. *)
Record mixed := MkMixed { first : list (list Z); second_ : list (list Z) }.

Definition prefix (c r : list (list Z)) : mixed := MkMixed r c.

Definition mixed_Read (n : nat) (m : mixed) : list Z * mixed :=
  match first m with
  | [] => let '(b, c) := read_chunk n (second_ m) in (b, MkMixed [] c)
  | r => let '(b, r) := read_chunk n r in (b, MkMixed r (second_ m))
  end.

(** [conn]: a stream and how many bytes went each way. *)
Record conn := MkConn { c_in : mixed; sent : Z; recv : Z }.

Definition conn_Read (n : nat) (c : conn) : list Z * conn :=
  let '(b, m) := mixed_Read n (c_in c) in
  (b, if (0 <? length b)%nat then MkConn m (sent c) (recv c + Z.of_nat (length b)) else MkConn m (sent c) (recv c)).

(** [n]: how many bytes the network takes. *)
Definition conn_Write (n : nat) (c : conn) : conn :=
  if (0 <? n)%nat then MkConn (c_in c) (sent c + Z.of_nat n) (recv c) else c.

Definition stream (m : mixed) : list Z := concat (first m) ++ concat (second_ m).

Lemma read_chunk_ok n l b l' : read_chunk n l = (b, l') → b ++ concat l' = concat l.
Proof.
  destruct l as [|x l]; simpl; [by intros [= <- <-]|].
  destruct (length x <=? n)%nat; intros [= <- <-]; [done|]. simpl. by rewrite app_assoc, take_drop.
Qed.

(** Reads of any lengths give the prefix and then the stream, and are
    counted. *)
Lemma conn_reads ns c bs c' :
  foldl (λ '(b, c) n, let '(b', c) := conn_Read n c in (b ++ b', c)) ([], c) ns = (bs, c') →
  bs ++ stream (c_in c') = stream (c_in c) ∧ recv c' = recv c + Z.of_nat (length bs).
Proof.
  assert (∀ n c b c', conn_Read n c = (b, c') →
    b ++ stream (c_in c') = stream (c_in c) ∧ recv c' = recv c + Z.of_nat (length b)) as H1.
  { intros n [[r s] x y] b c1. unfold conn_Read, mixed_Read, stream. cbn [c_in first second_].
    destruct r as [|r0 r]; destruct (read_chunk _ _) as [b1 l1] eqn:E; apply read_chunk_ok in E; simpl;
      intros [= <- <-]; destruct (Nat.ltb_spec 0 (length b1)); cbn [c_in first second_ recv];
      (split; [simpl in *; rewrite ?app_assoc; congruence|lia]). }
  assert (∀ ns acc c bs c', foldl (λ '(b, c) n, let '(b', c) := conn_Read n c in (b ++ b', c)) (acc, c) ns = (bs, c') →
    bs ++ stream (c_in c') = acc ++ stream (c_in c) ∧
    recv c' + Z.of_nat (length acc) = recv c + Z.of_nat (length bs)) as H2.
  { clear ns c bs c'. induction ns as [|n ns IH]; intros acc c bs c'; simpl; [intros [= <- <-]; split; [done|lia]|].
    destruct (conn_Read n c) as [b c1] eqn:E. destruct (H1 _ _ _ _ E) as [Hb Hn]. intros [Hs Hl]%IH.
    rewrite Hs, <- Hb, app_assoc. split; [done|]. rewrite length_app in Hl. lia. }
  intros [Hs Hl]%H2. split; [done|]. simpl in Hl. lia.
Qed.

(** ** The other methods of a websocket's connection

    [ws]: what the library has: the messages that were written, deadlines, and
    whether it is closed; the booleans are whether its calls succeed. *)
Record ws := MkWsConn { out : list (list Z); rd : Z; wd : Z; is_closed : bool }.

Definition ws_Write (ok : bool) (b : list Z) (w : ws) : ws * nat * bool :=
  if ok then (MkWsConn (out w ++ [b]) (rd w) (wd w) (is_closed w), length b, true) else (w, O, false).

Definition ws_Close (w : ws) : ws := MkWsConn (out w) (rd w) (wd w) true.

Definition ws_SetReadDeadline (ok : bool) (t : Z) (w : ws) : ws * bool :=
  if ok then (MkWsConn (out w) t (wd w) (is_closed w), true) else (w, false).

Definition ws_SetWriteDeadline (ok : bool) (t : Z) (w : ws) : ws * bool :=
  if ok then (MkWsConn (out w) (rd w) t (is_closed w), true) else (w, false).

(** [cmp.Or]: both calls are made, whatever the first returns. *)
Definition ws_SetDeadline (ok1 ok2 : bool) (t : Z) (w : ws) : ws * bool :=
  let '(w, r) := ws_SetReadDeadline ok1 t w in
  let '(w, s) := ws_SetWriteDeadline ok2 t w in
  (w, r && s).

(** Writes that succeed are one message each, in order. *)
Lemma ws_writes_in_order (l : list (bool * list Z)) w :
  out (foldl (λ w '(ok, b), (ws_Write ok b w).1.1) w l) = out w ++ (snd <$> filter (λ x, x.1 = true) l).
Proof.
  revert w. induction l as [|[[] b] l IH]; intros w; cbn [foldl].
  - simpl. by rewrite app_nil_r.
  - rewrite IH. cbn [ws_Write fst out]. rewrite filter_cons_True by done. by rewrite fmap_cons, <- app_assoc.
  - rewrite IH. rewrite filter_cons_False by done. done.
Qed.

Lemma ws_deadlines ok1 ok2 t w w' r :
  ws_SetDeadline ok1 ok2 t w = (w', r) →
  rd w' = (if ok1 then t else rd w) ∧ wd w' = (if ok2 then t else wd w) ∧ r = ok1 && ok2.
Proof. destruct ok1, ok2; simpl; by intros [= <- <-]. Qed.

(** ** Rate limits (ratelimit.go)

    [WaitN burst n]: whether waiting for [n] tokens succeeds: a wait without a
    deadline fails only for more than the burst. *)
Section limits.
Context (WaitN : Z → Z → bool).

(** The bursts of the two limiters, if there are. *)
Record rateLimiter := MkLimiter { l_r : option Z; l_w : option Z }.

Definition rateLimitBurst : Z := 32 * 1024.

Definition new_limiter (ReadRate WriteRate : Z) : rateLimiter :=
  MkLimiter (if 0 <? ReadRate then Some rateLimitBurst else None)
    (if 0 <? WriteRate then Some rateLimitBurst else None).

(** After [n] bytes of a buffer of length [len] went, without an error. *)
Definition take_tokens (l : option Z) (len n : Z) (err : bool) : bool * option Z :=
  match l with
  | Some burst =>
      if err then (err, l)
      else let burst := if burst <? len then len else burst in (negb (WaitN burst n), Some burst)
  | None => (err, None)
  end.

(** [n], [err]: what the connection returns. *)
Definition rate_Read (len n : Z) (err : bool) (l : rateLimiter) : Z * bool * rateLimiter :=
  let '(err, r) := take_tokens (l_r l) len n err in (n, err, MkLimiter r (l_w l)).

Definition rate_Write (len n : Z) (err : bool) (l : rateLimiter) : Z * bool * rateLimiter :=
  let '(err, w) := take_tokens (l_w l) len n err in (n, err, MkLimiter (l_r l) w).

Inductive io_call := CallRead (len n : Z) (err : bool) | CallWrite (len n : Z) (err : bool).

Definition rate_call (c : io_call) (l : rateLimiter) : Z * bool * rateLimiter :=
  match c with CallRead len n err => rate_Read len n err l | CallWrite len n err => rate_Write len n err l end.

(** What the connection itself returns: no more than the buffer. *)
Definition plain_call (c : io_call) : Z * bool := match c with CallRead _ n err | CallWrite _ n err => (n, err) end.
Definition call_ok (c : io_call) : Prop := match c with CallRead len n _ | CallWrite len n _ => 0 <= n <= len end.

Fixpoint rate_calls (cs : list io_call) (l : rateLimiter) : list (Z * bool) * rateLimiter :=
  match cs with
  | [] => ([], l)
  | c :: cs =>
      let '(n, err, l) := rate_call c l in
      let '(rs, l) := rate_calls cs l in
      ((n, err) :: rs, l)
  end.

(** A limit slows a connection down and changes nothing else: whatever the
    buffers, every call returns what the connection returns, since the burst
    grows with them; a limiter is there for as long as it was asked for. *)
Theorem limits_transparent ReadRate WriteRate cs :
  (∀ burst n, n <= burst → WaitN burst n = true) → Forall call_ok cs →
  (rate_calls cs (new_limiter ReadRate WriteRate)).1 = plain_call <$> cs ∧
  (is_Some (l_r (rate_calls cs (new_limiter ReadRate WriteRate)).2) ↔ 0 < ReadRate) ∧
  (is_Some (l_w (rate_calls cs (new_limiter ReadRate WriteRate)).2) ↔ 0 < WriteRate).
Proof.
  intros HW Hcs.
  assert (∀ l len n err, 0 <= n <= len →
    (take_tokens l len n err).1 = err ∧ (is_Some (take_tokens l len n err).2 ↔ is_Some l)) as Ht.
  { intros [b|] len n err Hn; simpl; [|done]. destruct err; simpl; [done|]. rewrite HW by (destruct (Z.ltb_spec b len); lia).
    split; [done|]. split; by eexists. }
  assert (∀ l, (rate_calls cs l).1 = plain_call <$> cs ∧
    (is_Some (l_r (rate_calls cs l).2) ↔ is_Some (l_r l)) ∧ (is_Some (l_w (rate_calls cs l).2) ↔ is_Some (l_w l))) as H.
  { induction Hcs as [|c cs Hc _ IH]; intros l; [done|]. cbn [rate_calls].
    destruct c as [len n err|len n err]; cbn [rate_call call_ok] in *; unfold rate_Read, rate_Write.
    - destruct (Ht (l_r l) len n err Hc) as [H1 H2]. destruct (take_tokens _ _ _ _) as [err' r]. simpl in H1, H2. subst err'.
      destruct (IH (MkLimiter r (l_w l))) as (E & Hr & Hw). destruct (rate_calls cs _) as [rs l']. simpl in *.
      rewrite E. split_and!; [done|by rewrite Hr|done].
    - destruct (Ht (l_w l) len n err Hc) as [H1 H2]. destruct (take_tokens _ _ _ _) as [err' w]. simpl in H1, H2. subst err'.
      destruct (IH (MkLimiter (l_r l) w)) as (E & Hr & Hw). destruct (rate_calls cs _) as [rs l']. simpl in *.
      rewrite E. split_and!; [done|done|by rewrite Hw]. }
  destruct (H (new_limiter ReadRate WriteRate)) as (H1 & H2 & H3). split; [done|]. rewrite H2, H3. unfold new_limiter. simpl.
  split; (case_match; [split; [lia|by eexists]|split; [by intros []|lia]]).
Qed.
End limits.

Lemma limits_transparent_witness :
  (rate_calls (λ burst n, n <=? burst) [CallRead 65536 40000 false; CallWrite 10 10 true] (new_limiter 1000 0)).1 =
    [(40000, false); (10, true)].
Proof.
  apply (limits_transparent (λ burst n, n <=? burst) 1000 0 [CallRead 65536 40000 false; CallWrite 10 10 true]).
  - intros burst n Hn. by apply Z.leb_le.
  - repeat constructor; simpl; lia.
Defined.
