(* ===== verification/RelayClock.v ===== *)
(** * The clock of a relay (relay.go).

    Relay.v with time: when the timer fires.  A goroutine that can go on does
    so before time passes; time passes while the copies are in CopyBuffer and
    the loop waits for its timer or a reset.  What the loop has heard of, and
    what it will hear of at this instant, are logs beside the state. *)

From S2P Require Import Prelude Defaults Relay.

(** ** State *)

(** A read that gave bytes, or the end of a copy, with its time. *)
Inductive sign := Bytes | Ended (i : bool).

Definition entry : Type := Z * sign.

(** Times are nanoseconds since the start of the relay.  [due]: of the timer;
    [since]: when it was set; [heard] and [fresh]: the entries before the last
    reset and after it; [fired]: when the timer fired. *)
Record clocked := MkClocked {
  rly : relay;
  now : Z;
  due : Z;
  since : Z;
  heard : list entry;
  fresh : list entry;
  fired : option Z }.

Definition log (s : clocked) : list entry := heard s ++ fresh s.

Section clock.
Context (opts : RelayOptions).

(** [t := time.NewTimer(td)] *)
Definition clock_init : clocked := MkClocked (Relay.init opts) 0 (ConnIdle opts) 0 [] [] None.

Definition set_rly (r : relay) (s : clocked) : clocked :=
  MkClocked r (now s) (due s) (since s) (heard s) (fresh s) (fired s).

Definition note (x : sign) (s : clocked) : clocked :=
  MkClocked (rly s) (now s) (due s) (since s) (heard s) (fresh s ++ [(now s, x)]) (fired s).

Definition fire_now (s : clocked) : clocked :=
  MkClocked (fire (rly s)) (now s) (due s) (since s) (heard s) (fresh s) (Some (now s)).

(** [t.Reset(td)] *)
Definition receive_now (d : Z) (s : clocked) : clocked :=
  let r := receive d (rly s) in
  MkClocked r (now s) (now s + td r) (now s) (log s) [] (fired s).

Definition pass (d : Z) (s : clocked) : clocked :=
  MkClocked (rly s) (now s + d) (due s) (since s) (heard s) (fresh s) (fired s).

(** Nothing is left to do at this instant: the copies are in CopyBuffer or
    gone, the loop waits. *)
Definition waits (s : clocked) : Prop :=
  (∀ i, phase_of i (rly s) = Copying ∨ phase_of i (rly s) = Gone) ∧
  (returned (rly s) = false → reset (rly s) = None ∧ closed (rly s) = false).

Inductive clock_step : clocked → clocked → Prop :=
  | k_read i s : phase_of i (rly s) = Copying → clock_step s (note Bytes (set_rly (do (rly s)) s))
  | k_end i s : phase_of i (rly s) = Copying → clock_step s (set_rly (set_phase i Sending (rly s)) s)
  | k_fail i s : phase_of i (rly s) = Copying →
      clock_step s (set_rly (set_phase i Leaving (set_deadlines (i || past_l (rly s)) (negb i || past_r (rly s)) (rly s))) s)
  | k_send i s : phase_of i (rly s) = Sending → reset (rly s) = None →
      clock_step s (note (Ended i) (set_rly (set_phase i Leaving (send (idle opts i) (rly s))) s))
  | k_done i s : phase_of i (rly s) = Leaving → clock_step s (set_rly (set_phase i Gone (done_ (rly s))) s)
  | k_fire s : returned (rly s) = false → armed (rly s) = true → due s <= now s → clock_step s (fire_now s)
  | k_receive s d : returned (rly s) = false → reset (rly s) = Some d → clock_step s (receive_now d s)
  | k_finish s : returned (rly s) = false → reset (rly s) = None → closed (rly s) = true →
      clock_step s (set_rly (finish (rly s)) s)
  | k_pass s d : 0 < d → waits s → (returned (rly s) = false → armed (rly s) = true → now s + d <= due s) →
      clock_step s (pass d s).

Definition clock_reach : clocked → Prop := rtc clock_step clock_init.

(** It is the relay of Relay.v. *)
Lemma clock_relay s s' : clock_step s s' → Relay.step opts (rly s) (rly s') ∨ rly s' = rly s.
Proof.
  intros Hs. destruct Hs; [left..|by right]; cbn [rly note set_rly fire_now receive_now].
  - by eapply step_read.
  - by eapply step_end.
  - by eapply step_fail.
  - by eapply step_send.
  - by eapply step_done.
  - by eapply step_fire.
  - by eapply step_receive.
  - by eapply step_finish.
Qed.

(** ** The idle time *)

(** In force after these entries: that of the copy that has ended last. *)
Definition idle_time (l : list entry) : Z :=
  foldl (λ t e, match e.2 with Ended i => idle opts i | Bytes => t end) (ConnIdle opts) l.

(** The time of the last entry, or of the start. *)
Definition quiet (l : list entry) : Z := foldl (λ _ e, e.1) 0 l.

Lemma idle_time_app l l' :
  idle_time (l ++ l') = foldl (λ t e, match e.2 with Ended i => idle opts i | Bytes => t end) (idle_time l) l'.
Proof. apply foldl_app. Qed.

Lemma idle_time_bytes l t : idle_time (l ++ [(t, Bytes)]) = idle_time l.
Proof. by rewrite idle_time_app. Qed.

Lemma idle_time_ended l t i : idle_time (l ++ [(t, Ended i)]) = idle opts i.
Proof. by rewrite idle_time_app. Qed.

Lemma quiet_snoc l e : quiet (l ++ [e]) = e.1.
Proof. unfold quiet. by rewrite foldl_app. Qed.

Context (Hconn : 0 <= ConnIdle opts) (Hup : 0 <= UplinkIdle opts) (Hdown : 0 <= DownlinkIdle opts).

Lemma idle_nonneg i : 0 <= idle opts i.
Proof using Hup Hdown. by destruct i. Qed.

Lemma idle_time_nonneg l : 0 <= idle_time l.
Proof using Hconn Hup Hdown.
  induction l as [|[t []] l IH] using rev_ind; [done|by rewrite idle_time_bytes|].
  rewrite idle_time_ended. apply idle_nonneg.
Qed.
(** ** The invariant *)

Record clock_ok (s : clocked) : Prop := {
  co_relay : relay_ok opts (rly s);
  co_fresh : Forall (λ e, e.1 = now s) (fresh s);
  co_none : reset (rly s) = None → fresh s = [];
  co_some d : reset (rly s) = Some d → fresh s ≠ [] ∧
    (d = -1 ∧ idle_time (log s) = idle_time (heard s) ∨ 0 <= d ∧ idle_time (log s) = d);
  co_td : td (rly s) = idle_time (heard s);
  co_since : quiet (heard s) = since s;
  co_due : expired (rly s) = false → returned (rly s) = false →
    armed (rly s) = true ∧ due s = since s + td (rly s) ∧ now s <= due s;
  co_expired : expired (rly s) = bool_decide (is_Some (fired s));
  co_fired T : fired s = Some T → T <= now s ∧
    ∃ pre post, log s = pre ++ post ∧ T = quiet pre + idle_time pre ∧ Forall (λ e, T <= e.1) post }.

(** The relay does something that the clock does not look at. *)
Lemma set_rly_ok s r :
  clock_ok s → relay_ok opts r → reset r = reset (rly s) → td r = td (rly s) → expired r = expired (rly s) →
  (returned r = false → returned (rly s) = false ∧ armed r = armed (rly s)) → clock_ok (set_rly r s).
Proof using Type.
  intros [H1 H2 H3 H4 H5 H6 H7 H8 H9] Hr E1 E2 E3 E4. split; simpl; rewrite ?E1, ?E2, ?E3; try done.
  intros He Hre. destruct (E4 Hre) as [Hre' ->]. by apply H7.
Qed.

(** A read, or the end of a copy, at this instant. *)
Lemma note_ok s x r :
  clock_ok s → relay_ok opts r → td r = td (rly s) → expired r = expired (rly s) →
  (returned r = false → returned (rly s) = false ∧ armed r = armed (rly s)) →
  (x = Bytes ∧ reset r = Some (default (-1) (reset (rly s))) ∨
   ∃ i, x = Ended i ∧ reset (rly s) = None ∧ reset r = Some (idle opts i)) →
  clock_ok (note x (set_rly r s)).
Proof using Hup Hdown.
  intros [H1 H2 H3 H4 H5 H6 H7 H8 H9] Hr E2 E3 E4 Hx.
  assert (log (note x (set_rly r s)) = log s ++ [(now s, x)]) as El by apply app_assoc.
  split; rewrite ?El; simpl; rewrite ?E2, ?E3; try done.
  - apply Forall_app. split; [done|]. by apply Forall_singleton.
  - intros E. destruct Hx as [[_ E']|(i & _ & _ & E')]; congruence.
  - intros d Ed. split; [by destruct (fresh s)|]. destruct Hx as [[-> E]|(i & -> & En & E)].
    + rewrite idle_time_bytes. rewrite E in Ed. injection Ed as <-. destruct (reset (rly s)) as [d|]; simpl.
      * by apply H4.
      * left. split; [done|]. unfold log. by rewrite (H3 eq_refl), app_nil_r.
    + rewrite idle_time_ended. right. split; [|congruence]. assert (d = idle opts i) as -> by congruence.
      by apply idle_nonneg.
  - intros He Hre. destruct (E4 Hre) as [Hre' ->]. by apply H7.
  - intros T HT. destruct (H9 T HT) as (Hn & pre & post & -> & ET & Hp). split; [done|].
    exists pre, (post ++ [(now s, x)]). split; [by rewrite app_assoc|]. split; [done|].
    apply Forall_app. split; [done|]. by apply Forall_singleton.
Qed.

Lemma do_open r : closed r = false →
  do r = set_reset (Some (default (-1) (reset r))) r.
Proof using Type. intros E. unfold do, send. rewrite E. destruct r as [? ? []]; done. Qed.

Lemma clock_step_ok s s' : clock_ok s → clock_step s s' → clock_ok s'.
Proof using Hconn Hup Hdown.
  intros H Hs. pose proof (co_relay _ H) as Hro.
  assert (relay_ok opts (rly s')) as Hro'.
  { destruct (clock_relay _ _ Hs) as [Hr| ->]; [by eapply Relay.step_ok|done]. }
  destruct Hs as [i s Hp|i s Hp|i s Hp|i s Hp Hr|i s Hp|s Hr Ha Hd|s d Hr Hd|s Hr Hre Hc|s d Hd Hw Hdue].
  - assert (closed (rly s) = false) as Hc by (apply (not_closed opts _ i Hro); congruence).
    cbn [note set_rly rly] in Hro'. rewrite (do_open _ Hc) in *. apply note_ok; [done..|]. by left.
  - by apply set_rly_ok.
  - by apply set_rly_ok.
  - assert (closed (rly s) = false) as Hc by (apply (not_closed opts _ i Hro); congruence).
    cbn [note set_rly rly] in Hro'. unfold send in *. rewrite Hc in *. apply note_ok; [done..|]. right. by exists i.
  - assert (closed (rly s) = false) as Hc by (apply (not_closed opts _ i Hro); congruence).
    apply set_rly_ok; [done..| | | |]; unfold done_; destruct (S (n (rly s)) =? 2)%nat; simpl; rewrite ?Hc; done.
  - destruct H as [H1 H2 H3 H4 H5 H6 H7 H8 H9]. split; simpl; try done. intros T [= <-]. split; [lia|].
    exists (heard s), (fresh s). split; [done|].
    assert (expired (rly s) = false) as He.
    { destruct (expired (rly s)) eqn:E; [|done]. by rewrite (ro_expired _ _ H1 E) in Ha. }
    destruct (H7 He Hr) as (_ & Hdue & Hn). split; [rewrite H6, <- H5; lia|].
    eapply Forall_impl; [exact H2|]. intros e ->. lia.
  - destruct H as [H1 H2 H3 H4 H5 H6 H7 H8 H9]. destruct (H4 d Hd) as [Hne Hid].
    assert (td (receive d (rly s)) = idle_time (log s)) as Htd.
    { simpl. destruct Hid as [(-> & ->)|(Hpos & E)]; [done|]. rewrite E. by destruct (Z.leb_spec 0 d); [|lia]. }
    split; try done.
    + cbn [heard receive_now since]. unfold log. destruct (fresh s) as [|e l _] eqn:Ef using rev_ind; [done|].
      rewrite app_assoc, quiet_snoc. apply Forall_app in H2 as [_ H2]. by inversion H2.
    + intros He _. cbn [receive_now rly since due now]. rewrite Htd. pose proof (idle_time_nonneg (log s)).
      simpl in *. rewrite He. split_and!; [done|done|lia].
    + intros T HT. unfold log. cbn [receive_now heard fresh now]. rewrite app_nil_r. by apply H9.
  - apply set_rly_ok; try done.
  - destruct H as [H1 H2 H3 H4 H5 H6 H7 H8 H9]. assert (returned (rly s) = true → reset (rly s) = None) as Hret.
    { intros Er. by destruct (ro_returned _ _ H1 Er) as (_ & -> & _). }
    assert (fresh s = []) as Ef.
    { apply H3. destruct (returned (rly s)) eqn:Er; [by apply Hret|by apply (proj2 Hw)]. }
    split; simpl; try done.
    + by rewrite Ef.
    + intros He Hr. destruct (H7 He Hr) as (Ha & Hdu & _). split_and!; [done..|]. by apply Hdue.
    + intros T HT. destruct (H9 T HT) as (Hn & Hpp). split; [lia|exact Hpp].
Qed.

(** A relay that stays quiet is timed out. *)
Lemma clock_quiet s :
  clock_ok s → waits s → returned (rly s) = false → expired (rly s) = false →
  ∃ s', rtc clock_step s s' ∧ log s' = log s ∧ fired s' = Some (quiet (log s) + idle_time (log s)).
Proof using Type.
  intros H Hw Hr He. destruct (co_due _ H He Hr) as (Ha & Hdue & Hn).
  assert (log s = heard s) as El by (unfold log; rewrite (co_none _ H) by (by apply (proj2 Hw)); apply app_nil_r).
  assert (quiet (log s) + idle_time (log s) = due s) as ->.
  { rewrite El, (co_since _ H), <- (co_td _ H). lia. }
  destruct (Z.eq_dec (now s) (due s)) as [E|E].
  - exists (fire_now s). split; [apply rtc_once, k_fire; [done..|lia]|]. split; [done|]. simpl. by rewrite E.
  - exists (fire_now (pass (due s - now s) s)). split; [|split; [done|]; simpl; f_equal; lia].
    eapply rtc_l; [apply (k_pass s (due s - now s)); [lia|done|lia]|].
    apply rtc_once, k_fire; [done..|]. simpl. lia.
Qed.

Lemma clock_reach_ok s : clock_reach s → clock_ok s.
Proof using Hconn Hup Hdown.
  intros Hr. assert (clock_ok (clock_init)) as H0.
  { split; simpl; try done. apply reach_ok, rtc_refl. }
  induction Hr as [|s1 s2 s3 Hs _ IH]; [done|]. apply IH. by eapply clock_step_ok.
Qed.
End clock.

(** C19: the idle timer of a relay is exact: as long as it has not fired and
    the relay has not returned, no more time has passed since the last read
    that gave bytes (or the end of a copy, or the start) than the idle time in
    force, which is that of the copy that has ended last without an error, or
    ConnIdle; when it has fired it was exactly then, and what was read after
    that was read at that time or later; and a relay that stays quiet is timed
    out. *)
Theorem idle_exact m opts s :
  let opts := relay_options m opts in
  clock_reach opts s →
  (returned (rly s) = false → expired (rly s) = false → now s <= quiet (log s) + idle_time opts (log s)) ∧
  (∀ T, fired s = Some T → ∃ pre post, log s = pre ++ post ∧
     T = quiet pre + idle_time opts pre ∧ Forall (λ e, T <= e.1) post) ∧
  (waits s → returned (rly s) = false → expired (rly s) = false →
   ∃ s', rtc (clock_step opts) s s' ∧ log s' = log s ∧ fired s' = Some (quiet (log s) + idle_time opts (log s))).
Proof.
  intros o Hr. destruct (relay_options_nonneg m opts) as (H1 & H2 & H3). fold o in H1, H2, H3.
  pose proof (clock_reach_ok o ltac:(lia) H2 H3 s Hr) as H. split_and!.
  - intros Hre He. destruct (co_due _ _ H He Hre) as (_ & Hdue & Hn).
    pose proof (idle_time_nonneg o ltac:(lia) H2 H3 (log s)) as Hpos. unfold log in *.
    destruct (fresh s) as [|e l _] eqn:Ef using rev_ind.
    + rewrite app_nil_r, (co_since _ _ H), <- (co_td _ _ H). lia.
    + pose proof (co_fresh _ _ H) as Hf. rewrite Ef in Hf. apply Forall_app in Hf as [_ Hf].
      inversion Hf as [|? ? E _]; subst. rewrite app_assoc in *. rewrite quiet_snoc. lia.
  - intros T HT. apply (co_fired _ _ H T HT).
  - by apply clock_quiet.
Qed.

(** ** Witness: bytes after 100, the end of the remote after 120, its idle time. *)

Definition ex_clock : clocked :=
  MkClocked (MkRelay Gone Copying None false 1 false true 20 true true false false) 140 140 120
    [(100, Bytes); (120, Ended true)] [] (Some 140).

Lemma ex_clock_reach : clock_reach (relay_options ex_relay zero_relay) ex_clock.
Proof.
  assert (∀ (s : clocked) d, reset (rly s) = None → closed (rly s) = false → 0 < d → now s + d <= due s →
    (∀ i, phase_of i (rly s) = Copying ∨ phase_of i (rly s) = Gone) →
    clock_step (relay_options ex_relay zero_relay) s (pass d s)) as Hpass.
  { intros s d H1 H2 H3 H4 H5. by apply k_pass. }
  eapply rtc_l; [apply (Hpass _ 100); [done..|by intros []; left]|].
  eapply rtc_l; [by apply (k_read _ false)|].
  eapply rtc_l; [by eapply k_receive|].
  eapply rtc_l; [apply (Hpass _ 20); [done..|by intros []; left]|].
  eapply rtc_l; [by apply (k_end _ true)|].
  eapply rtc_l; [by apply (k_send _ true)|].
  eapply rtc_l; [by eapply k_receive|].
  eapply rtc_l; [by apply (k_done _ true)|].
  eapply rtc_l; [apply (Hpass _ 20); [done..|by intros []; [right|left]]|].
  apply rtc_once. by apply (k_fire _ (MkClocked (MkRelay Gone Copying None false 1 true false 20 false false false false)
    140 140 120 [(100, Bytes); (120, Ended true)] [] None)).
Qed.

Lemma idle_exact_witness :
  ∃ pre post, [(100, Bytes); (120, Ended true)] = pre ++ post ∧
    140 = quiet pre + idle_time (relay_options ex_relay zero_relay) pre ∧ Forall (λ e, 140 <= e.1) post.
Proof.
  destruct (idle_exact ex_relay zero_relay ex_clock ex_clock_reach) as (_ & H & _).
  exact (H 140 eq_refl).
Defined.

(** With the defaults, the end of one direction without error ends the other
    at once: the idle times for half a relay are zero. *)
Example defaults_cut : idle_time (relay_options zero_relay zero_relay) [(7, Bytes); (9, Ended false)] = 0.
Proof. reflexivity. Qed.
