(* ===== verification/Flow.v ===== *)
(** * The bytes of a relay (relay.go).

    The two copies of Relay.v with what they read and write: [io.CopyBuffer]
    with its buffer, from a source that may have bytes ahead of it ([prefix]),
    through doOnRead.  What a read returns and how much of a write is taken
    are choices of the network. *)

From S2P Require Import Prelude Relay.

(** ** State *)

(** What a Read returns beside its bytes. *)
Inductive read_err := NoErr | EOF | Broken.

(** A copy: what is left of a prefix, what the source itself has given, the
    bytes of the last Read still to be written, what the destination has
    taken, and whether CopyBuffer returned without error. *)
Record flow := MkFlow {
  ahead : list Z;
  got : list Z;
  buffer : option (list Z * read_err);
  out : list Z;
  copied : option bool }.

Definition flow_init (pre : list Z) : flow := MkFlow pre [] None [] None.

(** [relayBuffer] *)
Definition relayBuffer : Z := 32 * 1024.

(** [Read] while there is a prefix, and after it. *)
Definition read_ahead (f : flow) : flow :=
  let n := Z.to_nat relayBuffer in
  MkFlow (drop n (ahead f)) (got f) (Some (take n (ahead f), NoErr)) (out f) (copied f).

Definition read_src (chunk : list Z) (e : read_err) (f : flow) : flow :=
  MkFlow (ahead f) (got f ++ chunk) (Some (chunk, e)) (out f) (copied f).

(** The destination takes [k] of the bytes of a Write. *)
Definition put (k : nat) (b : list Z) (e : read_err) (f : flow) : flow :=
  MkFlow (ahead f) (got f) (Some (drop k b, e)) (out f ++ take k b) (copied f).

(** CopyBuffer reads again, or returns. *)
Definition again (f : flow) : flow := MkFlow (ahead f) (got f) None (out f) (copied f).

Definition ends (ok : bool) (f : flow) : flow := MkFlow (ahead f) (got f) (buffer f) (out f) (Some ok).

(** A relay with its copies: [up_flow] from remote to local, [down_flow] from
    local to remote. *)
Record session := MkSession { rl : relay; up_flow : flow; down_flow : flow }.

Definition flow_of (i : bool) (s : session) : flow := if i then up_flow s else down_flow s.

Definition set_flow (i : bool) (f : flow) (s : session) : session :=
  MkSession (rl s) (if i then f else up_flow s) (if i then down_flow s else f).

Definition set_rl (r : relay) (s : session) : session := MkSession r (up_flow s) (down_flow s).

(** [doOnReadConn.Read] *)
Definition doOnRead (chunk : list Z) (r : relay) : relay := match chunk with [] => r | _ => do r end.

(** The copy function: after CopyBuffer without error it goes on to send its
    idle time, after an error it sets the deadline of [dst] and leaves. *)
Definition copy_end (i ok : bool) (r : relay) : relay :=
  if ok then set_phase i Sending r
  else set_phase i Leaving (set_deadlines (i || past_l r) (negb i || past_r r) r).

(** The read deadline of the source of a copy is in the past. *)
Definition past_read (i : bool) (r : relay) : bool := if i then past_r r else past_l r.

(** What a step does outside: nothing, a copy reads, or a destination takes
    bytes. *)
Inductive act := Tau | Take (i : bool) (chunk : list Z) | Give (i : bool) (chunk : list Z).

Section session.
Context (opts : Defaults.RelayOptions).

(** [Relay(prefix(l, _), prefix(r, _), opts)] *)
Definition session_init (pre_l pre_r : list Z) : session :=
  MkSession (Relay.init opts) (flow_init pre_r) (flow_init pre_l).

(** A read whose deadline is in the past fails. *)
Inductive session_step : act → session → session → Prop :=
  | s_ahead i s : phase_of i (rl s) = Copying → buffer (flow_of i s) = None → ahead (flow_of i s) ≠ [] →
      session_step Tau s (set_flow i (read_ahead (flow_of i s)) (set_rl (do (rl s)) s))
  | s_read i s chunk e : phase_of i (rl s) = Copying → buffer (flow_of i s) = None →
      ahead (flow_of i s) = [] → Z.of_nat (length chunk) <= relayBuffer →
      (past_read i (rl s) = true → chunk = [] ∧ e = Broken) →
      session_step (Take i chunk) s
        (set_flow i (read_src chunk e (flow_of i s)) (set_rl (doOnRead chunk (rl s)) s))
  | s_put i s k b e : phase_of i (rl s) = Copying → buffer (flow_of i s) = Some (b, e) →
      (0 < k ≤ length b)%nat →
      session_step (Give i (take k b)) s (set_flow i (put k b e (flow_of i s)) s)
  | s_wrote i s : phase_of i (rl s) = Copying → buffer (flow_of i s) = Some ([], NoErr) →
      session_step Tau s (set_flow i (again (flow_of i s)) s)
  | s_end i s e : phase_of i (rl s) = Copying → buffer (flow_of i s) = Some ([], e) → e ≠ NoErr →
      let ok := match e with EOF => true | _ => false end in
      session_step Tau s (set_flow i (ends ok (flow_of i s)) (set_rl (copy_end i ok (rl s)) s))
  | s_fail i s b e : phase_of i (rl s) = Copying → buffer (flow_of i s) = Some (b, e) → b ≠ [] →
      session_step Tau s (set_flow i (ends false (flow_of i s)) (set_rl (copy_end i false (rl s)) s))
  | s_send i s : phase_of i (rl s) = Sending → reset (rl s) = None →
      session_step Tau s (set_rl (set_phase i Leaving (send (idle opts i) (rl s))) s)
  | s_done i s : phase_of i (rl s) = Leaving → session_step Tau s (set_rl (set_phase i Gone (done_ (rl s))) s)
  | s_fire s : returned (rl s) = false → armed (rl s) = true → session_step Tau s (set_rl (fire (rl s)) s)
  | s_receive s d : returned (rl s) = false → reset (rl s) = Some d →
      session_step Tau s (set_rl (receive d (rl s)) s)
  | s_finish s : returned (rl s) = false → reset (rl s) = None → closed (rl s) = true →
      session_step Tau s (set_rl (Relay.finish (rl s)) s).

Inductive session_reach (pre_l pre_r : list Z) : session → Prop :=
  | session_start : session_reach pre_l pre_r (session_init pre_l pre_r)
  | session_more a s s' : session_reach pre_l pre_r s → session_step a s s' → session_reach pre_l pre_r s'.

(** ** A session is a relay *)

Lemma rl_set_flow i f s : rl (set_flow i f s) = rl s.
Proof. reflexivity. Qed.

(** Every step of a session is a step of its relay, or none. *)
Lemma session_step_relay a s s' : session_step a s s' →
  Relay.step opts (rl s) (rl s') ∨ rl s' = rl s.
Proof.
  intros Hs. destruct Hs; rewrite ?rl_set_flow; cbn [set_rl rl].
  - left. by eapply step_read.
  - destruct chunk; [right|left; by eapply step_read]. done.
  - by right.
  - by right.
  - left. unfold copy_end. destruct ok; [by eapply step_end|by eapply step_fail].
  - left. by eapply step_fail.
  - left. by eapply step_send.
  - left. by eapply step_done.
  - left. by eapply step_fire.
  - left. by eapply step_receive.
  - left. by eapply step_finish.
Qed.

Lemma session_relay pre_l pre_r s : session_reach pre_l pre_r s → Relay.reach opts (rl s).
Proof.
  intros Hr. induction Hr as [|a s s' _ IH Hs]; [apply rtc_refl|].
  destruct (session_step_relay _ _ _ Hs) as [H| ->]; [by eapply rtc_r|done].
Qed.

(** ** What a copy has written *)

#[local] Opaque relayBuffer.

Definition held (f : flow) : list Z := from_option fst [] (buffer f).

(** Nothing is lost, repeated or moved; and a copy that has ended well has
    written all it read. *)
Record flow_ok (pre : list Z) (f : flow) : Prop := {
  fl_bytes : pre ++ got f = out f ++ held f ++ ahead f;
  fl_ahead : ahead f ≠ [] → got f = [];
  fl_last b e : buffer f = Some (b, e) → e ≠ NoErr → ahead f = [];
  fl_copied : copied f = Some true → held f = [] ∧ ahead f = [] }.

Lemma flow_init_ok pre : flow_ok pre (flow_init pre).
Proof. split; simpl; [by rewrite app_nil_r|done..]. Qed.

Lemma read_ahead_ok pre f : flow_ok pre f → buffer f = None → ahead f ≠ [] → copied f = None →
  flow_ok pre (read_ahead f).
Proof.
  intros [H1 H2 H3 H4] Hb Ha Hc. unfold held in *. rewrite Hb in *.
  split; cbn [read_ahead ahead got out copied buffer]; rewrite ?Hc; try done.
  - unfold held, read_ahead. cbn [buffer from_option fst ahead]. rewrite take_drop. exact H1.
  - intros _. by apply H2.
  - by intros b e [= <- <-].
Qed.

Lemma read_src_ok pre f chunk e : flow_ok pre f → buffer f = None → ahead f = [] → copied f = None →
  flow_ok pre (read_src chunk e f).
Proof.
  intros [H1 H2 H3 H4] Hb Ha Hc. unfold held in *. rewrite Hb, Ha in *. simpl in H1. rewrite app_nil_r in H1.
  split; simpl; rewrite ?Ha, ?Hc; [|done..]. by rewrite app_assoc, H1, app_nil_r.
Qed.

Lemma put_ok pre f k b e : flow_ok pre f → buffer f = Some (b, e) → copied f = None →
  flow_ok pre (put k b e f).
Proof.
  intros [H1 H2 H3 H4] Hb Hc. unfold held in *. rewrite Hb in *. simpl in H1.
  split; simpl; rewrite ?Hc; try done; [|].
  - unfold held. simpl. rewrite H1, <- app_assoc. f_equal. by rewrite app_assoc, take_drop.
  - intros b' e' [= <- <-]. by eapply H3.
Qed.

Lemma flow_again_ok pre f : flow_ok pre f → buffer f = Some ([], NoErr) → copied f = None → flow_ok pre (again f).
Proof.
  intros [H1 H2 H3 H4] Hb Hc. unfold held in *. rewrite Hb in *. by split; simpl; rewrite ?Hc.
Qed.

Lemma ends_ok pre f ok b e : flow_ok pre f → buffer f = Some (b, e) → (ok = true → b = [] ∧ e ≠ NoErr) →
  flow_ok pre (ends ok f).
Proof.
  intros [H1 H2 H3 H4] Hb Hok. split; simpl; [exact H1|exact H2|exact H3|].
  intros [= ->]. destruct (Hok eq_refl) as [-> He]. unfold held. simpl. rewrite Hb.
  split; [done|]. by eapply H3.
Qed.

Record session_ok (pre_l pre_r : list Z) (s : session) : Prop := {
  ss_flow i : flow_ok (if i : bool then pre_r else pre_l) (flow_of i s);
  ss_copying i : phase_of i (rl s) = Copying ↔ copied (flow_of i s) = None }.

(** The part of a relay that a step of its loop leaves. *)
Lemma set_rl_ok pre_l pre_r s r :
  session_ok pre_l pre_r s → (∀ i, phase_of i r = Copying ↔ phase_of i (rl s) = Copying) →
  session_ok pre_l pre_r (set_rl r s).
Proof. intros [H1 H2] Hr. split; [exact H1|]. intros i. simpl. rewrite Hr. apply H2. Qed.

(** A copy changes its flow, and ends or not. *)
Lemma set_flow_ok pre_l pre_r s i f r :
  session_ok pre_l pre_r s → flow_ok (if i : bool then pre_r else pre_l) f →
  (phase_of i r = Copying ↔ copied f = None) → phase_of (negb i) r = phase_of (negb i) (rl s) →
  session_ok pre_l pre_r (set_flow i f (set_rl r s)).
Proof.
  intros [H1 H2] Hf Hi Hn. split.
  - intros j. destruct i, j; try done; [apply (H1 false)|apply (H1 true)].
  - intros j. destruct i, j; try done; simpl in *; rewrite Hn; [apply (H2 false)|apply (H2 true)].
Qed.

Lemma do_phase i r : phase_of i (do r) = phase_of i r.
Proof. unfold do, send. destruct (reset r), (closed r), i; reflexivity. Qed.

Lemma send_phase i v r : phase_of i (send v r) = phase_of i r.
Proof. unfold send. destruct (closed r), i; reflexivity. Qed.

Lemma done_phase i r : phase_of i (done_ r) = phase_of i r.
Proof. unfold done_. destruct (S (n r) =? 2)%nat; simpl; [destruct (closed r)|]; by destruct i. Qed.

Lemma set_phase_copying i p r : p ≠ Copying → phase_of i r ≠ Copying →
  ∀ j, phase_of j (set_phase i p r) = Copying ↔ phase_of j r = Copying.
Proof. intros Hp Hr j. destruct i, j; simpl in *; naive_solver. Qed.

Lemma copy_end_phase i ok r :
  phase_of i (copy_end i ok r) ≠ Copying ∧ phase_of (negb i) (copy_end i ok r) = phase_of (negb i) r.
Proof. by destruct i, ok. Qed.

Lemma session_step_ok pre_l pre_r a s s' :
  session_ok pre_l pre_r s → session_step a s s' → session_ok pre_l pre_r s'.
Proof.
  intros H Hs. pose proof H as [Hf Hc].
  assert (∀ i f ok r, phase_of i r ≠ Copying → copied (ends ok f) = None ↔ phase_of i r = Copying) as He.
  { intros i f ok r Hn. by split. }
  destruct Hs as [i s Hp Hb Ha|i s chunk e Hp Hb Ha _ _|i s k b e Hp Hb _|i s Hp Hb|i s e Hp Hb Hne ok
    |i s b e Hp Hb Hn|i s Hp Hr|i s Hp|s Hr Ha|s d Hr Hd|s Hr Hre Hcl].
  - apply set_flow_ok; [done|apply read_ahead_ok; [done..|by apply Hc]| |apply do_phase].
    rewrite do_phase. apply Hc.
  - apply set_flow_ok; [done|apply read_src_ok; [done..|by apply Hc]| |by destruct chunk; [|apply do_phase]].
    destruct chunk; [|simpl; rewrite do_phase]; apply Hc.
  - apply (set_flow_ok _ _ s i _ (rl s)); [done|apply put_ok; [done..|by apply Hc]|apply Hc|done].
  - apply (set_flow_ok _ _ s i _ (rl s)); [done|apply flow_again_ok; [done..|by apply Hc]|apply Hc|done].
  - destruct (copy_end_phase i ok (rl s)) as [H1 H2]. apply set_flow_ok; [done| |by split|done].
    eapply ends_ok; [done..|]. done.
  - destruct (copy_end_phase i false (rl s)) as [H1 H2]. apply set_flow_ok; [done| |by split|done].
    by eapply ends_ok.
  - apply set_rl_ok; [done|]. intros j. rewrite set_phase_copying, send_phase; [done..|].
    by rewrite send_phase, Hp.
  - apply set_rl_ok; [done|]. intros j. rewrite set_phase_copying, done_phase; [done..|].
    by rewrite done_phase, Hp.
  - apply set_rl_ok; [done|]. by intros [].
  - apply set_rl_ok; [done|]. by intros [].
  - apply set_rl_ok; [done|]. by intros [].
Qed.

Lemma session_init_ok pre_l pre_r : session_ok pre_l pre_r (session_init pre_l pre_r).
Proof. split; [intros []; apply flow_init_ok|by intros []]. Qed.

Lemma session_reach_ok pre_l pre_r s : session_reach pre_l pre_r s → session_ok pre_l pre_r s.
Proof.
  intros Hr. induction Hr; [apply session_init_ok|by eapply session_step_ok].
Qed.

(** In every state of a relay, what a side has taken is a prefix of what the
    other has given, its prefix first; all of it once the copy has ended
    without error. *)
Lemma session_bytes pre_l pre_r s i :
  session_ok pre_l pre_r s →
  let pre := if i : bool then pre_r else pre_l in
  out (flow_of i s) `prefix_of` pre ++ got (flow_of i s) ∧
  (copied (flow_of i s) = Some true → out (flow_of i s) = pre ++ got (flow_of i s)).
Proof.
  intros [Hf _] pre. destruct (Hf i) as [H1 _ _ H4]. fold pre in H1. rewrite H1. split; [by eexists|].
  intros [-> ->]%H4. by rewrite !app_nil_r.
Qed.

(** ** The relay ends

    once its timer has fired, or both copies have ended: reads fail at their
    deadline, what was read is written or fails, and [Relay] returns. *)

Definition closing (s : session) : Prop :=
  expired (rl s) = true ∨ up (rl s) ≠ Copying ∧ down (rl s) ≠ Copying.

Record session_closing (s : session) : Prop := {
  sc_relay : relay_ok opts (rl s);
  sc_past : expired (rl s) = true → returned (rl s) = false → past_l (rl s) = true ∧ past_r (rl s) = true;
  sc_closing : closing s }.

Lemma session_closing_step a s s' : session_closing s → session_step a s s' → session_closing s'.
Proof.
  intros [H1 H2 H3] Hs. destruct (session_step_relay _ _ _ Hs) as [Hr|Hr].
  - destruct (step_keeps _ _ _ Hr) as (He & Hp & Hd). split; [by eapply step_ok|by apply Hd|].
    destruct H3 as [H3|[H3 H4]]; [left; by apply He|right; split; [by apply (Hp true)|by apply (Hp false)]].
  - split; unfold closing in *; by rewrite Hr.
Qed.

(** What the copies have still to do, by a weight of a flow. *)
Section weighted.
Context (W : bool → flow → nat).

Definition copy_weight (i : bool) (r : relay) (f : flow) : nat :=
  if decide (phase_of i r = Copying) then W i f else 0.

Definition session_measure (s : session) : nat :=
  (4 * (copy_weight true (rl s) (up_flow s) + copy_weight false (rl s) (down_flow s)) + Relay.measure (rl s))%nat.

(** The loop of the relay leaves the copies. *)
Lemma set_rl_measure s r : (∀ i, phase_of i r = Copying ↔ phase_of i (rl s) = Copying) →
  (Relay.measure r < Relay.measure (rl s))%nat → (session_measure (set_rl r s) < session_measure s)%nat.
Proof.
  intros Hp Hm. unfold session_measure, copy_weight. simpl.
  pose proof (Hp true) as H1. pose proof (Hp false) as H2. simpl in H1, H2. repeat case_decide; try tauto; lia.
Qed.

(** A copy does something. *)
Lemma set_flow_measure s i f r :
  phase_of i (rl s) = Copying → phase_of (negb i) r = phase_of (negb i) (rl s) →
  (4 * copy_weight i r f + Relay.measure r < 4 * W i (flow_of i s) + Relay.measure (rl s))%nat →
  (session_measure (set_flow i f (set_rl r s)) < session_measure s)%nat.
Proof.
  intros Hp Hn Hm. unfold session_measure, copy_weight in *. simpl.
  destruct i; simpl in *; rewrite Hn; rewrite (decide_True _ _ Hp); lia.
Qed.

Lemma copy_weight_le i r f : (copy_weight i r f ≤ W i f)%nat.
Proof. unfold copy_weight. case_decide; lia. Qed.

Lemma copy_weight_end i ok r f : copy_weight i (copy_end i ok r) f = 0%nat.
Proof. unfold copy_weight. by rewrite decide_False by apply copy_end_phase. Qed.

Lemma copy_end_measure i ok r : phase_of i r = Copying → (Relay.measure (copy_end i ok r) < Relay.measure r)%nat.
Proof. intros Hp. destruct i, ok; simpl in Hp; unfold Relay.measure; simpl; rewrite Hp; simpl; lia. Qed.

(** A step counts down when what it does at the network counts down. *)
Lemma session_step_weight a s s' :
  relay_ok opts (rl s) →
  (∀ i f, buffer f = None → ahead f ≠ [] → (W i (read_ahead f) < W i f)%nat) →
  (∀ i f, buffer f = Some ([], NoErr) → (W i (again f) < W i f)%nat) →
  (∀ i chunk, a = Take i chunk ∨ a = Give i chunk → (W i (flow_of i s') < W i (flow_of i s))%nat) →
  session_step a s s' → (session_measure s' < session_measure s)%nat.
Proof.
  intros H1 Ha0 Hag Hnet Hs.
  destruct Hs as [i s Hp Hb Ha|i s chunk e Hp Hb Ha _ _|i s k b e Hp Hb Hk|i s Hp Hb|i s e Hp Hb Hne ok
    |i s b e Hp Hb Hn|i s Hp Hr|i s Hp|s Hr Ha|s d Hr Hd|s Hr Hre Hcl].
  - apply set_flow_measure; [done|apply do_phase|].
    pose proof (copy_weight_le i (do (rl s)) (read_ahead (flow_of i s))).
    pose proof (do_measure (rl s)). pose proof (Ha0 i _ Hb Ha). lia.
  - specialize (Hnet i chunk (or_introl eq_refl)). set (f := read_src chunk e (flow_of i s)) in *.
    assert (W i f < W i (flow_of i s))%nat as Hlt by (by destruct i).
    apply set_flow_measure; [done|by destruct chunk; [|apply do_phase]|].
    pose proof (copy_weight_le i (doOnRead chunk (rl s)) f).
    pose proof (do_measure (rl s)). destruct chunk; simpl in *; lia.
  - specialize (Hnet i _ (or_intror eq_refl)). set (f := put k b e (flow_of i s)) in *.
    assert (W i f < W i (flow_of i s))%nat as Hlt by (by destruct i).
    apply (set_flow_measure s i _ (rl s)); [done..|]. pose proof (copy_weight_le i (rl s) f). lia.
  - apply (set_flow_measure s i _ (rl s)); [done..|].
    pose proof (copy_weight_le i (rl s) (again (flow_of i s))). pose proof (Hag i _ Hb). lia.
  - apply set_flow_measure; [done|apply copy_end_phase|]. rewrite copy_weight_end.
    pose proof (copy_end_measure i ok _ Hp). lia.
  - apply set_flow_measure; [done|apply copy_end_phase|]. rewrite copy_weight_end.
    pose proof (copy_end_measure i false _ Hp). lia.
  - apply set_rl_measure; [|by apply send_measure]. intros j. rewrite set_phase_copying, send_phase; [done..|].
    by rewrite send_phase, Hp.
  - apply set_rl_measure; [|by eapply done_measure]. intros j. rewrite set_phase_copying, done_phase; [done..|].
    by rewrite done_phase, Hp.
  - apply set_rl_measure; [by intros []|]. by apply (loop_measure (rl s) Hr).
  - apply set_rl_measure; [by intros []|]. by apply (loop_measure (rl s) Hr).
  - apply set_rl_measure; [by intros []|]. by apply (loop_measure (rl s) Hr).
Qed.
End weighted.

(** What a copy has still to do when its reads fail. *)
Definition flow_weight (f : flow) : nat :=
  (4 * length (ahead f) +
   match buffer f with None => 3 | Some (b, NoErr) => 4 + length b | Some (b, _) => 1 + length b end)%nat.

Lemma read_ahead_weight f : buffer f = None → ahead f ≠ [] → (flow_weight (read_ahead f) < flow_weight f)%nat.
Proof.
  intros Hb Ha. unfold flow_weight, read_ahead. cbn [ahead buffer]. rewrite Hb, length_take, length_drop.
  assert (0 < Z.to_nat relayBuffer)%nat by (apply Nat2Z.inj_lt; rewrite Z2Nat.id; by vm_compute).
  destruct (ahead f) as [|x l]; [done|]. cbn [length]. lia.
Qed.

Lemma again_weight f : buffer f = Some ([], NoErr) → (flow_weight (again f) < flow_weight f)%nat.
Proof. intros Hb. unfold flow_weight, again. simpl. rewrite Hb. simpl. lia. Qed.

Lemma put_weight f k b e : buffer f = Some (b, e) → (0 < k ≤ length b)%nat →
  (flow_weight (put k b e f) < flow_weight f)%nat.
Proof. intros Hb Hk. unfold flow_weight, put. simpl. rewrite Hb, length_drop. destruct e; lia. Qed.

Lemma read_failed_weight f e : buffer f = None → e ≠ NoErr → (flow_weight (read_src [] e f) < flow_weight f)%nat.
Proof. intros Hb He. unfold flow_weight, read_src. simpl. rewrite Hb. destruct e; simpl; [done|lia..]. Qed.

Lemma session_step_measure a s s' :
  session_closing s → session_step a s s' →
  (session_measure (λ _, flow_weight) s' < session_measure (λ _, flow_weight) s)%nat.
Proof.
  intros [H1 H2 H3] Hs. eapply session_step_weight; [done|intros _; apply read_ahead_weight|intros _; apply again_weight| |done].
  intros i chunk Hact.
  destruct Hs as [| j s c e Hp Hb Ha _ Hpast | j s k b e Hp Hb Hk | | | | | | | |]; try (by destruct Hact).
  - destruct Hact as [[= -> ->]|]; [|done].
    assert (expired (rl s) = true) as He by (destruct H3 as [|[? ?]]; [done|by destruct i]).
    assert (returned (rl s) = false) as Hr by (apply (not_returned opts _ i H1); congruence).
    destruct (H2 He Hr) as [Hl Hrr]. destruct Hpast as [-> ->]; [by destruct i|].
    destruct i; by apply read_failed_weight.
  - destruct Hact as [|[= -> _]]; [done|]. destruct i; by apply put_weight.
Qed.

(** It can always go on, without bytes: a read fails, or a write. *)
Definition no_bytes (a : act) (s' : session) : Prop :=
  a = Tau ∨ ∃ i, a = Take i [] ∧ buffer (flow_of i s') = Some ([], Broken).

Lemma copying_progress s i : phase_of i (rl s) = Copying → ∃ a s', session_step a s s' ∧ no_bytes a s'.
Proof.
  intros Hp. destruct (buffer (flow_of i s)) as [[b e]|] eqn:Hb.
  - destruct b as [|x b]; [|eexists _, _; split; [by eapply s_fail|by left]]. destruct e.
    + eexists _, _. split; [by apply (s_wrote i)|by left].
    + eexists _, _. split; [by eapply (s_end i)|by left].
    + eexists _, _. split; [by eapply (s_end i)|by left].
  - destruct (decide (ahead (flow_of i s) = [])) as [Ha|Ha].
    + eexists _, _. split; [by apply (s_read i s [] Broken)|right]. exists i. by destruct i.
    + eexists _, _. split; [by apply (s_ahead i)|by left].
Qed.

Lemma session_progress s : relay_ok opts (rl s) → returned (rl s) = false →
  ∃ a s', session_step a s s' ∧ no_bytes a s'.
Proof.
  intros H Hr. destruct (decide (up (rl s) = Copying)) as [|Hu]; [by apply (copying_progress s true)|].
  destruct (decide (down (rl s) = Copying)) as [|Hd]; [by apply (copying_progress s false)|].
  destruct (progress opts (rl s) H Hu Hd Hr) as [r Hs].
  inversion Hs; subst; try (match goal with Hp : phase_of ?i _ = Copying |- _ => by destruct i end);
    eexists _, _; (split; [|by left]).
  - by eapply s_send.
  - by eapply s_done.
  - by apply s_fire.
  - by eapply s_receive.
  - by apply s_finish.
Qed.

Lemma session_reach_closing pre_l pre_r s : session_reach pre_l pre_r s → closing s → session_closing s.
Proof.
  intros Hr Hc. split; [apply reach_ok; by eapply session_relay| |done]. clear Hc.
  induction Hr as [|a s s' _ IH Hs]; [done|].
  destruct (session_step_relay _ _ _ Hs) as [H|H]; [|by rewrite H]. by apply (step_keeps _ _ _ H).
Qed.

(** C18: once the timer of a relay has fired, or both copies have ended, every
    execution of it returns; and whenever it is, what a side has taken is a
    prefix of what the other has given. *)
Theorem session_ends pre_l pre_r s :
  session_reach pre_l pre_r s →
  out (up_flow s) `prefix_of` pre_r ++ got (up_flow s) ∧ out (down_flow s) `prefix_of` pre_l ++ got (down_flow s) ∧
  (closing s → eventually (λ s s', ∃ a, session_step a s s')
     (λ s, returned (rl s) = true ∧ up (rl s) = Gone ∧ down (rl s) = Gone) s).
Proof.
  intros Hr. pose proof (session_reach_ok _ _ _ Hr) as Hok. split_and!.
  - apply (session_bytes _ _ s true Hok).
  - apply (session_bytes _ _ s false Hok).
  - intros Hc. pose proof (session_reach_closing _ _ _ Hr Hc) as H.
    apply (eventually_measure _ session_closing _ (session_measure (λ _, flow_weight))); [|..|done].
    + intros s1. apply _.
    + intros s1 s2 H1 _ [a Hs]. split; [by eapply session_closing_step|by eapply session_step_measure].
    + intros s1 H1 Hn. destruct (session_progress s1) as (a & s2 & Hs & _); [apply H1| |by exists s2, a].
      apply not_true_is_false. intros E. apply Hn. split; [done|].
      assert (closed (rl s1) = true) as Hcl by (by apply (ro_returned _ _ (sc_relay _ H1))).
      apply (ro_closed _ _ (sc_relay _ H1)) in Hcl. rewrite (ro_n _ _ (sc_relay _ H1)) in Hcl.
      by destruct (up (rl s1)), (down (rl s1)).
Qed.
End session.

(** ** Witness: the timer fires while both copies read. *)

Definition quiet_relay : Defaults.RelayOptions := Defaults.MkRelayOptions 300 20 10.
Definition timed_out : session := set_rl (fire (Relay.init quiet_relay)) (session_init quiet_relay [1] []).

Lemma session_ends_witness :
  expired (rl timed_out) = true ∧
  eventually (λ s s', ∃ a, session_step quiet_relay a s s')
    (λ s, returned (rl s) = true ∧ up (rl s) = Gone ∧ down (rl s) = Gone) timed_out.
Proof.
  split; [reflexivity|].
  assert (session_reach quiet_relay [1] [] timed_out) as Hr.
  { eapply session_more; [apply session_start|]. by apply s_fire. }
  destruct (session_ends quiet_relay [1] [] timed_out Hr) as (_ & _ & H). apply H. by left.
Defined.
