(* ===== verification/Tunnel.v ===== *)
(** * A connection through the program (relay.go, conn.go, the handlers).

    What the handlers of tcptun, socks, http and shadowsocks put together: the
    relay between a client and the near end of a NewConn (Flow.v), the
    coroutines of NewConn that read the request from the far end of its pipe
    and send it to the remotes (ConnLoop.v), and the relay of the winner
    between the far end and its remote (Flow.v).  The parts step in any order;
    where they meet they step together: a Read of the pipe takes what a Write
    to its other end gives. *)

From S2P Require Import Prelude Defaults Relay ConnLoop Flow.

(** ** State *)

(** The relay of the winner, which attempt it is, and the first byte of its
    response. *)
Record far_side := MkFar { far_try : nat; far_byte : Z; far_relay : session }.

Record tunnel := MkTunnel {
  near : session;                (* Relay(local, remote, opts.Relay) *)
  inner : ConnLoop.conn;         (* remote := NewConn(...) *)
  far : option far_side }.

(** Attempt [i] is in [m.Relay(l, r, relayOpts)]. *)
Definition relays (c : ConnLoop.conn) (i : nat) (pre : list Z) (b : Z) : Prop :=
  ∃ a, tries c !! i = Some a ∧ at_stage a = Relaying pre b.

(** Steps of the near relay that need no pipe: the client is at [l]. *)
Definition near_alone (a : act) : Prop :=
  match a with
  | Tau | Take false _ | Take true [] | Give true _ => True
  | _ => False
  end.

(** ... and of the far one: the remote is at [r]. *)
Definition far_alone (a : act) : Prop :=
  match a with
  | Tau | Take true _ | Take false [] | Give false _ => True
  | _ => False
  end.

Section tunnel.
Context (opts : ConnOptions) (ropts nopts : RelayOptions).     (* filled in *)

Definition tunnel_init : tunnel := MkTunnel (session_init nopts [] []) ConnLoop.init None.

Inductive tunnel_step : tunnel → tunnel → Prop :=
  | t_near t a n : session_step nopts a (near t) n → near_alone a →
      tunnel_step t (MkTunnel n (inner t) (far t))
  | t_conn t c : ConnLoop.step opts (inner t) c → data c = data (inner t) →
      (∀ i pre b, relays c i pre b ↔ relays (inner t) i pre b) →
      tunnel_step t (MkTunnel (near t) c (far t))
  | t_request t n chunk : session_step nopts (Give false chunk) (near t) n →
      rr_done (inner t) = false → Z.of_nat (length chunk) <= connBuf_size →
      tunnel_step t (MkTunnel n (read_request chunk false (inner t)) (far t))
  | t_relay t c i pre b : ConnLoop.step opts (inner t) c → data c = data (inner t) →
      relays c i pre b → ¬ relays (inner t) i pre b →
      tunnel_step t (MkTunnel (near t) c (Some (MkFar i b (session_init ropts pre [b]))))
  | t_relayed t c f pre b : ConnLoop.step opts (inner t) c → far t = Some f →
      relays (inner t) (far_try f) pre b → ¬ relays c (far_try f) pre b → returned (rl (far_relay f)) = true →
      tunnel_step t (MkTunnel (near t) c (far t))
  | t_far t f a s : far t = Some f → session_step ropts a (far_relay f) s → far_alone a →
      tunnel_step t (MkTunnel (near t) (inner t) (Some (MkFar (far_try f) (far_byte f) s)))
  | t_up t f n s chunk : far t = Some f → session_step nopts (Give false chunk) (near t) n →
      session_step ropts (Take false chunk) (far_relay f) s →
      tunnel_step t (MkTunnel n (inner t) (Some (MkFar (far_try f) (far_byte f) s)))
  | t_down t f n s chunk : far t = Some f → session_step nopts (Take true chunk) (near t) n →
      session_step ropts (Give true chunk) (far_relay f) s →
      tunnel_step t (MkTunnel n (inner t) (Some (MkFar (far_try f) (far_byte f) s))).

Definition tunnel_reach : tunnel → Prop := rtc tunnel_step tunnel_init.

(** ** The parts *)

(** A winner was found, and is being relayed or was. *)
Definition settled (c : ConnLoop.conn) : Prop :=
  hasWinner c = true ∧ rr_done c = true ∧ ∀ i a b, tries c !! i = Some a → at_stage a ≠ Winning b.

(** Attempt [i] has its relay, or had it: it sent [w]. *)
Definition was_relayed (c : ConnLoop.conn) (i : nat) (w : list Z) : Prop :=
  ∃ a, tries c !! i = Some a ∧ wire a = w ∧ (at_stage a = Ended ∨ ∃ pre b, at_stage a = Relaying pre b).

Lemma was_relayed_step c c' i w :
  ConnLoop.step opts c c' → was_relayed c i w → was_relayed c' i w.
Proof.
  intros Hs (a & Hi & Hw & Hst). destruct (step_moved opts _ _ _ _ Hs Hi) as (a' & Hi' & Hm).
  assert (sending a = false) as Hse by (unfold sending; destruct Hst as [->|(pre & b & ->)]; done).
  exists a'. destruct Hm as [[E [Ew|?]]|[Ew Hn]]; [| |].
  - rewrite E, Ew. done.
  - congruence.
  - split_and!; [done|congruence|]. destruct Hst as [E|(pre & b & E)]; rewrite E in Hn; [done|].
    destruct (at_stage a'); try done. by left.
Qed.

Lemma settled_step c c' : ConnLoop.step opts c c' → settled c → settled c'.
Proof.
  intros Hs (Hw & Hd & Hn). destruct (step_flags opts _ _ Hs) as [Hw' Hd']. split_and!; [by apply Hw'|by apply Hd'|].
  intros i a' b Hi' Hst. destruct (tries c !! i) as [a|] eqn:Hi.
  - destruct (step_moved opts _ _ _ _ Hs Hi) as (a1 & Hi1 & Hm). rewrite Hi' in Hi1. injection Hi1 as <-.
    destruct Hm as [[E _]|[_ E]]; [apply (Hn i a b Hi); congruence|].
    rewrite Hst in E. destruct (at_stage a) as [|[]| | | | |]; try done. simpl in E. by rewrite Hw in E.
  - by rewrite (step_new opts _ _ _ _ Hs Hi Hi') in Hst.
Qed.

(** What a step adds to what copy [i] has read, and to what it has written. *)
Definition taken (i : bool) (a : act) : list Z :=
  match a with Take j chunk => if Bool.eqb i j then chunk else [] | _ => [] end.

Definition given (i : bool) (a : act) : list Z :=
  match a with Give j chunk => if Bool.eqb i j then chunk else [] | _ => [] end.

Lemma session_step_bytes o a s s' i : session_step o a s s' →
  got (flow_of i s') = got (flow_of i s) ++ taken i a ∧ out (flow_of i s') = out (flow_of i s) ++ given i a.
Proof.
  intros Hs. destruct Hs as [j s|j s chunk e|j s k b e|j s|j s e Hp Hb Hne ok|j s b e|j s|j s|s|s d|s];
    try destruct j; destruct i; simpl; rewrite ?app_nil_r; done.
Qed.

Record tunnel_ok (t : tunnel) : Prop := {
  tk_near : session_ok [] [] (near t);
  tk_inner : conn_ok opts (inner t);
  tk_far f : far t = Some f → settled (inner t) ∧ ∃ pre w,
    session_ok pre [far_byte f] (far_relay f) ∧ was_relayed (inner t) (far_try f) w ∧
    w ++ pre = data (inner t);
  tk_up : out (down_flow (near t)) =
    data (inner t) ++ from_option (λ f, got (down_flow (far_relay f))) [] (far t);
  tk_down : got (up_flow (near t)) = from_option (λ f, out (up_flow (far_relay f))) [] (far t) }.

(** The near relay alone, and the far one. *)
Lemma near_alone_bytes a : near_alone a → taken true a = [] ∧ given false a = [].
Proof. destruct a as [|[] [|x l]|[] l]; done. Qed.

Lemma far_alone_bytes a : far_alone a → taken false a = [] ∧ given true a = [].
Proof. destruct a as [|[] [|x l]|[] l]; done. Qed.

Lemma tk_near_step t a n : tunnel_ok t → session_step nopts a (near t) n → session_ok [] [] n.
Proof. intros H Hs. eapply session_step_ok; [apply H|done]. Qed.

Lemma tk_conn_step t c : tunnel_ok t → ConnLoop.step opts (inner t) c → data c = data (inner t) →
  tunnel_ok (MkTunnel (near t) c (far t)).
Proof.
  intros [H1 H2 H3 H4 H5] Hs Hd. split; simpl; [done|by eapply conn_step_ok| |by rewrite Hd|done].
  intros f Hf. destruct (H3 f Hf) as (Hse & pre & w & Ho & Hr & Hw).
  split; [by eapply settled_step|]. exists pre, w. rewrite Hd.
  split_and!; [done|by eapply was_relayed_step|done].
Qed.

(** There is one relay. *)
Lemma tk_relay_first t c i pre b :
  tunnel_ok t → ConnLoop.step opts (inner t) c → relays c i pre b → ¬ relays (inner t) i pre b → far t = None.
Proof.
  intros H Hs (a & Hi & Hst) Hno. destruct (far t) as [f|] eqn:Ef; [|done].
  destruct (tk_far _ H f Ef) as ((_ & _ & Hnw) & _). destruct (tries (inner t) !! i) as [a0|] eqn:Hi0.
  - destruct (step_moved opts _ _ _ _ Hs Hi0) as (a1 & Hi1 & Hm). rewrite Hi in Hi1. injection Hi1 as <-.
    destruct Hm as [[E _]|[_ E]]; [by destruct Hno; exists a0; split; [|congruence]|].
    rewrite Hst in E. destruct (at_stage a0) as [|[]| |b0| | |] eqn:E0; try done. by destruct (Hnw _ _ b0 Hi0).
  - by rewrite (step_new opts _ _ _ _ Hs Hi0 Hi) in Hst.
Qed.

Lemma tk_relay_start t c i pre b :
  tunnel_ok t → ConnLoop.step opts (inner t) c → data c = data (inner t) →
  relays c i pre b → ¬ relays (inner t) i pre b →
  tunnel_ok (MkTunnel (near t) c (Some (MkFar i b (session_init ropts pre [b])))).
Proof.
  intros H Hs Hd Hrel Hno. pose proof (tk_relay_first _ _ _ _ _ H Hs Hrel Hno) as Ef.
  destruct H as [H1 H2 H3 H4 H5], Hrel as (a & Hi & Hst).
  rewrite Ef in H4, H5. pose proof (conn_step_ok opts _ _ H2 Hs) as Hc.
  pose proof (try_at _ _ _ _ Hc Hi) as [Tw _ _ Tst]. rewrite Hst in Tst. destruct Tst as (-> & Hrd & _).
  assert (winner a = true) as Hwa by (unfold winner; by rewrite Hst).
  split; simpl; [done|done| |by rewrite Hd|done].
  intros f [= <-]. simpl. split; [split_and!|].
  - by eapply (ok_hasWinner _ _ Hc).
  - done.
  - intros j a' b' Hj Ej. assert (j = i) as -> by (eapply (ok_winner _ _ Hc); [done..|unfold winner; by rewrite Ej|done]).
    rewrite Hi in Hj. injection Hj as <-. congruence.
  - eexists _, (wire a). split_and!; [apply session_init_ok| |].
    + exists a. split_and!; [done|done|right; eauto].
    + by rewrite Tw, take_drop.
Qed.

(** A chunk goes through the pipe between the two relays. *)
Lemma tk_pipe_up t f n s chunk :
  tunnel_ok t → far t = Some f → session_step nopts (Give false chunk) (near t) n →
  session_step ropts (Take false chunk) (far_relay f) s →
  tunnel_ok (MkTunnel n (inner t) (Some (MkFar (far_try f) (far_byte f) s))).
Proof.
  intros H Hf Hn Hs. pose proof H as [H1 H2 H3 H4 H5]. rewrite Hf in H4, H5. simpl in H4, H5.
  destruct (session_step_bytes _ _ _ _ true Hn) as [Eg _], (session_step_bytes _ _ _ _ false Hn) as [_ Eo].
  destruct (session_step_bytes _ _ _ _ true Hs) as [_ Eo'], (session_step_bytes _ _ _ _ false Hs) as [Eg' _].
  simpl in Eg, Eo, Eg', Eo'. rewrite app_nil_r in Eg, Eo'.
  split; simpl; [by eapply tk_near_step|done| |by rewrite Eo, Eg', H4, app_assoc|by rewrite Eg, Eo'].
  intros f' [= <-]. simpl. destruct (H3 f Hf) as (Hse & pre & w & Ho & Hrel). split; [done|].
  exists pre, w. split; [by eapply session_step_ok|done].
Qed.

Lemma tk_pipe_down t f n s chunk :
  tunnel_ok t → far t = Some f → session_step nopts (Take true chunk) (near t) n →
  session_step ropts (Give true chunk) (far_relay f) s →
  tunnel_ok (MkTunnel n (inner t) (Some (MkFar (far_try f) (far_byte f) s))).
Proof.
  intros H Hf Hn Hs. pose proof H as [H1 H2 H3 H4 H5]. rewrite Hf in H4, H5. simpl in H4, H5.
  destruct (session_step_bytes _ _ _ _ true Hn) as [Eg _], (session_step_bytes _ _ _ _ false Hn) as [_ Eo].
  destruct (session_step_bytes _ _ _ _ true Hs) as [_ Eo'], (session_step_bytes _ _ _ _ false Hs) as [Eg' _].
  simpl in Eg, Eo, Eg', Eo'. rewrite app_nil_r in Eo, Eg'.
  split; simpl; [by eapply tk_near_step|done| |by rewrite Eo, Eg'|by rewrite Eg, Eo', H5].
  intros f' [= <-]. simpl. destruct (H3 f Hf) as (Hse & pre & w & Ho & Hrel). split; [done|].
  exists pre, w. split; [by eapply session_step_ok|done].
Qed.

Lemma tunnel_step_ok t t' : tunnel_ok t → tunnel_step t t' → tunnel_ok t'.
Proof.
  intros H Hs. pose proof H as [H1 H2 H3 H4 H5].
  destruct Hs as [t a n Hn Ha|t c Hc Hd _|t n chunk Hn Hrd Hl|t c i pre b Hc Hd Hr Hno|t c f pre b Hc Hf Hr Hno Hret
    |t f a s Hf Hs Ha|t f n s chunk Hf Hn Hs|t f n s chunk Hf Hn Hs].
  - destruct (session_step_bytes _ _ _ _ true Hn) as [Eg _], (session_step_bytes _ _ _ _ false Hn) as [_ Eo].
    destruct (near_alone_bytes a Ha) as [Et Eg']. rewrite Et, app_nil_r in Eg. rewrite Eg', app_nil_r in Eo.
    simpl in Eg, Eo. split; simpl; [by eapply tk_near_step|done|done|by rewrite Eo|by rewrite Eg].
  - by apply tk_conn_step.
  - destruct (session_step_bytes _ _ _ _ true Hn) as [Eg _], (session_step_bytes _ _ _ _ false Hn) as [_ Eo].
    simpl in Eg, Eo. rewrite app_nil_r in Eg.
    assert (far t = None) as Ef.
    { destruct (far t) as [f|]; [|done]. destruct (H3 f eq_refl) as ((_ & Hd & _) & _). congruence. }
    rewrite Ef in *. simpl in H4. rewrite app_nil_r in H4.
    split; simpl; [by eapply tk_near_step|by apply read_ok|done|by rewrite Eo, H4, app_nil_r|by rewrite Eg].
  - by apply tk_relay_start.
  - apply tk_conn_step; [done..|]. destruct (H3 f Hf) as ((_ & Hrd & _) & _).
    by apply (step_flags opts _ _ Hc).
  - destruct (session_step_bytes _ _ _ _ true Hs) as [_ Eo], (session_step_bytes _ _ _ _ false Hs) as [Eg _].
    destruct (far_alone_bytes a Ha) as [Et Eg']. rewrite Et, app_nil_r in Eg. rewrite Eg', app_nil_r in Eo.
    simpl in Eg, Eo. rewrite Hf in H4, H5. simpl in H4, H5.
    split; simpl; [done|done| |by rewrite Eg|by rewrite Eo].
    intros f' [= <-]. simpl. destruct (H3 f Hf) as (Hse & pre & w & Ho & Hrel). split; [done|].
    exists pre, w. split; [by eapply session_step_ok|done].
  - by eapply tk_pipe_up.
  - by eapply tk_pipe_down.
Qed.

Context (Hpar : 0 <= Parallel opts) (Hmax : 0 <= MaxAttempts opts).
#[local] Set Default Proof Using "Type*".

Lemma tunnel_reach_ok t : tunnel_reach t → tunnel_ok t.
Proof.
  intros Hr. assert (tunnel_ok tunnel_init) as H0.
  { split; simpl; [apply session_init_ok|by apply init_ok|done..]. }
  induction Hr as [|t1 t2 t3 Hs _ IH]; [done|]. apply IH. by eapply tunnel_step_ok.
Qed.
End tunnel.

(** ** Nothing is lost, repeated, reordered or crossed *)

(** C1: in every state of a connection through the program, what a remote has
    got is a prefix of what the client has sent; the client has got nothing
    before an attempt is relayed, and after that a prefix of what the remote
    of that attempt has sent. When the copies of a direction have ended
    without error, everything has arrived. *)
Theorem tunnel_integrity m opts ropts nopts t :
  tunnel_reach (conn_options m opts) ropts nopts t →
  (∀ i a, tries (inner t) !! i = Some a → wire a `prefix_of` got (down_flow (near t))) ∧
  (far t = None → out (up_flow (near t)) = []) ∧
  ∀ f, far t = Some f →
    let r := far_relay f in
    (∃ a, tries (inner t) !! far_try f = Some a ∧
      wire a ++ out (down_flow r) `prefix_of` got (down_flow (near t)) ∧
      (copied (down_flow (near t)) = Some true → copied (down_flow r) = Some true →
       wire a ++ out (down_flow r) = got (down_flow (near t)))) ∧
    out (up_flow (near t)) `prefix_of` far_byte f :: got (up_flow r) ∧
    (copied (up_flow (near t)) = Some true → copied (up_flow r) = Some true →
     out (up_flow (near t)) = far_byte f :: got (up_flow r)).
Proof.
  intros Hr. destruct (conn_options_pos m opts) as (_ & _ & HP & HM).
  pose proof (tunnel_reach_ok (conn_options m opts) ropts nopts ltac:(lia) ltac:(lia) _ Hr) as [H1 H2 H3 H4 H5].
  destruct (session_bytes _ _ _ false H1) as [Nd Ed], (session_bytes _ _ _ true H1) as [Nu Eu].
  simpl in Nd, Ed, Nu, Eu. split_and!.
  - intros i a Hi. pose proof (try_wire _ _ _ (try_at _ _ _ _ H2 Hi)) as ->. etrans; [|exact Nd].
    rewrite H4. apply prefix_app_r. eexists. symmetry. apply take_drop.
  - intros Ef. rewrite Ef in H5. simpl in H5. rewrite H5 in Nu. by apply prefix_nil_inv in Nu.
  - intros f Hf r. destruct (H3 f Hf) as (_ & pre & w & Ho & (a & Hi & Hw & _) & Ew).
    rewrite Hf in H4, H5. simpl in H4, H5. fold r in H4, H5, Ho.
    destruct (session_bytes _ _ _ false Ho) as [Fd Ed'], (session_bytes _ _ _ true Ho) as [Fu Eu'].
    simpl in Fd, Ed', Fu, Eu'. split_and!.
    + exists a. split; [done|]. rewrite Hw. split.
      * etrans; [|exact Nd]. rewrite H4, <- Ew, <- app_assoc. by apply prefix_app.
      * intros E1%Ed E2%Ed'. by rewrite <- E1, H4, E2, <- Ew, <- app_assoc.
    + etrans; [exact Nu|]. by rewrite H5.
    + intros E1%Eu E2%Eu'. by rewrite E1, H5, E2.
Qed.

(** ** Witnesses *)

(** The client sends a byte, which goes to the first remote; the first byte of
    the response comes back. *)
Definition ex_relay : RelayOptions := MkRelayOptions 300 20 10.

(** No attempt is relayed. *)
Definition unrelayed (c : ConnLoop.conn) : bool :=
  forallb (λ a, match at_stage a with Relaying _ _ => false | _ => true end) (tries c).

Lemma unrelayed_not c i pre b : unrelayed c = true → ¬ relays c i pre b.
Proof.
  unfold unrelayed. intros H%Is_true_true%forallb_True (a & Hi & Hst).
  rewrite Forall_lookup in H. specialize (H i a Hi). by rewrite Hst in H.
Qed.

Lemma t_conn_unrelayed opts ropts nopts t c :
  ConnLoop.step opts (inner t) c → data c = data (inner t) → unrelayed (inner t) && unrelayed c = true →
  tunnel_step opts ropts nopts t (MkTunnel (near t) c (far t)).
Proof.
  intros Hs Hd [H1 H2]%andb_prop. apply t_conn; [done..|]. intros i pre b.
  split; intros Hr; [by destruct (unrelayed_not _ _ _ _ H2 Hr)|by destruct (unrelayed_not _ _ _ _ H1 Hr)].
Qed.

Lemma ex_tunnel :
  ∃ t f, tunnel_reach (conn_options zero_conn zero_conn) ex_relay ex_relay t ∧ far t = Some f ∧
    out (up_flow (near t)) = [99] ∧ got (down_flow (near t)) = [97].
Proof.
  eexists. eexists. split.
  - unfold tunnel_reach.
    advance ltac:(eapply t_near; [apply (s_read _ false _ [97] NoErr); [done..|by vm_compute]|done]).
    advance ltac:(eapply t_request; [eapply (s_put _ false _ 1); [done..|simpl; lia]|done|by vm_compute]).
    advance ltac:(apply t_conn_unrelayed; [apply (loop_new _ _ false)|..]; by vm_compute).
    advance ltac:(apply t_conn_unrelayed; [by apply loop_timer|by vm_compute..]).
    advance ltac:(apply t_conn_unrelayed;
      [by apply (dial_returns _ _ 0 (MkAttempt Dialing 0 None false false []) true false)|by vm_compute..]).
    advance ltac:(apply t_conn_unrelayed; [by eapply (dial_ok _ _ 0)|by vm_compute..]).
    advance ltac:(apply t_conn_unrelayed;
      [eapply (send_write _ _ 0); [reflexivity|done..|simpl; lia]|by vm_compute..]).
    advance ltac:(apply t_conn_unrelayed;
      [eapply (send_result _ _ 0 _ 1 true); [reflexivity|done..|simpl; lia|done]|by vm_compute..]).
    advance ltac:(apply t_conn_unrelayed; [eapply (response _ _ 0 _ 99 false true); reflexivity|by vm_compute..]).
    advance ltac:(apply t_conn_unrelayed; [by apply (loop_stop _ _ true)|by vm_compute..]).
    advance ltac:(apply t_conn_unrelayed; [by apply loop_done|by vm_compute..]).
    advance ltac:(apply t_conn_unrelayed; [apply (request_read _ _ [] true); [done|by vm_compute|done]|by vm_compute..]).
    advance ltac:(eapply (t_relay _ _ _ _ _ 0); [eapply (relay_start _ _ 0); reflexivity|reflexivity|
      eexists; split; reflexivity|by apply unrelayed_not]).
    advance ltac:(eapply t_far; [reflexivity|by apply (s_ahead _ true)|done]).
    advance ltac:(eapply t_down; [reflexivity|apply (s_read _ true _ [99] NoErr); [done..|by vm_compute]
      |apply (s_put _ true _ 1 [99] NoErr); [done..|simpl; lia]]).
    advance ltac:(eapply t_near; [eapply (s_put _ true _ 1); [done..|simpl; lia]|done]).
    apply rtc_refl.
  - split; [reflexivity|]. split; reflexivity.
Qed.

Lemma tunnel_integrity_witness :
  ∃ (t : tunnel) (f : far_side), far t = Some f ∧ out (up_flow (near t)) = [99] ∧
    [99] `prefix_of` far_byte f :: got (up_flow (far_relay f)).
Proof.
  destruct ex_tunnel as (t & f & Hr & Hf & Ho & _). exists t, f. split; [exact Hf|]. split; [exact Ho|].
  destruct (tunnel_integrity zero_conn zero_conn ex_relay ex_relay t Hr) as (_ & _ & H).
  destruct (H f Hf) as (_ & H' & _). rewrite Ho in H'. exact H'.
Defined.
