(* ===== verification/TunnelEnd.v ===== *)
(** * The end of a connection through the program (relay.go, conn.go, the
    handlers).

    When the relay of a handler has returned, [defer remote.Close()] closes the
    pipe to NewConn (Tunnel.v).  From then on a Read of the other end of the
    pipe fails and so does a Write to it; the relay of the winner ends, and
    with it every attempt, the loop and the reader of the request. *)

From S2P Require Import Prelude Defaults Relay ConnLoop Flow Tunnel.

Section ended.
Context (opts : ConnOptions) (ropts nopts : RelayOptions).     (* filled in *)

(** ** Steps *)

(** A Read that returns no bytes returns an error: those of the pipe, which
    is closed, and those of the remote, which block until there are bytes. *)
Definition reads_end (a : act) (s' : session) : Prop :=
  match a with Take i [] => buffer (flow_of i s') ≠ Some ([], NoErr) | _ => True end.

(** The steps of a tunnel that do not use the pipe. *)
Inductive ended_step : tunnel → tunnel → Prop :=
  | e_conn t c : ConnLoop.step opts (inner t) c → data c = data (inner t) →
      (∀ i pre b, relays c i pre b ↔ relays (inner t) i pre b) →
      ended_step t (MkTunnel (near t) c (far t))
  | e_relay t c i pre b : ConnLoop.step opts (inner t) c → data c = data (inner t) →
      relays c i pre b → ¬ relays (inner t) i pre b →
      ended_step t (MkTunnel (near t) c (Some (MkFar i b (session_init ropts pre [b]))))
  | e_relayed t c f pre b : ConnLoop.step opts (inner t) c → far t = Some f →
      relays (inner t) (far_try f) pre b → ¬ relays c (far_try f) pre b → returned (rl (far_relay f)) = true →
      ended_step t (MkTunnel (near t) c (far t))
  | e_far t f a s : far t = Some f → session_step ropts a (far_relay f) s → far_alone a → reads_end a s →
      ended_step t (MkTunnel (near t) (inner t) (Some (MkFar (far_try f) (far_byte f) s))).

Lemma ended_tunnel t t' : ended_step t t' → tunnel_step opts ropts nopts t t'.
Proof. intros Hs. destruct Hs; [by apply t_conn|by eapply t_relay|by eapply t_relayed|by eapply t_far]. Qed.

(** Once the relay of the handler has returned there are no others. *)
Lemma returned_still s a n : relay_ok nopts (rl s) → returned (rl s) = true → ¬ session_step nopts a s n.
Proof.
  intros H Hr Hs. assert (∀ i, phase_of i (rl s) = Gone) as Hg.
  { intros i. destruct (decide (phase_of i (rl s) = Gone)) as [|Hn]; [done|].
    by rewrite (not_returned nopts _ i H Hn) in Hr. }
  destruct Hs; try congruence;
    match goal with Hp : phase_of ?i _ = _ |- _ => by rewrite (Hg i) in Hp end.
Qed.

(** A Read of the relay of the winner that returns nothing and no error. *)
Definition read_nothing (t t' : tunnel) : Prop :=
  ∃ f s i, far t = Some f ∧ session_step ropts (Take i []) (far_relay f) s ∧
    buffer (flow_of i s) = Some ([], NoErr) ∧ t' = MkTunnel (near t) (inner t) (Some (MkFar (far_try f) (far_byte f) s)).

Lemma tunnel_ended t t' :
  relay_ok nopts (rl (near t)) → returned (rl (near t)) = true → tunnel_step opts ropts nopts t t' →
  ended_step t t' ∨ read_nothing t t'.
Proof.
  intros H Hr Hs. destruct Hs as [t a n Hn _|t c Hc Hd Hre|t n chunk Hn _ _|t c i pre b Hc Hd Hre Hno
    |t c f pre b Hc Hf Hre Hno Hret|t f a s Hf Hs Ha|t f n s chunk Hf Hn _|t f n s chunk Hf Hn _];
    try (by destruct (returned_still _ _ _ H Hr Hn)).
  - left. by apply e_conn.
  - left. by eapply e_relay.
  - left. by eapply e_relayed.
  - assert (reads_end a s ∨ ∃ i, a = Take i [] ∧ buffer (flow_of i s) = Some ([], NoErr)) as [He|(i & -> & Hi)].
    { destruct a as [|i [|x l]|]; simpl; [by left| |by left..].
      destruct (buffer (flow_of i s)) as [[[|x b] []]|] eqn:E; try (by left). right. by exists i. }
    + left. by eapply e_far.
    + right. by exists f, s, i.
Qed.

(** ** The parts *)

Record tunnel_live (t : tunnel) : Prop := {
  tl_ok : tunnel_ok opts t;
  tl_near : relay_ok nopts (rl (near t));
  tl_far f : far t = Some f → relay_ok ropts (rl (far_relay f));
  tl_relays i pre b : relays (inner t) i pre b → ∃ f, far t = Some f ∧ far_try f = i }.

Lemma session_relay_ok o a s s' : session_step o a s s' → relay_ok o (rl s) → relay_ok o (rl s').
Proof. intros Hs H. destruct (session_step_relay _ _ _ _ Hs) as [Hr| ->]; [by eapply Relay.step_ok|done]. Qed.

(** What a step of NewConn does to the relays of attempts. *)
Lemma relays_insert c c' i a a' :
  tries c !! i = Some a → tries c' = <[i := a']> (tries c) →
  (∀ pre b, at_stage a' = Relaying pre b ↔ at_stage a = Relaying pre b) →
  ∀ j pre b, relays c' j pre b ↔ relays c j pre b.
Proof.
  intros Hi Ht Hst j pre b. unfold relays. rewrite Ht. destruct (decide (i = j)) as [<-|Hn].
  - rewrite list_lookup_insert_eq by (by eapply lookup_lt_Some). rewrite Hi.
    split; intros (x & [= <-] & E); eexists; (split; [done|]); by apply Hst.
  - by rewrite list_lookup_insert_ne.
Qed.

Lemma relays_same c c' : tries c' = tries c → ∀ i pre b, relays c' i pre b ↔ relays c i pre b.
Proof. intros E i pre b. unfold relays. by rewrite E. Qed.

(** None starts or ends, one starts, or one ends. *)
Lemma step_relays c c' : ConnLoop.step opts c c' →
  (∀ i pre b, relays c' i pre b ↔ relays c i pre b) ∨
  (∃ i pre b, relays c' i pre b ∧ ¬ relays c i pre b) ∨
  (∃ i pre b, relays c i pre b ∧ ¬ relays c' i pre b).
Proof.
  intros Hs. assert (∀ s0 stopped, tries (stopTimer stopped s0) = tries s0) as Ht.
  { intros s0 stopped. unfold stopTimer. by destruct (_ && _). }
  destruct Hs as
    [s stopped Hl Hc|s stopped Hl Hm Ha Hn|s stopped Hl Hm Ha|s Hl Hk|s Hl Hk|s Hk
    |s i a ok cc Hi Hst|s i a Hi Hst|s i a Hi Hst|s i a Hi Hse Hw Hp|s i a Hi Hse Hw Hp Hlt
    |s i a k err m Hi Hse Hw Hk Hkm|s i a x err ts Hi Hst|s i a x Hi Hst Hl Hr Hd|s i a pre x Hi Hst
    |s i a Hi Hst Hd|s chunk err Hr Hc Hne];
    try (left; apply relays_same; simpl; by rewrite ?Ht).
  - left. intros i pre b. unfold relays. simpl. rewrite Ht. simpl. split; intros (a & Hi & Hst).
    + apply lookup_snoc_Some in Hi as [[_ Hi]|[_ <-]]; [by exists a|done].
    + exists a. rewrite lookup_app_l by (by eapply lookup_lt_Some). done.
  - left. eapply relays_insert; [done|by destruct cc|]. simpl. by rewrite Hst.
  - left. eapply relays_insert; [done|done|]. simpl. by rewrite Hst.
  - left. eapply relays_insert; [done|done|]. simpl. by rewrite Hst.
  - left. by eapply relays_insert.
  - left. by eapply relays_insert.
  - left. by eapply relays_insert.
  - left. unfold respond. destruct (_ || _); (eapply relays_insert; [done|done|]); simpl; by rewrite Hst.
  - right. left. eexists i, _, x. split.
    + eexists. split; [apply list_lookup_insert_eq; by eapply lookup_lt_Some|done].
    + intros (a' & Hi' & Hst'). congruence.
  - right. right. exists i, pre, x. split; [by exists a|]. intros (a' & Hi' & Hst'). simpl in Hi'.
    rewrite list_lookup_insert_eq in Hi' by (by eapply lookup_lt_Some). by injection Hi' as <-.
  - left. eapply relays_insert; [done|done|]. simpl. by rewrite Hst.
Qed.

#[local] Instance relays_dec c i pre b : Decision (relays c i pre b).
Proof.
  unfold relays. destruct (tries c !! i) as [a|]; [|right; by intros (a & ? & _)].
  destruct (decide (at_stage a = Relaying pre b)) as [E|E]; [left; by exists a|right].
  intros (a' & [= <-] & E'). done.
Defined.

Lemma tunnel_live_step t t' : tunnel_live t → tunnel_step opts ropts nopts t t' → tunnel_live t'.
Proof.
  intros H Hs. pose proof (tunnel_step_ok opts ropts nopts _ _ (tl_ok _ H) Hs) as Hok.
  destruct H as [H0 H1 H2 H3]. split; [done|..]; clear Hok.
  - destruct Hs; simpl; try done; by eapply session_relay_ok.
  - destruct Hs; simpl; try done; intros f0 [= <-]; simpl; try (eapply session_relay_ok; [done|by apply H2]).
    apply reach_ok, rtc_refl.
  - destruct Hs as [t a n Hn _|t c Hc Hd Hre|t n chunk Hn _ _|t c i pre b Hc Hd Hre Hno
      |t c f pre b Hc Hf Hre Hno Hret|t f a s Hf Hs Ha|t f n s chunk Hf Hn _|t f n s chunk Hf Hn _];
      simpl; try done; intros i' pre' b' Hr';
      try (apply H3 in Hr' as (f0 & Hf0 & <-); rewrite Hf in Hf0; injection Hf0 as <-; eexists; by split).
    + apply Hre in Hr'. by apply H3 in Hr'.
    + eexists. split; [done|]. simpl. pose proof (tk_relay_first opts _ _ _ _ _ H0 Hc Hre Hno) as Ef.
      pose proof (conn_step_ok opts _ _ (tk_inner _ _ H0) Hc) as Hcok.
      destruct Hre as (a & Hi & Hst), Hr' as (a' & Hi' & Hst').
      eapply (ok_winner _ _ Hcok); [done|done|unfold winner; by rewrite Hst|unfold winner; by rewrite Hst'].
    + destruct (decide (relays (inner t) i' pre' b')) as [Hr|Hr]; [by apply H3 in Hr|].
      by rewrite (tk_relay_first opts _ _ _ _ _ H0 Hc Hr' Hr) in Hf.
Qed.

Context (Hpar : 0 <= Parallel opts) (Hmax : 0 <= MaxAttempts opts).

Lemma tunnel_live_reach t : tunnel_reach opts ropts nopts t → tunnel_live t.
Proof using Hpar Hmax.
  intros Hr. assert (tunnel_live (tunnel_init nopts)) as H0.
  { split; simpl; [|by apply reach_ok, rtc_refl|done|by intros i pre b (a & Hi & _)].
    apply (tunnel_reach_ok opts ropts nopts); [done..|apply rtc_refl]. }
  clear -Hr H0. induction Hr as [|t1 t2 t3 Hs _ IH]; [done|]. apply IH. by eapply tunnel_live_step.
Qed.

(** ** Every execution ends *)

(** The copy to the pipe can write no more; the other reads no more. *)
Definition up_weight (f : flow) : nat :=
  match buffer f with None => 2 | Some ([], NoErr) => 3 | Some _ => 1 end.

Definition end_weight (i : bool) (f : flow) : nat := if i then up_weight f else flow_weight f.

Definition far_measure (s : session) : nat := session_measure end_weight s.

#[local] Opaque relayBuffer maxRequestSize connBuf_size.

Lemma end_weight_ahead i f : buffer f = None → ahead f ≠ [] → (end_weight i (read_ahead f) < end_weight i f)%nat.
Proof.
  intros Hb Ha. destruct i; [|by apply read_ahead_weight]. unfold end_weight, up_weight, read_ahead. cbn [buffer].
  rewrite Hb. assert (0 < Z.to_nat relayBuffer)%nat by (apply Nat2Z.inj_lt; rewrite Z2Nat.id; by vm_compute).
  destruct (Z.to_nat relayBuffer) as [|n]; [lia|]. destruct (ahead f) as [|x l]; [done|]. simpl. lia.
Qed.

Lemma end_weight_again i f : buffer f = Some ([], NoErr) → (end_weight i (again f) < end_weight i f)%nat.
Proof. intros Hb. destruct i; [|by apply again_weight]. unfold end_weight, up_weight. simpl. rewrite Hb. lia. Qed.

Lemma far_step_measure a s s' :
  relay_ok ropts (rl s) → session_step ropts a s s' → far_alone a → reads_end a s' →
  (far_measure s' < far_measure s)%nat.
Proof.
  intros H Hs Ha He. eapply session_step_weight; [done|apply end_weight_ahead|apply end_weight_again| |done].
  intros i chunk Hact.
  destruct Hs as [| j s c e Hp Hb Hah _ _ | j s k b e Hp Hb Hk | | | | | | | |]; try (by destruct Hact).
  - destruct Hact as [[= -> ->]|]; [|done]. destruct i, chunk as [|x l]; try done; simpl in *.
    + unfold up_weight. simpl. rewrite Hb. destruct e; [done|lia..].
    + unfold up_weight. simpl. rewrite Hb. lia.
    + apply read_failed_weight; [done|]. intros ->. done.
  - destruct Hact as [|[= -> _]]; [done|]. destruct i; [|by apply put_weight]. destruct b, k; simpl in *; lia.
Qed.

Lemma far_start_measure pre b : (far_measure (session_init ropts pre [b]) ≤ 16 * length pre + 32)%nat.
Proof.
  unfold far_measure, session_measure, copy_weight, end_weight, up_weight, flow_weight, Relay.measure. simpl. lia.
Qed.

(** What a relay that has not started may take. *)
Definition far_bound : nat := (16 * Z.to_nat (maxRequestSize + connBuf_size) + 33)%nat.

Definition tunnel_measure (t : tunnel) : nat :=
  (ConnLoop.measure opts (inner t) + from_option (λ f, far_measure (far_relay f)) far_bound (far t))%nat.

Lemma ended_measure t t' : tunnel_live t → ended_step t t' → (tunnel_measure t' < tunnel_measure t)%nat.
Proof.
  intros H Hs. pose proof (tk_inner _ _ (tl_ok _ H)) as Hc. unfold tunnel_measure.
  destruct Hs as [t c Hs _ _|t c i pre b Hs _ Hr Hno|t c f pre b Hs _ _ _ _|t f a s Hf Hs Ha He]; simpl.
  - pose proof (conn_step_measure opts _ _ Hc Hs). lia.
  - pose proof (conn_step_measure opts _ _ Hc Hs). rewrite (tk_relay_first opts _ _ _ _ _ (tl_ok _ H) Hs Hr Hno). simpl.
    pose proof (far_start_measure pre b). pose proof (conn_step_ok opts _ _ Hc Hs) as Hc'.
    destruct Hr as (x & Hi & Hst). pose proof (try_stage _ _ _ (try_at _ _ _ _ Hc' Hi)) as Hp. rewrite Hst in Hp.
    destruct Hp as (-> & _). pose proof (proj1 (ok_data _ _ Hc')). unfold far_bound. rewrite length_drop in *. lia.
  - pose proof (conn_step_measure opts _ _ Hc Hs). lia.
  - pose proof (far_step_measure a _ s (tl_far _ H f Hf) Hs Ha He). rewrite Hf. simpl. lia.
Qed.

(** Nothing is left. *)
Definition far_over (t : tunnel) : bool := match far t with Some f => returned (rl (far_relay f)) | None => true end.

Definition tunnel_over (t : tunnel) : Prop := finished (inner t) ∧ far_over t = true.

Lemma ended_progress t : tunnel_live t → ¬ tunnel_over t → ∃ t', ended_step t t'.
Proof.
  intros H Hn. pose proof (tk_inner _ _ (tl_ok _ H)) as Hc.
  destruct (far_over t) eqn:Hf; unfold far_over in Hf.
  - assert (¬ finished (inner t)) as Hfin by (intros Hfin; by apply Hn).
    destruct (rr_done (inner t)) eqn:Er.
    + destruct (conn_progress opts _ Hc Hfin) as [c Hs]. assert (data c = data (inner t)) as Hd by (by apply (step_flags opts _ _ Hs)).
      destruct (step_relays _ _ Hs) as [He|[(i & pre & b & Hr & Hno)|(i & pre & b & Hr & Hno)]].
      * eexists. by apply e_conn.
      * eexists. by eapply e_relay.
      * destruct (tl_relays _ H _ _ _ Hr) as (f & Ef & <-). rewrite Ef in Hf. eexists. by eapply e_relayed.
    + eexists. apply (e_conn t (read_request [] true (inner t))).
      * apply request_read; [done|by vm_compute|done].
      * simpl. by rewrite app_nil_r.
      * by apply relays_same.
  - destruct (far t) as [f|] eqn:Ef; [|done].
    destruct (session_progress ropts (far_relay f) (tl_far _ H f Ef) Hf) as (a & s & Hs & Hb).
    eexists. apply (e_far t f a s); [done..| |].
    + destruct Hb as [->|(i & -> & _)]; [done|by destruct i].
    + destruct Hb as [->|(i & -> & E)]; [done|]. simpl. by rewrite E.
Qed.
End ended.

(** ** Nothing is left behind *)

(** C2: once the relay of the handler of a connection has returned, and its
    end of the pipe to NewConn is closed, nothing can happen but steps of what
    is left: the loop, the reader of the request, the attempts with their
    writes, the relay of the winner (and Reads that return neither bytes nor
    an error). When every call of the network returns, every execution of it
    comes to an end in which the loop and all attempts have ended and the
    relay of the winner has returned. *)
Theorem tunnel_ends m opts ropts nopts t :
  tunnel_reach (conn_options m opts) ropts nopts t → returned (rl (near t)) = true →
  (∀ t', tunnel_step (conn_options m opts) ropts nopts t t' →
     ended_step (conn_options m opts) ropts t t' ∨ read_nothing ropts t t') ∧
  eventually (ended_step (conn_options m opts) ropts) tunnel_over t.
Proof.
  intros Hr Hn. destruct (conn_options_pos m opts) as (_ & _ & HP & HM).
  pose proof (tunnel_live_reach (conn_options m opts) ropts nopts ltac:(lia) ltac:(lia) _ Hr) as H. split.
  - intros t' Hs. eapply tunnel_ended; [by eapply tl_near|done..].
  - apply (eventually_measure _ (tunnel_live (conn_options m opts) ropts nopts) _ (tunnel_measure (conn_options m opts)));
      [intros t1; unfold tunnel_over, finished; apply _|..|done].
    + intros t1 t2 H1 _ Hs. split; [|by eapply ended_measure].
      eapply tunnel_live_step; [done|]. by apply ended_tunnel.
    + intros t1 H1. by eapply ended_progress.
Qed.

(** ** Witness: a client sends a byte and leaves while its first remote is dialed. *)

Lemma ex_left :
  ∃ t, tunnel_reach (conn_options zero_conn zero_conn) ex_relay ex_relay t ∧ returned (rl (near t)) = true ∧
    at_stage <$> tries (inner t) = [Dialing].
Proof.
  eexists. split.
  - unfold tunnel_reach.
    advance ltac:(eapply t_near; [apply (s_read _ false _ [97] NoErr); [done..|by vm_compute]|done]).
    advance ltac:(eapply t_request; [eapply (s_put _ false _ 1); [done..|simpl; lia]|done|by vm_compute]).
    advance ltac:(apply t_conn_unrelayed; [apply (loop_new _ _ false)|..]; by vm_compute).
    advance ltac:(eapply t_near; [by apply (s_wrote _ false)|done]).
    advance ltac:(eapply t_near; [apply (s_read _ false _ [] Broken); [done..|by vm_compute|done]|done]).
    advance ltac:(eapply t_near; [by eapply (s_end _ false)|done]).
    advance ltac:(eapply t_near; [by apply (s_done _ false)|done]).
    advance ltac:(eapply t_near; [apply (s_read _ true _ [] Broken); [done..|by vm_compute|done]|done]).
    advance ltac:(eapply t_near; [by eapply (s_end _ true)|done]).
    advance ltac:(eapply t_near; [by apply (s_done _ true)|done]).
    advance ltac:(eapply t_near; [by eapply s_receive|done]).
    advance ltac:(eapply t_near; [by apply s_finish|done]).
    apply rtc_refl.
  - split; reflexivity.
Qed.

Lemma tunnel_ends_witness :
  ∃ t, returned (rl (near t)) = true ∧ at_stage <$> tries (inner t) = [Dialing] ∧
    eventually (ended_step (conn_options zero_conn zero_conn) ex_relay) tunnel_over t.
Proof.
  destruct ex_left as (t & Hr & Hn & Ht). exists t. split; [exact Hn|]. split; [exact Ht|].
  exact (proj2 (tunnel_ends zero_conn zero_conn ex_relay ex_relay t Hr Hn)).
Defined.
