(* ===== verification/ConnClose.v ===== *)
(** * The end of a connection (conn.go).

    The WaitGroup of NewConn and the goroutine that waits for it: when all the
    goroutines, timers and coroutines of ConnLoop.v are done it closes the
    pipe and the channel of the life cycle, gives the buffers back and logs
    the connection.  A send on a closed channel, a second close and the
    address of a winner that is missing would panic. *)

From S2P Require Import Prelude Defaults ConnLoop.

Section closing.
Context (opts : ConnOptions).

(** ** The WaitGroup *)

(** Goroutines of an attempt: getRemote, the first Read, a Write, the relay. *)
Definition goroutines (a : attempt) : nat :=
  (match at_stage a with Dialing | Waiting | Relaying _ _ => 1 | _ => 0 end +
   match writing a with Some _ => if sending a then 1 else 0 | None => 0 end)%nat.

(** Coroutines that are ready, for which [Run] is running. *)
Definition loop_ready (c : conn) : bool :=
  match loop c with
  | Checking => cl_stop c || may_start opts c && ((Z.of_nat (attempts c) <? MaxAttempts opts) || (connections c =? 0)%nat)
  | Started | Leaving => negb (ticking c)
  | LoopDone => false
  end.

Definition sender_ready (c : conn) (a : attempt) : bool :=
  match writing a with
  | Some _ => false
  | None => sending a && (sr_stop a || (sent a <? length (data c))%nat)
  end.

Definition try_ready (c : conn) (a : attempt) : bool :=
  match at_stage a with
  | Dialed _ => true
  | Winning _ => bool_decide (loop c = LoopDone) && rr_done c && sr_done a
  | Closing => sr_done a
  | _ => false
  end || sender_ready c a.

Definition ready (c : conn) : bool := loop_ready c || existsb (try_ready c) (tries c).

(** The counter: the reader, the timer of the loop, the goroutines of the
    attempts, and [Run]. *)
Definition counter (c : conn) : nat :=
  ((if rr_done c then 0 else 1) + (if ticking c then 1 else 0) + sum_list_with goroutines (tries c) +
   (if ready c then 1 else 0))%nat.

(** ** State *)

Inductive close_stage := Wait | ClosePipe | CloseChannel | PutBuffer | LogClose | Closed.

#[export] Instance close_stage_eq_dec : EqDecision close_stage.
Proof. solve_decision. Defined.

(** [lifeCycleCh]: whether it is not nil and open; [buffers]: taken from
    connBufPool and not given back; [addr]: whether myState.remoteAddr is
    set. *)
Record closing := MkClosing {
  coroutines : conn;
  at_close : close_stage;
  pipe_open : bool;
  lifeCycleCh : bool;
  buffers : Z;
  addr : bool;
  panics : bool }.

(** The reader takes its buffer when the connection is made. *)
Definition close_init (lifeCycle : bool) : closing :=
  MkClosing init Wait true lifeCycle 1 false false.

Definition is_relaying (a : attempt) : bool := match at_stage a with Relaying _ _ => true | _ => false end.

(** The attempts whose relay ends in this step. *)
Definition relay_ended (c c' : conn) : bool :=
  existsb (λ '(a, a'), is_relaying a && negb (is_relaying a')) (zip (tries c) (tries c')).

(** A step of the coroutines: [reqBuf] is taken with the first bytes, the
    reader's buffer is given back at its end, an event is sent on the
    channel, the address is set after the relay. *)
Definition coroutine_step (lifeCycle : bool) (c' : conn) (s : closing) : closing :=
  let c := coroutines s in
  let get := if bool_decide (data c = []) && negb (bool_decide (data c' = [])) then 1 else 0 in
  let put := if negb (rr_done c) && rr_done c' then 1 else 0 in
  let sends := negb (length (events c') =? length (events c))%nat in
  MkClosing c' (at_close s) (pipe_open s) (lifeCycleCh s) (buffers s + get - put) (addr s || relay_ended c c')
    (panics s || sends && lifeCycle && negb (lifeCycleCh s)).

Definition close_next (lifeCycle : bool) (s : closing) : closing :=
  let c := coroutines s in
  match at_close s with
  | Wait => MkClosing c ClosePipe (pipe_open s) (lifeCycleCh s) (buffers s) (addr s) (panics s)
  | ClosePipe => MkClosing c CloseChannel false (lifeCycleCh s) (buffers s) (addr s) (panics s)
  | CloseChannel =>
      MkClosing c PutBuffer (pipe_open s) false (buffers s) (addr s)
        (panics s || lifeCycle && negb (lifeCycleCh s))
  | PutBuffer =>
      MkClosing c LogClose (pipe_open s) (lifeCycleCh s)
        (buffers s - (if bool_decide (data c = []) then 0 else 1)) (addr s) (panics s)
  | LogClose =>
      MkClosing c Closed (pipe_open s) (lifeCycleCh s) (buffers s) (addr s)
        (panics s || hasWinner c && negb (addr s))
  | Closed => s
  end.

Context (lifeCycle : bool).       (* whether it is not nil *)

Inductive close_step : closing → closing → Prop :=
  | c_coroutine s c' : step opts (coroutines s) c' → close_step s (coroutine_step lifeCycle c' s)
  | c_wait s : at_close s = Wait → counter (coroutines s) = O → close_step s (close_next lifeCycle s)
  | c_next s : at_close s ≠ Wait → at_close s ≠ Closed → close_step s (close_next lifeCycle s).

Definition close_reach : closing → Prop := rtc close_step (close_init lifeCycle).

(** ** When the WaitGroup is done *)

Lemma counter_pos_ready c : ready c = true → (0 < counter c)%nat.
Proof. intros H. unfold counter. rewrite H. lia. Qed.

Lemma try_counts c i a : conn_ok opts c → tries c !! i = Some a → loop c = LoopDone → rr_done c = true →
  at_stage a ≠ Ended → (0 < counter c)%nat.
Proof.
  intros H Hi Hl Hr Hst. pose proof (try_at _ _ _ _ H Hi) as [_ _ Hw Ht].
  assert (∀ k, goroutines a = S k → (0 < counter c)%nat) as Hg.
  { intros k Hk. pose proof (sum_with_lookup goroutines _ _ _ Hi). unfold counter. lia. }
  assert (try_ready c a = true → (0 < counter c)%nat) as Hready.
  { intros E. apply counter_pos_ready. unfold ready. apply orb_true_iff. right. apply existsb_exists.
    exists a. split; [|done]. apply list_elem_of_In. by eapply list_elem_of_lookup_2. }
  assert (sending a = true → sr_stop a = true → (0 < counter c)%nat) as Hsend.
  { intros Hse Hsr. destruct (writing a) as [m|] eqn:Ew.
    - apply (Hg (goroutines a - 1)%nat). unfold goroutines. rewrite Ew, Hse. lia.
    - apply Hready. unfold try_ready, sender_ready. rewrite Ew, Hse, Hsr. apply orb_true_r. }
  destruct (at_stage a) eqn:Est; [|..|done].
  - eapply Hg. unfold goroutines. by rewrite Est.
  - apply Hready. unfold try_ready. by rewrite Est.
  - eapply Hg. unfold goroutines. by rewrite Est.
  - destruct (sr_done a) eqn:Ed; [|apply Hsend; [unfold sending; by rewrite Est, Ed|done]].
    apply Hready. unfold try_ready. rewrite Est, bool_decide_true, Hr, Ed by done. done.
  - eapply Hg. unfold goroutines. by rewrite Est.
  - destruct (sr_done a) eqn:Ed; [|apply Hsend; [unfold sending; by rewrite Est, Ed|done]].
    apply Hready. unfold try_ready. by rewrite Est, Ed.
Qed.

(** No coroutine is left in a wait that nothing ends. *)
Lemma counter_finished c : conn_ok opts c → counter c = O → finished c.
Proof.
  intros H H0. assert (rr_done c = true) as Hr by (unfold counter in H0; destruct (rr_done c); [done|lia]).
  assert (cl_stop c = true) as Hc by (apply (ok_stopped _ _ H); auto).
  assert (loop c = LoopDone) as Hl.
  { destruct (loop c) eqn:El; [| | |done].
    all: assert (loop_ready c = true → False) as Hn by
      (intros E; assert (0 < counter c)%nat by (apply counter_pos_ready; unfold ready; by rewrite E); lia).
    - destruct Hn. unfold loop_ready. by rewrite El, Hc.
    - unfold loop_ready in Hn. rewrite El in Hn. unfold counter in H0. destruct (ticking c); [lia|by destruct Hn].
    - unfold loop_ready in Hn. rewrite El in Hn. unfold counter in H0. destruct (ticking c); [lia|by destruct Hn]. }
  split; [done|]. split; [done|]. apply Forall_lookup. intros i a Hi.
  destruct (decide (at_stage a = Ended)) as [|Hst]; [done|].
  pose proof (try_counts c i a H Hi Hl Hr Hst). lia.
Qed.

Lemma finished_counter c : finished c → ticking c = false → counter c = O.
Proof.
  intros (Hl & Hr & Hf) Ht. unfold counter, ready, loop_ready. rewrite Hr, Ht, Hl. simpl.
  assert (sum_list_with goroutines (tries c) = O ∧ existsb (try_ready c) (tries c) = false) as [-> ->]; [|done].
  induction Hf as [|a l Ha _ IH]; [done|]. simpl. destruct IH as [-> ->].
  assert (sending a = false) as Hs by (unfold sending; by rewrite Ha).
  unfold goroutines, try_ready, sender_ready. rewrite Ha, Hs. by destruct (writing a).
Qed.

Lemma finished_stuck c c' : finished c → ticking c = false → ¬ step opts c c'.
Proof.
  intros (Hl & Hr & Hf) Ht Hs. rewrite Forall_lookup in Hf.
  assert (∀ i a, tries c !! i = Some a → sending a = false) as Hse.
  { intros i a Hi. unfold sending. by rewrite (Hf i a Hi). }
  destruct Hs; try congruence;
    match goal with
    | Hi : tries _ !! _ = Some _, Hst : at_stage _ = _ |- _ => by rewrite (Hf _ _ Hi) in Hst
    | Hi : tries _ !! _ = Some _, Hst : sending _ = true |- _ => by rewrite (Hse _ _ Hi) in Hst
    end.
Qed.

(** The timer is not running when the loop is done. *)
Lemma step_loop_done c c' : step opts c c' → (loop c = LoopDone → ticking c = false) →
  (loop c' = LoopDone → ticking c' = false).
Proof.
  intros Hs H. destruct Hs; simpl in *; try done.
  - by destruct close_conn.
  - unfold respond. by destruct (_ || _).
Qed.

(** What makes a winner, and what becomes of it. *)
Lemma step_wins c c' : step opts c c' → hasWinner c = false → hasWinner c' = true →
  ∃ i a, tries c' !! i = Some a ∧ winner a = true.
Proof.
  intros Hs H H'. assert (∀ s b, hasWinner (stopTimer b s) = hasWinner s) as Ht.
  { intros s b. unfold stopTimer. by destruct (_ && _). }
  destruct Hs; simpl in H'; rewrite ?Ht in H'; simpl in H'; try congruence.
  - destruct close_conn; simpl in H'; congruence.
  - unfold respond in *. destruct (err || negb timer_stopped || hasWinner s); simpl in *; [congruence|].
    eexists i, _. split; [apply list_lookup_insert_eq; by eapply lookup_lt_Some|done].
Qed.

Lemma winner_step c c' i a : step opts c c' → tries c !! i = Some a → winner a = true →
  relay_ended c c' = true ∨ ∃ a', tries c' !! i = Some a' ∧ winner a' = true.
Proof.
  intros Hs Hi Hw. destruct (step_moved opts _ _ _ _ Hs Hi) as (a' & Hi' & Hm).
  destruct (winner a') eqn:Ew; [right; eauto|]. left.
  unfold relay_ended. apply existsb_exists. exists (a, a'). split.
  - apply list_elem_of_In, list_elem_of_lookup. exists i. apply lookup_zip_with_Some. eauto.
  - unfold winner in Hw, Ew. unfold is_relaying. destruct Hm as [[E _]|[_ E]]; [by rewrite E, Hw in Ew|].
    by destruct (at_stage a), (at_stage a').
Qed.

Lemma step_data c c' : step opts c c' → data c ≠ [] → data c' ≠ [].
Proof.
  intros Hs H. assert (∀ s b, data (stopTimer b s) = data s) as Ht.
  { intros s b. unfold stopTimer. by destruct (_ && _). }
  destruct Hs; simpl; rewrite ?Ht; try done.
  - by destruct close_conn.
  - unfold respond. by destruct (_ || _).
  - intros [E _]%app_nil. done.
Qed.

(** ** The invariant *)

Definition before_put (st : close_stage) : bool :=
  match st with Wait | ClosePipe | CloseChannel | PutBuffer => true | _ => false end.

Record close_ok (s : closing) : Prop := {
  ck_conn : conn_ok opts (coroutines s);
  ck_timer : loop (coroutines s) = LoopDone → ticking (coroutines s) = false;
  ck_wait : at_close s ≠ Wait → finished (coroutines s);
  ck_pipe : pipe_open s = match at_close s with Wait | ClosePipe => true | _ => false end;
  ck_channel : lifeCycleCh s = lifeCycle && match at_close s with Wait | ClosePipe | CloseChannel => true | _ => false end;
  ck_buffers : buffers s = (if rr_done (coroutines s) then 0 else 1) +
    (if before_put (at_close s) && negb (bool_decide (data (coroutines s) = [])) then 1 else 0);
  ck_addr : hasWinner (coroutines s) = true → addr s = true ∨
    ∃ i a, tries (coroutines s) !! i = Some a ∧ winner a = true;
  ck_panics : panics s = false }.

(** Once Wait has returned, nothing of the connection runs. *)
Lemma closing_stuck s c : close_ok s → at_close s ≠ Wait → ¬ step opts (coroutines s) c.
Proof.
  intros H Hw. pose proof (ck_wait _ H Hw) as Hf. apply finished_stuck; [done|]. apply (ck_timer _ H), Hf.
Qed.

Lemma coroutine_ok s c' : close_ok s → step opts (coroutines s) c' → close_ok (coroutine_step lifeCycle c' s).
Proof.
  intros H Hs. destruct (decide (at_close s = Wait)) as [E|E]; [|by destruct (closing_stuck s c' H E)].
  destruct H as [H1 H2 H3 H4 H5 H6 H7 H8]. destruct (step_flags opts _ _ Hs) as [Hw Hd].
  split; unfold coroutine_step; simpl; rewrite ?E in *; simpl in *; try done.
  - by eapply conn_step_ok.
  - by eapply step_loop_done.
  - rewrite H6. pose proof (step_data _ _ Hs) as Hne.
    assert (bool_decide (data (coroutines s) = []) = false → bool_decide (data c' = []) = false) as Hb.
    { rewrite !bool_decide_eq_false. done. }
    destruct (rr_done (coroutines s)); [destruct (Hd eq_refl) as [-> ->]|].
    + destruct (bool_decide (data (coroutines s) = [])); simpl; lia.
    + destruct (rr_done c'), (bool_decide (data (coroutines s) = [])), (bool_decide (data c' = [])); simpl;
        try lia; by specialize (Hb eq_refl).
  - intros Hw'. destruct (hasWinner (coroutines s)) eqn:Ew; [|right; by eapply step_wins].
    destruct (H7 eq_refl) as [->|(i & a & Hi & Ha)]; [by left|].
    destruct (winner_step _ _ _ _ Hs Hi Ha) as [->|(a' & Hi' & Ha')]; [left; apply orb_true_r|right; eauto].
  - rewrite H8, H5. destruct lifeCycle; simpl; by rewrite !andb_false_r.
Qed.

Lemma finished_addr s : close_ok s → finished (coroutines s) → hasWinner (coroutines s) = true → addr s = true.
Proof.
  intros H (_ & _ & Hf) Hw. destruct (ck_addr _ H Hw) as [|(i & a & Hi & Ha)]; [done|].
  rewrite Forall_lookup in Hf. unfold winner in Ha. by rewrite (Hf i a Hi) in Ha.
Qed.

Lemma close_next_ok s : close_ok s → at_close s ≠ Closed → (at_close s = Wait → finished (coroutines s)) →
  close_ok (close_next lifeCycle s).
Proof.
  intros H Hc Hf. assert (finished (coroutines s)) as Hfin.
  { destruct (decide (at_close s = Wait)); [auto|by apply H]. }
  pose proof (finished_addr s H Hfin) as Hadd. destruct Hfin as (Hl & Hr & _).
  destruct H as [H1 H2 H3 H4 H5 H6 H7 H8]. unfold close_next.
  destruct (at_close s) eqn:E; simpl in *; (split; simpl; try done; try (by auto); rewrite ?H8, ?H5, ?H6, ?Hr; simpl).
  all: try (by rewrite andb_true_r); try (by rewrite andb_false_r); try done.
  - rewrite andb_true_r. by destruct lifeCycle.
  - destruct (bool_decide _); simpl; lia.
  - destruct (hasWinner (coroutines s)); [|done]. by rewrite Hadd.
Qed.

Lemma close_step_ok s s' : close_ok s → close_step s s' → close_ok s'.
Proof.
  intros H Hs. destruct Hs as [s c' Hs|s Hw Hz|s Hw Hc].
  - by apply coroutine_ok.
  - apply close_next_ok; [done|by rewrite Hw|]. intros _. apply counter_finished; [apply H|done].
  - by apply close_next_ok.
Qed.

Lemma closed_all s : close_ok s → at_close s = Closed →
  at_close s = Closed ∧ pipe_open s = false ∧ lifeCycleCh s = false ∧ buffers s = 0.
Proof.
  intros H Hc. assert (rr_done (coroutines s) = true) as Hr by (apply (ck_wait _ H); by rewrite Hc).
  rewrite (ck_pipe _ H), (ck_channel _ H), (ck_buffers _ H), Hc, Hr, andb_false_r. done.
Qed.

(** ** Every execution closes *)

Definition close_weight (st : close_stage) : nat :=
  match st with Wait => 5 | ClosePipe => 4 | CloseChannel => 3 | PutBuffer => 2 | LogClose => 1 | Closed => 0 end.

Definition close_measure (s : closing) : nat :=
  (measure opts (coroutines s) + close_weight (at_close s))%nat.

Lemma close_next_measure s : at_close s ≠ Closed → (close_measure (close_next lifeCycle s) < close_measure s)%nat.
Proof. intros Hc. unfold close_measure, close_next. destruct (at_close s); simpl; try lia. done. Qed.

Lemma close_step_measure s s' : close_ok s → close_step s s' → (close_measure s' < close_measure s)%nat.
Proof.
  intros H Hs. destruct Hs as [s c' Hs|s Hw Hz|s Hw Hc].
  - unfold close_measure. simpl. pose proof (conn_step_measure opts _ _ (ck_conn _ H) Hs). lia.
  - apply close_next_measure. by rewrite Hw.
  - by apply close_next_measure.
Qed.

Lemma close_progress s : close_ok s → at_close s ≠ Closed → ∃ s', close_step s s'.
Proof.
  intros H Hc. destruct (decide (at_close s = Wait)) as [Hw|Hw]; [|eexists; by apply c_next].
  destruct (decide (counter (coroutines s) = O)) as [Hz|Hz]; [eexists; by apply c_wait|].
  destruct (conn_progress opts (coroutines s) (ck_conn _ H)) as [c' Hs]; [|eexists; by apply c_coroutine].
  intros Hf. apply Hz, finished_counter; [done|]. apply (ck_timer _ H), Hf.
Qed.

Context (Hpar : 0 <= Parallel opts) (Hmax : 0 <= MaxAttempts opts).
#[local] Set Default Proof Using "Type*".

Lemma close_reach_ok s : close_reach s → close_ok s.
Proof.
  intros Hr. assert (close_ok (close_init lifeCycle)) as H0.
  { split; simpl; try done. - by apply init_ok. - by rewrite andb_true_r. }
  induction Hr as [|s1 s2 s3 Hs _ IH]; [done|]. apply IH. by eapply close_step_ok.
Qed.
End closing.

(** C22: the goroutine that ends a connection never panics; once its Wait has
    returned, no coroutine, goroutine or timer of the connection is left that
    could use the pipe, the channel or the buffers; and when every call of the
    network and every relay returns, every execution ends with the pipe and
    the channel of the life cycle closed and all buffers given back. *)
Theorem conn_closes m opts lifeCycle s :
  close_reach (conn_options m opts) lifeCycle s →
  panics s = false ∧
  (at_close s ≠ Wait → finished (coroutines s) ∧ ∀ c, ¬ step (conn_options m opts) (coroutines s) c) ∧
  eventually (close_step (conn_options m opts) lifeCycle)
    (λ s, at_close s = Closed ∧ pipe_open s = false ∧ lifeCycleCh s = false ∧ buffers s = 0) s.
Proof.
  intros Hr. destruct (conn_options_pos m opts) as (_ & _ & HP & HM).
  pose proof (close_reach_ok (conn_options m opts) lifeCycle ltac:(lia) ltac:(lia) _ Hr) as H.
  split_and!; [by eapply ck_panics|intros Hw; split; [by eapply ck_wait|intros c; by eapply (closing_stuck _ lifeCycle)]|].
  apply (eventually_measure _ (close_ok (conn_options m opts) lifeCycle) _ (close_measure (conn_options m opts)));
    [intros s1; apply _|..|done].
  - intros s1 s2 H1 _ Hs. split; [by eapply close_step_ok|by eapply close_step_measure].
  - intros s1 H1 Hn. apply close_progress; [done|]. intros Hc. apply Hn. by eapply closed_all.
Qed.

(** ** Witness *)

Lemma conn_closes_witness :
  at_close (close_init true) = Wait ∧ panics (close_init true) = false ∧
  eventually (close_step (conn_options zero_conn zero_conn) true)
    (λ s, at_close s = Closed ∧ pipe_open s = false ∧ lifeCycleCh s = false ∧ buffers s = 0) (close_init true).
Proof.
  split; [reflexivity|].
  destruct (conn_closes zero_conn zero_conn true (close_init true) (rtc_refl _ _)) as (H1 & _ & H2).
  split; [exact H1|exact H2].
Defined.
