(* ===== verification/ConnClock.v ===== *)
(** * The clock of a connection (conn.go).

    ConnLoop.v with time: when the loop makes its attempts.  Coroutines that
    are ready ([ConnClose.ready]) run before time passes; the calls of the
    network take the time they take. *)

From S2P Require Import Prelude Defaults ConnLoop ConnClose.

Section clock.
Context (opts : ConnOptions).

(** ** State *)

(** Nanoseconds since NewConn; [due]: when the timer of the loop fires;
    [starts]: when the attempts were made. *)
Record clocked := MkClocked { cn : conn; now : Z; due : Z; starts : list Z }.

Definition clock_init : clocked := MkClocked init 0 0 [].

(** [startTimer] sets the timer, [newConn] makes an attempt. *)
Definition move (c' : conn) (s : clocked) : clocked :=
  let c := cn s in
  MkClocked c' (now s)
    (if negb (ticking c) && ticking c' then now s + Interval opts else due s)
    (if (attempts c <? attempts c')%nat then starts s ++ [now s] else starts s).

(** The timer fires when it is due, or is stopped at the end of the loop. *)
Inductive clock_step : clocked → clocked → Prop :=
  | q_move s c' : step opts (cn s) c' →
      (ticking (cn s) = true → ticking c' = false → due s <= now s ∨ loop c' ≠ loop (cn s)) →
      clock_step s (move c' s)
  | q_pass s d : 0 < d → ready opts (cn s) = false → (ticking (cn s) = true → now s + d <= due s) →
      clock_step s (MkClocked (cn s) (now s + d) (due s) (starts s)).

Definition clock_reach : clocked → Prop := rtc clock_step clock_init.

(** ** The invariant *)

(** Each attempt is made an interval after the one before, or later. *)
Definition spaced (l : list Z) : Prop :=
  ∀ i x y, l !! i = Some x → l !! S i = Some y → x + Interval opts <= y.

Record clock_ok (s : clocked) : Prop := {
  cc_conn : conn_ok opts (cn s);
  cc_now : 0 <= now s ∧ Forall (λ x, 0 <= x <= now s) (starts s);
  cc_starts : length (starts s) = attempts (cn s);
  cc_spaced : spaced (starts s);
  cc_started : loop (cn s) = Started → last (starts s) = Some (now s);
  cc_ticking : ticking (cn s) = true →
    ∃ x, last (starts s) = Some x ∧ due s = x + Interval opts ∧ now s <= due s;
  cc_waited x : ticking (cn s) = false → loop (cn s) = Checking → last (starts s) = Some x → x + Interval opts <= now s }.

Lemma spaced_snoc l y : spaced l → (∀ x, last l = Some x → x + Interval opts <= y) → spaced (l ++ [y]).
Proof.
  intros H Hy i x z Hx Hz. apply lookup_snoc_Some in Hz as [[Hlt Hz]|[Hlen <-]].
  - apply lookup_snoc_Some in Hx as [[_ Hx]|[E _]]; [by eapply H|lia].
  - apply Hy. apply lookup_snoc_Some in Hx as [[_ Hx]|[E _]]; [|lia]. by rewrite last_lookup, <- Hlen.
Qed.

Lemma move_ok s c' : 0 <= Interval opts → clock_ok s → step opts (cn s) c' →
  (ticking (cn s) = true → ticking c' = false → due s <= now s ∨ loop c' ≠ loop (cn s)) →
  clock_ok (move c' s).
Proof.
  intros HI [H1 [H2 H2'] H3 H4 H5 H6 H7] Hs Hf. pose proof (conn_step_ok opts _ _ H1 Hs) as H1'.
  pose proof (ok_started _ _ H1) as Hst.
  destruct (step_paced opts _ _ H1 Hs) as [Hl Ha Ht|Hl Hl' Hn Ha Ht|Hl Hl' Ha Ht|Hl Ha Ht Ht'|Hl Ha Ht].
  - assert ((attempts (cn s) <? attempts c')%nat = false) as Ea by (apply Nat.ltb_ge; lia).
    split; unfold move; simpl; rewrite ?Ea; try done.
    + congruence.
    + intros E. by destruct Hl as [El|El]; rewrite El in E.
    + intros E. rewrite (Ht E). by apply H6, Ht.
    + intros x _ E. by destruct Hl as [El|El]; rewrite El in E.
  - assert ((attempts (cn s) <? attempts c')%nat = true) as Ea by (apply Nat.ltb_lt; lia).
    assert (ticking (cn s) = false) as Et by (by rewrite (ok_timer _ _ H1), Hn).
    split; unfold move; simpl; rewrite ?Ea; try done.
    + split; [done|]. apply Forall_app. split; [done|]. apply Forall_singleton. lia.
    + rewrite length_app. simpl. lia.
    + apply spaced_snoc; [done|]. intros x. by apply H7.
    + intros _. by rewrite last_snoc.
    + congruence.
    + intros x _ E. congruence.
  - assert ((attempts (cn s) <? attempts c')%nat = false) as Ea by (apply Nat.ltb_ge; lia).
    split; unfold move; simpl; rewrite ?Ea, ?Ht; try done.
    + congruence.
    + congruence.
    + intros _. exists (now s). rewrite (Hst Hl). simpl. split_and!; [by apply H5|done|lia].
  - assert ((attempts (cn s) <? attempts c')%nat = false) as Ea by (apply Nat.ltb_ge; lia).
    split; unfold move; simpl; rewrite ?Ea, ?Ht'; try done.
    + congruence.
    + intros E. rewrite Hl in E. by rewrite (Hst E) in Ht.
    + intros x _ E Hx. destruct (H6 Ht) as (x' & Hx' & Hd & _). destruct (Hf Ht Ht') as [|Hne]; [|done].
      rewrite Hx in Hx'. injection Hx' as <-. lia.
  - assert ((attempts (cn s) <? attempts c')%nat = false) as Ea by (apply Nat.ltb_ge; lia).
    split; unfold move; simpl; rewrite ?Ea, ?Ht, ?Hl; try done.
    + congruence.
    + intros E. rewrite E. by apply H6.
Qed.

Lemma paced_step_ok s s' : 0 <= Interval opts → clock_ok s → clock_step s s' → clock_ok s'.
Proof.
  intros HI H Hs. destruct Hs as [s c' Hs Hf|s d Hd Hr Hdue]; [by apply move_ok|].
  destruct H as [H1 [H2 H2'] H3 H4 H5 H6 H7]. split; simpl; try done.
  - split; [lia|]. eapply Forall_impl; [exact H2'|]. simpl. lia.
  - intros E. unfold ready, loop_ready in Hr. rewrite E, (ok_started _ _ H1 E) in Hr. done.
  - intros E. destruct (H6 E) as (x & Hx & Hdx & _). exists x. split_and!; [done..|by apply Hdue].
  - intros x E El Hx. pose proof (H7 x E El Hx). lia.
Qed.

Lemma spaced_last l x : 0 <= Interval opts → spaced l → Forall (λ x, 0 <= x) l → last l = Some x →
  (Z.of_nat (length l) - 1) * Interval opts <= x.
Proof.
  intros HI. revert x. induction l as [|y l IH] using rev_ind; [done|]. intros x Hs [Hf Hy]%Forall_app.
  rewrite last_snoc. intros [= ->]. rewrite Forall_singleton in Hy. rewrite length_app. simpl.
  destruct (last l) as [z|] eqn:El.
  - assert (z + Interval opts <= x) as Hz.
    { rewrite last_lookup in El. apply (Hs (pred (length l)) z x); [rewrite lookup_app_l; [done|by eapply lookup_lt_Some]|].
      apply lookup_lt_Some in El as Hlt. rewrite lookup_app_r by lia. by replace (S (pred (length l)) - length l)%nat with O by lia. }
    assert ((Z.of_nat (length l) - 1) * Interval opts <= z); [|lia]. apply IH; [|done|done].
    intros i a b Ha Hb. apply (Hs i a b); by apply lookup_app_l_Some.
  - apply last_None in El as ->. simpl. lia.
Qed.

Context (HI : 0 <= Interval opts) (Hpar : 0 <= Parallel opts) (Hmax : 0 <= MaxAttempts opts).

Lemma paced_reach_ok s : clock_reach s → clock_ok s.
Proof using HI Hpar Hmax.
  intros Hr. assert (clock_ok clock_init) as H0.
  { split; simpl; try done. by apply init_ok. }
  induction Hr as [|s1 s2 s3 Hs _ IH]; [done|]. apply IH. by eapply paced_step_ok.
Qed.
End clock.

(** C21: the attempts of a connection are made on time: each an interval after
    the one before or later, so that there were at most 1 + T / Interval after
    a time T; and whenever nothing is ready to run and the loop goes on, the
    next attempt waits for the interval to pass, for one of Parallel attempts
    to end, or all MaxAttempts were made. *)
Theorem attempts_paced m opts s :
  let opts := conn_options m opts in
  clock_reach opts s →
  length (starts s) = length (tries (cn s)) ∧ spaced opts (starts s) ∧
  (starts s ≠ [] → (Z.of_nat (length (starts s)) - 1) * Interval opts <= now s) ∧
  (ready opts (cn s) = false → loop (cn s) = Checking →
   cl_stop (cn s) = false ∧
   ((∃ x, last (starts s) = Some x ∧ now s <= x + Interval opts) ∨
    Parallel opts <= Z.of_nat (connections (cn s)) ∨
    Z.of_nat (length (starts s)) = MaxAttempts opts)).
Proof.
  intros o Hr. destruct (conn_options_pos m opts) as (_ & HI & HP & HM). fold o in HI, HP, HM.
  pose proof (paced_reach_ok o ltac:(lia) ltac:(lia) ltac:(lia) s Hr) as H.
  pose proof H as [H1 [H2 H2'] H3 H4 H5 H6 H7]. split_and!.
  - by rewrite H3, <- (ok_attempts _ _ H1).
  - done.
  - intros Hne. destruct (last (starts s)) as [x|] eqn:El; [|by apply last_None in El].
    assert (x <= now s) as Hx.
    { rewrite last_lookup in El. rewrite Forall_lookup in H2'. by apply (H2' _ _ El). }
    assert ((Z.of_nat (length (starts s)) - 1) * Interval o <= x); [|lia].
    apply spaced_last; [lia|done| |done]. eapply Forall_impl; [exact H2'|]. simpl. lia.
  - intros Hre Hl. unfold ready, loop_ready in Hre. rewrite Hl in Hre.
    apply orb_false_iff in Hre as [[Hc Hre]%orb_false_iff _]. split; [done|].
    unfold may_start in Hre. rewrite Hc in Hre. cbn [negb andb] in Hre.
    destruct (newconn (cn s)) eqn:Hn; cbn [andb] in Hre.
    + destruct (Z.ltb_spec (Z.of_nat (connections (cn s))) (Parallel o)); [|by right; left]. cbn [andb] in Hre.
      apply orb_false_iff in Hre as [Hre _]. apply Z.ltb_ge in Hre. right. right.
      pose proof (ok_max _ _ H1). rewrite H3. lia.
    + left. destruct (H6 ltac:(by rewrite (ok_timer _ _ H1), Hn)) as (x & Hx & Hd & Hle). exists x. split; [done|lia].
Qed.

(** ** Witness: an attempt fails; the next is made two seconds after it. *)

Definition ex_tries : list attempt :=
  [MkAttempt Ended 0 None false false []; MkAttempt Dialing 0 None false false []].

Definition ex_paced : clocked :=
  MkClocked (MkConn Checking false true false 1 2 ex_tries [] false false false []) (2 * second) (4 * second) [0; 2 * second].

Lemma ex_paced_reach : clock_reach (conn_options zero_conn zero_conn) ex_paced.
Proof.
  unfold clock_reach.
  advance ltac:(eapply q_move; [by apply (loop_new _ _ false)|done]).
  advance ltac:(eapply q_move; [by apply loop_timer|done]).
  advance ltac:(eapply q_move; [by apply (dial_returns _ _ 0 (MkAttempt Dialing 0 None false false []) false false)|done]).
  advance ltac:(eapply q_move; [by eapply (dial_failed _ _ 0)|done]).
  advance ltac:(apply (q_pass _ _ (2 * second)); [done|by vm_compute|by vm_compute]).
  advance ltac:(eapply q_move; [by apply timer_fires|intros _ _; left; by vm_compute]).
  advance ltac:(eapply q_move; [by apply (loop_new _ _ false)|done]).
  advance ltac:(eapply q_move; [by apply loop_timer|done]).
  apply rtc_refl.
Qed.

Lemma attempts_paced_witness :
  starts ex_paced = [0; 2 * second] ∧
  (Z.of_nat (length (starts ex_paced)) - 1) * Interval (conn_options zero_conn zero_conn) <= now ex_paced.
Proof.
  split; [reflexivity|].
  destruct (attempts_paced zero_conn zero_conn ex_paced ex_paced_reach) as (_ & _ & H & _). apply H. discriminate.
Defined.
