(* ===== verification/DnsConn.v ===== *)
(** * The connection of a DNS client (service/socks/socks.go,
    service/tcptun/dnstun/dnstun.go).

    Both DNS clients keep one connection to a server, open it with NewConn and
    TLS, and exchange messages over it, in the same words; SocksWorker.v and
    DnstunConn.v are their loops.  What the libraries do (packing, HTTP) is a
    parameter, what the network does a choice of the turns; what is done to a
    connection is logged, and a monitor says which logs keep its protocol.
    Messages over plain HTTP do not go through the connection: net/http dials
    another ([round_trip]). *)

From S2P Require Import Prelude GoStrings AllowList Addr Defaults Dns.

Open Scope go_scope.
#[local] Arguments bs : simpl never.

(** ** Configurations of TLS *)

(** Also the key of their cache. *)
Record keyType := MkKey { s1 : gostring; s2 : gostring }.

#[export] Instance keyType_eq_dec : EqDecision keyType.
Proof. solve_decision. Defined.

#[export] Instance keyType_countable : Countable keyType.
Proof. refine (inj_countable' (λ k, (s1 k, s2 k)) (λ p, MkKey p.1 p.2) _). by intros []. Defined.

(** A tls.Config; the cache of sessions is its own. *)
Record tls_Config := MkConfig { ServerName : gostring; NextProtos : list gostring }.

(** ** The state of a worker *)

(** A net.Conn: a Conn of NewConn, or a client of TLS over one. *)
Inductive net_conn := Plain (c : nat) | Client (c config : nat).

Definition under (n : net_conn) : nat := match n with Plain c | Client c _ => c end.

Inductive event :=
  | NewConn (c : nat) (hostport : gostring)
  | SetOutgoingTimeout (c : nat) (tr tw : Z)
  | Write (n : net_conn) (data : list Z)
  | ReadFrom (n : net_conn)
  | RoundTrip (n : net_conn)
  | DirectTrip (url : gostring)          (* over a connection of the transport's own *)
  | Close (n : net_conn)
  | Wait                                 (* for the lifecycle callback *)
  | CloseIdleConnections.

(** dnsConn, with the variables around it.  [configs] is where the pointers to
    configurations point, [log] what was done to connections, [opened] how many
    there were. *)
Record worker := MkWorker {
  Net : option net_conn;
  Chrome : option nat;
  IdleTimeout : Z;
  ReadTimeout : Z;
  WriteTimeout : Z;
  IdleTimer : option Z;
  dnsServer : DNServer;
  tlsConfig : option nat;
  tlsConfigKey : keyType;
  tlsConfigCache : gmap keyType nat;
  configs : list tls_Config;
  opened : nat;
  log : list event }.

Definition start : worker :=
  MkWorker None None 0 0 0 None (MkServer [] [] [] 0 [] []) None (MkKey [] []) ∅ [] 0 [].

Definition with_log (w : worker) (l : list event) : worker :=
  MkWorker (Net w) (Chrome w) (IdleTimeout w) (ReadTimeout w) (WriteTimeout w) (IdleTimer w) (dnsServer w)
    (tlsConfig w) (tlsConfigKey w) (tlsConfigCache w) (configs w) (opened w) l.

Definition emit (e : event) : prog worker unit := modify (λ w, with_log w (log w ++ [e])).

Definition set_timer (t : option Z) : prog worker unit := modify (λ w,
  MkWorker (Net w) (Chrome w) (IdleTimeout w) (ReadTimeout w) (WriteTimeout w) t (dnsServer w)
    (tlsConfig w) (tlsConfigKey w) (tlsConfigCache w) (configs w) (opened w) (log w)).

Definition set_net (n : option net_conn) (c : option nat) : prog worker unit := modify (λ w,
  MkWorker n c (IdleTimeout w) (ReadTimeout w) (WriteTimeout w) (IdleTimer w) (dnsServer w)
    (tlsConfig w) (tlsConfigKey w) (tlsConfigCache w) (configs w) (opened w) (log w)).

Definition set_timeouts (idle read write : Z) : prog worker unit := modify (λ w,
  MkWorker (Net w) (Chrome w) idle read write (IdleTimer w) (dnsServer w)
    (tlsConfig w) (tlsConfigKey w) (tlsConfigCache w) (configs w) (opened w) (log w)).

Definition set_server (s : DNServer) : prog worker unit := modify (λ w,
  MkWorker (Net w) (Chrome w) (IdleTimeout w) (ReadTimeout w) (WriteTimeout w) (IdleTimer w) s
    (tlsConfig w) (tlsConfigKey w) (tlsConfigCache w) (configs w) (opened w) (log w)).

Definition set_tls (p : option nat) (key : keyType) : prog worker unit := modify (λ w,
  MkWorker (Net w) (Chrome w) (IdleTimeout w) (ReadTimeout w) (WriteTimeout w) (IdleTimer w) (dnsServer w)
    p key (tlsConfigCache w) (configs w) (opened w) (log w)).

(** [tlsConfig = &conf; tlsConfigCache[key] = tlsConfig] *)
Definition new_config (key : keyType) (conf : tls_Config) : prog worker unit := modify (λ w,
  let p := length (configs w) in
  MkWorker (Net w) (Chrome w) (IdleTimeout w) (ReadTimeout w) (WriteTimeout w) (IdleTimer w) (dnsServer w)
    (Some p) (tlsConfigKey w) (<[key := p]> (tlsConfigCache w)) (configs w ++ [conf]) (opened w) (log w)).

(** A new Conn of the Manager. *)
Definition new_conn (hostport : gostring) : prog worker nat := λ w,
  (Some (opened w),
   MkWorker (Net w) (Chrome w) (IdleTimeout w) (ReadTimeout w) (WriteTimeout w) (IdleTimer w) (dnsServer w)
     (tlsConfig w) (tlsConfigKey w) (tlsConfigCache w) (configs w) (S (opened w))
     (log w ++ [NewConn (opened w) hostport])).

(** ** Opening *)

Section client.
Context (dnshttp_NextProtos : list gostring).

Definition over_tls (s : DNServer) : bool := (s_Over s == bs "TLS") || (s_Over s == bs "HTTPS").

Definition key_of (s : DNServer) : keyType := MkKey (s_Name s) (s_Over s).

Definition config_of (key : keyType) : tls_Config :=
  MkConfig (s1 key) (if s2 key == bs "HTTPS" then dnshttp_NextProtos else []).

(** The configuration for a server: the last one, one of the cache, or a new
    one. *)
Definition choose_config (s : DNServer) : prog worker unit :=
  let key := key_of s in
  last ← gets tlsConfigKey;
  if key == last then mret tt
  else
    cache ← gets tlsConfigCache;
    _ ← set_tls (cache !! key) key;
    match cache !! key with
    | Some _ => mret tt
    | None => new_config key (config_of key)
    end.

(** From NewConn to the end of the block that opens a connection; [None] of
    [tlsConfig] is the nil pointer, with which tls.Client would fail. *)
Definition open_connection (hostport : gostring) (s : DNServer) (idle read write : Z) : prog worker unit :=
  c ← new_conn hostport;
  n ← (if over_tls s then
         _ ← choose_config s;
         p ← gets tlsConfig;
         match p with Some p => mret (Client c p) | None => fail end
       else mret (Plain c));
  _ ← set_net (Some n) (Some c);
  let '(i, r, w) := timeouts idle read write in
  set_timeouts i r w.

(** A choice of rand.IntN(len(l)); it panics when there is nothing. *)
Definition rand_pick {A} (l : list A) (k : nat) : option A :=
  match l with [] => None | _ => l !! (k mod length l)%nat end.

(** The host of a server, a random one of its addresses if it has some. *)
Definition pick_hostport (s : DNServer) (k : nat) : gostring :=
  let host := match rand_pick (s_IP s) k with Some ip => ip | None => s_Name s end in
  JoinHostPort host (Itoa (port s)).

(** ** Closing *)

(** The part of closeConnection that the two clients share. *)
Definition close_net (stop_timer : prog worker unit) : prog worker unit :=
  n ← gets Net;
  _ ← match n with
      | Some n =>
          _ ← emit (Close n);
          _ ← emit Wait;
          _ ← set_net None None;
          stop_timer
      | None => mret tt
      end;
  emit CloseIdleConnections.

(** ** An exchange of messages *)

(** [Q]: a message with its question; [R]: a response of HTTP; [M]: a message
    that was unpacked. *)
Context {Q Req R M : Type}.
Context (Pack : Q → option (list Z)) (Unpack : list Z → option M).
Context (NewRequest : gostring → gostring → Q → option Req) (Response : R → option (list Z)).
Context (with_path : Req → gostring → Req).

(** What the network does in an exchange: whether a write succeeds, what is
    read, what comes back over HTTP. *)
Record attempt := MkAttempt { wrote : bool; was_read : option (list Z); response : Req → option R }.

Definition over_http (s : DNServer) : bool := (s_Over s == bs "HTTPS") || (s_Over s == bs "HTTP").

(** [if s.Path != "" { req.URL.Path = path.Join("/", s.Path) }] *)
Definition request (s : DNServer) (q : Q) : option Req :=
  req ← NewRequest (method s) (url s) q;
  Some (if s_Path s != [] then with_path req (path_Join (bs "/") (s_Path s)) else req).

Definition deref {A} (p : option A) : prog worker A := match p with Some a => mret a | None => fail end.

Definition set_outgoing (read write : Z) : prog worker unit :=
  c ← gets Chrome;
  c ← deref c;
  emit (SetOutgoingTimeout c read write).

Definition set_deadlines : prog worker unit :=
  r ← gets ReadTimeout; w ← gets WriteTimeout; set_outgoing r w.

(** The connection that RoundTrip gets. *)
Definition DialTLSContext (w : worker) : option net_conn := Net w.

(** The connection of a request.  The transport has a DialTLSContext, which it
    calls for a URL of https, and no DialContext: for http it dials the host of
    the URL by itself, without the proxy, the address that was drawn and the
    deadlines. *)
Definition round_trip (s : DNServer) : prog worker unit :=
  if s_Over s == bs "HTTPS" then
    n ← gets DialTLSContext;
    n ← deref n;
    emit (RoundTrip n)
  else emit (DirectTrip (url s)).

(** The data of the answer; failing is an error. *)
Definition exchange (a : attempt) (q : Q) : prog worker (list Z) :=
  s ← gets dnsServer;
  data ← (if over_http s then
      req ← deref (request s q);
      _ ← set_deadlines;
      _ ← round_trip s;
      resp ← deref (response a req);
      deref (Response resp)
    else
      data ← deref (Pack q);
      _ ← set_deadlines;
      n ← gets Net;
      n ← deref n;
      _ ← emit (Write n (writeMsgData data));
      _ ← (if wrote a then mret tt else fail);
      _ ← set_deadlines;
      _ ← emit (ReadFrom n);
      deref (was_read a));
  _ ← set_outgoing 0 0;
  mret data.

(** Asking: the message of the answer. *)
Definition ask (a : attempt) (q : Q) : prog worker M :=
  data ← exchange a q;
  deref (Unpack data).

(** What an answer came from: data that was read on the stream, or over HTTP. *)
Definition received (a : attempt) (m : M) : Prop :=
  ∃ data, Unpack data = Some m ∧
    (was_read a = Some data ∨ ∃ req resp, response a req = Some resp ∧ Response resp = Some data).

(** ** The protocol of the connections

    One connection at a time; messages only with deadlines ahead; what is
    opened is closed, and the callback of its life is waited for.  A direct trip
    leaves the connection alone. *)

Inductive monitor := AllClosed | Open (c : nat) (tr tw : Z) | Closing.

(** With the number of connections so far. *)
Definition watch (m : monitor * nat) (e : event) : option (monitor * nat) :=
  let '(m, k) := m in
  match m, e with
  | AllClosed, NewConn c _ => if (c =? k)%nat then Some (Open c 0 0, S k) else None
  | AllClosed, CloseIdleConnections => Some (AllClosed, k)
  | Open c _ _, SetOutgoingTimeout c' tr tw => if (c =? c')%nat then Some (Open c tr tw, k) else None
  | Open c tr tw, (Write n _ | ReadFrom n | RoundTrip n) =>
      if (under n =? c)%nat && (0 <? tr) && (0 <? tw) then Some (m, k) else None
  | Open _ _ _, DirectTrip _ => Some (m, k)
  | Open c _ _, Close n => if (under n =? c)%nat then Some (Closing, k) else None
  | Closing, Wait => Some (AllClosed, k)
  | _, _ => None
  end.

Definition watched (l : list event) : option (monitor * nat) :=
  foldl (λ m e, m ← m; watch m e) (Some (AllClosed, O)) l.

Lemma watched_snoc l e : watched (l ++ [e]) = m ← watched l; watch m e.
Proof. unfold watched. by rewrite foldl_app. Qed.

(** A connection to a server over TLS is one of TLS to that server. *)
Definition dressed (w : worker) (s : DNServer) (n : net_conn) : Prop :=
  if over_tls s then ∃ p, n = Client (under n) p ∧ configs w !! p = Some (config_of (key_of s))
  else n = Plain (under n).

Record tls_ok (w : worker) : Prop := {
  tls_cache key p : tlsConfigCache w !! key = Some p → configs w !! p = Some (config_of key);
  tls_last : tlsConfig w = tlsConfigCache w !! tlsConfigKey w;
  tls_some : s2 (tlsConfigKey w) ≠ [] → is_Some (tlsConfig w) }.

(** No connection, or one with the deadlines [d]. *)
Record conn_ok (d : Z * Z) (w : worker) : Prop := {
  conn_tls : tls_ok w;
  conn_net :
    match Net w with
    | None => Chrome w = None ∧ watched (log w) = Some (AllClosed, opened w)
    | Some n =>
        Chrome w = Some (under n) ∧ dressed w (dnsServer w) n ∧
        0 < IdleTimeout w ∧ 0 < ReadTimeout w ∧ 0 < WriteTimeout w ∧
        watched (log w) = Some (Open (under n) d.1 d.2, opened w)
    end }.

(** When no exchange is going on, no deadline is left. *)
Abbreviation at_rest := (conn_ok (0, 0)) (only parsing).

Lemma start_at_rest : at_rest start.
Proof. split; [split|]; simpl; try done. Qed.

Lemma watched_net d w n e (m : monitor) :
  conn_ok d w → Net w = Some n → watch (Open (under n) d.1 d.2, opened w) e = Some (m, opened w) →
  watched (log w ++ [e]) = Some (m, opened w).
Proof.
  intros [_ Hn] E He. rewrite E in Hn. destruct Hn as (_ & _ & _ & _ & _ & Hw).
  by rewrite watched_snoc, Hw.
Qed.

(** *** Opening *)

(** Everything but the configurations. *)
Definition same_conn (w w' : worker) : Prop :=
  Net w' = Net w ∧ Chrome w' = Chrome w ∧ IdleTimer w' = IdleTimer w ∧ dnsServer w' = dnsServer w ∧
  opened w' = opened w ∧ log w' = log w.

Lemma over_tls_s2 s : over_tls s = true → s_Over s ≠ [].
Proof. unfold over_tls. intros H E. by rewrite E in H. Qed.

Lemma choose_config_spec s w :
  tls_ok w → over_tls s = true →
  yields (choose_config s) w (λ o w', o = Some tt ∧ tls_ok w' ∧ same_conn w w' ∧
    ∃ p, tlsConfig w' = Some p ∧ configs w' !! p = Some (config_of (key_of s))).
Proof.
  intros [Hc Hl Hs] Ho. unfold choose_config. wp. case_bool_decide as E.
  - wp. split_and!; try done. destruct Hs as [p Hp]; [rewrite <- E; by apply over_tls_s2|].
    exists p. split; [done|]. apply Hc. by rewrite E, <- Hl.
  - wp. destruct (tlsConfigCache w !! key_of s) as [p|] eqn:Ep; wp.
    + split_and!; try done. exists p. split; [done|]. by apply Hc.
    + cbn [configs tlsConfig]. split_and!; [done| |done|]; [split; simpl|]; [..|exists (length (configs w))].
      * intros key p [[<- <-]|[_ Hp]]%lookup_insert_Some; [by apply list_lookup_middle|].
        apply lookup_app_l_Some. by apply Hc.
      * by rewrite lookup_insert_eq.
      * done.
      * split; [done|]. by apply list_lookup_middle.
Qed.

Lemma open_connection_spec hp s idle read write w :
  at_rest w → Net w = None → dnsServer w = s →
  yields (open_connection hp s idle read write) w (λ o w', o = Some tt ∧ at_rest w' ∧
    Net w' ≠ None ∧ IdleTimer w' = IdleTimer w ∧ dnsServer w' = s ∧ log w' = log w ++ [NewConn (opened w) hp] ∧
    (IdleTimeout w', ReadTimeout w', WriteTimeout w') = timeouts idle read write ∧ opened w' = S (opened w)).
Proof.
  intros [Ht Hn] E <-. rewrite E in Hn. destruct Hn as [Hch Hw].
  pose proof (timeouts_pos idle read write) as Hpos.
  assert (watched (log w ++ [NewConn (opened w) hp]) = Some (Open (opened w) 0 0, S (opened w))) as Hnew.
  { rewrite watched_snoc, Hw. simpl. by rewrite Nat.eqb_refl. }
  unfold open_connection. wp. unfold new_conn at 1. unfold yields at 1. cbn [fst snd].
  set (w1 := MkWorker _ _ _ _ _ _ _ _ _ _ _ _ _). assert (tls_ok w1) as Ht1 by (by destruct Ht; split).
  apply yields_bind.
  apply (yields_mono _ _ (λ o w', ∃ n, o = Some n ∧ tls_ok w' ∧ same_conn w1 w' ∧
    under n = opened w ∧ dressed w' (dnsServer w) n)).
  - unfold dressed. destruct (over_tls (dnsServer w)) eqn:Eo.
    + apply yields_bind. eapply yields_mono; [by apply choose_config_spec|].
      intros o w2 (-> & Ht2 & Hs & p & Hp & Hc). wp. rewrite Hp. wp. exists (Client (opened w) p).
      split_and!; [done..|by exists p].
    + wp. exists (Plain (opened w)). by split_and!.
  - intros o w2 (n & -> & Ht2 & (H1 & H2 & H3 & H4 & H5 & H6) & Hu & Hd).
    destruct (timeouts idle read write) as [[i r] wr], Hpos as (? & ? & ?). wp.
    cbn [IdleTimer dnsServer log IdleTimeout ReadTimeout WriteTimeout Net]. split_and!; try done.
    split; [by destruct Ht2; split|]. simpl. rewrite H4, H5, H6, Hu. by split_and!.
Qed.

(** *** Closing *)

Lemma close_net_spec stop_timer d w (P : worker → Prop) :
  conn_ok d w → (Net w = None → P (with_log w (log w ++ [CloseIdleConnections]))) →
  (∀ n w', Net w = Some n → conn_ok (0, 0) w' → Net w' = None → IdleTimer w' = IdleTimer w →
    IdleTimeout w' = IdleTimeout w → opened w' = opened w → dnsServer w' = dnsServer w →
    yields stop_timer w' (λ o w', o = Some tt ∧ P (with_log w' (log w' ++ [CloseIdleConnections])))) →
  yields (close_net stop_timer) w (λ o w', o = Some tt ∧ P w').
Proof.
  intros H HN HS. unfold close_net. wp. destruct (Net w) as [n|] eqn:E; [|wp; split; [done|by apply HN]].
  pose proof H as [Ht Hn]. rewrite E in Hn. destruct Hn as (Hch & Hd & H1 & H2 & H3 & Hw).
  wp. eapply yields_mono; [apply (HS n)|]; try done.
  - split; [by destruct Ht; split|]. simpl. split; [done|]. rewrite !watched_snoc, Hw. simpl.
    by rewrite Nat.eqb_refl.
  - intros o w' [-> HP]. wp. by split.
Qed.

(** *** An exchange *)

(** Only the log is changed, and the deadlines are [d]. *)
Definition logged (w : worker) (d : Z * Z) (w' : worker) : Prop :=
  conn_ok d w' ∧ w' = with_log w (log w').

Lemma logged_trans w1 d2 w2 d3 w3 : logged w1 d2 w2 → logged w2 d3 w3 → logged w1 d3 w3.
Proof. intros [H2 ->] [H3 E]. split; [done|]. rewrite E. done. Qed.

Lemma logged_event w d d' n e :
  conn_ok d w → Net w = Some n →
  watch (Open (under n) d.1 d.2, opened w) e = Some (Open (under n) d'.1 d'.2, opened w) →
  logged w d' (with_log w (log w ++ [e])).
Proof.
  intros H E He. pose proof (watched_net _ _ _ _ _ H E He) as Hw. destruct H as [[H1 H2 H3] Hn].
  split; [|done]. split; [by split|]. simpl. rewrite E in *. by destruct Hn as (? & ? & ? & ? & ? & _).
Qed.

Lemma set_outgoing_spec d w n r wr :
  conn_ok d w → Net w = Some n →
  yields (set_outgoing r wr) w (λ o w', o = Some tt ∧ logged w (r, wr) w').
Proof.
  intros H E. pose proof (conn_net _ _ H) as Hn. rewrite E in Hn. destruct Hn as (Hch & _).
  unfold set_outgoing. wp. rewrite Hch. cbn [deref]. wp. split; [done|].
  eapply logged_event; [done..|]. simpl. by rewrite Nat.eqb_refl.
Qed.

(** The state in which messages go: the deadlines are those of the options. *)
Definition busy (n : net_conn) (w : worker) : Prop :=
  Net w = Some n ∧ ∃ d, 0 < d.1 ∧ 0 < d.2 ∧ conn_ok d w.

Lemma set_deadlines_spec d w n :
  conn_ok d w → Net w = Some n →
  yields set_deadlines w (λ o w', o = Some tt ∧ busy n w' ∧ w' = with_log w (log w')).
Proof.
  intros H E. unfold set_deadlines. wp. eapply yields_mono; [by eapply set_outgoing_spec|].
  intros o w' [-> [Hok E']]. split_and!; [done| |done]. split; [by rewrite E'|].
  pose proof (conn_net _ _ H) as Hn. rewrite E in Hn. destruct Hn as (_ & _ & _ & ? & ? & _).
  by exists (ReadTimeout w, WriteTimeout w).
Qed.

Lemma emit_message w n e :
  busy n w → (∃ data, e = Write n data) ∨ e = ReadFrom n ∨ e = RoundTrip n ∨ (∃ u, e = DirectTrip u) →
  yields (emit e) w (λ o w', o = Some tt ∧ busy n w' ∧ w' = with_log w (log w')).
Proof.
  intros [E (d & H1 & H2 & H)] He. wp. split_and!; [done| |done]. split; [done|]. exists d. split_and!; [done..|].
  apply (logged_event w d d n e); [done..|]. apply Z.ltb_lt in H1, H2.
  destruct He as [[data ->]|[->|[->|[u ->]]]]; simpl; rewrite ?Nat.eqb_refl, ?H1, ?H2; done.
Qed.

Lemma round_trip_spec s w n :
  busy n w → yields (round_trip s) w (λ o w', o = Some tt ∧ busy n w' ∧ w' = with_log w (log w')).
Proof.
  intros Hb. unfold round_trip. destruct (_ == _); [|apply emit_message; eauto].
  wp. unfold DialTLSContext. pose proof Hb as [En _]. rewrite En. cbn [deref]. do 2 (wp1; cbn beta iota).
  apply emit_message; eauto.
Qed.

Lemma yields_deref {A} (p : option A) (w : worker) (P : option A → worker → Prop) :
  P p w → yields (deref p) w P.
Proof. destruct p; done. Qed.

Lemma exchange_spec d a q w n :
  conn_ok d w → Net w = Some n →
  yields (exchange a q) w (λ o w', w' = with_log w (log w') ∧ (∃ d', conn_ok d' w') ∧
    ∀ data, o = Some data → at_rest w' ∧
      (was_read a = Some data ∨ ∃ req resp, response a req = Some resp ∧ Response resp = Some data)).
Proof.
  intros H E. unfold exchange. wp.
  eapply (yields_mono _ _ (λ o w', w' = with_log w (log w') ∧ (∃ d', conn_ok d' w') ∧
    ∀ data, o = Some data →
      (was_read a = Some data ∨ ∃ req resp, response a req = Some resp ∧ Response resp = Some data))).
  - assert (∀ w1, w1 = with_log w (log w1) → busy n w1 → (∃ d', conn_ok d' w1)) as Hbusy.
    { intros w1 _ [_ (d' & _ & _ & ?)]. by exists d'. }
    destruct (over_http (dnsServer w)); wp; apply yields_deref.
    + destruct (request (dnsServer w) q) as [req|]; [|by split_and!; [destruct w|exists d|]].
      wp. eapply yields_mono; [by eapply set_deadlines_spec|]. intros o w1 (-> & Hb & E1). wp.
      eapply yields_mono; [by apply (round_trip_spec (dnsServer w) w1 n)|]. intros o w2 (-> & Hb2 & E2).
      assert (w2 = with_log w (log w2)) as E3 by (by rewrite E2, E1). wp. apply yields_deref.
      destruct (response a req) as [resp|] eqn:Er; [|by split_and!; [|eapply Hbusy|]]. apply yields_deref.
      split_and!; [done|by eapply Hbusy|]. intros data Hd. right. by exists req, resp.
    + destruct (Pack q) as [data|]; [|by split_and!; [destruct w|exists d|]].
      wp. eapply yields_mono; [by eapply set_deadlines_spec|]. intros o w1 (-> & Hb & E1). wp.
      destruct Hb as [En Hb]. rewrite En. cbn [deref]. do 2 (wp1; cbn beta iota).
      eapply yields_mono; [apply (emit_message w1 n); [by split|eauto]|]. intros o w2 (-> & Hb2 & E2).
      assert (w2 = with_log w (log w2)) as E3 by (by rewrite E2, E1). wp.
      destruct (wrote a); wp; [|by split_and!; [|eapply Hbusy|]].
      destruct Hb2 as [En2 (d2 & _ & _ & H2)].
      eapply yields_mono; [by eapply set_deadlines_spec|]. intros o w3 (-> & Hb3 & E4). wp1.
      eapply yields_mono; [apply (emit_message w3 n); [done|auto]|]. intros o w4 (-> & Hb4 & E5).
      assert (w4 = with_log w (log w4)) as E6 by (by rewrite E5, E4, E3). apply yields_deref.
      split_and!; [done|by eapply Hbusy|]. intros dat Hd. by left.
  - intros o w1 (E1 & [d1 H1] & Hr). destruct o as [data|]; [|split_and!; [done|by exists d1|done]].
    wp. assert (Net w1 = Some n) as En by (by rewrite E1).
    eapply yields_mono; [by eapply set_outgoing_spec|]. intros o w2 (-> & H2 & E2). wp.
    split_and!; [by rewrite E2, E1|by eexists|]. intros dat [= <-]. split; [done|by apply Hr].
Qed.

(** A direct trip is made only to a server over HTTP. *)
Definition detours (P : DNServer → Prop) (w : worker) : Prop :=
  ∀ u, DirectTrip u ∈ log w → ∃ s, P s ∧ s_Over s = bs "HTTP" ∧ u = url s.

Lemma detours_emit (P : DNServer → Prop) w e :
  detours P w → (∀ u, e ≠ DirectTrip u) → detours P (with_log w (log w ++ [e])).
Proof. intros H He u [Hu|Hu%list_elem_of_singleton]%elem_of_app; [by apply H|]. by destruct (He u). Qed.

Lemma set_outgoing_detours (P : DNServer → Prop) r wr w :
  detours P w → yields (set_outgoing r wr) w (λ o w', detours P w' ∧ dnsServer w' = dnsServer w).
Proof.
  intros H. unfold set_outgoing. wp. apply yields_deref. destruct (Chrome w); [|by split]. wp.
  split; [by apply detours_emit|done].
Qed.

Lemma exchange_detours (P : DNServer → Prop) a q w :
  detours P w → P (dnsServer w) → yields (exchange a q) w (λ o w', detours P w').
Proof.
  intros H HP. assert (∀ w, detours P w →
    yields set_deadlines w (λ o w', detours P w' ∧ dnsServer w' = dnsServer w)) as Hset.
  { intros w0 H0. unfold set_deadlines. wp. by apply set_outgoing_detours. }
  unfold exchange. wp. apply (yields_mono _ _ (λ o w', detours P w')).
  2:{ intros o w1 H1. destruct o; [|done]. wp. eapply yields_mono; [by apply set_outgoing_detours|].
    intros o w2 [H2 _]. destruct o; by wp. }
  destruct (over_http (dnsServer w)) eqn:Eo; wp; apply yields_deref.
  - destruct (request _ _); [|done]. wp. eapply yields_mono; [by apply Hset|]. intros o w1 [H1 _].
    destruct o; [|done]. wp. apply (yields_mono _ _ (λ o w', detours P w')).
    2:{ intros o w2 H2. destruct o; [|done]. wp. apply yields_deref. destruct (response a _); [|done].
      by apply yields_deref. }
    unfold round_trip. case_bool_decide as E.
    + wp. unfold DialTLSContext. apply yields_deref. destruct (Net w1); [|done]. apply detours_emit; [exact H1|done].
    + wp. intros v [Hu|Hu%list_elem_of_singleton]%elem_of_app; [by apply H1|]. injection Hu as ->. exists (dnsServer w).
      unfold over_http in Eo. rewrite (bool_decide_false (s_Over (dnsServer w) = bs "HTTPS")) in Eo by done.
      by apply bool_decide_eq_true in Eo.
  - destruct (Pack q); [|done]. wp. eapply yields_mono; [by apply Hset|]. intros o w1 [H1 _]. destruct o; [|done].
    wp. apply yields_deref. destruct (Net w1) as [n|]; [|done]. wp.
    destruct (wrote a); wp; [|by apply detours_emit].
    eapply yields_mono; [by apply Hset, detours_emit|]. intros o w2 [H2 _]. destruct o; [|done].
    wp. apply yields_deref. by apply detours_emit.
Qed.

Lemma ask_detours (P : DNServer → Prop) a q w :
  detours P w → P (dnsServer w) → yields (ask a q) w (λ o w', detours P w').
Proof.
  intros H HP. unfold ask. wp. eapply yields_mono; [by apply exchange_detours|]. intros o w' H'.
  destruct o; [|done]. by apply yields_deref.
Qed.

(** DNS over HTTP does not go through the connection that was opened for it,
    nor through its proxy: the connection has deadlines set, and nothing else. *)
Theorem http_bypasses a q w w' data :
  s_Over (dnsServer w) = bs "HTTP" → exchange a q w = (Some data, w') →
  ∃ c, Chrome w = Some c ∧ log w' = log w ++
    [SetOutgoingTimeout c (ReadTimeout w) (WriteTimeout w); DirectTrip (url (dnsServer w)); SetOutgoingTimeout c 0 0].
Proof.
  intros Ho. unfold exchange, set_deadlines, set_outgoing, round_trip, mbind, prog_bind, gets. cbn [dnsServer].
  assert (over_http (dnsServer w) = true) as -> by (unfold over_http; rewrite Ho; done).
  destruct (request _ _); [|done]. cbn. destruct (Chrome w) as [c|] eqn:Ec; [|done]. cbn. rewrite Ho. cbn.
  destruct (response a _) as [resp|]; [|done]. cbn. destruct (Response resp); [|done]. cbn.
  rewrite bool_decide_false by done. cbn. rewrite Ec. cbn. intros [= _ <-]. exists c. split; [done|]. cbn [log with_log]. by rewrite <- !app_assoc.
Qed.

(** Asking leaves no deadline when there is an answer, and the answer was
    received. *)
Lemma ask_spec a q w n :
  at_rest w → Net w = Some n →
  yields (ask a q) w (λ o w', w' = with_log w (log w') ∧ (∃ d', conn_ok d' w') ∧
    ∀ m, o = Some m → at_rest w' ∧ received a m).
Proof.
  intros H E. unfold ask. wp. eapply yields_mono; [by eapply exchange_spec|].
  intros o w' (E' & Hd & Hr). destruct o as [data|]; [|by split_and!].
  apply yields_deref. split_and!; [done..|]. intros m Hm. destruct (Hr data eq_refl) as [? Hdata].
  split; [done|]. by exists data.
Qed.
End client.

(** ** The callback of a connection's life

    NewConn runs the callback in a goroutine of its own; the worker assigns
    dnsConn.Net after NewConn has returned, under a mutex that the callback
    does not take. *)

Inductive opener := Opening | Assigned | ClosedNet | Cleared.
Inductive callback := Ranging | MaxAttempts | Finished | Panicked.
Inductive channel := Silent | Told | ClosedChan.

#[export] Instance opener_eq_dec : EqDecision opener.
Proof. solve_decision. Defined.
#[export] Instance callback_eq_dec : EqDecision callback.
Proof. solve_decision. Defined.
#[export] Instance channel_eq_dec : EqDecision channel.
Proof. solve_decision. Defined.

Record life := MkLife { l_opener : opener; l_net : bool; l_callback : callback; l_channel : channel }.

#[export] Instance life_eq_dec : EqDecision life.
Proof. solve_decision. Defined.

Section life.
(** Whether the callback takes the mutex; the code's does not. *)
Context (locks : bool).

Definition opener_moves (s : life) : list life :=
  match l_opener s with
  | Opening => [MkLife Assigned true (l_callback s) (l_channel s)]             (* dnsConn.Net = netConn; Unlock *)
  | Assigned => [MkLife ClosedNet (l_net s) (l_callback s) (l_channel s)]      (* dnsConn.Net.Close() *)
  | ClosedNet => if l_callback s == Finished                                   (* dnsConn.Wait(); Net = nil *)
                 then [MkLife Cleared false (l_callback s) (l_channel s)] else []
  | Cleared => []
  end.

(** The events of the Conn: the attempts are used up, it has ended. *)
Definition channel_moves (s : life) : list life :=
  match l_channel s with
  | Silent => (if l_callback s == Ranging then [MkLife (l_opener s) (l_net s) MaxAttempts Told] else [])
              ++ [MkLife (l_opener s) (l_net s) (l_callback s) ClosedChan]
  | Told => [MkLife (l_opener s) (l_net s) (l_callback s) ClosedChan]
  | ClosedChan => []
  end.

(** [for ev := range c { ... dnsConn.Net.SetDeadline(aLongTimeAgo) }], then
    [dnsConn.Done()]. *)
Definition callback_moves (s : life) : list life :=
  match l_callback s with
  | Ranging => if l_channel s == ClosedChan then [MkLife (l_opener s) (l_net s) Finished ClosedChan] else []
  | MaxAttempts =>
      if locks && (l_opener s == Opening) then []
      else [MkLife (l_opener s) (l_net s) (if l_net s then Ranging else Panicked) (l_channel s)]
  | Finished | Panicked => []
  end.

Definition life_moves (s : life) : list life := opener_moves s ++ channel_moves s ++ callback_moves s.

Definition life_step (s s' : life) : Prop := s' ∈ life_moves s.

Definition newborn : life := MkLife Opening false Ranging Silent.

Definition calm (s : life) : bool := l_callback s != Panicked.

(** The worker is not kept waiting for ever: something can be done, or all is
    done. *)
Definition unstuck (s : life) : bool := (l_callback s == Panicked) || (l_opener s == Cleared) || (life_moves s != []).
End life.

(** When the attempts of a connection are used up before the worker has
    assigned it, the callback calls a method of a nil connection, in a
    goroutine that does not recover; if the callback took the mutex it could
    not happen, and it cannot happen once the connection is assigned and the
    callback waits: closing waits for the callback before it forgets the
    connection. *)
Theorem callback_unlocked :
  (∃ s, rtc (life_step false) newborn s ∧ l_callback s = Panicked) ∧
  (∀ s, rtc (life_step true) newborn s → l_callback s ≠ Panicked ∧ unstuck true s = true) ∧
  (∀ ch s, rtc (life_step false) (MkLife Assigned true Ranging ch) s →
    l_callback s ≠ Panicked ∧ unstuck false s = true).
Proof.
  assert (∀ locks s0, closed_under_moves (life_moves locks) s0 (explore (life_moves locks) 12 [s0] [s0]) = true →
    forallb (λ s, calm s && unstuck locks s) (explore (life_moves locks) 12 [s0] [s0]) = true →
    ∀ s, rtc (life_step locks) s0 s → l_callback s ≠ Panicked ∧ unstuck locks s = true) as H.
  { intros locks s0 H1 H2 s Hs.
    pose proof (check_reachable _ _ _ _ (λ s, calm s && unstuck locks s) s (λ _ _ H, H) H1 H2 Hs) as [H3 H4]%andb_prop.
    split; [|exact H4]. unfold calm in H3. by apply negb_true_iff, bool_decide_eq_false in H3. }
  split; [|split].
  - exists (MkLife Opening false Panicked Told). split; [|done].
    apply (rtc_l _ _ (MkLife Opening false MaxAttempts Told)); [|apply rtc_once]; unfold life_step; by_compute.
  - apply H; vm_compute; reflexivity.
  - intros []; apply H; vm_compute; reflexivity.
Qed.
