(* ===== verification/SocksWorker.v ===== *)
(** * The worker of socks, with its connection (service/socks/socks.go).

    startWorker in full: the loop over queries, the idle timer, the connection
    of DnsConn.v, the cache.  It keeps the protocol of its connections, and
    what it answers are the queries of Socks.v, which leaves the connection
    out. *)

From S2P Require Import Prelude GoStrings Addr Proxy Defaults Dns DnsConn Socks.

Open Scope go_scope.
#[local] Arguments bs : simpl never.

(** ** The worker *)

Section worker.
Context {C : Type} (dnshttp_NextProtos : list gostring).
Context {Msg Req R : Type}.
Context (SetQuestion : gostring → option Z → Msg).
Context (Pack : Msg → option (list Z)) (Unpack : list Z → option (list RR)).
Context (NewRequest : gostring → gostring → Msg → option Req) (Response : R → option (list Z)).
Context (with_path : Req → gostring → Req).

Abbreviation Options := (@Socks.Options C) (only parsing).
Abbreviation attempt := (@DnsConn.attempt Req R) (only parsing).

Definition stop_timer : prog worker unit := set_timer None.

Definition closeConnection : prog worker unit := close_net stop_timer.

(** A round of the loop over the query types: whether the job ends or the
    query is canceled, the options if they are read again ([None]: closed), the
    choices of a server and of its address, what the network does, the time. *)
Record wturn := MkTurn {
  t_down : bool;
  t_canceled : bool;
  t_options : option Options;
  t_server : nat;
  t_ip : nat;
  t_attempt : attempt;
  t_now : Z }.

Inductive ended :=
  | Done (opts : Options) (r : result)
  | Asking                                (* the turns are used up *)
  | Left                                  (* return *)
  | Panic.                                (* rand.IntN(0) *)

(** [if dnsConn.Net == nil { ... }]: the options after it. *)
Definition connect (opts : Options) (t : wturn) (w : worker) : (ended + Options) * worker :=
  match Net w with
  | Some _ => (inr opts, w)
  | None =>
      match t_options t with
      | None => (inl Left, w)
      | Some opts =>
          match rand_pick (o_Servers opts) (t_server t) with
          | None => (inl Panic, w)
          | Some s =>
              let w := (set_server s w).2 in
              (inr opts, (open_connection dnshttp_NextProtos (pick_hostport s (t_ip t)) s
                            (o_IdleTimeout opts) (o_ReadTimeout opts) (o_WriteTimeout opts) w).2)
          end
      end
  end.

(** What an attempt of the connection dials; [None]: CloseConn. *)
Definition getRemote (canceled : bool) (latest : option Options) (hostport : gostring)
    : option (Proxy.Proxy C * gostring) :=
  if canceled then None
  else opts ← latest;
       Some (match o_DNSProxy opts with Some p => p | None => o_Proxy opts end, hostport).

Fixpoint resolve_types (domain : gostring) (opts : Options) (qtypes : list gostring) (r : result)
    (ts : list wturn) (w : worker) {struct ts} : ended * worker :=
  match qtypes, ts with
  | [], _ => (Done opts r, w)
  | _, [] => (Asking, w)
  | qtype :: qtypes', t :: ts =>
      if t_down t then (Left, w)
      else if t_canceled t then (Done opts r, w)
      else
        match connect opts t w with
        | (inl e, w) => (e, w)
        | (inr opts, w) =>
            match ask Pack Unpack NewRequest Response with_path (t_attempt t)
                    (SetQuestion domain (question qtype)) w with
            | (Some rrs, w) =>
                resolve_types domain opts qtypes' (absorb (o_TTLMin opts) (o_TTLMax opts) (t_now t) rrs r) ts w
            | (None, w) => resolve_types domain opts qtypes r ts (closeConnection w).2
            end
        end
  end.

(** How [q.Result <- result] comes out. *)
Inductive sent := Delivered | Gone | Down.

(** The inputs of the loop; [Reload]: a LoadEvent makes a new cache. *)
Inductive input :=
  | CtxDone
  | Idle
  | Query (domain : gostring) (latest : option Options) (now : Z) (ts : list wturn) (how : sent)
  | Reload.

Inductive status := Waiting | Returned | Stuck | Crashed.

(** What happens to a query: its channel gets a result or nothing, and is
    closed. *)
Record reply := MkReply { r_domain : gostring; r_result : option result }.

Record loop := MkLoop { st : status; wk : worker; caches : list (gmap gostring result); replies : list reply }.

(** The top of the loop. *)
Definition arm (w : worker) : worker :=
  match Net w with Some _ => (set_timer (Some (IdleTimeout w)) w).2 | None => w end.

(** return: the deferred call. *)
Definition return_ (w : worker) (cs : list (gmap gostring result)) (l : list reply) : loop :=
  MkLoop Returned (closeConnection w).2 cs l.

Definition again (w : worker) (cs : list (gmap gostring result)) (l : list reply) : loop :=
  MkLoop Waiting (arm w) cs l.

(** The end of a query that was not answered yet. *)
Definition finish (domain : gostring) (w : worker) (cs : list (gmap gostring result)) (l : list reply)
    (r : option result) (how : sent) : loop :=
  match r, how with
  | Some _, Down => return_ w cs l
  | Some r, Delivered => again w cs (l ++ [MkReply domain (Some r)])
  | _, _ => again w cs (l ++ [MkReply domain None])
  end.

Definition loop_step (s : loop) (i : input) : loop :=
  match st s with
  | Waiting =>
      let '(MkLoop _ w cs l) := s in
      match i with
      | Reload => MkLoop Waiting w (cs ++ [∅]) l
      | CtxDone => return_ w cs l
      | Idle => match IdleTimer w with Some _ => again (closeConnection w).2 cs l | None => s end
      | Query domain None _ _ _ => return_ w cs l
      | Query domain (Some opts) now ts how =>
          match fresh cs opts domain now with
          | Some r => finish domain w cs l (Some r) how
          | None =>
              match resolve_types domain opts (o_QueryType opts) no_result ts w with
              | (Asking, w) => MkLoop Stuck w cs l
              | (Left, w) => return_ w cs l
              | (Panic, w) => MkLoop Crashed w cs l
              | (Done opts r, w) =>
                  if (length (IPv4 r) + length (IPv6 r) =? 0)%nat then finish domain w cs l None how
                  else finish domain w
                         match Deadline r with Some _ => Store cs (o_dnsCache opts) domain r | None => cs end
                         l (Some r) how
              end
          end
      end
  | _ => match i with Reload => MkLoop (st s) (wk s) (caches s ++ [∅]) (replies s) | _ => s end
  end.

Definition run (ins : list input) : loop :=
  foldl loop_step (MkLoop Waiting (arm start) [] []) ins.

(** ** Its connection *)

Abbreviation at_rest := (conn_ok dnshttp_NextProtos (0, 0)) (only parsing).

(** Waiting for a query: an open connection has a running timer, and only an
    open one has. *)
Definition armed (w : worker) : Prop :=
  IdleTimer w = match Net w with Some _ => Some (IdleTimeout w) | None => None end.

(** The timer runs only for an open connection. *)
Definition timed (w : worker) : Prop := Net w = None → IdleTimer w = None.

Lemma closeConnection_spec d w :
  conn_ok dnshttp_NextProtos d w → timed w →
  at_rest (closeConnection w).2 ∧ Net (closeConnection w).2 = None ∧ IdleTimer (closeConnection w).2 = None.
Proof.
  intros H Ht. apply (close_net_spec dnshttp_NextProtos stop_timer d w
    (λ w', at_rest w' ∧ Net w' = None ∧ IdleTimer w' = None)); [done|..].
  - intros E. split_and!; [|done|by apply Ht]. destruct H as [[H1 H2 H3] Hn].
    rewrite E in Hn. destruct Hn as [Hc Hw]. split; [by split|]. simpl. rewrite E. split; [done|].
    by rewrite watched_snoc, Hw.
  - intros n w' E H' EN HT _ Ho Hs. wp. split_and!; try done. destruct H' as [[H1 H2 H3] Hn].
    rewrite EN in Hn. destruct Hn as [Hc Hw]. split; [by split|]. simpl. rewrite EN. split; [done|].
    by rewrite watched_snoc, Hw.
Qed.

Lemma closeConnection_opened w : opened (closeConnection w).2 = opened w.
Proof. unfold closeConnection, close_net, mbind, prog_bind, gets. by destruct (Net w). Qed.

Lemma arm_spec w : at_rest w → timed w → at_rest (arm w) ∧ armed (arm w) ∧ Net (arm w) = Net w.
Proof.
  intros H Ht. unfold arm, armed. destruct (Net w) as [n|] eqn:E; simpl; rewrite ?E.
  - split_and!; [|done..]. destruct H as [[H1 H2 H3] Hn]. rewrite E in Hn. by split; [split|].
  - split_and!; [done|by apply Ht|done].
Qed.

(** Between two rounds, in the middle of a query. *)
Definition ready (w : worker) : Prop := at_rest w ∧ timed w.

Lemma connect_spec opts t w e w' :
  connect opts t w = (e, w') → ready w →
  ready w' ∧ match e with
             | inr _ => Net w' ≠ None
             | inl e => e = Left ∨ e = Panic
             end.
Proof.
  intros E [H Ht]. unfold connect in E. destruct (Net w) as [n|] eqn:En.
  { injection E as <- <-. by rewrite En. }
  destruct (t_options t) as [o|]; [|injection E as <- <-; split; [by split|auto]].
  destruct (rand_pick (o_Servers o) (t_server t)) as [s|]; [|injection E as <- <-; split; [by split|auto]].
  injection E as <- <-. set (w1 := (set_server s w).2).
  assert (at_rest w1) as H1.
  { destruct H as [[H1 H2 H3] Hn]. rewrite En in Hn. split; [by split|]. simpl. by rewrite En. }
  destruct (open_connection_spec dnshttp_NextProtos (pick_hostport s (t_ip t)) s (o_IdleTimeout o)
    (o_ReadTimeout o) (o_WriteTimeout o) w1 H1 En eq_refl) as (_ & H2 & HN & HT & _).
  split; [split; [done|]|done]. intros ?. done.
Qed.

Lemma logged_timed w w' n : w' = with_log w (log w') → Net w = Some n → timed w'.
Proof. intros -> E. unfold timed. simpl. by rewrite E. Qed.

Lemma resolve_spec domain opts qtypes r ts w e w' :
  resolve_types domain opts qtypes r ts w = (e, w') → ready w → ready w'.
Proof.
  revert opts qtypes r w. induction ts as [|t ts IH]; intros opts qtypes r w.
  { destruct qtypes; by intros [= <- <-]. }
  destruct qtypes as [|qt qtypes]; [by intros [= <- <-]|]. cbn [resolve_types].
  destruct (t_down t); [by intros [= <- <-]|]. destruct (t_canceled t); [by intros [= <- <-]|].
  destruct (connect opts t w) as [[e1|o] w1] eqn:Ec.
  { intros [= <- <-] Hw. by apply (connect_spec _ _ _ _ _ Ec). }
  intros E Hw. destruct (connect_spec _ _ _ _ _ Ec Hw) as [[H1 HT1] HN].
  destruct (Net w1) as [n|] eqn:En; [clear HN|done].
  pose proof (ask_spec dnshttp_NextProtos Pack Unpack NewRequest Response with_path (t_attempt t)
    (SetQuestion domain (question qt)) w1 n H1 En) as (E' & (d & Hd) & Hm).
  destruct (ask _ _ _ _ _ _ _ w1) as [[rrs|] w2]; cbn [fst snd] in *.
  - eapply IH; [exact E|]. destruct (Hm _ eq_refl) as [Hw2 _]. split; [done|]. by eapply logged_timed.
  - eapply IH; [exact E|]. destruct (closeConnection_spec d w2 Hd (logged_timed _ _ _ E' En)) as (? & ? & ?).
    split; [done|by intros _].
Qed.

(** What holds of the loop between its inputs. *)
Definition loop_ok (s : loop) : Prop :=
  match st s with
  | Waiting => at_rest (wk s) ∧ armed (wk s)
  | Returned => at_rest (wk s) ∧ Net (wk s) = None ∧ IdleTimer (wk s) = None
  | Stuck | Crashed => ready (wk s)
  end.

Lemma armed_timed w : armed w → timed w.
Proof. unfold armed, timed. intros -> E. by rewrite E. Qed.

Lemma again_ok w cs l : ready w → loop_ok (again w cs l).
Proof. intros [H Ht]. destruct (arm_spec w H Ht) as (? & ? & _). by split. Qed.

Lemma return_ok w cs l : ready w → loop_ok (return_ w cs l).
Proof. intros [H Ht]. apply (closeConnection_spec (0, 0) w H Ht). Qed.

Lemma finish_keeps domain w cs l r how : ready w → loop_ok (finish domain w cs l r how).
Proof. intros H. unfold finish. destruct r, how; auto using again_ok, return_ok. Qed.

Lemma loop_step_ok s i : loop_ok s → loop_ok (loop_step s i).
Proof.
  intros H. unfold loop_step. destruct s as [[] w cs l]; cbn [st] in *; [|by destruct i..].
  destruct H as [Hw Ha]. cbn [wk] in *. pose proof (armed_timed _ Ha) as Ht.
  destruct i as [| |domain [o|] now ts how|]; [by apply return_ok| | |by apply return_ok|by split].
  - destruct (IdleTimer w); [|by split]. destruct (closeConnection_spec (0, 0) w Hw Ht) as (? & ? & ?).
    apply again_ok. split; [done|by intros _].
  - destruct (fresh cs o domain now) as [r|]; [by apply finish_keeps|].
    destruct (resolve_types _ _ _ _ ts w) as [e w1] eqn:E.
    apply resolve_spec in E as Hr; [|by split].
    destruct e as [o1 r| | |]; [|done|by apply return_ok|done].
    destruct (_ =? 0)%nat; [by apply finish_keeps|]. by apply finish_keeps.
Qed.

Lemma worker_run_ok ins : loop_ok (run ins).
Proof.
  unfold run. assert (loop_ok (MkLoop Waiting (arm start) [] [])) as H.
  { apply again_ok. split; [apply start_at_rest|done]. }
  revert H. generalize (MkLoop Waiting (arm start) [] []). induction ins as [|i ins IH]; [done|].
  intros s H. apply IH. by apply loop_step_ok.
Qed.

(** *** Detours

    [P]: the servers that the worker may have read. *)

Definition straight (P : DNServer → Prop) (w : worker) : Prop :=
  detours P w ∧ (Net w ≠ None → P (dnsServer w)).

Definition turn_reads (P : DNServer → Prop) (t : wturn) : Prop :=
  ∀ o, t_options t = Some o → Forall P (o_Servers o).

Definition input_reads (P : DNServer → Prop) (i : input) : Prop :=
  match i with Query _ _ _ ts _ => Forall (turn_reads P) ts | _ => True end.

Lemma close_straight P w : straight P w → straight P (closeConnection w).2.
Proof.
  intros [H _]. unfold closeConnection, close_net, mbind, prog_bind, gets.
  destruct (Net w) eqn:E; cbn; (split; [|by cbn; rewrite ?E]); intros u Hu; cbn in Hu;
    rewrite !elem_of_app, !list_elem_of_singleton in Hu; destruct_or! Hu; done || by apply H.
Qed.

Lemma arm_straight P w : straight P w → straight P (arm w).
Proof. unfold arm. by destruct (Net w) eqn:E. Qed.

Lemma connect_straight P opts t w e w' :
  connect opts t w = (e, w') → ready w → turn_reads P t → straight P w → straight P w'.
Proof.
  unfold connect, turn_reads. intros E [H Ht] HP Hs. destruct (Net w) as [n|] eqn:En; [by injection E as <- <-|].
  destruct (t_options t) as [o|]; [|by injection E as <- <-].
  destruct (rand_pick (o_Servers o) (t_server t)) as [s|] eqn:Es; [|by injection E as <- <-].
  apply pair_equal_spec in E as [<- <-]. set (w1 := (set_server s w).2).
  assert (at_rest w1) as H1.
  { destruct H as [[H1 H2 H3] Hn]. rewrite En in Hn. split; [by split|]. simpl. by rewrite En. }
  destruct (open_connection_spec dnshttp_NextProtos (pick_hostport s (t_ip t)) s (o_IdleTimeout o)
    (o_ReadTimeout o) (o_WriteTimeout o) w1 H1 En eq_refl) as (_ & _ & _ & _ & Hsv & Hl & _).
  split; [unfold detours; rewrite Hl|intros _; rewrite Hsv].
  - intros u [Hu|Hu%list_elem_of_singleton]%elem_of_app; [by apply Hs|done].
  - specialize (HP _ eq_refl). rewrite Forall_forall in HP. apply HP. unfold rand_pick in Es.
    destruct (o_Servers o); [done|]. by eapply list_elem_of_lookup_2.
Qed.

Lemma resolve_straight P domain opts qtypes r ts w e w' :
  resolve_types domain opts qtypes r ts w = (e, w') → ready w → Forall (turn_reads P) ts →
  straight P w → straight P w'.
Proof.
  intros E Hw Hts. revert opts qtypes r w E Hw. induction Hts as [|t ts HP Hts IH]; intros opts qtypes r w.
  { destruct qtypes; by intros [= <- <-]. }
  destruct qtypes as [|qt qtypes]; [by intros [= <- <-]|]. cbn [resolve_types].
  destruct (t_down t); [by intros [= <- <-]|]. destruct (t_canceled t); [by intros [= <- <-]|].
  destruct (connect opts t w) as [[e1|o] w1] eqn:Ec.
  { intros [= <- <-] Hw. by eapply connect_straight. }
  intros E Hw Hs. destruct (connect_spec _ _ _ _ _ Ec Hw) as [[H1 HT1] HN].
  pose proof (connect_straight P _ _ _ _ _ Ec Hw HP Hs) as [Hs1 Hp1]. specialize (Hp1 HN).
  destruct (Net w1) as [n|] eqn:En; [clear HN|done].
  pose proof (ask_spec dnshttp_NextProtos Pack Unpack NewRequest Response with_path (t_attempt t)
    (SetQuestion domain (question qt)) w1 n H1 En) as (E' & (d & Hd) & Hm).
  pose proof (ask_detours Pack Unpack NewRequest Response with_path P (t_attempt t)
    (SetQuestion domain (question qt)) w1 Hs1 Hp1) as Hs2. unfold yields in Hs2.
  destruct (ask _ _ _ _ _ _ _ w1) as [[rrs|] w2]; cbn [fst snd] in *;
    (assert (straight P w2) as Hw2 by (split; [exact Hs2|intros _; by rewrite E'])).
  - eapply IH; [exact E| |done]. destruct (Hm _ eq_refl) as [? _]. split; [done|]. by eapply logged_timed.
  - destruct (closeConnection_spec d w2 Hd (logged_timed _ _ _ E' En)) as (? & ? & ?).
    eapply IH; [exact E|split; [done|by intros _]|]. by apply close_straight.
Qed.

Lemma finish_straight P domain w cs l r how : straight P w → straight P (wk (finish domain w cs l r how)).
Proof. intros H. unfold finish. destruct r, how; simpl; auto using arm_straight, close_straight. Qed.

Lemma loop_step_straight P s i :
  loop_ok s → input_reads P i → straight P (wk s) → straight P (wk (loop_step s i)).
Proof.
  intros Hok Hi H. unfold loop_step. destruct s as [[] w cs l]; cbn [st wk] in *; [|by destruct i..].
  destruct Hok as [Hw Ha]. cbn [wk] in *.
  destruct i as [| |domain [o|] now ts how|];
    [by apply close_straight| | |by apply close_straight|done].
  - destruct (IdleTimer w); simpl; auto using close_straight, arm_straight.
  - destruct (fresh cs o domain now); [by apply finish_straight|].
    destruct (resolve_types _ _ _ _ ts w) as [e w1] eqn:E.
    apply (resolve_straight P) in E; [|split; [done|by apply armed_timed]|done..].
    destruct e as [o1 r| | |]; [|done|by apply close_straight|done].
    destruct (_ =? 0)%nat; by apply finish_straight.
Qed.

(** A server of options that were read in one of the inputs. *)
Definition read_in (ins : list input) (s : DNServer) : Prop :=
  ∃ domain latest now ts how t o,
    Query domain latest now ts how ∈ ins ∧ t ∈ ts ∧ t_options t = Some o ∧ s ∈ o_Servers o.

Lemma run_straight ins : straight (read_in ins) (wk (run ins)).
Proof.
  assert (Forall (input_reads (read_in ins)) ins) as Hins.
  { apply Forall_forall. intros i Hi. destruct i as [| |domain latest now ts how|]; try done.
    apply Forall_forall. intros t Ht o Ho. apply Forall_forall. intros s Hs. by exists domain, latest, now, ts, how, t, o. }
  unfold run. revert Hins. generalize (read_in ins). intros P Hins.
  set (s0 := MkLoop Waiting (arm start) [] []).
  assert (loop_ok s0 ∧ straight P (wk s0)) as [H0 HS0].
  { split; [apply again_ok; split; [apply start_at_rest|done]|]. split; [|done]. by intros u ?%elem_of_nil. }
  revert H0 HS0. generalize s0. induction Hins as [|i ins Hi _ IH]; [done|].
  intros s H HS. apply IH; [by apply loop_step_ok|by apply loop_step_straight].
Qed.

(** C37: whatever queries, reloads and failures there were, the worker keeps
    the protocol of the connections that it opens: one at a time, messages on
    it only with deadlines ahead, every other one closed; while it waits no
    deadline is left on an open connection, its timer runs, and TLS is with
    the server that was chosen, one of options it has read; once it has
    returned nothing is open. Only for a server over plain HTTP does a message
    go around the connection: there the HTTP transport dials the host of the
    URL by itself. *)
Theorem connection_kept ins :
  let s := run ins in
  (∀ u, DirectTrip u ∈ log (wk s) → ∃ srv, read_in ins srv ∧ s_Over srv = bs "HTTP" ∧ u = url srv) ∧
  (st s = Waiting ∨ st s = Returned →
   match Net (wk s) with
   | Some n =>
       st s = Waiting ∧ IdleTimer (wk s) = Some (IdleTimeout (wk s)) ∧ 0 < IdleTimeout (wk s) ∧
       dressed dnshttp_NextProtos (wk s) (dnsServer (wk s)) n ∧ read_in ins (dnsServer (wk s)) ∧
       watched (log (wk s)) = Some (Open (under n) 0 0, opened (wk s))
   | None => IdleTimer (wk s) = None ∧ watched (log (wk s)) = Some (AllClosed, opened (wk s))
   end).
Proof.
  intros s. destruct (run_straight ins) as [Hd Hsrv]. fold s in Hd, Hsrv. split; [exact Hd|]. intros Hst.
  pose proof (worker_run_ok ins) as H. fold s in H. unfold loop_ok in H.
  assert (at_rest (wk s) ∧ armed (wk s) ∧ (st s = Returned → Net (wk s) = None)) as (Hr & Ha & HN).
  { destruct Hst as [E|E]; rewrite E in H.
    - destruct H. by rewrite E.
    - destruct H as (? & EN & ?). unfold armed. by rewrite EN. }
  pose proof (conn_net _ _ _ Hr) as Hn. unfold armed in Ha.
  destruct (Net (wk s)) as [n|] eqn:En; [|by destruct Hn].
  destruct Hn as (_ & Hdr & Hi & _ & _ & Hw). split_and!; try done.
  - destruct Hst as [?|E]; [done|]. by specialize (HN E).
  - by apply Hsrv.
Qed.

(** ** It refines the queries of Socks.v *)

(** The server of the open connection. *)
Definition server_of (w : worker) : option DNServer :=
  match Net w with Some _ => Some (dnsServer w) | None => None end.

(** A round, and what Socks.v says of it: an answer was received. *)
Definition erases (t : wturn) (u : Socks.turn (C := C)) : Prop :=
  t_down t = false ∧
  match u with
  | Cancelled => t_canceled t = true
  | Exchange latest k answer now =>
      t_canceled t = false ∧ now = t_now t ∧ (∀ o, t_options t = Some o → latest = o) ∧
      (k = t_server t mod length (o_Servers latest))%nat ∧
      ∀ rrs, answer = Some rrs → received Unpack Response (t_attempt t) rrs
  end.

Definition erased (ts : list wturn) (us : list (Socks.turn (C := C))) : Prop :=
  ∃ n, Forall2 erases (take n ts) us.

Lemma erased_nil ts : erased ts [].
Proof. exists O. constructor. Qed.

Lemma erased_cons t u ts us : erases t u → erased ts us → erased (t :: ts) (u :: us).
Proof. intros H [n Hn]. exists (S n). by constructor. Qed.

(** What is connected to after [connect]. *)
Lemma connect_to_server opts t w o w' :
  connect opts t w = (inr o, w') → ready w →
  ∃ latest s, (∀ o, t_options t = Some o → latest = o) ∧ server_of w' = Some s ∧
    o = match server_of w with None => latest | Some _ => opts end ∧
    match server_of w with
    | Some s => Some s
    | None => o_Servers o !! (t_server t mod length (o_Servers latest))%nat
    end = Some s.
Proof.
  unfold connect, server_of. intros E [H Ht]. destruct (Net w) as [n|] eqn:En.
  - injection E as <- <-. exists match t_options t with Some o => o | None => opts end, (dnsServer w).
    rewrite En. split_and!; try done. by intros o ->.
  - destruct (t_options t) as [o1|]; [|done].
    destruct (rand_pick (o_Servers o1) (t_server t)) as [s|] eqn:Es; [|done]. apply pair_equal_spec in E as [[= <-] <-].
    set (w1 := (set_server s w).2).
    assert (at_rest w1) as H1.
    { destruct H as [[H1 H2 H3] Hn]. rewrite En in Hn. split; [by split|]. simpl. by rewrite En. }
    destruct (open_connection_spec dnshttp_NextProtos (pick_hostport s (t_ip t)) s (o_IdleTimeout o1)
      (o_ReadTimeout o1) (o_WriteTimeout o1) w1 H1 En eq_refl) as (_ & _ & HN & _ & Hs & _).
    revert HN Hs. generalize (open_connection dnshttp_NextProtos (pick_hostport s (t_ip t)) s
      (o_IdleTimeout o1) (o_ReadTimeout o1) (o_WriteTimeout o1) w1).2. intros w2 HN <-.
    exists o1, (dnsServer w2). split_and!; [by intros ? [= <-]| |done|].
    + by destruct (Net w2).
    + unfold rand_pick in Es. by destruct (o_Servers o1).
Qed.

Lemma connect_panic opts t w w' :
  connect opts t w = (inl Panic, w') → server_of w = None ∧ ∃ o, t_options t = Some o ∧ o_Servers o = [].
Proof.
  unfold connect, server_of. destruct (Net w); [done|]. destruct (t_options t) as [o|]; [|done].
  destruct (rand_pick (o_Servers o) (t_server t)) as [s|] eqn:Es; [done|]. intros _. split; [done|].
  exists o. split; [done|]. unfold rand_pick in Es. destruct (o_Servers o) as [|s l]; [done|].
  apply lookup_ge_None in Es. pose proof (Nat.mod_upper_bound (t_server t) (length (s :: l)) ltac:(done)). lia.
Qed.

Lemma resolve_refines domain opts qtypes r ts w e w' :
  resolve_types domain opts qtypes r ts w = (e, w') → ready w →
  ∃ us, erased ts us ∧
    resolve opts (server_of w) qtypes r us =
    match e with
    | Done o r => Resolved o (server_of w') r
    | Panic => Panics
    | Asking | Left => Pending
    end.
Proof.
  revert opts qtypes r w. induction ts as [|t ts IH]; intros opts qtypes r w.
  { intros E _. exists []. split; [apply erased_nil|]. destruct qtypes; by injection E as <- <-. }
  destruct qtypes as [|qt qtypes].
  { intros [= <- <-] _. exists []. split; [apply erased_nil|done]. }
  cbn [resolve_types]. destruct (t_down t) eqn:Ed.
  { intros [= <- <-] _. exists []. split; [apply erased_nil|done]. }
  destruct (t_canceled t) eqn:Eca.
  { intros [= <- <-] _. exists [Cancelled]. split; [|done]. apply erased_cons; [by split|apply erased_nil]. }
  destruct (connect opts t w) as [[e1|o] w1] eqn:Ec.
  { intros [= <- <-] Hw. destruct (connect_spec _ _ _ _ _ Ec Hw) as [_ [->| ->]].
    { exists []. split; [apply erased_nil|done]. }
    apply connect_panic in Ec as (Es & o & Ho & El).
    exists [Exchange o (t_server t mod length (o_Servers o))%nat None (t_now t)].
    split; [|cbn [resolve]; by rewrite Es, El].
    apply erased_cons; [|apply erased_nil]. split; [done|]. split_and!; try done. intros o' Ho'. congruence. }
  intros E Hw. destruct (connect_spec _ _ _ _ _ Ec Hw) as [[H1 HT1] HN].
  destruct (Net w1) as [n|] eqn:En; [clear HN|done].
  destruct (connect_to_server _ _ _ _ _ Ec Hw) as (latest & s & Hl & Hs & Ho & Hk).
  pose proof (ask_spec dnshttp_NextProtos Pack Unpack NewRequest Response with_path (t_attempt t)
    (SetQuestion domain (question qt)) w1 n H1 En) as (E' & (d & Hd) & Hm).
  destruct (ask _ _ _ _ _ _ _ w1) as [[rrs|] w2]; cbn [fst snd] in *.
  - destruct (Hm _ eq_refl) as [Hw2 Hr].
    apply IH in E as (us & Hus & E); [|split; [done|by eapply logged_timed]].
    exists (Exchange latest (t_server t mod length (o_Servers latest))%nat (Some rrs) (t_now t) :: us).
    split; [apply erased_cons; [|done]; split; [done|]; split_and!; [done..|]; by intros ? [= <-]|].
    cbn [resolve]. rewrite <- Ho, Hk, <- E. f_equal. rewrite <- Hs. unfold server_of. by rewrite E'.
  - destruct (closeConnection_spec d w2 Hd (logged_timed _ _ _ E' En)) as (H3 & H4 & H5).
    apply IH in E as (us & Hus & E); [|split; [done|by intros _]].
    exists (Exchange latest (t_server t mod length (o_Servers latest))%nat None (t_now t) :: us).
    split; [apply erased_cons; [|done]; split; [done|]; by split_and!|].
    cbn [resolve]. rewrite <- Ho, Hk, <- E. f_equal. unfold server_of. by rewrite H4.
Qed.

(** *** The loop

    The worker of Socks.v: one query after another, at a connection of which
    only the server is known; [P] are the rounds that a query may have. *)

Section abstract.
Context (P : gostring → list (Socks.turn (C := C)) → Prop).

Inductive served : option DNServer → list (gmap gostring result) → list reply → Prop :=
  | served_none : served None [] []
  | served_reload c cs l : served c cs l → served c (cs ++ [∅]) l
  | served_close c cs l : served c cs l → served None cs l
  | served_query c cs l opts domain now us c' cs' r :
      served c cs l → P domain us → query opts c cs domain now us = Replied c' cs' r →
      served c' cs' (l ++ [MkReply domain r])
  | served_lost c cs l opts domain now us c' cs' r :
      served c cs l → P domain us → query opts c cs domain now us = Replied c' cs' r →
      served c' cs' (l ++ [MkReply domain None])
  | served_down c cs l opts domain now us c' cs' r :
      served c cs l → P domain us → query opts c cs domain now us = Replied c' cs' r →
      served c' cs' l.
End abstract.

Lemma served_mono (P P' : gostring → list (Socks.turn (C := C)) → Prop) c cs l :
  (∀ d us, P d us → P' d us) → served P c cs l → served P' c cs l.
Proof.
  intros HP. induction 1; [apply served_none|eapply served_reload|eapply served_close|eapply served_query|eapply served_lost|
  eapply served_down]; eauto.
Qed.

(** The rounds of the queries among the inputs. *)
Definition of_inputs (ins : list input) (domain : gostring) (us : list (Socks.turn (C := C))) : Prop :=
  ∃ latest now ts how, Query domain latest now ts how ∈ ins ∧ erased ts us.

(** [served_of P w cs l]: the state of the loop is one of the worker of
    Socks.v. *)
Definition served_of (P : gostring → list (Socks.turn (C := C)) → Prop) (s : loop) : Prop :=
  match st s with
  | Waiting => served P (server_of (wk s)) (caches s) (replies s)
  | _ => ∃ c, served P c (caches s) (replies s)
  end.

Lemma server_of_arm w : server_of (arm w) = server_of w.
Proof. unfold arm, server_of. destruct (Net w) eqn:E; simpl; by rewrite E. Qed.

Lemma server_of_close w d :
  conn_ok dnshttp_NextProtos d w → timed w → server_of (closeConnection w).2 = None.
Proof. intros H Ht. destruct (closeConnection_spec d w H Ht) as (_ & E & _). unfold server_of. by rewrite E. Qed.

Lemma finish_served (P : gostring → list (Socks.turn (C := C)) → Prop) opts c cs domain now us w cs' l r how :
  served P c cs l → P domain us → query opts c cs domain now us = Replied (server_of w) cs' r →
  served_of P (finish domain w cs' l r how).
Proof.
  intros H HP E. unfold finish, served_of, again, return_.
  destruct r as [r|], how; simpl; rewrite ?server_of_arm; try (by eapply served_query); try (by eapply served_lost).
  eexists. by eapply served_down.
Qed.

Lemma loop_step_served ins i s :
  loop_ok s → served_of (of_inputs ins) s → served_of (of_inputs (ins ++ [i])) (loop_step s i).
Proof.
  intros Hok H. set (P := of_inputs (ins ++ [i])).
  assert (∀ c cs l, served (of_inputs ins) c cs l → served P c cs l) as Hmono.
  { intros c cs l. apply served_mono. intros d us (la & now & ts & how & Hin & He).
    exists la, now, ts, how. split; [|done]. apply elem_of_app. by left. }
  unfold loop_step. destruct s as [stat w cs l]. cbn [st].
  assert (stat ≠ Waiting → served_of P
    match i with Reload => MkLoop stat w (cs ++ [∅]) l | _ => MkLoop stat w cs l end) as Hend.
  { intros Hne. assert (∃ c, served P c cs l) as [c Hc].
    { unfold served_of in H. cbn [st caches replies] in H. destruct stat; [done|..];
        destruct H as [c Hc]; exists c; by apply Hmono. }
    unfold served_of. destruct i; cbn [st caches replies]; destruct stat; try done; exists c; try done;
      by apply served_reload. }
  destruct stat; cbn [wk caches replies]; [clear Hend|apply Hend; done..].
  destruct Hok as [Hw Ha]. cbn [wk] in *. pose proof (armed_timed _ Ha) as Ht.
  unfold served_of in H. cbn [st wk caches replies] in H. apply Hmono in H.
  destruct i as [| |domain [o|] now ts how|].
  - unfold served_of. simpl. by eexists.
  - destruct (IdleTimer w); [|done]. unfold served_of, again. cbn [st wk caches replies].
    rewrite server_of_arm, (server_of_close w (0, 0)) by done. by eapply served_close.
  - assert (∀ us, erased ts us → P domain us) as HP.
    { intros us Hus. exists (Some o), now, ts, how. split; [|done]. apply elem_of_app. right. by left. }
    destruct (fresh cs o domain now) as [r|] eqn:Ef.
    { eapply (finish_served P o _ cs domain now []); [exact H|apply HP, erased_nil|].
      unfold query. by rewrite Ef. }
    destruct (resolve_types _ _ _ _ ts w) as [e w1] eqn:Er.
    destruct (resolve_refines _ _ _ _ _ _ _ _ Er) as (us & Hus & E); [by split|]. specialize (HP us Hus).
    destruct e as [o1 r| | |]; [|unfold served_of; simpl; by eexists..].
    assert (query o (server_of w) cs domain now us =
      if (length (IPv4 r) + length (IPv6 r) =? 0)%nat then Replied (server_of w1) cs None
      else Replied (server_of w1)
             match Deadline r with Some _ => Store cs (o_dnsCache o1) domain r | None => cs end (Some r)) as Eq.
    { unfold query. by rewrite Ef, E. }
    destruct (_ =? 0)%nat; by eapply finish_served.
  - unfold served_of. simpl. by eexists.
  - unfold served_of. simpl. by apply served_reload.
Qed.

Lemma run_served ins : served_of (of_inputs ins) (run ins).
Proof.
  unfold run. set (s0 := MkLoop Waiting (arm start) [] []).
  assert (loop_ok s0) as H0 by (apply again_ok; split; [apply start_at_rest|done]).
  assert (loop_ok (foldl loop_step s0 ins) ∧ served_of (of_inputs ins) (foldl loop_step s0 ins)) as [_ H]; [|exact H].
  induction ins as [|i ins [IH1 IH2]] using rev_ind.
  - split; [done|]. unfold served_of. simpl. constructor.
  - rewrite foldl_app. simpl. split; [by apply loop_step_ok|by apply loop_step_served].
Qed.

(** The worker with its connection is the worker of Socks.v: what it answers,
    and the caches it leaves, are those of a run of queries, each with the
    rounds of one of the inputs, where a round has an answer only if it was
    received. *)
Theorem worker_refines ins :
  served_of (of_inputs ins) (run ins).
Proof. apply run_served. Qed.

(** *** Where addresses come from *)

(** A result made of answers of rounds that [P] allows. *)
Definition made (P : gostring → list (Socks.turn (C := C)) → Prop) (domain : gostring) (r : result) : Prop :=
  ∃ l, r = foldl add_answer no_result l ∧ Forall (λ a, ∃ o us, P domain us ∧ in_turns o us a) l.

Lemma query_made (P : gostring → list (Socks.turn (C := C)) → Prop) h opts c cs domain now us c' cs' r :
  cached (C := C) h cs → (∀ d o us, (d, o, us) ∈ h → P d us) → P domain us →
  query opts c cs domain now us = Replied c' cs' (Some r) → made P domain r.
Proof.
  intros Hc Hh HP E. unfold query in E. destruct (fresh cs opts domain now) as [r0|] eqn:Ef.
  - injection E as _ _ <-. unfold fresh in Ef. apply bind_Some in Ef as (r1 & Hl & Ef).
    apply bind_Some in Ef as (d & _ & Ef). destruct (now <? d); [|done]. injection Ef as <-.
    unfold Load in Hl. apply bind_Some in Hl as (p & _ & Hl). apply bind_Some in Hl as (m & Hp & Hl).
    destruct (cached_entry h cs p m domain r1 Hc Hp Hl) as (l & -> & Hf). exists l. split; [done|].
    eapply Forall_impl; [exact Hf|]. intros a (o & us0 & Hin & Ha). exists o, us0. split; [by eapply Hh|done].
  - destruct (resolve opts c _ no_result us) as [o c1 r1| |] eqn:Er; [|done..].
    destruct (_ =? 0)%nat; [done|]. injection E as _ _ <-.
    destruct (resolve_answers _ _ _ _ _ _ _ _ Er) as (l & -> & Hl & _). exists l. split; [done|].
    eapply Forall_impl; [exact Hl|]. intros a Ha. by exists opts, us.
Qed.

Lemma served_made P c cs l :
  served P c cs l →
  (∃ h, cached (C := C) h cs ∧ ∀ d o us, (d, o, us) ∈ h → P d us) ∧
  ∀ rep r, rep ∈ l → r_result rep = Some r → made P (r_domain rep) r.
Proof.
  assert (∀ h opts c cs domain now us c' cs' r, cached (C := C) h cs → (∀ d o us, (d, o, us) ∈ h → P d us) →
    P domain us → query opts c cs domain now us = Replied c' cs' r →
    ∃ h, cached (C := C) h cs' ∧ ∀ d o us, (d, o, us) ∈ h → P d us) as Hnext.
  { intros h opts c0 cs0 domain now us c' cs' r Hc Hh HP E. exists ((domain, opts, us) :: h).
    split; [by eapply cached_query|]. intros d o us0 [[= -> -> ->]|Hin]%elem_of_cons; [done|by eapply Hh]. }
  induction 1 as [|c cs l _ [(h & Hc & Hh) IH]|c cs l _ IH|c cs l opts domain now us c' cs' r _ [(h & Hc & Hh) IH] HP E
    |c cs l opts domain now us c' cs' r _ [(h & Hc & Hh) IH] HP E
    |c cs l opts domain now us c' cs' r _ [(h & Hc & Hh) IH] HP E]; try done.
  - split; [|by intros ? ? ?%elem_of_nil]. exists []. split; [constructor|]. by intros ? ? ? ?%elem_of_nil.
  - split; [|done]. exists h. split; [by constructor|done].
  - split; [by eapply Hnext|]. intros rep r0 [Hin| ->%list_elem_of_singleton]%elem_of_app; [by apply IH|].
    simpl. intros ->. by eapply query_made.
  - split; [by eapply Hnext|]. intros rep r0 [Hin| ->%list_elem_of_singleton]%elem_of_app; [by apply IH|done].
  - split; [by eapply Hnext|done].
Qed.

Lemma erased_received ts us latest k rrs now :
  erased ts us → Exchange latest k (Some rrs) now ∈ us →
  ∃ t, t ∈ ts ∧ received Unpack Response (t_attempt t) rrs.
Proof.
  intros [n H] Hin. apply list_elem_of_lookup in Hin as [i Hi].
  destruct (Forall2_lookup_r _ _ _ _ _ H Hi) as (t & Ht & _ & He). destruct He as (_ & _ & _ & _ & Hr).
  exists t. split; [|by apply Hr]. apply list_elem_of_lookup_2 in Ht. by apply subseteq_take in Ht.
Qed.

Lemma elem_of_answers (l : list (answer (C := C))) a :
  a ∈ IPv4 (foldl add_answer no_result l) ++ IPv6 (foldl add_answer no_result l) →
  ∃ x rr, x ∈ l ∧ rr ∈ a_rrs x ∧ (rr_data rr = RA a ∨ rr_data rr = RAAAA a) ∧ IsValid a = true.
Proof.
  destruct (answers_addrs l no_result) as [-> ->]. cbn [IPv4 IPv6 no_result app].
  assert (∀ f, (∀ rr, a ∈ f rr → (rr_data rr = RA a ∨ rr_data rr = RAAAA a) ∧ IsValid a = true) →
    a ∈ (l ≫= λ x, a_rrs x ≫= f) →
    ∃ x rr, x ∈ l ∧ rr ∈ a_rrs x ∧ (rr_data rr = RA a ∨ rr_data rr = RAAAA a) ∧ IsValid a = true) as H.
  { intros f Hf (x & Hx & Hin)%list_elem_of_bind. apply list_elem_of_bind in Hx as (rr & Hrr & Hx).
    exists x, rr. split_and!; [done..|by apply Hf|by apply (Hf rr)]. }
  intros [Hin|Hin]%elem_of_app; apply H in Hin; try done; intros rr; unfold ipv4_of, ipv6_of;
    destruct (rr_data rr) as [b|b|]; try (by intros ?%elem_of_nil); destruct (IsValid b) eqn:Eb;
    try (by intros ?%elem_of_nil); intros ->%list_elem_of_singleton; auto.
Qed.

(** The domains of the queries among the inputs, in their order. *)
Definition asked (ins : list input) : list gostring :=
  ins ≫= λ i, match i with Query domain (Some _) _ _ _ => [domain] | _ => [] end.

Lemma finish_domains domain w cs l r how :
  st (finish domain w cs l r how) = Waiting →
  r_domain <$> replies (finish domain w cs l r how) = (r_domain <$> l) ++ [domain].
Proof. unfold finish. destruct r, how; simpl; try done; intros _; by rewrite fmap_app. Qed.

#[local] Arguments finish : simpl never.

Lemma loop_step_domains s i :
  st (loop_step s i) = Waiting →
  st s = Waiting ∧ r_domain <$> replies (loop_step s i) = (r_domain <$> replies s) ++ asked [i].
Proof.
  unfold loop_step. destruct s as [[] w cs l]; cbn [st]; [|by destruct i..]. cbn [replies].
  destruct i as [| |domain [o|] now ts how|]; unfold asked; simpl; rewrite ?app_nil_r; try done.
  - destruct (IdleTimer w); done.
  - destruct (fresh cs o domain now) as [r|]; [intros H; split; [done|by apply finish_domains]|].
    destruct (resolve_types _ _ _ _ ts w) as [[o1 r| | |] w1]; simpl; try done.
    destruct (_ =? 0)%nat; intros H; (split; [done|by apply finish_domains]).
Qed.

(** While the worker is waiting, each query was answered once, in the order
    they came; and an address that was given for a domain is in an answer that
    was received in a query for that domain. *)
Theorem worker_answers ins :
  (st (run ins) = Waiting → r_domain <$> replies (run ins) = asked ins) ∧
  ∀ rep r a, rep ∈ replies (run ins) → r_result rep = Some r → a ∈ IPv4 r ++ IPv6 r →
    ∃ latest now ts how t rrs rr,
      Query (r_domain rep) latest now ts how ∈ ins ∧ t ∈ ts ∧ received Unpack Response (t_attempt t) rrs ∧
      rr ∈ rrs ∧ (rr_data rr = RA a ∨ rr_data rr = RAAAA a).
Proof.
  split.
  - unfold run. induction ins as [|i ins IH] using rev_ind; [done|]. rewrite foldl_app. simpl.
    intros [Hs E]%loop_step_domains. rewrite E, (IH Hs). unfold asked. by rewrite bind_app.
  - intros rep r a Hrep Hr Ha.
    assert (∃ c, served (of_inputs ins) c (caches (run ins)) (replies (run ins))) as [c Hc].
    { pose proof (run_served ins) as H. unfold served_of in H. destruct (st _); [by eexists|done..]. }
    destruct (served_made _ _ _ _ Hc) as [_ H]. destruct (H rep r Hrep Hr) as (l & -> & Hl).
    destruct (elem_of_answers l a Ha) as (x & rr & Hx & Hrr & Hd & _).
    rewrite Forall_forall in Hl. destruct (Hl x Hx) as (o & us & (latest & now & ts & how & Hin & He) & ts1 & lt & k & ts2 & Ht & _).
    assert (Exchange lt k (Some (a_rrs x)) (a_now x) ∈ us) as Hus by (subst us; set_solver).
    destruct (erased_received _ _ _ _ _ _ He Hus) as (t & Htt & Hrec).
    exists latest, now, ts, how, t, (a_rrs x), rr. by split_and!.
Qed.

(** ** A name that cannot be packed *)

(** Nothing tells an error of the network from one of the message: a round
    that can never succeed is made again, with a new connection each time and
    no delay, until the client leaves. *)
Theorem unpackable_spins domain opts qtype qtypes r ts w :
  Pack (SetQuestion domain (question qtype)) = None →
  Forall (λ t, t_down t = false ∧ t_canceled t = false ∧
    ∃ o, t_options t = Some o ∧ o_Servers o ≠ [] ∧ Forall (λ s, over_http s = false) (o_Servers o)) ts →
  ready w → Net w = None →
  ∃ w', resolve_types domain opts (qtype :: qtypes) r ts w = (Asking, w') ∧ Net w' = None ∧
    opened w' = (opened w + length ts)%nat.
Proof.
  intros Hp Hts. revert opts w. induction Hts as [|t ts (Hd & Hc & o & Ho & Hne & Hs) _ IH]; intros opts w Hw En.
  { exists w. split_and!; [done..|]. simpl. lia. }
  cbn [resolve_types length]. rewrite Hd, Hc. destruct Hw as [H Ht].
  assert (∃ s, rand_pick (o_Servers o) (t_server t) = Some s ∧ over_http s = false) as (s & Es & Hh).
  { unfold rand_pick. destruct (o_Servers o) as [|s0 l] eqn:El; [done|]. rewrite Forall_forall in Hs.
    destruct (lookup_lt_is_Some_2 (s0 :: l) (t_server t mod length (s0 :: l))) as [s Es].
    { apply Nat.mod_upper_bound. done. }
    exists s. split; [done|]. apply Hs. by eapply list_elem_of_lookup_2. }
  unfold connect. rewrite En, Ho, Es. set (w1 := (set_server s w).2).
  assert (at_rest w1) as H1.
  { destruct H as [[H1 H2 H3] Hn]. rewrite En in Hn. split; [by split|]. simpl. by rewrite En. }
  destruct (open_connection_spec dnshttp_NextProtos (pick_hostport s (t_ip t)) s (o_IdleTimeout o)
    (o_ReadTimeout o) (o_WriteTimeout o) w1 H1 En eq_refl) as (_ & H2 & HN & HT & HS & _ & _ & HO).
  revert H2 HN HT HS HO.
  generalize (open_connection dnshttp_NextProtos (pick_hostport s (t_ip t)) s (o_IdleTimeout o)
    (o_ReadTimeout o) (o_WriteTimeout o) w1).2. intros w2 H2 HN HT HS HO.
  assert (∀ a, ask Pack Unpack NewRequest Response with_path a (SetQuestion domain (question qtype)) w2
    = (None, w2)) as Ha.
  { intros a. unfold ask, exchange, mbind, prog_bind, gets. rewrite HS, Hh, Hp. done. }
  rewrite Ha. assert (timed w2) as HT2 by (by intros E%HN).
  destruct (closeConnection_spec (0, 0) w2 H2 HT2) as (H3 & H4 & H5).
  destruct (IH o (closeConnection w2).2) as (w' & E & EN & EO); [split; [done|by intros _]|done|].
  exists w'. split_and!; [done..|]. rewrite EO, closeConnection_opened, HO. subst w1. simpl. lia.
Qed.
End worker.

(** ** At work *)

(** A message is its question, packed as its type; an answer is a TTL and an
    address. *)
Definition plain_unpack (data : list Z) : option (list RR) :=
  match data with ttl :: a :: _ => Some [MkRR (Some ttl) (RA (Addr4 a))] | _ => None end.

Definition plain_run : list (input (C := unit) (Req := unit) (R := unit)) → loop :=
  run (Msg := gostring * option Z) [] pair (λ q, Some [default 0 q.2]) plain_unpack (λ _ _ _, None) (λ _, None)
    (λ r _, r).

Definition plain_turn (wrote : bool) (data : option (list Z)) : wturn (C := unit) (Req := unit) (R := unit) :=
  MkTurn false false (Some with_servers) 0 0 (MkAttempt wrote data (λ _, None)) 0.

(** A write that fails, then two answers; the same host again; a long pause. *)
Definition a_day : list (input (C := unit) (Req := unit) (R := unit)) :=
  [Reload;
   Query host (Some with_servers) 0
     [plain_turn false None; plain_turn true (Some [60; 9]); plain_turn true (Some [80; 8])] Delivered;
   Query host (Some with_servers) second [] Delivered].

Example a_day_log :
  log (wk (plain_run a_day)) =
    let hp := bs "ns1:53" in
    let ask q := [SetOutgoingTimeout 1 (2 * second) (3 * second); Write (Plain 1) [0; 1; q];
                  SetOutgoingTimeout 1 (2 * second) (3 * second); ReadFrom (Plain 1); SetOutgoingTimeout 1 0 0] in
    [NewConn 0 hp; SetOutgoingTimeout 0 (2 * second) (3 * second); Write (Plain 0) [0; 1; 1];
     Close (Plain 0); Wait; CloseIdleConnections; NewConn 1 hp] ++ ask 1 ++ ask 28.
Proof. vm_compute. reflexivity. Qed.

(** A server over HTTP: a connection is opened for it, and the transport makes
    another. *)
Definition over_http_options : Socks.Options (C := unit) :=
  Jobs.opts (loads [[MkServer (bs "ns1") [] (bs "HTTP") 0 [] []]]).

Definition http_turn : wturn (C := unit) (Req := unit) (R := unit) :=
  MkTurn false false (Some over_http_options) 0 0 (MkAttempt false None (λ _, Some tt)) 0.

Example http_log :
  log (wk (run (Msg := gostring * option Z) [] pair (λ q, None) plain_unpack (λ _ _ _, Some tt) (λ _, Some [60; 9])
    (λ r _, r) [Reload; Query host (Some over_http_options) 0 [http_turn; http_turn] Delivered])) =
  let trip := [SetOutgoingTimeout 0 (2 * second) (3 * second); DirectTrip (bs "http://ns1"); SetOutgoingTimeout 0 0 0] in
  NewConn 0 (bs "ns1:80") :: trip ++ trip.
Proof. vm_compute. reflexivity. Qed.

Lemma a_day_waits : st (plain_run a_day) = Waiting ∧ Net (wk (plain_run a_day)) = Some (Plain 1).
Proof. vm_compute. by split. Qed.

Example a_day_idle : Net (wk (plain_run (a_day ++ [Idle]))) = None ∧ st (plain_run (a_day ++ [Idle; CtxDone])) = Returned.
Proof. vm_compute. by split. Qed.

Lemma connection_kept_witness :
  IdleTimer (wk (plain_run a_day)) = Some (IdleTimeout (wk (plain_run a_day))) ∧
  watched (log (wk (plain_run a_day))) = Some (Open 1 0 0, 2%nat).
Proof.
  destruct (connection_kept (C := unit) (Msg := gostring * option Z) (Req := unit) (R := unit) [] pair
    (λ q, Some [default 0 q.2]) plain_unpack (λ _ _ _, None) (λ _, None) (λ r _, r) a_day) as [_ H].
  specialize (H (or_introl (proj1 a_day_waits))).
  fold plain_run in H. change (run _ _ _ _ _ _ _ a_day) with (plain_run a_day) in H.
  rewrite (proj2 a_day_waits) in H. destruct H as (_ & H1 & _ & _ & _ & H2). split; [exact H1|].
  rewrite H2. vm_compute. reflexivity.
Defined.

Lemma a_day_reply : MkReply host (Some (MkResult [Addr4 9; Addr4 8] [] (Some (60 * second)))) ∈ replies (plain_run a_day).
Proof. vm_compute. left. Qed.

Lemma worker_answers_witness :
  r_domain <$> replies (plain_run a_day) = [host; host] ∧
  ∃ latest now ts how t rrs rr,
    Query host latest now ts how ∈ a_day ∧ t ∈ ts ∧ received plain_unpack (λ _ : unit, None) (t_attempt t) rrs ∧
    rr ∈ rrs ∧ (rr_data rr = RA (Addr4 8) ∨ rr_data rr = RAAAA (Addr4 8)).
Proof.
  destruct (worker_answers (C := unit) (Msg := gostring * option Z) (Req := unit) (R := unit) [] pair
    (λ q, Some [default 0 q.2]) plain_unpack (λ _ _ _, None) (λ _, None) (λ r _, r) a_day) as [H1 H2].
  split; [exact (H1 (proj1 a_day_waits))|].
  apply (H2 _ _ (Addr4 8) a_day_reply eq_refl). right. left.
Defined.

Lemma unpackable_spins_witness :
  ∃ w', resolve_types (C := unit) (Msg := gostring * option Z) (Req := unit) (R := unit) [] pair
    (λ _, None) plain_unpack (λ _ _ _, None) (λ _, None) (λ r _, r) host with_servers [bs "A"] no_result
    (replicate 1000 (plain_turn true None)) start = (Asking, w') ∧ Net w' = None ∧ opened w' = 1000%nat.
Proof.
  apply (unpackable_spins (C := unit) [] pair (λ _, None) plain_unpack (λ _ _ _, None) (λ _, None) (λ r _, r)
    host with_servers (bs "A") [] no_result (replicate 1000 (plain_turn true None)) start); [reflexivity| |split|].
  - apply Forall_replicate. split_and!; [reflexivity..|]. exists with_servers. split; [reflexivity|].
    split; [discriminate|]. repeat constructor.
  - apply start_at_rest.
  - intros _. reflexivity.
  - reflexivity.
Defined.
