(* ===== verification/DnstunConn.v ===== *)
(** * The exchanges of dnstun, with their connection
    (service/tcptun/dnstun/dnstun.go).

    startExchange in full: the loop over queries, the idle timer that ends it,
    the connection of DnsConn.v.  It keeps the protocol of its connections, and
    what it answers are the queries of DnstunWork.v. *)

From S2P Require Import Prelude GoStrings Addr Proxy Defaults Dns DnsConn AllowList DnsList DnsAnswers Dnstun DnstunWork.

Open Scope go_scope.
#[local] Arguments bs : simpl never.

Section exchange.
Context {C : Type} (Fqdn : gostring → gostring) (dnshttp_NextProtos : list gostring).
Context {Q Req R : Type}.
Context (SetQuestion : gostring → Z → Q).
Context (Pack : Q → option (list Z)) (Unpack : list Z → option Msg).
Context (NewRequest : gostring → gostring → Q → option Req) (Response : R → option (list Z)).
Context (with_path : Req → gostring → Req).
(** [ex.Route]. *)
Context (route1 : option (@route C)).

Abbreviation Options := (@Dnstun.Options C) (only parsing).
Abbreviation attempt := (@DnsConn.attempt Req R) (only parsing).
Abbreviation caches := (list (gmap (gostring * Z) result)) (only parsing).

(** The same words as in socks. *)
Definition dt_choose_config : DNServer → prog worker unit := choose_config dnshttp_NextProtos.
Definition dt_open_connection : gostring → DNServer → Z → Z → Z → prog worker unit :=
  open_connection dnshttp_NextProtos.
Definition dt_DialTLSContext : worker → option net_conn := DialTLSContext.
Definition dt_request : DNServer → Q → option Req := request NewRequest with_path.
Definition dt_exchange : attempt → Q → prog worker (list Z) := exchange Pack NewRequest Response with_path.

(** The idle timer is not of the connection. *)
Definition dt_closeConnection : prog worker unit := close_net (mret tt).

Record xturn := MkTurn {
  x_down : bool;
  x_canceled : bool;
  x_options : option Options;
  x_server : nat;
  x_ip : nat;
  x_attempt : attempt;
  x_now : Z }.

(** [if dnsConn.Net == nil { ... }]; [None]: return. *)
Definition dt_connect (opts : Options) (t : xturn) (w : worker) : option Options * worker :=
  match Net w with
  | Some _ => (Some opts, w)
  | None =>
      match x_options t with
      | None => (None, w)
      | Some opts =>
          match rand_pick (servers_of route1 opts) (x_server t) with
          | None => (None, w)                              (* no servers *)
          | Some s =>
              let w := (set_server s w).2 in
              (Some opts, (dt_open_connection (pick_hostport s (x_ip t)) s
                             (o_Idle opts) (o_Read opts) (o_Write opts) w).2)
          end
      end
  end.

(** What an attempt of the connection dials; [None]: CloseConn. *)
Definition dt_getRemote (canceled : bool) (latest : option Options) (hostport : gostring)
    : option (Proxy.Proxy C * gostring) :=
  if canceled then None
  else opts ← latest;
       Some (match route1 with Some r => rt_Proxy r | None => o_Proxy opts end, hostport).

Inductive outcome :=
  | Got (opts : Options) (r : result)
  | NoAnswer                              (* the query was canceled *)
  | Going                                 (* the turns are used up *)
  | Return.

(** [for result == nil] *)
Fixpoint dt_resolve (opts : Options) (q : query) (ts : list xturn) (w : worker) : outcome * worker :=
  match ts with
  | [] => (Going, w)
  | t :: ts =>
      if x_down t then (Return, w)
      else if x_canceled t then (NoAnswer, w)
      else
        match dt_connect opts t w with
        | (None, w) => (Return, w)
        | (Some opts, w) =>
            let z := DnsAnswers.asked Fqdn (o_Redirects opts) (q_Fqdn q) in
            match ask Pack Unpack NewRequest Response with_path (x_attempt t) (SetQuestion z (q_Qtype q)) w with
            | (Some m, w) => (Got opts (answer_of Fqdn opts q m (x_now t)), w)
            | (None, w) => dt_resolve opts q ts (dt_closeConnection w).2
            end
        end
  end.

Inductive sent := Delivered | Gone | Down.

(** The inputs of the loop; [Others]: the caches as other goroutines left
    them. *)
Inductive input :=
  | CtxDone
  | Idle
  | Asked (q : query) (latest : option Options) (now : Z) (ts : list xturn) (how : sent)
  | Others (ds : caches).

Inductive status := Waiting | Returned | Stuck.

Record reply := MkReply { r_query : query; r_result : option result }.

Record loop := MkLoop { st : status; wk : worker; dns : caches; replies : list reply }.

(** [_ = first || idleTimer.Reset(idleTimeout)] *)
Definition reset_timer (w : worker) : worker := (set_timer (Some (IdleTimeout w)) w).2.

(** The deferred calls: idleTimer.Stop, closeConnection. *)
Definition dt_return (w : worker) (ds : caches) (l : list reply) : loop :=
  MkLoop Returned (dt_closeConnection (set_timer None w).2).2 ds l.

Definition dt_again (w : worker) (ds : caches) (l : list reply) : loop :=
  MkLoop Waiting (reset_timer w) ds l.

Definition dt_finish (q : query) (w : worker) (ds : caches) (l : list reply) (r : option result) (how : sent) : loop :=
  match r, how with
  | Some _, Down => dt_return w ds l
  | Some r, Delivered => dt_again w ds (l ++ [MkReply q (Some r)])
  | _, _ => dt_again w ds (l ++ [MkReply q None])
  end.

Definition dt_step (s : loop) (i : input) : loop :=
  match st s with
  | Waiting =>
      let '(MkLoop _ w ds l) := s in
      match i with
      | Others ds => MkLoop Waiting w ds l
      | CtxDone | Idle | Asked _ None _ _ _ => dt_return w ds l
      | Asked q (Some opts) now ts how =>
          match cached opts ds q now with
          | Some r => dt_finish q w ds l (Some r) how
          | None =>
              match dt_resolve opts q ts w with
              | (Going, w) => MkLoop Stuck w ds l
              | (Return, w) => dt_return w ds l
              | (NoAnswer, w) => dt_finish q w ds l None how
              | (Got opts r, w) =>
                  dt_finish q w (Store ds (o_dnsCache opts) (q_Fqdn q, q_Qtype q) r) l (Some r) how
              end
          end
      end
  | _ => s
  end.

(** [idleTimer := time.NewTimer(defaultIdleTimeout)] *)
Definition dt_start : worker :=
  (set_timer (Some defaultIdleTimeout) (set_timeouts defaultIdleTimeout 0 0 start).2).2.

Definition dt_run (ds : caches) (ins : list input) : loop :=
  foldl dt_step (MkLoop Waiting dt_start ds []) ins.

(** ** Its connection *)

Abbreviation at_rest := (conn_ok dnshttp_NextProtos (0, 0)) (only parsing).

(** Nothing of the connection is in the timer. *)
Lemma conn_ok_timer d t w : conn_ok dnshttp_NextProtos d w → conn_ok dnshttp_NextProtos d (set_timer t w).2.
Proof. intros [[H1 H2 H3] Hn]. split; [by split|exact Hn]. Qed.

Lemma set_server_ok s w : at_rest w → Net w = None → at_rest (set_server s w).2.
Proof. intros [[H1 H2 H3] Hn] E. split; [by split|]. simpl. rewrite E in *. exact Hn. Qed.

Lemma dt_close_spec d w :
  conn_ok dnshttp_NextProtos d w →
  at_rest (dt_closeConnection w).2 ∧ Net (dt_closeConnection w).2 = None ∧
  IdleTimer (dt_closeConnection w).2 = IdleTimer w ∧ IdleTimeout (dt_closeConnection w).2 = IdleTimeout w.
Proof.
  intros H.
  assert (∀ w, at_rest w → Net w = None → at_rest (with_log w (log w ++ [CloseIdleConnections]))) as Hidle.
  { intros w0 [[H1 H2 H3] Hn] E. rewrite E in Hn. destruct Hn as [Hc Hw]. split; [by split|]. simpl. rewrite E.
    split; [done|]. by rewrite watched_snoc, Hw. }
  apply (close_net_spec dnshttp_NextProtos (mret tt) d w
    (λ w', at_rest w' ∧ Net w' = None ∧ IdleTimer w' = IdleTimer w ∧ IdleTimeout w' = IdleTimeout w)); [done|..].
  - intros E. split_and!; try done. apply Hidle; [|done].
    destruct H as [Ht Hn]. split; [done|]. by rewrite E in *.
  - intros n w' E H' EN HT HI Ho Hs. wp. split_and!; try done. by apply Hidle.
Qed.

(** In the middle of a query. *)
Definition steady (w : worker) : Prop := at_rest w ∧ 0 < IdleTimeout w.

Lemma dt_connect_spec opts t w o w' :
  dt_connect opts t w = (o, w') → steady w → steady w' ∧ (is_Some o → Net w' ≠ None).
Proof.
  unfold dt_connect. intros E [H Hi]. destruct (Net w) as [n|] eqn:En.
  { injection E as <- <-. split; [by split|]. by rewrite En. }
  destruct (x_options t) as [o1|]; [|injection E as <- <-; split; [by split|by intros []]].
  destruct (rand_pick (servers_of route1 o1) (x_server t)) as [s|];
    [|injection E as <- <-; split; [by split|by intros []]].
  apply pair_equal_spec in E as [<- <-]. set (w1 := (set_server s w).2).
  pose proof (timeouts_pos (o_Idle o1) (o_Read o1) (o_Write o1)) as Hp.
  destruct (open_connection_spec dnshttp_NextProtos (pick_hostport s (x_ip t)) s (o_Idle o1) (o_Read o1)
    (o_Write o1) w1 (set_server_ok s w H En) En eq_refl) as (_ & H2 & HN & HT & _ & _ & HI & _).
  rewrite <- HI in Hp. split; [split; [exact H2|apply Hp]|done].
Qed.

Lemma dt_resolve_spec opts q ts w e w' :
  dt_resolve opts q ts w = (e, w') → steady w → steady w'.
Proof.
  revert opts w. induction ts as [|t ts IH]; intros opts w; [by intros [= <- <-]|]. cbn [dt_resolve].
  destruct (x_down t); [by intros [= <- <-]|]. destruct (x_canceled t); [by intros [= <- <-]|].
  destruct (dt_connect opts t w) as [[o|] w1] eqn:Ec; intros E Hw.
  2:{ injection E as <- <-. by apply (dt_connect_spec _ _ _ _ _ Ec). }
  destruct (dt_connect_spec _ _ _ _ _ Ec Hw) as [[H1 Hi] HN].
  destruct (Net w1) as [n|] eqn:En; [clear HN|by destruct HN].
  pose proof (ask_spec dnshttp_NextProtos Pack Unpack NewRequest Response with_path (x_attempt t)
    (SetQuestion (DnsAnswers.asked Fqdn (o_Redirects o) (q_Fqdn q)) (q_Qtype q)) w1 n H1 En) as (E' & (d & Hd) & Hm).
  assert (0 < IdleTimeout w1) by done.
  destruct (ask _ _ _ _ _ _ _ w1) as [[m|] w2]; cbn [fst snd] in *.
  - injection E as _ <-. destruct (Hm _ eq_refl) as [Hw2 _]. split; [done|]. by rewrite E'.
  - destruct (dt_close_spec d w2 Hd) as (? & ? & ? & HI). eapply IH; [exact E|]. split; [done|].
    rewrite HI, E'. done.
Qed.

Definition loop_ok (s : loop) : Prop :=
  match st s with
  | Waiting => steady (wk s) ∧ IdleTimer (wk s) = Some (IdleTimeout (wk s))
  | Returned => at_rest (wk s) ∧ Net (wk s) = None ∧ IdleTimer (wk s) = None
  | Stuck => True
  end.

Lemma dt_again_ok w ds l : steady w → loop_ok (dt_again w ds l).
Proof. intros [H Hi]. split; [split; [by apply conn_ok_timer|done]|done]. Qed.

Lemma dt_return_ok w ds l : steady w → loop_ok (dt_return w ds l).
Proof.
  intros [H _]. destruct (dt_close_spec (0, 0) _ (conn_ok_timer _ None _ H)) as (? & ? & E & _).
  split_and!; [done..|]. exact E.
Qed.

Lemma dt_finish_ok q w ds l r how : steady w → loop_ok (dt_finish q w ds l r how).
Proof. intros H. unfold dt_finish. destruct r, how; auto using dt_again_ok, dt_return_ok. Qed.

Lemma dt_step_ok s i : loop_ok s → loop_ok (dt_step s i).
Proof.
  intros H. unfold dt_step. destruct s as [[] w ds l]; cbn [st] in *; [|done..].
  destruct H as [Hw Ht]. cbn [wk] in *.
  destruct i as [| |q [o|] now ts how|ds']; [by apply dt_return_ok..| |by apply dt_return_ok|by split].
  destruct (cached o ds q now); [by apply dt_finish_ok|].
  destruct (dt_resolve o q ts w) as [e w1] eqn:E. apply dt_resolve_spec in E; [|done].
  destruct e; [by apply dt_finish_ok|by apply dt_finish_ok|done|by apply dt_return_ok].
Qed.

Lemma dt_run_ok ds ins : loop_ok (dt_run ds ins).
Proof.
  unfold dt_run. assert (loop_ok (MkLoop Waiting dt_start ds [])) as H.
  { split; [|done]. split; [|done]. split; [split|]; done. }
  revert H. generalize (MkLoop Waiting dt_start ds []). induction ins as [|i ins IH]; [done|].
  intros s H. apply IH. by apply dt_step_ok.
Qed.

(** An exchange, whatever it is asked, keeps the protocol of its connections;
    while it waits its idle timer runs, no deadline is left on an open
    connection and TLS is with the server that was chosen; when it is over
    nothing is open and no timer runs. *)
Theorem exchange_kept ds ins :
  let s := dt_run ds ins in
  match st s with
  | Waiting =>
      IdleTimer (wk s) = Some (IdleTimeout (wk s)) ∧ 0 < IdleTimeout (wk s) ∧
      match Net (wk s) with
      | Some n => dressed dnshttp_NextProtos (wk s) (dnsServer (wk s)) n ∧
          watched (log (wk s)) = Some (Open (under n) 0 0, opened (wk s))
      | None => watched (log (wk s)) = Some (AllClosed, opened (wk s))
      end
  | Returned =>
      IdleTimer (wk s) = None ∧ Net (wk s) = None ∧ watched (log (wk s)) = Some (AllClosed, opened (wk s))
  | Stuck => True
  end.
Proof.
  intros s. pose proof (dt_run_ok ds ins) as H. fold s in H. unfold loop_ok in H. destruct (st s); [| |done].
  - destruct H as [[H Hi] Ht]. split_and!; [done..|]. pose proof (conn_net _ _ _ H) as Hn.
    destruct (Net (wk s)); [by destruct Hn as (_ & ? & _ & _ & _ & ?)|apply Hn].
  - destruct H as (H & EN & ET). split_and!; [done..|]. pose proof (conn_net _ _ _ H) as Hn.
    rewrite EN in Hn. apply Hn.
Qed.

(** ** It refines the queries of DnstunWork.v *)

Definition dt_server (w : worker) : option DNServer :=
  match Net w with Some _ => Some (dnsServer w) | None => None end.

(** A round, and what DnstunWork.v says of it: an answer was received. *)
Definition dt_erases (t : xturn) (u : DnstunWork.turn (C := C)) : Prop :=
  t_down u = x_down t ∧ t_canceled u = x_canceled t ∧ t_options u = x_options t ∧ t_pick u = x_server t ∧
  ∀ m now, t_answer u = Some (m, now) → received Unpack Response (x_attempt t) m ∧ now = x_now t.

Definition dt_erased (ts : list xturn) (us : list (DnstunWork.turn (C := C))) : Prop :=
  ∃ n, Forall2 dt_erases (take n ts) us.

Definition as_turn (t : xturn) (answer : option (Msg * Z)) : DnstunWork.turn (C := C) :=
  DnstunWork.MkTurn (x_down t) (x_canceled t) (x_options t) (x_server t) answer.

Lemma dt_erased_nil ts : dt_erased ts [].
Proof. exists O. constructor. Qed.

Lemma dt_erased_cons t ts us answer :
  (∀ m now, answer = Some (m, now) → received Unpack Response (x_attempt t) m ∧ now = x_now t) →
  dt_erased ts us →
  dt_erased (t :: ts) (as_turn t answer :: us).
Proof. intros H [n Hn]. exists (S n). constructor; [by split_and!|done]. Qed.

Lemma dt_connect_refines opts t answer w o w' :
  dt_connect opts t w = (o, w') → steady w →
  connect route1 opts (dt_server w)
    (as_turn t answer) =
  match o with Some o => s ← dt_server w'; Some (o, s) | None => None end.
Proof.
  unfold dt_connect, connect, dt_server. intros E [H Hi]. destruct (Net w) as [n|] eqn:En.
  { injection E as <- <-. by rewrite En. }
  cbn [as_turn t_options t_pick]. destruct (x_options t) as [o1|]; [|by injection E as <- <-]. cbn [mbind option_bind].
  unfold rand_pick in E. destruct (servers_of route1 o1) as [|s0 l]; [by injection E as <- <-|].
  destruct ((s0 :: l) !! (x_server t mod length (s0 :: l))%nat) as [s|]; [|by injection E as <- <-].
  apply pair_equal_spec in E as [<- <-]. set (w1 := (set_server s w).2).
  destruct (open_connection_spec dnshttp_NextProtos (pick_hostport s (x_ip t)) s (o_Idle o1) (o_Read o1)
    (o_Write o1) w1 (set_server_ok s w H En) En eq_refl) as (_ & _ & HN & _ & HS & _).
  set (w2 := (dt_open_connection _ _ _ _ _ _).2). assert (Net w2 ≠ None) as HN2 by exact HN.
  assert (dnsServer w2 = s) as HS2 by exact HS.
  clearbody w2. subst s. by destruct (Net w2).
Qed.

Lemma dt_resolve_refines opts q ts w e w' :
  dt_resolve opts q ts w = (e, w') → steady w →
  ∃ us, dt_erased ts us ∧
    resolve Fqdn route1 opts (dt_server w) q us =
    match e with
    | Got o r => match dt_server w' with Some s => Answered o (Some s) r | None => Left end
    | NoAnswer => Gave (dt_server w')
    | Going => DnstunWork.Asking
    | Return => Left
    end ∧ (∀ o r, e = Got o r → dt_server w' ≠ None).
Proof.
  revert opts w. induction ts as [|t ts IH]; intros opts w.
  { intros [= <- <-] _. exists []. split_and!; [apply dt_erased_nil|done..]. }
  cbn [dt_resolve].
  assert (∀ a us, (∀ m now, a = Some (m, now) → received Unpack Response (x_attempt t) m ∧ now = x_now t) →
    dt_erased ts us → dt_erased (t :: ts) (as_turn t a :: us)) as Hu by (intros; by apply dt_erased_cons).
  destruct (x_down t) eqn:Ed.
  { intros [= <- <-] _. exists [as_turn t None]. split_and!; [apply Hu; [done|apply dt_erased_nil]| |done].
    cbn [resolve as_turn t_down t_canceled]. by rewrite Ed, ?Eca. }
  destruct (x_canceled t) eqn:Eca.
  { intros [= <- <-] _. exists [as_turn t None]. split_and!; [apply Hu; [done|apply dt_erased_nil]| |done].
    cbn [resolve as_turn t_down t_canceled]. by rewrite Ed, ?Eca. }
  destruct (dt_connect opts t w) as [[o|] w1] eqn:Ec; intros E Hw;
    pose proof (λ a, dt_connect_refines opts t a w _ _ Ec Hw) as Hc.
  2:{ injection E as <- <-. exists [as_turn t None]. split_and!; [apply Hu; [done|apply dt_erased_nil]| |done].
    cbn [resolve]. rewrite Hc. cbn [as_turn t_down t_canceled]. by rewrite Ed, Eca. }
  destruct (dt_connect_spec _ _ _ _ _ Ec Hw) as [[H1 Hi] HN].
  assert (∃ s, dt_server w1 = Some s) as [s Hs].
  { unfold dt_server. destruct (Net w1); [by eexists|by destruct HN]. }
  destruct (Net w1) as [n|] eqn:En; [clear HN|by destruct HN].
  pose proof (ask_spec dnshttp_NextProtos Pack Unpack NewRequest Response with_path (x_attempt t)
    (SetQuestion (DnsAnswers.asked Fqdn (o_Redirects o) (q_Fqdn q)) (q_Qtype q)) w1 n H1 En) as (E' & (d & Hd) & Hm).
  destruct (ask _ _ _ _ _ _ _ w1) as [[m|] w2]; cbn [fst snd] in *.
  - injection E as <- <-. destruct (Hm _ eq_refl) as [Hw2 Hr].
    assert (dt_server w2 = Some s) as Hs2 by (rewrite <- Hs, E'; done).
    exists [as_turn t (Some (m, x_now t))]. rewrite Hs2. split_and!; [|cbn [resolve]|done].
    + apply Hu; [by intros ? ? [= <- <-]|apply dt_erased_nil].
    + rewrite Hc, Hs. cbn [as_turn t_down t_canceled t_answer]. by rewrite Ed, Eca.
  - destruct (dt_close_spec d w2 Hd) as (H3 & H4 & _ & HI).
    assert (dt_server (dt_closeConnection w2).2 = None) as Hs2 by (unfold dt_server; by rewrite H4).
    apply IH in E as (us & Hus & E & Hg); [|split; [done|rewrite HI, E'; done]].
    exists (as_turn t None :: us). split_and!; [by apply Hu| |done]. cbn [resolve]. rewrite <- E, Hs2.
    rewrite Hc, Hs. cbn [as_turn t_down t_canceled t_answer]. by rewrite Ed, Eca.
Qed.

(** *** The loop

    The exchange of DnstunWork.v, one query after another; [P] are the rounds
    that a query may have. *)

Section abstract.
Context (P : query → list (DnstunWork.turn (C := C)) → Prop).

Inductive dt_served : option DNServer → caches → list reply → Prop :=
  | dt_served_none ds : dt_served None ds []
  | dt_served_others c ds l ds' : dt_served c ds l → dt_served c ds' l
  | dt_served_query c ds l opts q now us c' r ds' :
      dt_served c ds l → P q us → exchange_query Fqdn route1 opts c ds q now us = Some (c', r, ds') →
      dt_served c' ds' (l ++ [MkReply q r])
  | dt_served_lost c ds l opts q now us c' r ds' :
      dt_served c ds l → P q us → exchange_query Fqdn route1 opts c ds q now us = Some (c', r, ds') →
      dt_served c' ds' (l ++ [MkReply q None])
  | dt_served_down c ds l opts q now us c' r ds' :
      dt_served c ds l → P q us → exchange_query Fqdn route1 opts c ds q now us = Some (c', r, ds') →
      dt_served c' ds' l.
End abstract.

Lemma dt_served_mono (P P' : query → list (DnstunWork.turn (C := C)) → Prop) c ds l :
  (∀ q us, P q us → P' q us) → dt_served P c ds l → dt_served P' c ds l.
Proof.
  intros HP. induction 1; [apply dt_served_none|eapply dt_served_others|eapply dt_served_query|
    eapply dt_served_lost|eapply dt_served_down]; eauto.
Qed.

(** The rounds of the queries among the inputs. *)
Definition dt_of_inputs (ins : list input) (q : query) (us : list (DnstunWork.turn (C := C))) : Prop :=
  ∃ latest now ts how, Asked q latest now ts how ∈ ins ∧ dt_erased ts us.

Definition dt_served_of (P : query → list (DnstunWork.turn (C := C)) → Prop) (s : loop) : Prop :=
  match st s with
  | Waiting => dt_served P (dt_server (wk s)) (dns s) (replies s)
  | _ => ∃ c, dt_served P c (dns s) (replies s)
  end.

Lemma dt_finish_served (P : query → list (DnstunWork.turn (C := C)) → Prop) opts c ds q now us w ds' l r how :
  dt_served P c ds l → P q us →
  exchange_query Fqdn route1 opts c ds q now us = Some (dt_server w, r, ds') →
  dt_served_of P (dt_finish q w ds' l r how).
Proof.
  intros H HP E. unfold dt_finish, dt_served_of, dt_again, dt_return.
  destruct r as [r|], how; simpl; try (by eapply dt_served_query); try (by eapply dt_served_lost).
  eexists. by eapply dt_served_down.
Qed.

Lemma dt_step_served ins i s :
  loop_ok s → dt_served_of (dt_of_inputs ins) s → dt_served_of (dt_of_inputs (ins ++ [i])) (dt_step s i).
Proof.
  intros Hok H. set (P := dt_of_inputs (ins ++ [i])).
  assert (∀ c ds l, dt_served (dt_of_inputs ins) c ds l → dt_served P c ds l) as Hmono.
  { intros c ds l. apply dt_served_mono. intros q us (la & now & ts & how & Hin & He).
    exists la, now, ts, how. split; [|done]. apply elem_of_app. by left. }
  assert (dt_served_of P s) as HP.
  { unfold dt_served_of in *. destruct (st s); [by apply Hmono|destruct H as [c Hc]; exists c; by apply Hmono..]. }
  clear H. unfold dt_step. destruct s as [[] w ds l]; cbn [st] in *; [|done..].
  destruct Hok as [Hw _]. cbn [wk] in *. unfold dt_served_of in HP. cbn [st wk dns replies] in HP.
  destruct i as [| |q [o|] now ts how|ds']; [by eexists..| |by eexists|by eapply dt_served_others].
  assert (∀ us, dt_erased ts us → P q us) as HPq.
  { intros us Hus. exists (Some o), now, ts, how. split; [|done]. apply elem_of_app. right. by left. }
  destruct (cached o ds q now) as [r|] eqn:Ef.
  { eapply (dt_finish_served P o _ ds q now []); [exact HP|apply HPq, dt_erased_nil|].
    unfold exchange_query. by rewrite Ef. }
  destruct (dt_resolve o q ts w) as [e w1] eqn:Er.
  destruct (dt_resolve_refines _ _ _ _ _ _ Er Hw) as (us & Hus & E & Hg). specialize (HPq us Hus).
  destruct e as [o1 r| | |]; [..|by eexists|by eexists].
  - specialize (Hg _ _ eq_refl). destruct (dt_server w1) as [s|] eqn:Es; [|done].
    eapply dt_finish_served; [done..|]. unfold exchange_query. by rewrite Ef, E, Es.
  - eapply dt_finish_served; [done..|]. unfold exchange_query. by rewrite Ef, E.
Qed.

(** An exchange with its connection is an exchange of DnstunWork.v: what it
    answers, and the caches it leaves, are those of a run of queries, each with
    the rounds of one of the inputs, where a round has an answer only if it was
    received. *)
Theorem exchange_refines ds ins :
  dt_served_of (dt_of_inputs ins) (dt_run ds ins).
Proof.
  unfold dt_run. set (s0 := MkLoop Waiting dt_start ds []).
  assert (loop_ok s0) as H0 by (split; [split; [split; [split|]|]|]; done).
  assert (loop_ok (foldl dt_step s0 ins) ∧ dt_served_of (dt_of_inputs ins) (foldl dt_step s0 ins)) as [_ H]; [|exact H].
  induction ins as [|i ins [IH1 IH2]] using rev_ind.
  - split; [done|]. unfold dt_served_of. simpl. constructor.
  - rewrite foldl_app. simpl. split; [by apply dt_step_ok|by apply dt_step_served].
Qed.
End exchange.
