(* ===== verification/DnstunServe.v ===== *)
(** * dnstun: the connection of a client (service/tcptun/dnstun/dnstun.go).

    The loop that reads queries from a connection and writes an answer to each,
    until a read, an answer or a write fails; one answer is [serve] of
    DnstunWork.v.  Its client reads the answers back. *)

From S2P Require Import Prelude GoStrings Addr Dns DnsAnswers Dnstun DnstunWork.

Open Scope go_scope.
#[local] Arguments bs : simpl never.

Section serve.
Context {C : Type} (SetReply : Msg → Msg) (Pack : Msg → list Z) (zero_time : Z).

(** A round of the loop: the message that was read ([None]: an error, or the
    end), the caches of the moment, what comes from the worker ([None]: nothing,
    or the connection or the job is over before), the clock when a cached
    answer is checked and when the TTLs are aged, and how many bytes went out
    when the write failed ([None]: it did not). *)
Record round := MkRound {
  rd_msg : option Msg;
  rd_caches : list (gmap (gostring * Z) result);
  rd_now : Z;
  rd_worker : option result;
  rd_later : Z;
  rd_fault : option nat }.

(** The frame that a round writes. *)
Definition answer_round (opts : Options (C := C)) (r : round) : option (list Z) :=
  m ← rd_msg r;
  '(z, t) ← head (m_Question m);              (* 0 questions *)
  serve SetReply Pack zero_time opts (rd_caches r) m (MkQuery z t (m_Question m)) (rd_now r) (rd_worker r) (rd_later r).

Inductive conn_end := Serving | ClosedConn.

(** What is written; the options are read once, for all the queries. *)
Fixpoint serve_conn (opts : Options (C := C)) (rounds : list round) : list Z * conn_end :=
  match rounds with
  | [] => ([], Serving)
  | r :: rounds =>
      match answer_round opts r with
      | None => ([], ClosedConn)
      | Some frame =>
          match rd_fault r with
          | Some n => (take n frame, ClosedConn)
          | None => let '(out, e) := serve_conn opts rounds in (frame ++ out, e)
          end
      end
  end.

(** The handler of Serve: options that are gone close the connection. *)
Definition handle_conn (latest : option (Options (C := C))) (rounds : list round) : list Z * conn_end :=
  match latest with Some opts => serve_conn opts rounds | None => ([], ClosedConn) end.

(** ** What the client reads *)

(** The answer to a round: an empty one for AAAA, one of the cache, or the
    worker's. *)
Definition answers (opts : Options (C := C)) (r : round) (a : Msg) : Prop :=
  ∃ m z t, rd_msg r = Some m ∧ head (m_Question m) = Some (z, t) ∧
    ∃ res, a = reply (m_ID m) (rd_later r) res ∧
      (ready SetReply (o_IPv4Only opts) ((λ p, rd_caches r !!! p) <$> o_dnsCache opts) m z t zero_time (rd_now r)
         = Some res ∨
       ready SetReply (o_IPv4Only opts) ((λ p, rd_caches r !!! p) <$> o_dnsCache opts) m z t zero_time (rd_now r)
         = None ∧ rd_worker r = Some res).

Lemma answer_round_spec opts r frame :
  answer_round opts r = Some frame → ∃ a, answers opts r a ∧ frame = writeMsgData (Pack a).
Proof.
  unfold answer_round. intros (m & Hm & E)%bind_Some. apply bind_Some in E as ([z t] & Ht & E).
  unfold serve in E. cbn [q_Fqdn q_Qtype] in E.
  destruct (ready _ _ _ _ _ _ _ _) as [res|] eqn:Er.
  - injection E as <-. eexists. split; [|done]. exists m, z, t. split_and!; [done..|].
    exists res. split; [done|by left].
  - apply bind_Some in E as (res & Hw & [= <-]). eexists. split; [|done]. exists m, z, t. split_and!; [done..|].
    exists res. split; [done|by right].
Qed.

Lemma serve_conn_spec opts rounds :
  ∃ l rest, (serve_conn opts rounds).1 = concat (writeMsgData ∘ Pack <$> l) ++ rest ∧
    Forall2 (answers opts) (take (length l) rounds) l ∧
    (rest = [] ∨ ∃ a n, rest = take n (writeMsgData (Pack a))) ∧
    ((serve_conn opts rounds).2 = Serving → length l = length rounds ∧ rest = []).
Proof.
  induction rounds as [|r rounds IH]; cbn [serve_conn].
  { exists [], []. split_and!; [done|constructor|by left|done]. }
  destruct (answer_round opts r) as [frame|] eqn:E.
  2:{ exists [], []. split_and!; [done|constructor|by left|done]. }
  destruct (answer_round_spec _ _ _ E) as (a & Ha & ->). destruct (rd_fault r) as [n|].
  { exists [], (take n (writeMsgData (Pack a))). split_and!; [done|constructor|right; by exists a, n|done]. }
  destruct IH as (l & rest & E1 & H & Hrest & Hs). destruct (serve_conn opts rounds) as [out e].
  cbn [fst snd] in *. exists (a :: l), rest. split_and!; [|by constructor|done|].
  - rewrite E1, fmap_cons. cbn [concat compose]. by rewrite app_assoc.
  - intros He. destruct (Hs He) as [El ->]. simpl. by rewrite El.
Qed.

(** A client that sends queries on one connection reads the answers to them,
    each with the ID of its query, in the order of the queries and without a
    gap, the last of them perhaps cut off; while the connection is served,
    every query that was read has its answer. *)
(** C38: a client that sends queries on one connection reads the answers to
    them, each with the ID of its query, in the order of the queries and
    without a gap, the last of them perhaps cut off; while the connection is
    served every query that was read has its answer. *)
Theorem client_reads latest rounds :
  (∀ m, Z.of_nat (length (Pack m)) < 2 ^ 16) →
  ∃ l rest,
    read_msgs (length l) (handle_conn latest rounds).1 = (Pack <$> l, rest) ∧
    (∀ opts, latest = Some opts → Forall2 (answers opts) (take (length l) rounds) l) ∧
    Forall2 (λ r a, m_ID a = from_option m_ID 0 (rd_msg r)) (take (length l) rounds) l ∧
    (rest = [] ∨ ∃ a n, rest = take n (writeMsgData (Pack a))) ∧
    ((handle_conn latest rounds).2 = Serving → length l = length rounds ∧ rest = []).
Proof.
  intros HP. destruct latest as [opts|].
  2:{ exists [], []. split_and!; [done|done|constructor|by left|done]. }
  cbn [handle_conn]. destruct (serve_conn_spec opts rounds) as (l & rest & -> & H & Hrest & Hs).
  exists l, rest. split_and!; [|by intros ? [= <-]| |done..].
  - clear H Hrest Hs. induction l as [|a l IH]; [done|]. rewrite fmap_cons. cbn [concat length read_msgs compose].
    rewrite <- app_assoc, (read_write (Pack a)) by apply HP. by rewrite IH.
  - eapply Forall2_impl; [exact H|]. intros r a (m & z & t & Hm & _ & res & -> & _). rewrite Hm. simpl.
    unfold reply. by destruct (_ <? _).
Qed.
End serve.

(** ** At work: two queries, the second after the first one's answer. *)

Definition plain_pack (m : Msg) : list Z := [m_ID m mod 256; Z.of_nat (length (m_Answer m) mod 256)].

Definition ask_round (ID : Z) (res : option result) : round :=
  MkRound (Some (MkMsg ID [(bs "example.org.", 1)] [] [])) [] 0 res 0 None.

Definition one_record : result :=
  MkResult (MkMsg 0 [(bs "example.org.", 1)] [MkRR (Some (MkHeader (bs "example.org.") 60)) (RA (Addr4 1))] []) [Addr4 1] 0 None.

Lemma client_reads_witness :
  handle_conn (C := unit) id plain_pack 0 (Some zero) [ask_round 7 (Some one_record); ask_round 9 None] =
    ([0; 2; 7; 1], ClosedConn) ∧
  ∃ l rest,
    read_msgs (length l) (handle_conn (C := unit) id plain_pack 0 (Some zero)
      [ask_round 7 (Some one_record); ask_round 9 None]).1 = (plain_pack <$> l, rest) ∧
    Forall2 (λ r a, m_ID a = from_option m_ID 0 (rd_msg r))
      (take (length l) [ask_round 7 (Some one_record); ask_round 9 None]) l.
Proof.
  split; [reflexivity|].
  destruct (client_reads (C := unit) id plain_pack 0 (Some zero) [ask_round 7 (Some one_record); ask_round 9 None])
    as (l & rest & H1 & _ & H2 & _); [|exists l, rest; by split].
  intros m. reflexivity.
Defined.
