(* ===== verification/DnstunSystem.v ===== *)
(** * dnstun as a whole (service/tcptun/dnstun/dnstun.go).

    The job with its reloads (Dnstun.v), the connections of its clients, the
    worker, and the exchanges (DnstunWork.v), as they run beside each other:
    each query has a channel of its own, on which its answer comes and which
    the worker or the exchange that has the query closes.  What the servers
    answer, the selects and the times are choices of the steps. *)

From S2P Require Import Prelude GoStrings Addr Url Proxy Dial Defaults Jobs DnsList Dns DnsAnswers Dnstun DnstunWork DnstunSpec DnstunCache.

Open Scope go_scope.
#[local] Arguments bs : simpl never.

Section system.
Context {C : Type} (sha1 : gostring → gostring) (hex : gostring → gostring) (fuel : nat).
Context (Fqdn : gostring → gostring) (Answers : gostring → Z → Msg → Prop).
Context (SetReply : Msg → Msg) (zero_time : Z).

Abbreviation Options := (@Options C) (only parsing).
Abbreviation answers_ok := (@answers_ok C Fqdn Answers) (only parsing).
Abbreviation made_by := (@made_by C Fqdn Answers) (only parsing).
Abbreviation answered := (@answered C Fqdn Answers) (only parsing).

(** ** State *)

(** A query that was put to the worker: still offered, received by an
    exchange, dropped with its channel open, or its channel was closed, with
    a result in its buffer or without. *)
Inductive stage := Offered | Held (id : nat) | Lost | Closed (r : option result).

Record question := MkQuestion { qu_query : query; qu_stage : stage }.

(** A connection of a client: its options, read once, the message whose query
    it waits for, and what it has answered to which message. *)
Record client := MkClient {
  cl_opts : Options;
  cl_waits : option (Msg * nat);
  cl_answers : list (Msg * result);
  cl_gone : bool }.

(** An exchange: its route, its connection, the query it works on. *)
Record exchange := MkExch {
  e_route : option (@route C);
  e_conn : option DNServer;
  e_busy : option nat;
  e_done : bool }.

(** [sex]: what the worker has of the exchanges; [panics]: a channel was
    closed twice. *)
Record system := MkSystem {
  core : @sys C;
  clients : list client;
  queries : list question;
  sex : list dnsExchange;
  exchanges : list exchange;
  panics : bool }.

(** ** Operations *)

Definition set_core (c : sys) (s : system) : system :=
  MkSystem c (clients s) (queries s) (sex s) (exchanges s) (panics s).

Definition set_client (i : nat) (c : client) (s : system) : system :=
  MkSystem (core s) (<[i := c]> (clients s)) (queries s) (sex s) (exchanges s) (panics s).

Definition set_stage (k : nat) (q : query) (st : stage) (s : system) : system :=
  MkSystem (core s) (clients s) (<[k := MkQuestion q st]> (queries s)) (sex s) (exchanges s) (panics s).

Definition set_exchange (id : nat) (e : exchange) (s : system) : system :=
  MkSystem (core s) (clients s) (queries s) (sex s) (<[id := e]> (exchanges s)) (panics s).

(** [q.Result <- result] when there is one, and [close(q.Result)] *)
Definition close_query (k : nat) (r : option result) (s : system) : system :=
  match queries s !! k with
  | Some u =>
      let again := match qu_stage u with Closed _ => true | _ => false end in
      MkSystem (core s) (clients s) (<[k := MkQuestion (qu_query u) (Closed r)]> (queries s)) (sex s)
        (exchanges s) (panics s || again)
  | None => s
  end.

(** A connection is accepted with the options of the moment. *)
Definition accept (s : system) : system :=
  MkSystem (core s) (clients s ++ [MkClient (opts (s_job (core s))) None [] false]) (queries s) (sex s)
    (exchanges s) (panics s).

(** The query of a message of the client; [None]: it has no question, and the
    connection ends. *)
Definition query_of (m : Msg) : option query :=
  '(z, t) ← head (m_Question m); Some (MkQuery z t (m_Question m)).

(** It has an answer, or it puts a query to the worker. *)
Definition answer (m : Msg) (r : result) (c : client) : client :=
  MkClient (cl_opts c) None (cl_answers c ++ [(m, r)]) (cl_gone c).

Definition leave (c : client) : client := MkClient (cl_opts c) (cl_waits c) (cl_answers c) true.

Definition offer (i : nat) (c : client) (m : Msg) (q : query) (s : system) : system :=
  MkSystem (core s) (<[i := MkClient (cl_opts c) (Some (m, length (queries s))) (cl_answers c) (cl_gone c)]> (clients s))
    (queries s ++ [MkQuestion q Offered]) (sex s) (exchanges s) (panics s).

(** The answer that needs no worker. *)
Definition ready_answer (c : client) (ds : list (gmap (gostring * Z) result)) (m : Msg) (q : query) (now : Z) : option result :=
  ready SetReply (o_IPv4Only (cl_opts c)) ((λ p, ds !!! p) <$> o_dnsCache (cl_opts c)) m (q_Fqdn q) (q_Qtype q) zero_time now.

(** What the worker does with a query that is not in the cache: [sex'] and
    [to] are those of [dispatch]; a new exchange has the route at the options
    that the worker read. *)
Definition hand_over (k : nat) (q : query) (o : Options) (x : state) (route1 : option (nat * nat))
    (sex' : list dnsExchange) (to : option nat) (s : system) : system :=
  let fresh := length (exchanges s) in
  let es := if existsb (λ ex, ex_id ex =? fresh)%nat sex'
            then exchanges s ++ [MkExch (p ← route1; o_routes o !! p.2) None None false] else exchanges s in
  MkSystem (MkSys (MkJob (opts (s_job (core s))) (server (s_job (core s))) x (log (s_job (core s)))) (s_seen (core s)))
    (clients s)
    (<[k := MkQuestion q (match to with Some id => Held id | None => Lost end)]> (queries s)) sex'
    (match to with Some id => alter (λ e, MkExch (e_route e) (e_conn e) (Some k) (e_done e)) id es | None => es end)
    (panics s).

Definition is_done (s : system) (id : nat) : bool :=
  match exchanges s !! id with Some e => e_done e | None => false end.

(** An exchange is over with its query, and keeps a connection or none. *)
Definition idle (conn : option DNServer) (e : exchange) : exchange := MkExch (e_route e) conn None (e_done e).

(** It returns. *)
Definition finish (e : exchange) : exchange := MkExch (e_route e) None None true.

Definition seen (s : system) : list Options := s_seen (core s).
Definition caches (s : system) : list (gmap (gostring * Z) result) := dns_caches (extra (s_job (core s))).

(** ** Steps *)

Inductive system_step : system → system → Prop :=
  | d_event s j : job_step sha1 hex fuel (s_job (core s)) j →
      system_step s (set_core (MkSys j (opts j :: seen s)) s)
  | d_accept s : system_step s (accept s)
  | d_ready s i c m q now r : clients s !! i = Some c → cl_gone c = false → cl_waits c = None →
      query_of m = Some q → ready_answer c (caches s) m q now = Some r →
      system_step s (set_client i (answer m r c) s)
  | d_offer s i c m q now : clients s !! i = Some c → cl_gone c = false → cl_waits c = None →
      query_of m = Some q → ready_answer c (caches s) m q now = None →
      system_step s (offer i c m q s)
  | d_receive s i c m k u r : clients s !! i = Some c → cl_gone c = false → cl_waits c = Some (m, k) →
      queries s !! k = Some u → qu_stage u = Closed (Some r) →
      system_step s (set_client i (answer m r c) s)
  | d_leave s i c : clients s !! i = Some c → system_step s (set_client i (leave c) s)
  | d_worker_cached s k u now r (canceled : bool) : queries s !! k = Some u → qu_stage u = Offered →
      cached (opts (s_job (core s))) (caches s) (qu_query u) now = Some r →
      system_step s (close_query k (if canceled then None else Some r) s)
  | d_worker_route s k u now c1 c2 x route1 sex' to :
      queries s !! k = Some u → qu_stage u = Offered →
      let o := opts (s_job (core s)) in
      find_route o (route_caches (extra (s_job (core s)))) (domain_of (qu_query u)) = (route1, route_caches x) →
      work (is_done s) (length (exchanges s)) c1 c2 o (extra (s_job (core s))) (sex s) (qu_query u) now = inr (x, (sex', to)) →
      (∀ id e, to = Some id → exchanges s !! id = Some e → e_done e = false ∧ e_busy e = None) →
      system_step s (hand_over k (qu_query u) o x route1 sex' to s)
  | d_exchange_cached s id e k u o now r (canceled : bool) : exchanges s !! id = Some e → e_busy e = Some k →
      queries s !! k = Some u → o ∈ seen s → cached o (caches s) (qu_query u) now = Some r →
      system_step s (close_query k (if canceled then None else Some r) (set_exchange id (idle (e_conn e) e) s))
  | d_exchange_answered s id e k u o ts o' conn' r m t (canceled : bool) :
      exchanges s !! id = Some e → e_busy e = Some k → queries s !! k = Some u →
      o ∈ seen s → Forall (λ t, ∀ o1, t_options t = Some o1 → o1 ∈ seen s) ts →
      resolve Fqdn (e_route e) o (e_conn e) (qu_query u) ts = Answered o' conn' r →
      r = answer_of Fqdn o' (qu_query u) m t → answered o' (qu_query u) m →
      system_step s (close_query k (if canceled then None else Some r)
        (set_core (MkSys (set_answers (s_job (core s))
            (Store (caches s) (o_dnsCache o') (q_Fqdn (qu_query u), q_Qtype (qu_query u)) r)) (seen s))
          (set_exchange id (idle conn' e) s)))
  | d_exchange_gave s id e k u o ts conn' : exchanges s !! id = Some e → e_busy e = Some k →
      queries s !! k = Some u → o ∈ seen s →
      resolve Fqdn (e_route e) o (e_conn e) (qu_query u) ts = Gave conn' →
      system_step s (close_query k None (set_exchange id (idle conn' e) s))
  | d_exchange_left s id e k u o ts : exchanges s !! id = Some e → e_busy e = Some k →
      queries s !! k = Some u → o ∈ seen s →
      resolve Fqdn (e_route e) o (e_conn e) (qu_query u) ts = Left →
      system_step s (set_stage k (qu_query u) Lost (set_exchange id (finish e) s))
  | d_exchange_idle s id e : exchanges s !! id = Some e → e_busy e = None →
      system_step s (set_exchange id (finish e) s).

Definition system_start : system := MkSystem sys_start [] [] [] [] false.
Definition system_reach : system → Prop := rtc system_step system_start.

(** ** The invariant *)

(** Made of what a server answered to this query, with options there were. *)
Definition right_answer (sn : list Options) (q : query) (r : result) : Prop :=
  ∃ o, o ∈ sn ∧ made_by o (q_Fqdn q, q_Qtype q) r.

(** The queries that IPv4.Only answers. *)
Definition refused (o : Options) (q : query) : bool := o_IPv4Only o && (q_Qtype q == 28).

(** To a message: the empty reply to itself, or a right answer. *)
Definition fit_answer (sn : list Options) (o : Options) (m : Msg) (r : result) : Prop :=
  ∃ q, query_of m = Some q ∧
    if refused o q then r = MkResult (SetReply m) [] zero_time None else right_answer sn q r.

Record client_ok (sn : list Options) (qs : list question) (c : client) : Prop := {
  co_opts : cl_opts c ∈ sn;
  co_waits m k : cl_waits c = Some (m, k) →
    ∃ u, qs !! k = Some u ∧ query_of m = Some (qu_query u) ∧ refused (cl_opts c) (qu_query u) = false;
  co_answers : Forall (λ a, fit_answer sn (cl_opts c) a.1 a.2) (cl_answers c) }.

(** Queries stay what they are. *)
Definition kept (qs qs' : list question) : Prop :=
  ∀ k u, qs !! k = Some u → ∃ u', qs' !! k = Some u' ∧ qu_query u' = qu_query u.

Definition question_ok (sn : list Options) (u : question) : Prop :=
  ∀ r, qu_stage u = Closed (Some r) → right_answer sn (qu_query u) r.

Record system_ok (s : system) : Prop := {
  sy_core : answers_ok (core s);
  sy_clients : Forall (client_ok (seen s) (queries s)) (clients s);
  sy_questions : Forall (question_ok (seen s)) (queries s);
  sy_busy id e k : exchanges s !! id = Some e → e_busy e = Some k →
    ∃ u, queries s !! k = Some u ∧ qu_stage u = Held id;
  sy_panics : panics s = false }.

Lemma right_mono sn o q r : right_answer sn q r → right_answer (o :: sn) q r.
Proof. intros (o' & Ho & H). exists o'. split; [by right|done]. Qed.

Lemma fit_mono sn o o' m r : fit_answer sn o' m r → fit_answer (o :: sn) o' m r.
Proof. intros (q & Hq & H). exists q. split; [done|]. destruct (refused o' q); [done|]. by apply right_mono. Qed.

Lemma client_mono sn o qs c : client_ok sn qs c → client_ok (o :: sn) qs c.
Proof.
  intros [H1 H2 H3]. split; [by right|done|]. eapply Forall_impl; [exact H3|]. intros [m r]. apply fit_mono.
Qed.

Lemma kept_refl qs : kept qs qs.
Proof. intros k u Hu. by exists u. Qed.

Lemma kept_insert qs k u u' : qs !! k = Some u → qu_query u' = qu_query u → kept qs (<[k := u']> qs).
Proof.
  intros Hu E k' u1 Hu1. destruct (decide (k = k')) as [<-|Hne].
  - exists u'. rewrite list_lookup_insert_eq by (by eapply lookup_lt_Some). split; [done|]. congruence.
  - exists u1. by rewrite list_lookup_insert_ne.
Qed.

Lemma kept_app qs l : kept qs (qs ++ l).
Proof. intros k u Hu. exists u. rewrite lookup_app_l; [done|]. by eapply lookup_lt_Some. Qed.

Lemma client_kept sn qs qs' c : kept qs qs' → client_ok sn qs c → client_ok sn qs' c.
Proof.
  intros Hk [H1 H2 H3]. split; [done| |done]. intros m k Hw. destruct (H2 _ _ Hw) as (u & Hu & Hq & Hr).
  destruct (Hk _ _ Hu) as (u' & Hu' & E). exists u'. by rewrite E.
Qed.

Lemma clients_kept sn qs qs' cs : kept qs qs' → Forall (client_ok sn qs) cs → Forall (client_ok sn qs') cs.
Proof. intros Hk H. eapply Forall_impl; [exact H|]. intros c. by apply client_kept. Qed.

Lemma cached_right s o q now r :
  answers_ok (core s) → o ∈ seen s → cached o (caches s) q now = Some r → right_answer (seen s) q r.
Proof.
  intros H Ho (_ & p & Hp & Hl)%cached_lookup. exists o. split; [done|]. by eapply (an_made _ _ _ H).
Qed.

Lemma ready_fit s c m q now r :
  answers_ok (core s) → cl_opts c ∈ seen s → query_of m = Some q →
  ready_answer c (caches s) m q now = Some r → fit_answer (seen s) (cl_opts c) m r.
Proof.
  intros H Ho Hq. unfold ready_answer, ready. intros Hr. exists q. split; [done|]. unfold refused.
  destruct (o_IPv4Only (cl_opts c) && _); [by injection Hr as <-|].
  apply bind_Some in Hr as (ds & Hd & Hr). apply fmap_Some in Hd as (p & Hp & ->).
  apply bind_Some in Hr as (r0 & Hl & Hf). destruct (fresh r0 now); [|done]. injection Hf as ->.
  exists (cl_opts c). split; [done|]. by eapply (an_made _ _ _ H).
Qed.

(** What is not ready goes to the worker only when IPv4.Only lets it. *)
Lemma not_ready s c m q now : ready_answer c (caches s) m q now = None → refused (cl_opts c) q = false.
Proof.
  unfold ready_answer, ready, refused. by destruct (o_IPv4Only (cl_opts c) && _).
Qed.

(** A client changes. *)
Lemma set_client_ok s i c : system_ok s → client_ok (seen s) (queries s) c → system_ok (set_client i c s).
Proof. intros [H1 H2 H3 H4 H5] Hc. split; simpl; try done. by apply Forall_insert. Qed.

(** An exchange is no longer busy. *)
Lemma free_exchange_ok s id e : system_ok s → e_busy e = None → system_ok (set_exchange id e s).
Proof.
  intros [H1 H2 H3 H4 H5] He. split; simpl; try done. intros id' e' k Hi Hb.
  apply list_lookup_insert_Some in Hi as [(<- & <- & _)|[_ Hi]]; [congruence|eauto].
Qed.

(** A query that no exchange has gets a stage. *)
Lemma set_query_busy s k u :
  system_ok s → (∀ id e, exchanges s !! id = Some e → e_busy e ≠ Some k) →
  ∀ id e k', exchanges s !! id = Some e → e_busy e = Some k' →
    ∃ u', <[k := u]> (queries s) !! k' = Some u' ∧ qu_stage u' = Held id.
Proof.
  intros H Hk id e k' Hi Hb. destruct (sy_busy _ H _ _ _ Hi Hb) as (u' & Hu & Hs). exists u'.
  split; [|done]. rewrite list_lookup_insert_ne; [done|]. intros <-. by eapply Hk.
Qed.

Lemma set_stage_ok s k u st :
  system_ok s → queries s !! k = Some u → (∀ r, st ≠ Closed (Some r)) → (∀ id e, exchanges s !! id = Some e → e_busy e ≠ Some k) →
  system_ok (set_stage k (qu_query u) st s).
Proof.
  intros H Hu Hst Hk. pose proof H as [H1 H2 H3 H4 H5]. split; simpl; try done.
  - eapply clients_kept; [by eapply kept_insert|done].
  - apply Forall_insert; [done|]. intros r E. by destruct (Hst r).
  - by eapply set_query_busy.
Qed.

(** Its channel is closed once. *)
Lemma close_query_ok s k u r :
  system_ok s → queries s !! k = Some u → (∀ r', qu_stage u ≠ Closed r') →
  (∀ id e, exchanges s !! id = Some e → e_busy e ≠ Some k) →
  (∀ r', r = Some r' → right_answer (seen s) (qu_query u) r') →
  system_ok (close_query k r s).
Proof.
  intros H Hu Hst Hk Hr. pose proof H as [H1 H2 H3 H4 H5]. unfold close_query. rewrite Hu.
  split; simpl; try done.
  - eapply clients_kept; [by eapply kept_insert|done].
  - apply Forall_insert; [done|]. intros r' [= ->]. by apply Hr.
  - by eapply set_query_busy.
  - rewrite H5. destruct (qu_stage u) eqn:E; try done. by destruct (Hst r0).
Qed.

(** An offered query is with no exchange. *)
Lemma offered_free s k u id e :
  system_ok s → queries s !! k = Some u → qu_stage u = Offered → exchanges s !! id = Some e → e_busy e ≠ Some k.
Proof.
  intros H Hu Hst Hi Hb. destruct (sy_busy _ H _ _ _ Hi Hb) as (u' & Hu' & Hs).
  rewrite Hu in Hu'. injection Hu' as <-. congruence.
Qed.

(** The query of an exchange is with no other. *)
Lemma held_free s id e k e1 :
  system_ok s → exchanges s !! id = Some e → e_busy e = Some k → e_busy e1 = None →
  ∀ id' e', exchanges (set_exchange id e1 s) !! id' = Some e' → e_busy e' ≠ Some k.
Proof.
  intros H Hi Hb He1 id' e' Hi' Hb'. simpl in Hi'.
  apply list_lookup_insert_Some in Hi' as [(<- & <- & _)|[Hne Hi']]; [congruence|].
  destruct (sy_busy _ H _ _ _ Hi Hb) as (u & Hu & Hs), (sy_busy _ H _ _ _ Hi' Hb') as (u' & Hu' & Hs').
  rewrite Hu in Hu'. injection Hu' as <-. congruence.
Qed.

Lemma held_stage s id e k u :
  system_ok s → exchanges s !! id = Some e → e_busy e = Some k → queries s !! k = Some u →
  ∀ r, qu_stage u ≠ Closed r.
Proof.
  intros H Hi Hb Hu r. destruct (sy_busy _ H _ _ _ Hi Hb) as (u' & Hu' & Hs).
  rewrite Hu in Hu'. injection Hu' as <-. congruence.
Qed.

(** An exchange closes the channel of its query. *)
Lemma exchange_close_ok s id e e1 k u r :
  system_ok s → exchanges s !! id = Some e → e_busy e = Some k → queries s !! k = Some u → e_busy e1 = None →
  (∀ r', r = Some r' → right_answer (seen s) (qu_query u) r') →
  system_ok (close_query k r (set_exchange id e1 s)).
Proof.
  intros H Hi Hb Hu He1 Hr. apply (close_query_ok _ k u).
  - by apply free_exchange_ok.
  - done.
  - by eapply held_stage.
  - by eapply held_free.
  - done.
Qed.

(** The worker hands a query over. *)
Lemma hand_over_ok s k u o x route1 sex' to :
  system_ok s → queries s !! k = Some u → qu_stage u = Offered →
  dns_caches x = caches s →
  (∀ id e, to = Some id → exchanges s !! id = Some e → e_done e = false ∧ e_busy e = None) →
  system_ok (hand_over k (qu_query u) o x route1 sex' to s).
Proof.
  intros H Hu Hst Hx Hto. pose proof H as [H1 H2 H3 H4 H5]. unfold hand_over.
  set (es := if existsb _ sex' then _ else _).
  assert (∀ id e, es !! id = Some e → exchanges s !! id = Some e ∨ e_busy e = None) as Hes.
  { intros id e. subst es. destruct (existsb _ sex'); [|by left].
    intros [[_ Hi]|[_ <-]]%lookup_snoc_Some; [by left|by right]. }
  split; simpl; [|eapply clients_kept; [by eapply kept_insert|done]|apply Forall_insert; [done|]|..]; try done.
  - destruct H1 as [A1 A2 A3 A4 A5]. unfold seen, caches in *. by split; simpl; rewrite ?Hx.
  - intros r E. simpl in E. by destruct to.
  - intros id e k' Hi Hb.
    assert (es !! id = Some e ∨ to = Some id ∧ k' = k) as [Hi'|[-> ->]].
    { destruct to as [id'|]; [|by left]. destruct (decide (id' = id)) as [->|Hne].
      - rewrite list_lookup_alter_eq in Hi. apply fmap_Some in Hi as (e0 & _ & ->). right. by injection Hb as ->.
      - rewrite list_lookup_alter_ne in Hi by done. by left. }
    + destruct (Hes _ _ Hi') as [Hi0|Hb0]; [|congruence].
      eapply (set_query_busy s k); [done| |done..]. intros. by eapply offered_free.
    + eexists. split; [apply list_lookup_insert_eq; by eapply lookup_lt_Some|done].
Qed.

Lemma set_core_ok s c : system_ok s → answers_ok c → s_seen c = seen s → system_ok (set_core c s).
Proof. intros [H1 H2 H3 H4 H5] Hc Hs. split; simpl; unfold seen in *; simpl; rewrite ?Hs; done. Qed.

Lemma event_ok s j : system_ok s → job_step sha1 hex fuel (s_job (core s)) j →
  system_ok (set_core (MkSys j (opts j :: seen s)) s).
Proof.
  intros [H1 H2 H3 H4 H5] Hj. split; simpl; unfold seen in *; simpl; try done.
  - destruct (core s) as [j0 sn]. by eapply event_answers.
  - eapply Forall_impl; [exact H2|]. intros c. apply client_mono.
  - eapply Forall_impl; [exact H3|]. intros u Hu r Hr. by apply right_mono, Hu.
Qed.

Lemma accept_ok s : system_ok s → system_ok (accept s).
Proof.
  intros [H1 H2 H3 H4 H5]. split; simpl; try done. apply Forall_app. split; [done|]. apply Forall_singleton.
  split; [apply (an_opts _ _ _ H1)|done|by constructor].
Qed.

Lemma offer_ok s i c m q :
  system_ok s → clients s !! i = Some c → query_of m = Some q → refused (cl_opts c) q = false →
  system_ok (offer i c m q s).
Proof.
  intros [H1 H2 H3 H4 H5] Hi Hq Hr. split; simpl; try done.
  - eapply clients_kept in H2; [|apply (kept_app _ [MkQuestion q Offered])].
    rewrite Forall_lookup in H2. apply Forall_insert; [by apply Forall_lookup|].
    destruct (H2 _ _ Hi) as [Ho _ Ha]. split; [done| |done]. intros m' k [= <- <-].
    exists (MkQuestion q Offered). rewrite lookup_app_r, Nat.sub_diag by lia. done.
  - apply Forall_app. split; [done|]. by apply Forall_singleton.
  - intros id e k Hid Hb. destruct (H4 _ _ _ Hid Hb) as (u & Hu & Hst). exists u.
    split; [|done]. rewrite lookup_app_l; [done|]. by eapply lookup_lt_Some.
Qed.

(** The answer of a server is stored, and goes to its query. *)
Lemma answered_ok s id e k u o ts o' conn' r m t canceled :
  system_ok s → exchanges s !! id = Some e → e_busy e = Some k → queries s !! k = Some u →
  o ∈ seen s → Forall (λ t, ∀ o1, t_options t = Some o1 → o1 ∈ seen s) ts →
  resolve Fqdn (e_route e) o (e_conn e) (qu_query u) ts = Answered o' conn' r →
  r = answer_of Fqdn o' (qu_query u) m t → answered o' (qu_query u) m →
  system_ok (close_query k (if canceled : bool then None else Some r)
    (set_core (MkSys (set_answers (s_job (core s))
        (Store (caches s) (o_dnsCache o') (q_Fqdn (qu_query u), q_Qtype (qu_query u)) r)) (seen s))
      (set_exchange id (idle conn' e) s))).
Proof.
  intros H Hi Hb Hu Ho Hts Hre Er Hm.
  assert (o' ∈ seen s) as Ho'.
  { apply resolve_answered in Hre as [[->|(t' & Ht & E)] _]; [done|]. rewrite Forall_forall in Hts. by eapply Hts. }
  set (c := MkSys _ _). change (set_core c (set_exchange id (idle conn' e) s))
    with (set_exchange id (idle conn' e) (set_core c s)).
  apply (exchange_close_ok _ id e (idle conn' e) k u); [|done..|].
  - apply set_core_ok; [done| |done]. destruct H as [H1 _ _ _ _]. unfold c, caches, seen in *.
    destruct (core s) as [j sn]. by eapply store_answers.
  - intros r'. destruct canceled; [done|]. intros [= <-]. exists o'. split; [done|]. by exists (qu_query u), m, t.
Qed.

Lemma system_step_ok s s' : system_ok s → system_step s s' → system_ok s'.
Proof.
  intros H Hs. pose proof H as [H1 H2 H3 H4 H5]. rewrite Forall_lookup in H2.
  assert (∀ i c m r, clients s !! i = Some c → fit_answer (seen s) (cl_opts c) m r →
    system_ok (set_client i (answer m r c) s)) as Hanswer.
  { intros i c m r Hi Hr. apply set_client_ok; [done|]. destruct (H2 _ _ Hi) as [Ho Hw Ha]. split; [done|done|].
    apply Forall_app. split; [done|]. by apply Forall_singleton. }
  destruct Hs as [s j Hj|s|s i c m q now r Hi Hg Hw Hq Hr|s i c m q now Hi Hg Hw Hq Hr|s i c m k u r Hi Hg Hw Hu Hst
    |s i c Hi|s k u now r canceled Hu Hst Hc|s k u now c1 c2 x route1 sex' to Hu Hst o Hf Hw Hto
    |s id e k u o now r canceled Hi Hb Hu Ho Hc|s id e k u o ts o' conn' r m t canceled Hi Hb Hu Ho Hts Hre Er Hm
    |s id e k u o ts conn' Hi Hb Hu Ho Hre|s id e k u o ts Hi Hb Hu Ho Hre|s id e Hi Hb].
  - by apply event_ok.
  - by apply accept_ok.
  - apply Hanswer; [done|]. eapply ready_fit; [done| |done..]. by apply (H2 _ _ Hi).
  - apply offer_ok; [done..|]. by eapply not_ready.
  - apply Hanswer; [done|]. destruct (H2 _ _ Hi) as [_ Hwait _].
    destruct (Hwait _ _ Hw) as (u' & Hu' & Hq & Hf). assert (u' = u) as -> by congruence.
    exists (qu_query u). rewrite Hf. split; [done|]. rewrite Forall_lookup in H3. by apply (H3 _ _ Hu).
  - apply set_client_ok; [done|]. destruct (H2 _ _ Hi) as [Ho Hw Ha]. by split.
  - apply (close_query_ok _ k u); [done|done|congruence| |].
    + intros. by eapply offered_free.
    + intros r'. destruct canceled; [done|]. intros [= <-]. eapply cached_right; [done| |done]. apply H1.
  - apply hand_over_ok; try done. unfold work in Hw. destruct (cached _ _ _ _); [done|].
    destruct (find_route _ _ _). by injection Hw as <- _.
  - eapply exchange_close_ok; [done..|]. intros r'. destruct canceled; [done|]. intros [= <-].
    by eapply cached_right.
  - by eapply answered_ok.
  - by eapply exchange_close_ok.
  - apply set_stage_ok; [by apply free_exchange_ok|done|done|]. by eapply held_free.
  - by apply free_exchange_ok.
Qed.

Lemma start_answers : answers_ok sys_start.
Proof.
  split; simpl; [done|by left|..].
  - by intros o p [->|?%elem_of_nil]%elem_of_cons.
  - by intros o1 o2 p [->|?%elem_of_nil]%elem_of_cons.
  - by intros o p key r [->|?%elem_of_nil]%elem_of_cons.
Qed.

Lemma system_reach_ok s : system_reach s → system_ok s.
Proof.
  intros Hr. assert (system_ok system_start) as H0 by (split; simpl; [apply start_answers|done..]).
  induction Hr as [|s1 s2 s3 Hs _ IH]; [done|]. apply IH. by eapply system_step_ok.
Qed.

(** C23: whatever clients, reloads, exchanges, failures and cancellations
    there are, no channel of a query is closed twice; and what a client gets
    for a message it sent is, when the options of its connection have
    IPv4.Only and the message asks for AAAA, the empty reply to that message;
    in every other case it was built, with options the job had, from what a
    server answered to a question of the type of the message for the name that
    its name is redirected to. *)
Theorem answers_own s :
  system_reach s →
  panics s = false ∧
  ∀ i c msg r, clients s !! i = Some c → (msg, r) ∈ cl_answers c →
    ∃ fqdn qtype, head (m_Question msg) = Some (fqdn, qtype) ∧
      (o_IPv4Only (cl_opts c) = true ∧ qtype = 28 → r = MkResult (SetReply msg) [] zero_time None) ∧
      (o_IPv4Only (cl_opts c) = false ∨ qtype ≠ 28 →
       ∃ o question m t, o ∈ seen s ∧ Answers (asked Fqdn (o_Redirects o) fqdn) qtype m ∧
         r = build_result (settings_of o) (asked Fqdn (o_Redirects o) fqdn) fqdn question m t).
Proof.
  intros Hr%system_reach_ok. split; [apply Hr|]. intros i c msg r Hi Hin.
  pose proof (sy_clients _ Hr) as Hc. rewrite Forall_lookup in Hc. destruct (Hc _ _ Hi) as [_ _ Ha].
  rewrite Forall_forall in Ha. destruct (Ha _ Hin) as (q & Hq & H). cbn [fst snd] in *.
  apply bind_Some in Hq as ([z t] & Hz & [= <-]). exists z, t. unfold refused in H. cbn [q_Qtype] in H.
  split_and!; [done|..].
  - intros [E1 E2]. by rewrite E1, bool_decide_true in H.
  - intros Hn. replace (o_IPv4Only (cl_opts c) && (t == 28)) with false in H
      by (destruct Hn as [->|?]; [done|by rewrite bool_decide_false, andb_false_r]).
    destruct H as (o & Ho & q' & m & t' & [= E1 E2] & [_ Hm] & Er). exists o, (q_Question q'), m, t'.
    by rewrite <- E1, <- E2.
Qed.
End system.

(** ** At work: a client asks for a.com, whose route has a server. *)

Definition qa : query := MkQuery (bs "a.com.") 1 [(bs "a.com.", 1)].
Definition msg_a : Msg := MkMsg 7 [(bs "a.com.", 1)] [MkRR (Some (MkHeader (bs "a.com.") 300)) (RA (Addr4 16909060))] [].

(** What the client sends. *)
Definition ask_a : Msg := MkMsg 21 [(bs "a.com.", 1)] [] [].

(** The server knows one answer. *)
Definition one_answer (z : gostring) (t : Z) (m : Msg) : Prop := z = bs "a.com." ∧ t = 1 ∧ m = msg_a.

Definition turn_a : @turn unit := MkTurn false false (Some (opts ex_job1)) 0 (Some (msg_a, 1000 * second)).

Definition loaded_sys : @system unit := set_core (MkSys ex_job1 [opts ex_job1; zero]) system_start.
Definition client_a : @client unit := MkClient (opts ex_job1) None [] false.
Definition offered_sys : @system unit := offer 0 client_a ask_a qa (accept loaded_sys).

Definition routed_a := find_route (opts ex_job1) (route_caches (extra ex_job1)) (domain_of qa).
Definition state_a : state := MkState routed_a.2 (dns_caches (extra ex_job1)).
Definition held_sys : @system unit :=
  hand_over 0 qa (opts ex_job1) state_a routed_a.1 [MkExchange 0 routed_a.1] (Some 0%nat) offered_sys.

Definition result_a : result := answer_of id (opts ex_job1) qa msg_a (1000 * second).
Definition exchange_a : @exchange unit := MkExch ex_route1 None (Some 0%nat) false.
Definition answered_sys : @system unit :=
  close_query 0 (Some result_a)
    (set_core (MkSys (set_answers (s_job (core held_sys))
        (Store (caches held_sys) (o_dnsCache (opts ex_job1)) (q_Fqdn qa, q_Qtype qa) result_a)) (seen held_sys))
      (set_exchange 0 (idle (Some ex_upper) exchange_a) held_sys)).
Definition client_a' : @client unit := MkClient (opts ex_job1) (Some (ask_a, 0%nat)) [] false.
Definition served_sys : @system unit := set_client 0 (answer ask_a result_a client_a') answered_sys.

Lemma served_reach : system_reach id id 0 id one_answer id 0 served_sys.
Proof.
  eapply rtc_l; [apply (d_event _ _ _ _ _ _ _ _ ex_job1), ex_job1_step|].
  eapply rtc_l; [apply d_accept|].
  eapply rtc_l; [apply (d_offer _ _ _ _ _ _ _ _ 0 client_a ask_a qa 0); reflexivity|].
  change (rtc (system_step id id 0 id one_answer id 0) offered_sys served_sys).
  eapply rtc_l; [apply (d_worker_route _ _ _ _ _ _ _ _ 0 (MkQuestion qa Offered) 0 Sent Sent state_a routed_a.1
    [MkExchange 0 routed_a.1] (Some 0%nat)); [reflexivity|reflexivity|apply surjective_pairing|by vm_compute|done]|].
  change (rtc (system_step id id 0 id one_answer id 0) held_sys served_sys).
  eapply rtc_l; [eapply (d_exchange_answered _ _ _ _ _ _ _ _ 0 exchange_a 0 (MkQuestion qa (Held 0))
    (opts ex_job1) [turn_a] (opts ex_job1) (Some ex_upper) result_a msg_a (1000 * second) false)|].
  - vm_compute. reflexivity.
  - reflexivity.
  - reflexivity.
  - by left.
  - constructor; [|by constructor]. intros o Ho. apply (inj Some (opts ex_job1)) in Ho. rewrite <- Ho. by left.
  - vm_compute. reflexivity.
  - reflexivity.
  - split; [|done]. unfold msg_ok, RRs. simpl. repeat (apply Forall_cons_2; [intros h [= <-]; simpl; lia|]).
    by apply Forall_nil_2.
  - apply rtc_once. apply (d_receive _ _ _ _ _ _ _ answered_sys 0 client_a' ask_a 0 (MkQuestion qa (Closed (Some result_a))) result_a);
      reflexivity.
Qed.

Lemma answers_own_witness :
  cl_answers <$> clients served_sys !! 0%nat = Some [(ask_a, result_a)] ∧
  ∃ (o : @Options unit) (question : list (gostring * Z)) (m : Msg) (t : Z),
    o ∈ seen served_sys ∧ one_answer (asked id (o_Redirects o) (bs "a.com.")) 1 m ∧
    result_a = build_result (settings_of o) (asked id (o_Redirects o) (bs "a.com.")) (bs "a.com.") question m t.
Proof.
  split; [reflexivity|].
  destruct (answers_own id id 0 id one_answer id 0 served_sys served_reach) as [_ H].
  destruct (H 0%nat (answer ask_a result_a client_a') ask_a result_a eq_refl) as (z & t & [= <- <-] & _ & H2);
    [by left|]. apply H2. by right.
Defined.
