(* ===== verification/Shutdown.v ===== *)
(** * The Manager as a whole (service.go, with logging.go and serving.go).

    Loading a configuration and shutting down touch the jobs of Manager.v, the
    log and the connections of Serving.v, and the defaults of Defaults.v: the
    state that they share, its steps, and what Shutdown leaves. *)

From S2P Require Import Prelude GoStrings Defaults Jobs Pprof Manager Reload Serving.

Open Scope go_scope.
#[local] Arguments bs : simpl never.

Section manager.
Context {P Opt Svc : Type} `{ManagedJob P Opt Svc}.
Context {Data : Type} (decode : Svc → Data → option (option Opt)).
Context (outside : gostring → bool) (services : gmap gostring Svc).

Abbreviation slot := (option (message Opt) * P)%type (only parsing).
Abbreviation jobs_ := (gmap gostring (option (message Opt) * P)) (only parsing).

(** [serving] has the connections of a Serve for each listener there was. *)
Record manager := MkManager {
  jobs : jobs_;
  level : Z;
  logging_ : logging;
  servings : list serving;
  connOpts : ConnOptions;
  relayOpts : RelayOptions }.

Definition new_manager : manager := MkManager ∅ 0 (MkLogging [] None false) [] zero_conn zero_relay.

(** The document of a configuration. *)
Record config := MkConfig {
  c_LogFile : gostring; c_Level : Z; c_Conn : ConnOptions; c_Relay : RelayOptions; c_Jobs : list (gostring * Data) }.

(** loadConfig up to its loops; [None]: the document cannot be decoded, which
    changes nothing.  A log file that cannot be opened is only logged. *)
Definition begin_load (doc : option config) (opens : bool) (m : manager) : option (manager * Manager.phase (Data := Data)) :=
  c ← doc;
  Some (MkManager (stop_removed (c_Jobs c) (jobs m)) (c_Level c)
          (SetLogFile (c_LogFile c != []) opens (logging_ m)).1 (servings m)
          (SetConnOptions (connOpts m) (c_Conn c)) (SetRelayOptions (relayOpts m) (c_Relay c)),
        Setting (c_Jobs c)).

(** [m.connections.Range]: every connection that is in the map. *)
Definition close_stored (s : serving) : serving :=
  MkServing (tempDelay s) ((λ c, if stored c then MkServed (ph c) true else c) <$> conns s) (over s).

Definition CloseConnections (l : list serving) : list serving := close_stored <$> l.

Definition Shutdown (m : manager) : manager :=
  MkManager (StopJobs (jobs m)) (level m)
    (SetLogOutput false (SetLogFile false false (logging_ m)).1)
    (CloseConnections (servings m)) (connOpts m) (relayOpts m).

(** What happens: configurations are loaded one after another, jobs handle
    their events, messages are logged, connections are served; [ph] is the
    phase of the load that holds the lock, if one does. *)
Inductive manager_step : option (Manager.phase (Data := Data)) * manager → option (Manager.phase (Data := Data)) * manager → Prop :=
  | begin_step doc opens m m' ph : begin_load doc opens m = Some (m', ph) →
      manager_step (None, m) (Some ph, m')
  | load_step ph ph' m js' : reload_step decode outside services (ph, jobs m) (ph', js') →
      manager_step (Some ph, m)
        (Some ph', MkManager js' (level m) (logging_ m) (servings m) (connOpts m) (relayOpts m))
  | end_step m : manager_step (Some Finished, m) (None, m)
  | event_step ph m name e p p' : jobs m !! name = Some (Some e, p) →
      handle_event (free_for outside (jobs m) name) e p = Some p' →
      manager_step (ph, m)
        (ph, MkManager (<[name := (None, p')]> (jobs m)) (level m)
               (logging_ m) (servings m) (connOpts m) (relayOpts m))
  | log_step ph m c :
      manager_step (ph, m)
        (ph, MkManager (jobs m) (level m) (log_do c (logging_ m)) (servings m) (connOpts m) (relayOpts m))
  | listen_step ph m :
      manager_step (ph, m)
        (ph, MkManager (jobs m) (level m) (logging_ m) (servings m ++ [no_conns]) (connOpts m) (relayOpts m))
  | serving_step ph m i s s' : servings m !! i = Some s → serve_step s s' →
      manager_step (ph, m)
        (ph, MkManager (jobs m) (level m) (logging_ m) (<[i := s']> (servings m)) (connOpts m) (relayOpts m))
  | shutdown_step m : manager_step (None, m) (None, Shutdown m).

Definition manager_reach : option (Manager.phase (Data := Data)) * manager → Prop := rtc manager_step (None, new_manager).

Context `{!ManagedJobLaws P Opt Svc}.
#[local] Set Default Proof Using "Type*".

(** ** Invariant *)

Record manager_ok (m : manager) : Prop := {
  mo_jobs : map_Forall (λ _ s, valid s.2) (jobs m);
  mo_log : log_ok (logging_ m);
  mo_conns : Forall (λ s, Forall served_ok (conns s)) (servings m) }.

Lemma send_valid (e : message Opt) (s s' : slot) : valid s.2 → SendEvent e s = Some s' → valid s'.2.
Proof. unfold SendEvent. intros Hv. destruct (ended s.2), s.1; intros [= <-]; done. Qed.

Lemma send_to_valid (e : message Opt) (name : gostring) (m m' : jobs_) :
  map_Forall (λ _ s, valid s.2) m → send_to e name m = Some m' → map_Forall (λ _ s, valid s.2) m'.
Proof.
  intros Hm. unfold send_to. destruct (m !! name) as [s|] eqn:E; [|by intros [= <-]].
  intros (s' & Hs & [= <-])%bind_Some. apply map_Forall_insert_2; [|done]. eapply send_valid; [|done]. by eapply Hm.
Qed.

Lemma handle_valid listen e (p p' : P) : valid p → handle_event listen e p = Some p' → valid p'.
Proof. intros Hp. destruct e; simpl; [by apply load_valid|by apply loaded_valid|by intros [= <-]]. Qed.

Lemma setOptions_valid (name : gostring) (data : Data) (m m' : jobs_) ok :
  map_Forall (λ _ s, valid s.2) m → setOptions decode services name data m = Some (m', ok) →
  map_Forall (λ _ s, valid s.2) m'.
Proof.
  intros Hm E%setOptions_cases.
  assert (∀ sv, valid (job_for m name sv).2) as Hj.
  { intros sv. unfold job_for. destruct (m !! name) as [s|] eqn:El; [|apply start_valid].
    destruct (ended s.2); [apply start_valid|by apply (Hm _ _ El)]. }
  destruct (asks decode services name data) as [sv o|sv|]; [|subst m'; by apply map_Forall_insert_2|by subst m'].
  destruct E as (s' & Hs & ->). apply map_Forall_insert_2; [|done]. by eapply send_valid.
Qed.

Lemma reload_step_valid (ph ph' : Manager.phase (Data := Data)) (m m' : jobs_) :
  map_Forall (λ _ s, valid s.2) m → reload_step decode outside services (ph, m) (ph', m') →
  map_Forall (λ _ s, valid s.2) m'.
Proof.
  intros Hm Hs. inversion Hs; subst; try done; try (by eapply send_to_valid); [by eapply setOptions_valid|].
  match goal with E : m !! _ = Some (Some _, _), E' : handle_event _ _ _ = Some _ |- _ =>
    apply map_Forall_insert_2; [|done]; eapply handle_valid; [by apply (Hm _ _ E)|exact E'] end.
Qed.

Lemma serve_step_ok s s' : Forall served_ok (conns s) → serve_step s s' → Forall served_ok (conns s').
Proof.
  intros Hc Hs. assert (∀ i c, served_ok c → Forall served_ok (<[i := c]> (conns s))) as Hi by (intros; by apply Forall_insert).
  destruct Hs as [Ha|Ha|Ha|i c Hl Hp|i c Hl Hp|i c Hl Hp|i c Hl Hp]; simpl; try done; try (by apply Hi).
  - apply Forall_app. split; [done|]. by apply Forall_singleton.
  - apply Hi. rewrite Forall_lookup in Hc. specialize (Hc _ _ Hl). unfold served_ok in *. by rewrite Hp in Hc.
  - apply Hi. rewrite Forall_lookup in Hc. specialize (Hc _ _ Hl). unfold served_ok, stored in *. simpl. by destruct (ph c).
Qed.

Lemma close_stored_ok s : Forall served_ok (conns s) → Forall served_ok (conns (close_stored s)).
Proof.
  intros Hc. simpl. apply Forall_fmap. eapply Forall_impl; [exact Hc|]. intros c H1. simpl.
  unfold served_ok, stored in *. destruct c as [[] cl]; done.
Qed.

Lemma manager_step_ok st st' : manager_ok st.2 → manager_step st st' → manager_ok st'.2.
Proof.
  intros [Hj Hl Hc] Hs. destruct Hs as [doc opens m m' ph E|ph ph' m js' E| |ph m name e p p' E Eh|ph m c|ph m|ph m i s s' E Es|m];
    simpl in *; [| |done|split; simpl; try done..].
  - unfold begin_load in E. apply bind_Some in E as (c & _ & [= <- <-]). split; simpl; [| |done].
    + intros k s [Hk _]%map_lookup_filter_Some. by eapply Hj.
    + by apply (log_do_ok (CallFile _ _)).
  - split; simpl; [by eapply reload_step_valid|done..].
  - apply map_Forall_insert_2; [|done]. eapply handle_valid; [by apply (Hj _ _ E)|exact Eh].
  - by apply log_do_ok.
  - apply Forall_app. split; [done|]. by apply Forall_singleton.
  - apply Forall_insert; [done|]. eapply serve_step_ok; [|done]. rewrite Forall_lookup in Hc. by eapply Hc.
  - intros k s Hk. unfold StopJobs in Hk. rewrite lookup_fmap in Hk. apply fmap_Some in Hk as (s0 & Hk & ->).
    apply cancel_valid. by apply (Hj _ _ Hk).
  - apply (log_do_ok (CallOutput false)). apply (drop_ok _ Hl).
  - apply Forall_fmap. eapply Forall_impl; [exact Hc|]. intros s. apply close_stored_ok.
Qed.

Lemma manager_reach_ok st : manager_reach st → manager_ok st.2.
Proof.
  intros Hr. unfold manager_reach in Hr.
  assert (manager_ok (None (A := Manager.phase (Data := Data)), new_manager).2) as H0 by (by split; [|split|]).
  revert H0. induction Hr as [|s1 s2 s3 Hs _ IH]; [done|]. intros H1. apply IH. by eapply manager_step_ok.
Qed.

(** Whatever was loaded, logged and served, after Shutdown every job has ended
    and listens nowhere, every log file is closed and nothing is written to, and
    every connection in the map of connections is closed. *)
(** C39: whatever was loaded, logged and served, after Shutdown every job has
    ended and listens nowhere, every log file is closed and nothing is written
    to, and every connection in the map of connections is closed. *)
Theorem shutdown_ends m :
  manager_reach (None, m) →
  (∀ name s, jobs (Shutdown m) !! name = Some s → ended s.2 = true ∧ listens s.2 = None) ∧
  (∀ i f, files (logging_ (Shutdown m)) !! i = Some f → f_closed f = true) ∧
  output (logging_ (Shutdown m)) = false ∧
  ∀ s c, s ∈ servings (Shutdown m) → c ∈ conns s → ph c ≠ Accepted → closed c = true.
Proof.
  intros Hr%manager_reach_ok. destruct Hr as [Hj Hl Hc]. split_and!; [| |done|].
  - intros name s Hs. unfold Shutdown, StopJobs in Hs. cbn [jobs] in Hs. rewrite lookup_fmap in Hs.
    apply fmap_Some in Hs as (s0 & Hs & ->). simpl. split; [apply cancel_ended|].
    apply cancel_listens. by apply (Hj _ _ Hs).
  - intros i f Hf. simpl in Hf. destruct (drop_ok _ Hl) as (Hd & Hn & _).
    destruct (f_closed f) eqn:E; [done|]. by rewrite (lo_open _ Hd _ _ Hf E) in Hn.
  - intros s c Hs Hin Hp. simpl in Hs. apply list_elem_of_fmap in Hs as (s0 & -> & Hs). simpl in Hin.
    apply list_elem_of_fmap in Hin as (c0 & -> & Hin). rewrite Forall_forall in Hc. specialize (Hc _ Hs).
    rewrite Forall_forall in Hc. specialize (Hc _ Hin). unfold served_ok, stored in *. destruct c0 as [[] cl]; done.
Qed.

(** A Manager that was shut down can load again: the jobs that ended are
    started anew. *)
Lemma load_after_shutdown m name data svc opts :
  Manager.Service services name = Found svc → decode svc data = Some (Some opts) →
  setOptions decode services name data (jobs (Shutdown m)) =
  Some (<[name := (Some (LoadMsg opts), start_job svc)]> (jobs (Shutdown m)), true).
Proof.
  intros Hs Hd. unfold setOptions. rewrite Hs, Hd. cbv zeta.
  assert (job_for (jobs (Shutdown m)) name svc = (None, start_job svc)) as ->.
  { unfold job_for. cbn [Shutdown jobs]. unfold StopJobs. rewrite lookup_fmap.
    destruct (jobs m !! name) as [s|]; simpl; by rewrite ?cancel_ended. }
  unfold SendEvent. simpl. rewrite start_ended. simpl. by rewrite insert_insert_eq.
Qed.
End manager.

(** A load, and a connection meanwhile. *)
Section lifts.
Context {P Opt Svc : Type} `{ManagedJob P Opt Svc} {Data : Type} (decode : Svc → Data → option (option Opt)).
Context (outside : gostring → bool) (services : gmap gostring Svc).

Lemma reload_lifts (ph ph' : Manager.phase (Data := Data)) (m : manager (P := P) (Opt := Opt)) (js js' : gmap gostring (option (message Opt) * P)) :
  rtc (reload_step decode outside services) (ph, js) (ph', js') → jobs m = js →
  rtc (manager_step decode outside services) (Some ph, m)
    (Some ph', MkManager js' (level m) (logging_ m) (servings m) (connOpts m) (relayOpts m)).
Proof using Type.
  intros Hr. remember (ph, js) as st eqn:E. remember (ph', js') as st' eqn:E'. revert ph js m E ph' js' E'.
  induction Hr as [st|st1 [ph2 js2] st3 Hs _ IH]; intros ph js m -> ph' js' E' Hm.
  - injection E' as <- <-. rewrite <- Hm. destruct m. apply rtc_refl.
  - subst js. eapply rtc_l; [by apply load_step|].
    apply (IH ph2 js2 (MkManager js2 (level m) (logging_ m) (servings m) (connOpts m) (relayOpts m)) eq_refl ph' js' E' eq_refl).
Qed.
End lifts.

Definition pprof_config : config (Data := gostring) := MkConfig (bs "log") 0 zero_conn zero_relay first_config.

(** Two pprof jobs, a log file, a connection that runs and one that was just
    accepted. *)
Definition at_work : manager (P := service_proc (O := Pprof.Options) (X := unit)) (Opt := Pprof.Options) :=
  MkManager both_running 0 (MkLogging [MkFile (Z.lor O_APPEND O_CREATE) false []] (Some O) false)
    [MkServing 0 [MkServed Serving.Running false; MkServed Accepted false] false]
    (SetConnOptions zero_conn zero_conn) (SetRelayOptions zero_relay zero_relay).

Lemma at_work_reach : manager_reach Reload.decode nobody Reload.services (None, at_work).
Proof.
  unfold manager_reach. eapply rtc_l; [by apply (begin_step _ _ _ (Some pprof_config) true)|].
  etransitivity.
  { apply (reload_lifts _ _ _ _ Finished _ (stop_removed first_config ∅) both_running); [|done].
    apply (loads_after at_once first_config ∅). vm_compute. reflexivity. }
  eapply rtc_l; [apply end_step|]. eapply rtc_l; [apply listen_step|]. cbn [app servings level logging_ connOpts relayOpts jobs].
  eapply rtc_l; [apply (serving_step _ _ _ _ _ 0 no_conns); [done|by apply serve_accept]|].
  eapply rtc_l; [eapply (serving_step _ _ _ _ _ 0); [done|by apply (serve_store _ 0 (MkServed Accepted false))]|].
  eapply rtc_l; [eapply (serving_step _ _ _ _ _ 0); [done|by apply serve_accept; split; [|repeat constructor]]|].
  apply rtc_refl.
Qed.

Lemma shutdown_ends_witness :
  (∀ name s, jobs (Shutdown at_work) !! name = Some s → ended s.2 = true ∧ listens s.2 = None) ∧
  conns <$> servings (Shutdown at_work) = [[MkServed Serving.Running true; MkServed Accepted false]].
Proof.
  split; [|reflexivity]. exact (proj1 (shutdown_ends Reload.decode nobody Reload.services at_work at_work_reach)).
Defined.

(** A connection that was accepted and is not in the map yet is missed: it is
    served after Shutdown has returned. *)
Theorem shutdown_misses :
  ∃ m, manager_reach Reload.decode nobody Reload.services (None, m) ∧
    map_Forall (λ _ s, ended s.2 = true) (jobs m) ∧
    ∃ m', manager_step Reload.decode nobody Reload.services (None, m) (None, m') ∧
      MkServed Serving.Running false ∈ servings m' ≫= conns.
Proof.
  exists (Shutdown at_work). split_and!.
  - eapply rtc_r; [apply at_work_reach|]. apply shutdown_step.
  - intros name s Hs. unfold Shutdown, StopJobs in Hs. cbn [jobs] in Hs. rewrite lookup_fmap in Hs.
    apply fmap_Some in Hs as (s0 & _ & ->). apply cancel_ended.
  - eexists. split.
    + eapply (serving_step _ _ _ _ _ 0); [reflexivity|]. apply (serve_store _ 1 (MkServed Accepted false)); reflexivity.
    + vm_compute. right. left.
Qed.
