(* ===== verification/SocksSystem.v ===== *)
(** * socks as a whole (service/socks/socks.go).

    The job with its reloads (Socks.v), the attempts of its connections
    ([getRemote]) and the worker that resolves names, as they run beside each
    other: an attempt that has to ask puts its host to the worker with a
    channel of its own.  The answers of servers, the selects and the times are
    choices of the steps; the two dials of one attempt are Race.v. *)

From S2P Require Import Prelude GoStrings Url Proxy Defaults Jobs Addr Dns Socks SocksWorker.

Open Scope go_scope.
#[local] Arguments bs : simpl never.

Section system.
Context {C : Type}.
(** What a server answers to the questions for a host, net.ParseIP, and the
    String of an address. *)
Context (Answers : gostring → list RR → Prop) (is_ip : gostring → bool) (IPString : Addr → gostring).

Abbreviation Options := (@Socks.Options C) (only parsing).
Abbreviation turn := (@Socks.turn C) (only parsing).
Abbreviation job := (Jobs.job (@Socks.Options C) (list (gmap gostring result))) (only parsing).

(** ** State *)

Inductive stage := Offered | Answered (r : option result).

Record question := MkQuestion { qu_Domain : gostring; qu_stage : stage }.

(** An attempt: it has read the options, waits for the worker, knows what to
    dial, or has failed. *)
Inductive progress := Reading | Asked (k : nat) | Dials (p : plan) | Failed.

Record attempt := MkAttempt { at_remoteAddr : gostring; at_opts : cell (O := Options); at_progress : progress }.

Record system := MkSystem {
  sy_job : job;
  sy_seen : list Options;
  sy_conn : option DNServer;
  sy_attempts : list attempt;
  sy_questions : list question }.

(** ** Operations *)

Definition set_job (j : job) (conn : option DNServer) (seen : list Options) (s : system) : system :=
  MkSystem j seen conn (sy_attempts s) (sy_questions s).

Definition set_caches (cs : list (gmap gostring result)) (j : job) : job := Jobs.MkJob (Jobs.opts j) (Jobs.server j) cs (Jobs.log j).

Definition set_attempt (i : nat) (p : progress) (s : system) : system :=
  MkSystem (sy_job s) (sy_seen s) (sy_conn s)
    (alter (λ a, MkAttempt (at_remoteAddr a) (at_opts a) p) i (sy_attempts s)) (sy_questions s).

(** A call of getRemote reads the options of the moment. *)
Definition begin_attempt (remoteAddr : gostring) (running : bool) (s : system) : system :=
  MkSystem (sy_job s) (sy_seen s) (sy_conn s)
    (sy_attempts s ++ [MkAttempt remoteAddr (if running then Some (Jobs.opts (sy_job s)) else None) Reading])
    (sy_questions s).

(** It looks for its host in the cache, and asks when it is not there. *)
Definition look_up (i : nat) (a : attempt) (now : Z) (s : system) : system :=
  match Socks.getRemote is_ip (at_opts a) (Jobs.extra (sy_job s)) (at_remoteAddr a) now with
  | Ask host =>
      let s := set_attempt i (Asked (length (sy_questions s))) s in
      MkSystem (sy_job s) (sy_seen s) (sy_conn s) (sy_attempts s) (sy_questions s ++ [MkQuestion host Offered])
  | Leave => set_attempt i Failed s
  | p => set_attempt i (Dials p) s
  end.

(** The worker has an answer or none, and closes the channel. *)
Definition answer_question (k : nat) (domain : gostring) (r : option result) (s : system) : system :=
  MkSystem (sy_job s) (sy_seen s) (sy_conn s) (sy_attempts s) (<[k := MkQuestion domain (Answered r)]> (sy_questions s)).

Definition port_of (remoteAddr : gostring) : gostring :=
  match SplitHostPort remoteAddr with Some (_, port) => port | None => [] end.

Definition host_of (remoteAddr : gostring) : gostring :=
  match SplitHostPort remoteAddr with Some (host, _) => host | None => [] end.

(** [result = <-r]; a closed channel gives errNoResult. *)
Definition receive (i : nat) (a : attempt) (r : option result) (s : system) : system :=
  match r with
  | Some r => set_attempt i (Dials (plan_of r (port_of (at_remoteAddr a)))) s
  | None => set_attempt i Failed s
  end.

(** The addresses that an attempt may dial. *)
Definition may_dial (a : attempt) (addr : gostring) : Prop :=
  match at_progress a with
  | Dials DialName => addr = at_remoteAddr a
  | Dials (DialOne ips port) => ∃ ip, ip ∈ ips ∧ addr = JoinHostPort (IPString ip) port
  | Dials (DialBoth ips4 ips6 port) => ∃ ip, ip ∈ ips4 ++ ips6 ∧ addr = JoinHostPort (IPString ip) port
  | _ => False
  end.

(** ** Steps *)

(** The answers of the rounds of a query are to questions for its host. *)
Definition answers_host (domain : gostring) (ts : list turn) : Prop :=
  Forall (λ t, match t with Exchange _ _ (Some rrs) _ => Answers domain rrs | _ => True end) ts.

Definition reads_seen (seen : list Options) (ts : list turn) : Prop :=
  Forall (λ t, match t with Exchange o _ _ _ => o ∈ seen | _ => True end) ts.

Inductive system_step : system → system → Prop :=
  | z_event s (listen : gostring → bool) (e : Jobs.event Options) j : @handle _ _ Socks.socks listen e (sy_job s) = (Val tt, j) →
      system_step s (set_job j (sy_conn s) (Jobs.opts j :: sy_seen s) s)
  | z_begin s remoteAddr running : system_step s (begin_attempt remoteAddr running s)
  | z_look s i a now : sy_attempts s !! i = Some a → at_progress a = Reading →
      system_step s (look_up i a now s)
  | z_cancel s i : system_step s (set_attempt i Failed s)
  | z_worker s k u o now ts conn cs r (canceled : bool) :
      sy_questions s !! k = Some u → qu_stage u = Offered → o ∈ sy_seen s →
      reads_seen (sy_seen s) ts → answers_host (qu_Domain u) ts →
      query o (sy_conn s) (Jobs.extra (sy_job s)) (qu_Domain u) now ts = Replied conn cs r →
      system_step s (answer_question k (qu_Domain u) (if canceled then None else r)
        (set_job (set_caches cs (sy_job s)) conn (sy_seen s) s))
  | z_disconnect s : system_step s (set_job (sy_job s) None (sy_seen s) s)
  | z_receive s i a k u r : sy_attempts s !! i = Some a → at_progress a = Asked k →
      sy_questions s !! k = Some u → qu_stage u = Answered r →
      system_step s (receive i a r s).

Definition system_start : system := MkSystem Jobs.start [zero] None [] [].
Definition system_reach : system → Prop := rtc system_step system_start.

(** ** The invariant *)

(** Made of answers for this host. *)
Definition right_result (domain : gostring) (r : result) : Prop := made (C := C) answers_host domain r.

(** An address of an answer for this host. *)
Definition address_of (domain : gostring) (ip : Addr) : Prop :=
  IsValid ip = true ∧ ∃ rrs rr, Answers domain rrs ∧ rr ∈ rrs ∧ (rr_data rr = RA ip ∨ rr_data rr = RAAAA ip).

Lemma right_addresses domain r ip : right_result domain r → ip ∈ IPv4 r ++ IPv6 r → address_of domain ip.
Proof.
  intros (l & -> & Hl) (x & rr & Hx & Hrr & Hd & Hv)%elem_of_answers. split; [done|].
  rewrite Forall_forall in Hl. destruct (Hl x Hx) as (o & us & Hus & ts1 & latest & k & ts2 & -> & _).
  apply Forall_app in Hus as [_ [Hus _]%Forall_cons]. exists (a_rrs x), rr. by split.
Qed.

(** The plan of an attempt. *)
Definition plan_right (remoteAddr : gostring) (c : cell (O := Options)) (p : plan) : Prop :=
  match p with
  | DialName => ∃ o, c = Some o ∧ (o_Servers o = [] ∨ is_ip (host_of remoteAddr) = true)
  | DialOne ips port => port = port_of remoteAddr ∧ ∀ ip, ip ∈ ips → address_of (host_of remoteAddr) ip
  | DialBoth ips4 ips6 port =>
      port = port_of remoteAddr ∧ ∀ ip, ip ∈ ips4 ++ ips6 → address_of (host_of remoteAddr) ip
  | _ => True
  end.

Definition attempt_ok (seen : list Options) (qs : list question) (a : attempt) : Prop :=
  (∀ o, at_opts a = Some o → o ∈ seen) ∧
  match at_progress a with
  | Asked k => ∃ u, qs !! k = Some u ∧ qu_Domain u = host_of (at_remoteAddr a)
  | Dials p => plan_right (at_remoteAddr a) (at_opts a) p
  | _ => True
  end.

Definition question_ok (u : question) : Prop := ∀ r, qu_stage u = Answered (Some r) → right_result (qu_Domain u) r.

(** The caches are those of queries with right answers. *)
Definition caches_ok (cs : list (gmap gostring result)) : Prop :=
  ∃ h, cached (C := C) h cs ∧ ∀ d o us, (d, o, us) ∈ h → answers_host d us.

Record system_ok (s : system) : Prop := {
  sy_caches_ok : caches_ok (Jobs.extra (sy_job s));
  sy_opts_seen : Jobs.opts (sy_job s) ∈ sy_seen s;
  sy_attempts_ok : Forall (attempt_ok (sy_seen s) (sy_questions s)) (sy_attempts s);
  sy_questions_ok : Forall question_ok (sy_questions s) }.

Lemma plan_of_right remoteAddr c r :
  right_result (host_of remoteAddr) r → plan_right remoteAddr c (plan_of r (port_of remoteAddr)).
Proof.
  intros Hr. pose proof (λ ip, right_addresses _ _ ip Hr) as H. unfold plan_of. revert H.
  destruct (IPv4 r) as [|a l4], (IPv6 r) as [|b l6]; intros H; simpl; rewrite ?app_nil_r in *; done || (split; [done|exact H]).
Qed.

(** ** The steps keep it *)

(** A reload adds at most an empty cache. *)
Lemma handle_caches (listen : gostring → bool) (e : Jobs.event Options) (j j' : job) :
  @handle _ _ Socks.socks listen e j = (Val tt, j') →
  Jobs.extra j' = Jobs.extra j ∨ Jobs.extra j' = Jobs.extra j ++ [∅].
Proof.
  intros E. destruct e as [o| |]; simpl in E; [| |injection E as <-; by left].
  - unfold LoadEvent_ in E. apply bind_inv in E as [(old & s0 & [= <- <-] & E)|[_ [=]]].
    apply bind_inv in E as [([] & s1 & E1 & E)|[[=] _]].
    assert (Jobs.extra s1 = Jobs.extra j) as X1.
    { unfold check_addr in E1. destruct (SplitHostPort _); [by injection E1 as <-|done]. }
    apply bind_inv in E as [([] & s2 & E2 & E)|[[=] _]].
    assert (Jobs.extra s2 = Jobs.extra j) as X2.
    { revert E2. case_bool_decide; [by intros [= <-]|]. unfold stopServer.
      destruct (Jobs.server s1); intros [= <-]; done. }
    apply bind_inv in E as [(n & s3 & E3 & E)|[[=] _]]. injection E as <-. simpl. rewrite <- X2.
    revert E3. unfold load_dns. destruct (bool_decide (all_servers _ _ = [])); [intros [= <- <-]; by left|].
    destruct (check_servers _); [|done]. destruct ((_ == None) || _); intros [= <- <-]; [by right|by left].
  - unfold startServer in E. destruct (Jobs.server j); [injection E as <-; by left|].
    destruct (listen _); [|done]. injection E as <-. by left.
Qed.

Lemma attempt_mono seen seen' qs qs' a :
  (∀ o, o ∈ seen → o ∈ seen') → (∀ k u, qs !! k = Some u → ∃ u', qs' !! k = Some u' ∧ qu_Domain u' = qu_Domain u) →
  attempt_ok seen qs a → attempt_ok seen' qs' a.
Proof.
  intros Hs Hq [H1 H2]. split; [by auto|]. destruct (at_progress a); try done.
  destruct H2 as (u & Hu & Hd). destruct (Hq _ _ Hu) as (u' & Hu' & Hd'). exists u'. split; [done|congruence].
Qed.

(** The job goes on; the attempts and the questions stay. *)
Lemma set_job_ok s j conn seen :
  system_ok s → caches_ok (Jobs.extra j) → (∀ o, o ∈ sy_seen s → o ∈ seen) → Jobs.opts j ∈ seen →
  system_ok (set_job j conn seen s).
Proof.
  intros [H1 H2 H3 H4] Hj Hs Ho. split; simpl; try done. eapply Forall_impl; [exact H3|].
  intros a. apply attempt_mono; [done|]. by eauto.
Qed.

Lemma reload_event_ok s (listen : gostring → bool) (e : Jobs.event Options) j :
  system_ok s → @handle _ _ Socks.socks listen e (sy_job s) = (Val tt, j) →
  system_ok (set_job j (sy_conn s) (Jobs.opts j :: sy_seen s) s).
Proof.
  intros H E. apply set_job_ok; [done| |by right|by left]. destruct (sy_caches_ok _ H) as (h & Hc & Hh).
  destruct (handle_caches _ _ _ _ E) as [-> | ->]; exists h; (split; [|done]); [done|by constructor].
Qed.

Lemma begin_ok s remoteAddr running : system_ok s → system_ok (begin_attempt remoteAddr running s).
Proof.
  intros [H1 H2 H3 H4]. split; simpl; try done. apply Forall_app. split; [done|]. apply Forall_singleton.
  split; [|done]. simpl. destruct running; [by intros o [= <-]|done].
Qed.

(** An attempt goes on. *)
Lemma set_attempt_ok s i p :
  system_ok s → (∀ a, sy_attempts s !! i = Some a →
    attempt_ok (sy_seen s) (sy_questions s) (MkAttempt (at_remoteAddr a) (at_opts a) p)) →
  system_ok (set_attempt i p s).
Proof.
  intros [H1 H2 H3 H4] Hp. split; simpl; try done. rewrite Forall_lookup in H3 |- *. intros i' a Ha.
  destruct (decide (i' = i)) as [->|Hne].
  - rewrite list_lookup_alter_eq in Ha. apply fmap_Some in Ha as (a0 & Ha & ->). by apply Hp.
  - rewrite list_lookup_alter_ne in Ha by done. by eapply H3.
Qed.

Lemma fail_ok s i : system_ok s → system_ok (set_attempt i Failed s).
Proof.
  intros H. apply set_attempt_ok; [done|]. intros a Ha. pose proof (sy_attempts_ok _ H) as H3.
  rewrite Forall_lookup in H3. split; [by apply (H3 _ _ Ha)|done].
Qed.

Lemma dials_ok s i a p :
  system_ok s → sy_attempts s !! i = Some a → plan_right (at_remoteAddr a) (at_opts a) p →
  system_ok (set_attempt i (Dials p) s).
Proof.
  intros H Ha Hp. apply set_attempt_ok; [done|]. intros a' Ha'. rewrite Ha in Ha'. injection Ha' as <-.
  pose proof (sy_attempts_ok _ H) as H3. rewrite Forall_lookup in H3. split; [by apply (H3 _ _ Ha)|done].
Qed.

(** A question is added. *)
Lemma asked_ok s i a domain :
  system_ok s → sy_attempts s !! i = Some a → domain = host_of (at_remoteAddr a) →
  system_ok (set_attempt i (Asked (length (sy_questions s)))
    (MkSystem (sy_job s) (sy_seen s) (sy_conn s) (sy_attempts s) (sy_questions s ++ [MkQuestion domain Offered]))).
Proof.
  intros H Ha ->. apply set_attempt_ok.
  - destruct H as [H1 H2 H3 H4]. split; simpl; try done.
    + eapply Forall_impl; [exact H3|]. intros a'. apply attempt_mono; [done|]. intros k u' Hk. exists u'.
      split; [|done]. rewrite lookup_app_l; [done|by eapply lookup_lt_Some].
    + apply Forall_app. split; [done|]. by apply Forall_singleton.
  - simpl. intros a'. rewrite Ha. intros [= <-]. pose proof (sy_attempts_ok _ H) as H3. rewrite Forall_lookup in H3.
    split; [by apply (H3 _ _ Ha)|]. simpl.
    exists (MkQuestion (host_of (at_remoteAddr a)) Offered). split; [|done].
    rewrite lookup_app_r by done. by rewrite Nat.sub_diag.
Qed.

(** What a cache has is right. *)
Lemma fresh_right cs (o : Options) domain now r : caches_ok cs → fresh cs o domain now = Some r → right_result domain r.
Proof.
  intros (h & Hc & Hh) Hf. eapply (query_made _ h o None cs domain now [] None cs); [done..|by constructor|].
  unfold query. by rewrite Hf.
Qed.

Lemma look_up_ok s i a now : system_ok s → sy_attempts s !! i = Some a → system_ok (look_up i a now s).
Proof.
  intros H Ha. unfold look_up, Socks.getRemote. destruct (at_opts a) as [o|] eqn:Eo; simpl; [|by apply fail_ok].
  case_bool_decide as Es. { apply (dials_ok _ _ a); [done..|]. rewrite Eo. exists o. split; [done|by left]. }
  destruct (match SplitHostPort _ with Some hp => hp | None => ([], []) end) as [host port] eqn:Ehp.
  assert (host_of (at_remoteAddr a) = host ∧ port_of (at_remoteAddr a) = port) as [<- <-].
  { unfold host_of, port_of. destruct (SplitHostPort _) as [[h p]|]; by injection Ehp. }
  destruct (is_ip _) eqn:Ei. { apply (dials_ok _ _ a); [done..|]. rewrite Eo. exists o. split; [done|by right]. }
  destruct (fresh _ o _ now) as [r|] eqn:Ef; [|by apply (asked_ok _ _ a)].
  apply fresh_right in Ef; [|apply H]. pose proof (plan_of_right (at_remoteAddr a) (at_opts a) r Ef) as Hp.
  pose proof (plan_addresses r (port_of (at_remoteAddr a))) as Hk.
  destruct (plan_of r _) as [|ips port|l4 l6 port| | |]; try done; by apply (dials_ok _ _ a); [done..|].
Qed.

(** The worker has an answer. *)
Lemma answer_ok s k u r :
  system_ok s → sy_questions s !! k = Some u → (∀ r', r = Some r' → right_result (qu_Domain u) r') →
  system_ok (answer_question k (qu_Domain u) r s).
Proof.
  intros [H1 H2 H3 H4] Hu Hr. split; simpl; [done..| |].
  - eapply Forall_impl; [exact H3|]. intros a. apply attempt_mono; [done|]. intros k' u' Hk.
    destruct (decide (k' = k)) as [->|Hne].
    + rewrite Hu in Hk. injection Hk as <-. exists (MkQuestion (qu_Domain u) (Answered r)). split; [|done].
      apply list_lookup_insert_eq. by eapply lookup_lt_Some.
    + exists u'. by rewrite list_lookup_insert_ne.
  - apply Forall_insert; [done|]. intros r' [= ->]. by apply Hr.
Qed.

Lemma worker_ok s k u (o : Options) now (ts : list turn) conn cs r canceled :
  system_ok s → sy_questions s !! k = Some u → answers_host (qu_Domain u) ts →
  query o (sy_conn s) (Jobs.extra (sy_job s)) (qu_Domain u) now ts = Replied conn cs r →
  system_ok (answer_question k (qu_Domain u) (if canceled : bool then None else r)
    (set_job (set_caches cs (sy_job s)) conn (sy_seen s) s)).
Proof.
  intros H Hu Ht E. destruct (sy_caches_ok _ H) as (h & Hc & Hh). apply answer_ok; [|done|].
  - apply set_job_ok; [done| |done|apply H]. exists ((qu_Domain u, o, ts) :: h). split; [by eapply cached_query|].
    intros d o1 us [[= -> -> ->]|Hin]%elem_of_cons; [done|by eapply Hh].
  - intros r'. destruct canceled; [done|]. intros ->. by eapply query_made.
Qed.

Lemma receive_ok s i a k u r :
  system_ok s → sy_attempts s !! i = Some a → at_progress a = Asked k →
  sy_questions s !! k = Some u → qu_stage u = Answered r → system_ok (receive i a r s).
Proof.
  intros H Ha Hp Hu Hst. destruct r as [r|]; simpl; [|by apply fail_ok].
  pose proof (sy_attempts_ok _ H) as H3. pose proof (sy_questions_ok _ H) as H4. rewrite Forall_lookup in H3; rewrite Forall_lookup in H4.
  destruct (H3 _ _ Ha) as [_ Hd]. rewrite Hp in Hd. destruct Hd as (u' & Hu' & Hd). rewrite Hu in Hu'.
  injection Hu' as <-. apply (dials_ok _ _ a); [done..|]. apply plan_of_right. rewrite <- Hd. by apply (H4 _ _ Hu).
Qed.

Lemma socks_step_ok s s' : system_ok s → system_step s s' → system_ok s'.
Proof.
  intros H Hs. destruct Hs; eauto using reload_event_ok, begin_ok, look_up_ok, fail_ok, worker_ok, receive_ok.
  apply set_job_ok; auto using sy_caches_ok, sy_opts_seen.
Qed.

Lemma socks_reach_ok s : system_reach s → system_ok s.
Proof.
  intros Hr. assert (system_ok system_start) as H0.
  { split; simpl; [|by left|done..]. exists []. split; [constructor|]. by intros ? ? ? ?%elem_of_nil. }
  induction Hr as [|s1 s2 s3 Hs _ IH]; [done|]. apply IH. by eapply socks_step_ok.
Qed.

(** C24: whatever reloads, attempts, cancellations, broken connections and
    failed exchanges there are, an attempt of a connection of socks dials its
    address as it is only when the options that this attempt has read, options
    of the job, have no DNS servers, or when its host is an IP address; any
    other address that it dials has the port of its own address, and an IP
    address that a server answered to a question for its own host. *)
Theorem dials_own s i a addr :
  system_reach s → sy_attempts s !! i = Some a → may_dial a addr →
  (addr = at_remoteAddr a ∧ ∃ o, at_opts a = Some o ∧ o ∈ sy_seen s ∧
     (o_Servers o = [] ∨ is_ip (host_of (at_remoteAddr a)) = true)) ∨
  ∃ ip rrs rr, addr = JoinHostPort (IPString ip) (port_of (at_remoteAddr a)) ∧ IsValid ip = true ∧
    Answers (host_of (at_remoteAddr a)) rrs ∧ rr ∈ rrs ∧ (rr_data rr = RA ip ∨ rr_data rr = RAAAA ip).
Proof.
  intros Hr%socks_reach_ok Ha Hd. pose proof (sy_attempts_ok _ Hr) as H. rewrite Forall_lookup in H.
  destruct (H _ _ Ha) as [Ho Hp]. unfold may_dial in Hd. destruct (at_progress a) as [| |p|]; try done.
  destruct p as [|ips port|l4 l6 port| | |]; try done; simpl in Hp.
  - destruct Hp as (o & Eo & Hp). left. split; [done|]. exists o. split_and!; [done|by apply Ho|done].
  - destruct Hp as [-> Hp], Hd as (ip & Hip & ->). destruct (Hp ip Hip) as (Hv & rrs & rr & HA). right. by exists ip, rrs, rr.
  - destruct Hp as [-> Hp], Hd as (ip & Hip & ->). destruct (Hp ip Hip) as (Hv & rrs & rr & HA). right. by exists ip, rrs, rr.
Qed.
End system.

(** ** At work: an attempt for example.org, which the worker asks a server about. *)

Definition a_target : gostring := JoinHostPort host (bs "80").
Definition no_ip (_ : gostring) : bool := false.
Definition plain_ip (a : Addr) : gostring := match a with Addr4 n => Itoa n | _ => [] end.

(** The server knows one host. *)
Definition one_host (domain : gostring) (rrs : list RR) : Prop := domain = host ∧ (rrs = an_answer ∨ rrs = []).

Definition the_job : Jobs.job (Options (C := unit)) (list (gmap gostring result)) := loads [[Socks.server (bs "ns1")]].

Definition sys_loaded : system := set_job the_job None [with_servers; zero] system_start.
Definition sys_begun : system := begin_attempt a_target true sys_loaded.
Definition att : attempt := MkAttempt a_target (Some with_servers) Reading.
Definition sys_asked : system := look_up no_ip 0 att 0 sys_begun.
Definition sys_answered : system :=
  answer_question 0 host (Some the_result)
    (set_job (set_caches some_caches (sy_job sys_asked)) (Some (Socks.server (bs "ns1"))) (sy_seen sys_asked) sys_asked).
Definition att_asked : attempt := MkAttempt a_target (Some with_servers) (Asked 0).
Definition sys_dials : system := receive 0 att_asked (Some the_result) sys_answered.
Definition att_dials : attempt := MkAttempt a_target (Some with_servers) (Dials (DialOne [Addr4 16909060] (bs "80"))).

Lemma the_job_handled : handle anywhere (LoadEvent (socks_options [Socks.server (bs "ns1")])) Jobs.start = (Val tt, the_job).
Proof. vm_compute. reflexivity. Qed.

Lemma sys_asked_question : sy_questions sys_asked !! 0%nat = Some (MkQuestion host Offered).
Proof. vm_compute. reflexivity. Qed.

Lemma sys_asked_query :
  query with_servers (sy_conn sys_asked) (Jobs.extra (sy_job sys_asked)) host 0 two_answers =
  Replied (Some (Socks.server (bs "ns1"))) some_caches (Some the_result).
Proof. vm_compute. reflexivity. Qed.

Lemma sys_dials_reach : system_reach one_host no_ip sys_dials.
Proof.
  eapply rtc_l; [exact (z_event _ _ system_start _ _ _ the_job_handled)|].
  eapply rtc_l; [exact (z_begin _ _ sys_loaded a_target true)|].
  eapply rtc_l; [apply (z_look _ _ sys_begun 0 att 0); reflexivity|].
  eapply rtc_l; [apply (z_worker _ _ sys_asked 0 (MkQuestion host Offered) with_servers 0 two_answers
    (Some (Socks.server (bs "ns1"))) some_caches (Some the_result) false sys_asked_question eq_refl)|].
  - by left.
  - repeat constructor.
  - constructor; [by split; [|left]|]. constructor; [by split; [|right]|constructor].
  - exact sys_asked_query.
  - apply rtc_once. apply (z_receive _ _ sys_answered 0 att_asked 0 (MkQuestion host (Answered (Some the_result))));
      reflexivity.
Qed.

Definition dialed_addr : gostring := JoinHostPort (bs "16909060") (bs "80").

Lemma dials_own_witness :
  may_dial plain_ip att_dials dialed_addr ∧
  ∃ ip rrs rr, dialed_addr = JoinHostPort (plain_ip ip) (bs "80") ∧
    one_host host rrs ∧ rr ∈ rrs ∧ (rr_data rr = RA ip ∨ rr_data rr = RAAAA ip).
Proof.
  assert (may_dial plain_ip att_dials dialed_addr) as Hd.
  { exists (Addr4 16909060). split; [by left|vm_compute; reflexivity]. }
  split; [exact Hd|].
  destruct (dials_own one_host no_ip plain_ip sys_dials 0 att_dials dialed_addr sys_dials_reach
    ltac:(vm_compute; reflexivity) Hd) as [[E _]|(ip & rrs & rr & E & _ & HA & Hin & Hrr)].
  - vm_compute in E. discriminate E.
  - exists ip, rrs, rr. split; [exact E|]. split; [exact HA|]. by split.
Defined.
