(* ===== verification/SocksDialer.v ===== *)
(** * The dialer of SOCKS (proxy/x_net_socks.go, proxy/x_net_proxy.go).

    DialContext, DialWithConn and Dial around the handshake of Handshake.v,
    the errors that they return, and the calls that they make: to dial the
    proxy, through the forwarder or not, and to close the connection.  The
    command of a dialer is CONNECT, as NewDialer sets it; what comes of dialing
    is a parameter. *)

From S2P Require Import Prelude GoStrings Url Proxy Dial Handshake.

Open Scope go_scope.
#[local] Arguments bs : simpl never.

(** ** Names *)

Definition socks_cmdBind : Z := 2.

Definition Command_String (cmd : Z) : gostring :=
  if cmd =? socks_CmdConnect then bs "socks connect"
  else if cmd =? socks_cmdBind then bs "socks bind"
  else bs "socks " ++ Itoa cmd.

Definition Reply_String (code : Z) : gostring :=
  match code with
  | 0 => bs "succeeded"
  | 1 => bs "general SOCKS server failure"
  | 2 => bs "connection not allowed by ruleset"
  | 3 => bs "network unreachable"
  | 4 => bs "host unreachable"
  | 5 => bs "connection refused"
  | 6 => bs "TTL expired"
  | 7 => bs "command not supported"
  | 8 => bs "address type not supported"
  | _ => bs "unknown code: " ++ Itoa code
  end.

(** Each code has a name of its own. *)
Lemma Reply_String_inj a b : 0 <= a < 256 → 0 <= b < 256 → Reply_String a = Reply_String b → a = b.
Proof.
  intros Ha Hb E.
  assert (NoDup (Reply_String ∘ Z.of_nat <$> seq 0 256)) as H by by_compute.
  assert (∀ x, 0 <= x < 256 → (Reply_String ∘ Z.of_nat <$> seq 0 256) !! Z.to_nat x = Some (Reply_String x)) as Hl.
  { intros x Hx. rewrite list_lookup_fmap, lookup_seq_lt by lia. cbn [fmap option_fmap option_map compose Nat.add].
    by rewrite Z2Nat.id by lia. }
  assert (Z.to_nat a = Z.to_nat b); [|lia].
  eapply NoDup_lookup; [exact H|apply (Hl a Ha)|rewrite E; apply (Hl b Hb)].
Qed.

Section dialer.
Context (net_ParseIP : gostring → option (list Z + list Z)) (IP_String : host_addr → gostring).
(** net.Dial, of an address on a network. *)
Context (net_Dial : gostring → gostring → option wire).

(** ** Addresses *)

(** [None]: a nil address. *)
Definition Addr_String (a : option socks_Addr) : gostring :=
  match a with
  | None => bs "<nil>"
  | Some a =>
      let port := Itoa (a_Port a) in
      match a_host a with
      | Name n => JoinHostPort n port
      | ip => JoinHostPort (IP_String ip) port
      end
  end.

Definition to_addr (s : gostring) : option socks_Addr :=
  '(host, port) ← socks_splitHostPort s;
  Some (MkAddr (match net_ParseIP host with
                | Some (inl b) => IPv4 b
                | Some (inr b) => IPv6 b
                | None => Name host
                end) port).

(** ** The dialer *)

Record socks_Dialer := MkDialer {
  cmd : Z; proxyNetwork : gostring; proxyAddress : gostring;
  ProxyDial : option (gostring → gostring → option wire);
  d_auth : option (gostring * gostring) }.

Definition socks_NewDialer (network address : gostring) : socks_Dialer :=
  MkDialer socks_CmdConnect network address None None.

(** A forwarder gives the ProxyDial. *)
Definition proxy_SOCKS5 (network address : gostring) (auth : option (gostring * gostring))
    (forward : option (gostring → gostring → option wire)) : socks_Dialer :=
  let d := socks_NewDialer network address in
  MkDialer (cmd d) (proxyNetwork d) (proxyAddress d) forward auth.

Inductive cause := ErrNotTcp | ErrCommand | ErrNilContext | ErrDial | ErrConnect.

Record OpError := MkOpError {
  e_Op : gostring; e_Net : gostring; e_Source : option socks_Addr; e_Addr : option socks_Addr; e_Err : cause }.

Definition validateTarget (d : socks_Dialer) (network : gostring) : option cause :=
  if negb (is_tcp network) then Some ErrNotTcp
  else if (cmd d =? socks_CmdConnect) || (cmd d =? socks_cmdBind) then None
  else Some ErrCommand.

(** [pathAddrs] for an error: nothing when either cannot be read. *)
Definition pathAddrs (d : socks_Dialer) (address : gostring) : option (socks_Addr * socks_Addr) :=
  proxy ← to_addr (proxyAddress d); dst ← to_addr address; Some (proxy, dst).

Definition op_error (d : socks_Dialer) (network address : gostring) (err : cause) : OpError :=
  MkOpError (Command_String (cmd d)) network (fst <$> pathAddrs d address) (snd <$> pathAddrs d address) err.

(** The connection [c] is the caller's. *)
Definition DialWithConn (d : socks_Dialer) (ctx_nil : bool) (network address : gostring) (c : wire)
    : (OpError + socks_Addr) * wire :=
  match validateTarget d network with
  | Some err => (inl (op_error d network address err), c)
  | None =>
      if ctx_nil then (inl (op_error d network address ErrNilContext), c)
      else match connect net_ParseIP (d_auth d) address c with
           | (Some a, c) => (inr a, c)
           | (None, c) => (inl (op_error d network address ErrConnect), c)
           end
  end.

(** *** Calls *)

(** The calls of a dial: the proxy is dialed, by the forwarder or directly; a
    connection is closed, as it is then. *)
Inductive call := Dials (forwarded : bool) (network address : gostring) | Closes (c : wire).

(** What a function returns, with the calls it has made. *)
Definition traced (A : Type) : Type := list call → A * list call.

#[export] Instance traced_ret : MRet traced := λ A a t, (a, t).
#[export] Instance traced_bind : MBind traced := λ A B f m t, let '(a, t) := m t in f a t.

Definition dial_proxy (d : socks_Dialer) : traced (option wire) := λ t,
  match ProxyDial d with
  | Some dial => (dial (proxyNetwork d) (proxyAddress d), t ++ [Dials true (proxyNetwork d) (proxyAddress d)])
  | None => (net_Dial (proxyNetwork d) (proxyAddress d), t ++ [Dials false (proxyNetwork d) (proxyAddress d)])
  end.

Definition Close (c : wire) : traced unit := λ t, (tt, t ++ [Closes c]).

(** What comes of a dial: an error, or a connection, with the bound address if
    it is kept. *)
Inductive dialed :=
  | Failed (e : OpError)
  | Dialed (boundAddr : option socks_Addr) (c : wire).

Definition DialContext (d : socks_Dialer) (ctx_nil : bool) (network address : gostring) : traced dialed :=
  match validateTarget d network with
  | Some err => mret (Failed (op_error d network address err))
  | None =>
      if ctx_nil then mret (Failed (op_error d network address ErrNilContext))
      else
        c ← dial_proxy d;
        match c with
        | None => mret (Failed (op_error d network address ErrDial))
        | Some c =>
            match connect net_ParseIP (d_auth d) address c with
            | (None, c) => _ ← Close c; mret (Failed (op_error d network address ErrConnect))
            | (Some a, c) => mret (Dialed (Some a) c)
            end
        end
  end.

(** The deprecated one: the raw connection. *)
Definition Dial (d : socks_Dialer) (network address : gostring) : traced dialed :=
  match validateTarget d network with
  | Some err => mret (Failed (op_error d network address err))
  | None =>
      c ← dial_proxy d;
      match c with
      | None => mret (Failed (op_error d network address ErrDial))
      | Some c =>
          match DialWithConn d false network address c with
          | (inl e, c) => _ ← Close c; mret (Failed e)
          | (inr _, c) => mret (Dialed None c)
          end
      end
  end.

(** BoundAddr of what was dialed. *)
Definition BoundAddr (r : dialed) : option socks_Addr :=
  match r with Dialed a _ => a | Failed _ => None end.

(** ** What they return *)

(** Dial is DialContext without the bound address. *)
Lemma Dial_DialContext d network address t :
  Dial d network address t =
  let '(r, t) := DialContext d false network address t in
  (match r with Dialed _ c => Dialed None c | f => f end, t).
Proof.
  unfold Dial, DialContext, mbind, traced_bind. destruct (validateTarget d network) eqn:E; [done|].
  destruct (dial_proxy d t) as [[c|] t1]; [|done]. unfold DialWithConn. rewrite E.
  by destruct (connect _ _ _ c) as [[a|] c'].
Qed.

(** An address with a host that is a name, written as net.JoinHostPort does,
    is the string of its socks_Addr. *)
Lemma to_addr_String host port :
  net_ParseIP host = None → (91 ∉ host) → (93 ∉ host) → 1 <= port <= 65535 →
  ∃ a, to_addr (JoinHostPort host (Itoa port)) = Some a ∧ Addr_String (Some a) = JoinHostPort host (Itoa port).
Proof.
  intros Hip H1 H2 Hp. pose proof (Itoa_bounds port ltac:(lia)) as Hd. rewrite Forall_forall in Hd.
  assert (∀ c, ¬ 48 <= c <= 57 → c ∉ Itoa port) as Hno by (intros c Hc Hin; by apply Hc, Hd).
  exists (MkAddr (Name host) port). split; [|done]. unfold to_addr, socks_splitHostPort.
  rewrite SplitHostPort_JoinHostPort by (done || (apply Hno; lia)). simpl. unfold Atoi.
  rewrite ParseInt_Itoa by lia. simpl. zif. simpl. by rewrite Hip.
Qed.

(** What comes of dialing the proxy, and the call. *)
Definition dialing (d : socks_Dialer) : option wire :=
  match ProxyDial d with Some dial => dial | None => net_Dial end (proxyNetwork d) (proxyAddress d).

Definition to_proxy (d : socks_Dialer) : call :=
  Dials (match ProxyDial d with Some _ => true | None => false end) (proxyNetwork d) (proxyAddress d).

Lemma dial_proxy_eq d t : dial_proxy d t = (dialing d, t ++ [to_proxy d]).
Proof. unfold dial_proxy, dialing, to_proxy. by destruct (ProxyDial d). Qed.

(** The report of an error. *)
Definition reported (d : socks_Dialer) (network address : gostring) (e : OpError) : Prop :=
  e_Op e = Command_String (cmd d) ∧ e_Net e = network ∧
  (∀ proxy dst, to_addr (proxyAddress d) = Some proxy → to_addr address = Some dst →
     e_Source e = Some proxy ∧ e_Addr e = Some dst) ∧
  (to_addr (proxyAddress d) = None ∨ to_addr address = None → e_Source e = None ∧ e_Addr e = None).

Lemma op_error_reported d network address err : reported d network address (op_error d network address err).
Proof.
  split_and!; [done|done|intros p t Hp Ht|intros [H|H]]; unfold op_error, pathAddrs; cbn [e_Source e_Addr].
  - by rewrite Hp, Ht.
  - by rewrite H.
  - rewrite H. by destruct (to_addr (proxyAddress d)).
Qed.

(** C40: a dial through SOCKS makes exactly these calls: none when the network
    is not TCP, the command is unknown or there is no context, and then it
    fails; else one dial of the proxy, by the forwarder when there is one; and
    when the handshake fails the connection, and nothing else, is closed. A
    connection that is returned is the one that was dialed, as the handshake
    left it, and is not closed. An error has the operation, the network, and
    the addresses of the proxy and of the target unless one of them cannot be
    read. *)
Theorem dial_reports d ctx_nil network address :
  match DialContext d ctx_nil network address [] with
  | (Failed e, calls) =>
      reported d network address e ∧
      (is_tcp network = false → e_Err e = ErrNotTcp) ∧
      match e_Err e with
      | ErrNotTcp => is_tcp network = false ∧ calls = []
      | ErrCommand => cmd d ≠ socks_CmdConnect ∧ cmd d ≠ socks_cmdBind ∧ calls = []
      | ErrNilContext => ctx_nil = true ∧ calls = []
      | ErrDial => dialing d = None ∧ calls = [to_proxy d]
      | ErrConnect => ∃ w0 w, dialing d = Some w0 ∧ connect net_ParseIP (d_auth d) address w0 = (None, w) ∧
          calls = [to_proxy d; Closes w]
      end
  | (Dialed a w, calls) =>
      is_tcp network = true ∧ ctx_nil = false ∧ calls = [to_proxy d] ∧
      ∃ w0 bound, a = Some bound ∧ dialing d = Some w0 ∧
        connect net_ParseIP (d_auth d) address w0 = (Some bound, w)
  end.
Proof.
  pose proof (op_error_reported d network address) as He.
  unfold DialContext, mbind, traced_bind, validateTarget. destruct (is_tcp network) eqn:Et; cbn [negb].
  2:{ split; [apply He|done]. }
  destruct (_ || _) eqn:Ec.
  2:{ apply orb_false_iff in Ec as [?%Z.eqb_neq ?%Z.eqb_neq]. by split; [apply He|]. }
  destruct ctx_nil; [split; [apply He|done]|]. rewrite dial_proxy_eq.
  destruct (dialing d) as [w0|] eqn:Ed; [|split; [apply He|done]].
  destruct (connect _ _ _ w0) as [[a|] w] eqn:Ew; cbn.
  - split_and!; [done..|]. by exists w0, a.
  - split; [apply He|]. split; [done|]. by exists w0, w.
Qed.
End dialer.

(** ** At work *)

(** A server that refuses. *)
Definition refusing (_ _ : gostring) : option wire := Some (MkWire (select_method 0 ++ reply_to 5 relay_bound) []).

Definition ex_socks : socks_Dialer := proxy_SOCKS5 (bs "tcp") (bs "127.0.0.1:1080") None (Some refusing).

(** The proxy is dialed by the forwarder, and its connection is closed. *)
Example ex_refused :
  match DialContext no_literal (λ _ _, None) ex_socks false (bs "tcp") (bs "example.org:443") [] with
  | (Failed e, calls) => e_Err e = ErrConnect ∧ Addr_String (λ _, []) (e_Addr e) = bs "example.org:443" ∧
      take 1 calls = [Dials true (bs "tcp") (bs "127.0.0.1:1080")] ∧ length calls = 2%nat
  | _ => False
  end.
Proof. vm_compute. by split_and!. Qed.

(** Nothing is dialed for another network. *)
Example ex_udp :
  match DialContext no_literal (λ _ _, None) ex_socks false (bs "udp") (bs "example.org:443") [] with
  | (Failed e, calls) => e_Err e = ErrNotTcp ∧ calls = []
  | _ => False
  end.
Proof. vm_compute. by split_and!. Qed.
